(* ===== verification/_CoqProject ===== *)
-Q . S2P
Prelude.v
GoStrings.v
Sha256.v
GoTime.v
Rfc3339.v
Domain.v
Money.v
Account.v
Json.v
Codec.v
MemoryStore.v
Effects.v
Services.v
TransferService.v
Password.v
Onboarding.v
Auth.v
Router.v
StoreFacts.v
EventCodec.v
SagaState.v
Evolution.v
SagaFacts.v
Holds.v
Uniqueness.v
Postings.v
Snapshots.v
Requests.v
SagaRun.v
Pools.v
Serving.v
Access.v
Statuses.v
Sample.v
Publishing.v
EventBus.v
Ledger.v
Banking.v
Solvency.v
Sagas.v
SagaProgress.v
Retries.v
Adjustments.v
Reviews.v
Clients.v
Http.v
Replies.v
Database.v
PostgresStore.v
Constraints.v
PostgresSample.v
Concurrent.v
Faults.v
Represents.v
PostgresFacts.v
Refines.v
RefinesReviews.v
RefinesApplications.v
RefinesAdjustments.v
ObjectStore.v
Refinement.v
Programs.v
Commands.v
