(* ===== verification/Prelude.v ===== *)
(** * odtbank: a verification library for the bank's core

    odtbank (src/) is an event-sourced bank in Go: every account is a stream of
    events, services load streams, decide and append, transfers run as sagas that
    a background worker moves from step to step.  This library models the parts of
    the program that decide about money, and who may decide, and proves what they
    promise.  Names follow the source; Go files are named relative to
    src/internal/ below.

    ** The program's parts, and the files that model them

    - domain/*.go: the structs, the [Event] interface, the constants and the
      error values are records, an inductive type and constants in Domain.v;
      [Money] is an [int64] and every operation on it wraps explicitly
      ([+!], [-!], [*!] of this file).
    - domain/money.go, policy/policies.go: Money.v, on the parts of strings,
      strconv and fmt in GoStrings.v.
    - domain/account.go: Account.v (fold, replay, replay from a snapshot).
    - eventstore/memory_store.go: MemoryStore.v.  The struct's maps are finite
      maps; each exported method holds the mutex from its first to its last line,
      so it is one function [arguments -> store -> result * store].  Methods copy
      what they return and no caller changes it, so values stand for the slices
      and structs behind pointers.
    - eventstore/store.go and the store interfaces of domain/: the calls [storeE]
      and the class [BankStore] of Effects.v; [memory_store] and [postgres_store]
      are its instances.
    - eventstore/postgres_store.go and migrations/: Database.v has the tables with
      their constraints and one definition per SQL statement, EventCodec.v the JSON
      of event rows, PostgresStore.v the methods.  A method is a program [pg] of
      steps; a transaction is one step that commits or leaves the tables as they
      were, and so is a statement outside of one.  What is PostgreSQL's own (where a
      statement fails, the precision of timestamptz, jsonb, lower(), the order of
      rows) is the class [Postgres]; the object store is a record of operations.
    - objectstore/minio_store.go: ObjectStore.v, over the methods of the client.
    - eventbus/event_bus.go: EventBus.v.
    - cmd/server, cmd/admin: Commands.v, from the environment to the router.
    - service/*.go, repository/memory_repo.go, seedIfEmpty of cmd/server: programs
      ([prog], a free monad) over calls to the store, clock, random source,
      compliance checker, event bus, wake channel and context, in the order the
      source makes them: Services.v, TransferService.v, Onboarding.v, Password.v,
      Auth.v.  Sha256.v and GoTime.v hold the parts of crypto, encoding/base64 and
      time that they use.
    - httpapi/router.go: Router.v, every handler, guard and route, as programs from
      a request to a reply.  Json.v and Rfc3339.v hold the parts of encoding/json
      and of time's formats in use, Codec.v what the struct tags of domain/ make of
      them.  gorilla/mux, which picks the route of a path, is the class [Mux].

    A call is atomic; between two calls of one request come any calls of others.
    [interp] runs a program alone.  [allowed_step] (Effects.v) is one call of one
    thread of a pool; its closure is what a server can do, crashes included: a
    crashed thread is one that is never scheduled again.  What Go leaves open
    (the order of [range] over a map, of equal elements in [sort.Slice]) is the
    class [GoRuntime] of this file, and theorems hold for all its instances; the
    Unicode case mappings and the grammar of mail addresses are [GoText].

    ** The proofs

    The rely/guarantee predicate [safe] of Effects.v says that a program's calls meet
    their contract and keep an invariant and an evolution of the store whatever the
    others do; its rules carry a worker's knowledge across interference, and
    [safe_extend] adds an invariant that calls under contract keep.  The invariant is [bank_inv]
    (Snapshots.v), the evolution is [evolves] (Evolution.v).  Each part of the
    invariant has a file that shows that every store call keeps it: StoreFacts.v
    (well-formed, append-only streams), SagaState.v and SagaFacts.v (the contract
    of the saga's steps), Holds.v (reserved balances), Uniqueness.v (keys, people,
    reversals), Postings.v (the ledger equation of transfers), Snapshots.v.
    Requests.v and SagaRun.v show the services and the worker safe; Pools.v joins
    them for a pool of requests; Serving.v shows that whatever the router serves is
    put together from such requests, so that a pool may be one of HTTP requests.
    On the side of PostgreSQL, Constraints.v shows that every statement the store
    issues keeps the constraints of the tables ([db_ok]) and never undoes what is
    settled ([db_evolves]); Faults.v that a method a failure stops has changed
    nothing; Concurrent.v interleaves the steps of many clients.  Represents.v says
    when tables hold what an in-memory store holds ([represents]); Refines.v,
    RefinesReviews.v, RefinesApplications.v and RefinesAdjustments.v simulate the
    methods one by one, Refinement.v joins them for histories of calls, Programs.v
    for programs.  PostgresSample.v has a concrete database.
    Access.v has the access policy [may_call] and follows what a request knows of
    its caller; Statuses.v follows the results a request may have.  Sample.v has a
    concrete bank and its runs.

    ** What the theorems show

    - Ledger.v, for every run of the server: the invariant, the types of what is
      stored and the evolution; a
      completed transfer has moved its amount and fee exactly once, a failed one
      nothing; reserved balances are the open holds; one transfer per idempotency
      key; one reversal per movement; optimistic concurrency of [Append].
    - Solvency.v: no account is overdrawn, in runs that stay within 64 bits, post no
      transfer without its hold and make no manual adjustment that names a transfer;
      SagaProgress.v and Solvency.v show runs that do, and overdraw.
    - Publishing.v, EventBus.v: a completed transfer is announced at most once, and
      an announcement reaches every subscriber exactly once.
    - Refinement.v, Programs.v: the PostgreSQL store answers as the in-memory store
      does, and so do the services on it, wherever [pg_pre] holds (what the
      database asks of a call beyond [call_typed]: identities that exist, instants
      of whole microseconds, texts its columns keep) and no statement fails.
    - Concurrent.v, Faults.v, PostgresFacts.v: constraints hold in every run of
      clients of the database; concurrent transfers with one key agree; methods are
      all or nothing; event rows are read back as written; and an image that is
      lost when the answer to a commit is.
    - Commands.v: the server on the in-memory store starts with the demo accounts
      and its admin; the admin command makes an admin who is found at a login.
    - Banking.v: deposits, withdrawals and account queries are linearizable;
      deposits alone, and their overflow; the demo accounts.
    - Sagas.v, SagaProgress.v, Retries.v: idempotent requests, updates and calls;
      conservation of money; backoff; termination of a saga; giving up after five
      attempts; and a crash that strands a transfer.
    - Adjustments.v, Reviews.v: dual control, effects on the ledger, validation;
      and a reversal that is repeated through a manual request.
    - Clients.v, Password.v: validation of applications, age included; onboarding
      and login end to end; sessions; people known once; passwords verify.
    - Http.v, for every run of the server over HTTP: no call and no change of the
      ledger without the right of the session's holder; every request answered,
      with a documented status; a deposit from its body to its reply; transfers
      shown to their own customer only.
    - Replies.v: the events of a reply replay to its balance; a login's cookie and
      the requests it opens; cross-origin headers.
    - Money.v, Account.v: parsing and printing amounts, fees; replays are exact up
      to 64-bit wrap-around, and snapshots do not change them.

    ** Bounds and fuel

    [Run] takes the number of rounds of its endless loop; theorems hold for all.
    [drive] (SagaProgress.v) is the worker's rounds over one transfer; five are
    enough ([saga_terminates]).  [trim_front] has the length of its string as fuel,
    [fmt_digits] twenty digits (an [int64] has nineteen), [Sha256.blocks] one round
    per word, [pbkdf2_loop] one per byte of the key ([pbkdf2SHA256_length]).
    Identifiers drawn from the random source are taken not to be in use already
    ([call_fresh]), and fee policies return an [int64].  Sequence numbers and
    stream lengths are far from the bounds of [int] and are not wrapped; the
    refinement says so ([short_streams]).

    ** Not modelled

    A transaction of PostgreSQL is one step: the interleaving of the statements of
    two transactions is left to the database, which the code makes serial with its
    advisory locks, SELECT FOR UPDATE and unique indexes.  Contexts and their time
    limits are failures.  Of cmd/, the listening socket, the end of the process and
    what is printed; the web front end.  Of HTTP, the step between bytes
    and values is left to net/http, encoding/json and the multipart reader: a body
    is a JSON value (text is taken to be UTF-8, and a time without escapes), a form
    is its two fields.  Times are instants in UTC; monotonic clock readings are left
    out.

    ** Plan

    Next: the interleaving of the statements of transactions under the locks they
    take; a refinement for pools of programs. *)
From stdpp Require Export base tactics option list gmap strings fin_maps sorting.
From Stdlib Require Export ZArith Lia.

(** ** Results and effects *)

(** A Go pair [(T, error)]: the callers of the modelled code read the value
    only when the error is nil, so a call returns one or the other. *)
Inductive result (E A : Type) : Type :=
| Ok (a : A)
| Err (e : E).
Arguments Ok {E A} a.
Arguments Err {E A} e.

#[export] Instance result_eq_dec {E A} `{EqDecision E, EqDecision A} :
  EqDecision (result E A).
Proof. solve_decision. Defined.

#[export] Instance result_ret {E} : MRet (result E) := fun A a => Ok a.
#[export] Instance result_bind {E} : MBind (result E) := fun A B f m =>
  match m with Ok a => f a | Err e => Err e end.
#[export] Instance result_fmap {E} : FMap (result E) := fun A B f m =>
  match m with Ok a => Ok (f a) | Err e => Err e end.

Definition is_Ok {E A} (r : result E A) : bool :=
  match r with Ok _ => true | Err _ => false end.

(** ** Machine integers *)

(** Two's complement wrap-around of Go's [int64] (and of [int], which is 64
    bits wide on the platforms the program is built for). *)
Definition MaxInt64 : Z := 2 ^ 63 - 1.
Definition MinInt64 : Z := - 2 ^ 63.
Definition int64_wrap (z : Z) : Z := (z + 2 ^ 63) `mod` 2 ^ 64 - 2 ^ 63.
Definition int64_ok (z : Z) : Prop := (MinInt64 ≤ z ≤ MaxInt64)%Z.

#[export] Instance int64_ok_dec z : Decision (int64_ok z).
Proof. unfold int64_ok. apply _. Defined.

Declare Scope go_scope.
Delimit Scope go_scope with go.
(** The arithmetic operators of the source, on [int64]. *)
Notation "a +! b" := (int64_wrap (a + b)%Z) (at level 50, left associativity) : go_scope.
Notation "a -! b" := (int64_wrap (a - b)%Z) (at level 50, left associativity) : go_scope.
Notation "a *! b" := (int64_wrap (a * b)%Z) (at level 40, left associativity) : go_scope.
Notation "-! a" := (int64_wrap (- a)%Z) (at level 35, right associativity) : go_scope.
Open Scope go_scope.

Create HintDb int64 discriminated.
Create Rewrite HintDb int64.

Section Int64.
Local Open Scope Z_scope.

Lemma int64_wrap_ok z : int64_ok (int64_wrap z).
Proof.
  unfold int64_ok, int64_wrap, MinInt64, MaxInt64.
  pose proof (Z.mod_pos_bound (z + 2 ^ 63) (2 ^ 64)). lia.
Qed.

Lemma int64_wrap_id z : int64_ok z → int64_wrap z = z.
Proof.
  unfold int64_ok, int64_wrap, MinInt64, MaxInt64. intros H.
  rewrite Z.mod_small; lia.
Qed.

Lemma int64_wrap_congr a b : a `mod` 2 ^ 64 = b `mod` 2 ^ 64 → int64_wrap a = int64_wrap b.
Proof.
  intros H. unfold int64_wrap.
  rewrite (Z.add_mod a), (Z.add_mod b), H by lia. done.
Qed.

Lemma int64_wrap_mod z : int64_wrap z `mod` 2 ^ 64 = z `mod` 2 ^ 64.
Proof.
  unfold int64_wrap. rewrite Zminus_mod, Z.mod_mod, <-Zminus_mod by lia.
  f_equal. lia.
Qed.

Lemma int64_wrap_add_l a b : int64_wrap (int64_wrap a + b) = int64_wrap (a + b).
Proof.
  apply int64_wrap_congr. by rewrite Z.add_mod, int64_wrap_mod, <-Z.add_mod by lia.
Qed.

Lemma int64_wrap_add_r a b : int64_wrap (a + int64_wrap b) = int64_wrap (a + b).
Proof. by rewrite Z.add_comm, int64_wrap_add_l, Z.add_comm. Qed.

Lemma int64_wrap_sub_l a b : int64_wrap (int64_wrap a - b) = int64_wrap (a - b).
Proof. rewrite <-!Z.add_opp_r. apply int64_wrap_add_l. Qed.

Lemma int64_wrap_sub_r a b : int64_wrap (a - int64_wrap b) = int64_wrap (a - b).
Proof.
  apply int64_wrap_congr. by rewrite Zminus_mod, int64_wrap_mod, <-Zminus_mod by lia.
Qed.

Lemma int64_wrap_wrap a : int64_wrap (int64_wrap a) = int64_wrap a.
Proof. apply int64_wrap_id, int64_wrap_ok. Qed.
End Int64.

#[export] Hint Resolve int64_wrap_ok : int64.
#[export] Hint Rewrite int64_wrap_add_l int64_wrap_add_r int64_wrap_sub_l
  int64_wrap_sub_r int64_wrap_wrap : int64.

(** Drops the inner wraps of nested [int64] arithmetic and compares the
    arguments of what is left. *)
Ltac wrap_solve := autorewrite with int64; try (f_equal; lia).
(** Drops a wrap whose argument [lia] shows to be in range. *)
Ltac wrap_exact :=
  repeat match goal with
  | |- context [int64_wrap ?z] =>
      rewrite (int64_wrap_id z) by (unfold int64_ok, MinInt64, MaxInt64 in *; lia)
  | H : context [int64_wrap ?z] |- _ =>
      rewrite (int64_wrap_id z) in H by (unfold int64_ok, MinInt64, MaxInt64 in *; lia)
  end.

(** ** Unspecified choices of the Go runtime *)

(** Go leaves two things open that the modelled code observes: the order in
    which [range] visits a map, and the order [sort.Slice] gives to elements
    that compare equal.  Every definition that depends on them takes a
    [GoRuntime]; theorems hold for all of them. *)
Definition weak_order {A} (less : A → A → bool) : Prop :=
  (∀ x, less x x = false) ∧
  (∀ x y z, less x y = true → less y z = true → less x z = true) ∧
  (∀ x y z, less x y = false → less y z = false → less x z = false).

Class GoRuntime := {
  range_map : ∀ {V : Type}, gmap string V → list (string * V);
  range_map_perm : ∀ {V : Type} (m : gmap string V), range_map m ≡ₚ map_to_list m;
  sort_slice : ∀ {A : Type}, (A → A → bool) → list A → list A;
  sort_slice_perm : ∀ {A : Type} (less : A → A → bool) l, sort_slice less l ≡ₚ l;
  sort_slice_sorted : ∀ {A : Type} (less : A → A → bool) l,
    weak_order less → StronglySorted (λ x y, less y x = false) (sort_slice less l);
}.

(** The sort keys of the program are instants and names. *)
Lemma weak_order_ltb {A} (key : A → Z) : weak_order (λ a b, (key a <? key b)%Z).
Proof.
  unfold weak_order. split_and!.
  - intros x. apply Z.ltb_irrefl.
  - intros x y z. rewrite !Z.ltb_lt. lia.
  - intros x y z. rewrite !Z.ltb_ge. lia.
Qed.

Lemma StronglySorted_implies {A} (R R' : A → A → Prop) l :
  (∀ x y, R x y → R' x y) → StronglySorted R l → StronglySorted R' l.
Proof.
  intros HR. induction 1 as [|x l _ IH Hx]; constructor; [done|]. eapply Forall_impl; [exact Hx|auto].
Qed.

(** One such runtime, for concrete runs. *)
Fixpoint insert_sorted {A} (less : A → A → bool) (x : A) (l : list A) : list A :=
  match l with
  | [] => [x]
  | y :: l' => if less y x then y :: insert_sorted less x l' else x :: l
  end.
Definition insertion_sort {A} (less : A → A → bool) (l : list A) : list A :=
  foldr (insert_sorted less) [] l.

Lemma insert_sorted_perm {A} (less : A → A → bool) x l : insert_sorted less x l ≡ₚ x :: l.
Proof.
  induction l as [|y l IH]; simpl; [done|].
  destruct (less y x); [|done]. rewrite IH. apply perm_swap.
Qed.

Lemma insertion_sort_perm {A} (less : A → A → bool) l : insertion_sort less l ≡ₚ l.
Proof. induction l as [|x l IH]; simpl; [done|]. by rewrite insert_sorted_perm, IH. Qed.

Lemma insert_sorted_sorted {A} (less : A → A → bool) x l :
  weak_order less →
  StronglySorted (λ x y, less y x = false) l →
  StronglySorted (λ x y, less y x = false) (insert_sorted less x l).
Proof.
  intros (Hirr & Htrans & Hneg). induction l as [|y l IH]; simpl; intros Hl.
  - repeat constructor.
  - inversion_clear Hl as [|?? Hl' Hy]. destruct (less y x) eqn:E.
    + constructor; [by apply IH|]. rewrite insert_sorted_perm. constructor; [|done].
      destruct (less x y) eqn:E'; [|done].
      specialize (Hirr y). by rewrite (Htrans _ _ _ E E') in Hirr.
    + constructor; [by constructor|]. constructor; [done|].
      eapply Forall_impl; [exact Hy|]. intros z Hz. by apply (Hneg z y x).
Qed.

Lemma insertion_sort_sorted {A} (less : A → A → bool) l :
  weak_order less → StronglySorted (λ x y, less y x = false) (insertion_sort less l).
Proof.
  intros Hw. induction l as [|x l IH]; simpl; [constructor|]. by apply insert_sorted_sorted.
Qed.

Definition reference_runtime : GoRuntime := {|
  range_map := λ V m, map_to_list m;
  range_map_perm := λ V m, reflexivity _;
  sort_slice := @insertion_sort;
  sort_slice_perm := @insertion_sort_perm;
  sort_slice_sorted := @insertion_sort_sorted;
|}.

(** ** Loops over maps *)

(** [for k, v := range m { if p(v) { return k, v } }]. *)
Definition range_find `{GoRuntime} {V} (p : V → bool) (m : gmap string V) : option (string * V) :=
  List.find (λ kv, p kv.2) (range_map m).

Section Range.
Context `{GoRuntime} {V : Type}.
Implicit Types (m : gmap string V) (p : V → bool).

Lemma elem_of_range_map m k v : (k, v) ∈ range_map m ↔ m !! k = Some v.
Proof. by rewrite range_map_perm, elem_of_map_to_list. Qed.

Lemma range_find_Some p m k v :
  range_find p m = Some (k, v) → m !! k = Some v ∧ p v = true.
Proof.
  intros Hf. apply List.find_some in Hf as [Hin Hp].
  split; [|done]. by apply elem_of_range_map, list_elem_of_In.
Qed.

Lemma range_find_None p m :
  range_find p m = None ↔ ∀ k v, m !! k = Some v → p v = false.
Proof.
  unfold range_find. split.
  - intros Hf k v Hk. apply (List.find_none _ _ Hf (k, v)).
    by apply list_elem_of_In, elem_of_range_map.
  - intros Hp. destruct (List.find _ _) as [[k v]|] eqn:E; [|done].
    apply range_find_Some in E as [Hk Hv]. by rewrite (Hp _ _ Hk) in Hv.
Qed.

Lemma range_find_is_Some p m :
  (∃ k v, m !! k = Some v ∧ p v = true) → is_Some (range_find p m).
Proof.
  intros (k & v & Hk & Hp). destruct (range_find p m) eqn:E; [done|].
  rewrite range_find_None in E. specialize (E _ _ Hk). congruence.
Qed.

(** A search whose predicate at most one entry satisfies does not depend on
    the iteration order. *)
Lemma range_find_unique p m k v :
  m !! k = Some v → p v = true →
  (∀ k' v', m !! k' = Some v' → p v' = true → k' = k) →
  range_find p m = Some (k, v).
Proof.
  intros Hk Hp Hu. destruct (range_find_is_Some p m) as [[k' v'] E]; [eauto|].
  rewrite E. apply range_find_Some in E as [Hk' Hp'].
  assert (k' = k) as -> by eauto. congruence.
Qed.
End Range.

(** ** Proof automation *)

(** Case analysis on the first match or conditional of the goal, or of [H]. *)
Ltac case_goal :=
  match goal with
  | |- context [match ?x with _ => _ end] => destruct x eqn:?
  end.
Ltac case_hyp H :=
  match type of H with
  | context [match ?x with _ => _ end] => destruct x eqn:?
  end.
Ltac boolify := repeat match goal with
  | H : _ && _ = true |- _ => apply andb_prop in H as [? ?]
  | H : _ || _ = false |- _ => apply orb_false_elim in H as [? ?]
  | H : bool_decide _ = true |- _ => apply bool_decide_eq_true_1 in H
  | H : bool_decide _ = false |- _ => apply bool_decide_eq_false_1 in H
  | H : negb _ = true |- _ => apply negb_true_iff in H
  | H : negb _ = false |- _ => apply negb_false_iff in H
  end.

(** A property of each element, by position. *)
Lemma Forall_nth_lt {A} (P : A → Prop) (d : A) l :
  (∀ i, (i < length l)%nat → P (nth i l d)) → Forall P l.
Proof.
  intros H. apply Forall_lookup. intros i x Hi. specialize (H i (lookup_lt_Some _ _ _ Hi)).
  by rewrite nth_lookup, Hi in H.
Qed.

(** Membership in a list of known elements. *)
Ltac in_list := rewrite !elem_of_cons; tauto.

(** ** Sums over maps *)

Definition sum_map {V} (f : V → Z) (m : gmap string V) : Z :=
  map_fold (λ _ v acc, f v + acc)%Z 0%Z m.

Section Sums.
Local Open Scope Z_scope.
Context {V : Type} (f : V → Z).
Implicit Types m : gmap string V.

Lemma sum_map_empty : sum_map f ∅ = 0.
Proof. apply map_fold_empty. Qed.

Lemma sum_map_insert m k v : m !! k = None → sum_map f (<[k := v]> m) = f v + sum_map f m.
Proof. intros Hk. unfold sum_map. rewrite map_fold_insert_L; [done|intros; lia|done]. Qed.

Lemma sum_map_update m k v v' :
  m !! k = Some v → sum_map f (<[k := v']> m) = sum_map f m - f v + f v'.
Proof.
  intros Hk. rewrite <-(insert_delete_id m k v Hk) at 2.
  rewrite <-(insert_delete_eq m k v'), !sum_map_insert by apply lookup_delete_eq. lia.
Qed.

Lemma sum_map_nonneg m : map_Forall (λ _ v, 0 ≤ f v) m → 0 ≤ sum_map f m.
Proof.
  induction m as [|k v m Hk IH] using map_ind; intros Hm; [by rewrite sum_map_empty|].
  rewrite sum_map_insert by done. apply map_Forall_insert in Hm as [??]; [|done].
  specialize (IH H0). lia.
Qed.
End Sums.
