(* ===== verification/GoStrings.v ===== *)
(** * The parts of Go's [strings], [strconv], [fmt] and [encoding/hex] the
    program uses.

    A Go string is a sequence of bytes: here a [string] of the Standard
    Library, whose [ascii] characters are bytes and whose [String.length] is
    Go's [len].  The functions are translated from their documentation in the
    Go standard library; [TrimSpace] works on the UTF-8 encodings of the
    Unicode white-space characters, as Go's does. *)
From S2P Require Export Prelude.
From Stdlib Require Export Ascii.
From Stdlib Require String.

Open Scope Z_scope.


(** Go's [len(s)]. *)
Definition slen (s : string) : Z := Z.of_nat (String.length s).

(** ** strings.TrimSpace *)

Definition bytes (l : list nat) : list ascii := ascii_of_nat <$> l.

(** The encodings of the code points with Unicode's White_Space property. *)
Definition space_encodings : list (list ascii) :=
  (bytes <$> [[9]; [10]; [11]; [12]; [13]; [32]; [194; 133]; [194; 160];
              [225; 154; 128]; [226; 128; 168]; [226; 128; 169]; [226; 128; 175];
              [226; 129; 159]; [227; 128; 128]])%nat ++
  ((λ n, bytes [226; 128; n]) <$> seq 128 11)%nat.

(** The rest of [l] after the prefix [p]. *)
Fixpoint strip_prefix (p l : list ascii) : option (list ascii) :=
  match p, l with
  | [], _ => Some l
  | a :: p', b :: l' => if Ascii.eqb a b then strip_prefix p' l' else None
  | _ :: _, [] => None
  end.

Fixpoint strip_any (ps : list (list ascii)) (l : list ascii) : option (list ascii) :=
  match ps with
  | [] => None
  | p :: ps' => match strip_prefix p l with Some r => Some r | None => strip_any ps' l end
  end.

(** Drops leading white space; every round drops at least one byte, so
    [length l] rounds are enough. *)
Fixpoint trim_front (fuel : nat) (ps : list (list ascii)) (l : list ascii) : list ascii :=
  match fuel with
  | O => l
  | S fuel' => match strip_any ps l with Some r => trim_front fuel' ps r | None => l end
  end.

Definition trim_left (l : list ascii) : list ascii :=
  trim_front (length l) space_encodings l.
Definition trim_right (l : list ascii) : list ascii :=
  rev (trim_front (length l) (map (@rev ascii) space_encodings) (rev l)).

Definition TrimSpace (s : string) : string :=
  String.string_of_list_ascii (trim_right (trim_left (String.list_ascii_of_string s))).

(** ** strings.Split, strings.HasPrefix, strings.ContainsAny *)

(** [strings.Split(s, sep)] for a separator of one byte; never empty. *)
Fixpoint Split (sep : ascii) (s : string) : list string :=
  match s with
  | EmptyString => [EmptyString]
  | String c s' =>
      if Ascii.eqb c sep then EmptyString :: Split sep s'
      else match Split sep s' with
           | p :: ps => String c p :: ps
           | [] => [String c EmptyString]
           end
  end.

Fixpoint ContainsAny (s : string) (chars : list ascii) : bool :=
  match s with
  | EmptyString => false
  | String c s' => existsb (Ascii.eqb c) chars || ContainsAny s' chars
  end.

(** ** strconv.ParseInt(s, 10, 64) *)

Definition digit_val (c : ascii) : option Z :=
  let n := Z.of_nat (nat_of_ascii c) in
  if (48 <=? n) && (n <=? 57) then Some (n - 48) else None.

Fixpoint parse_digits (s : string) (acc : Z) : option Z :=
  match s with
  | EmptyString => Some acc
  | String c s' => match digit_val c with
                   | Some d => parse_digits s' (acc * 10 + d)
                   | None => None
                   end
  end.

(** Some digits, the first one required. *)
Definition parse_magnitude (s : string) : option Z :=
  match s with EmptyString => None | _ => parse_digits s 0 end.

(** None for a syntax or a range error: the program does not tell them apart. *)
Definition ParseInt (s : string) : option Z :=
  match s with
  | String "+" s' =>
      n ← parse_magnitude s'; if n <=? MaxInt64 then Some n else None
  | String "-" s' =>
      n ← parse_magnitude s'; if n <=? MaxInt64 + 1 then Some (- n) else None
  | _ => n ← parse_magnitude s; if n <=? MaxInt64 then Some n else None
  end.

(** ** fmt: the verbs %d and %02d *)

Definition digit_char (d : Z) : ascii := ascii_of_nat (Z.to_nat (48 + d)).

(** The decimal digits of [n] before [acc]. *)
Fixpoint fmt_digits (fuel : nat) (n : Z) (acc : string) : string :=
  match fuel with
  | O => acc
  | S fuel' =>
      let acc' := String (digit_char (n `mod` 10)) acc in
      if n <? 10 then acc' else fmt_digits fuel' (n / 10) acc'
  end.

(** A number below 10^20 has at most 20 digits; [MaxInt64] has 19. *)
Definition fmt_nonneg (n : Z) : string := fmt_digits 20 n EmptyString.
Definition fmt_d (n : Z) : string :=
  if n <? 0 then String "-" (fmt_nonneg (- n)) else fmt_nonneg n.

(** [%02d]: zeros up to width two, the sign counting towards the width. *)
Definition fmt_02d (n : Z) : string :=
  if n <? 0 then fmt_d n
  else if n <? 10 then String "0" (fmt_nonneg n) else fmt_nonneg n.

(** ** encoding/hex *)

Definition hex_digit (n : nat) : ascii :=
  ascii_of_nat (if (n <? 10)%nat then 48 + n else 87 + n)%nat.
(** [hex.EncodeToString]; a byte is an [ascii]. *)
Fixpoint EncodeToString (bs : list ascii) : string :=
  match bs with
  | [] => EmptyString
  | b :: bs' => String (hex_digit (nat_of_ascii b / 16))
                  (String (hex_digit (nat_of_ascii b mod 16)) (EncodeToString bs'))
  end.

(** ** strings.ToLower, strings.ToUpper and mail.ParseAddress *)

Definition is_ascii (c : ascii) : bool := (nat_of_ascii c <? 128)%nat.
Fixpoint map_string (f : ascii → ascii) (s : string) : string :=
  match s with EmptyString => EmptyString | String c s' => String (f c) (map_string f s') end.
Definition ascii_lower (c : ascii) : ascii :=
  let n := nat_of_ascii c in if ((65 <=? n) && (n <=? 90))%nat then ascii_of_nat (n + 32) else c.
Definition ascii_upper (c : ascii) : ascii :=
  let n := nat_of_ascii c in if ((97 <=? n) && (n <=? 122))%nat then ascii_of_nat (n - 32) else c.

(** The functions that depend on the Unicode tables and on the grammar of mail
    addresses.  On ASCII text the case mappings are the usual ones; nothing is
    assumed of [ParseAddress], which tells whether the address parses. *)
Class GoText := {
  ToLower : string → string;
  ToUpper : string → string;
  ParseAddress : string → bool;
  ToLower_ascii : ∀ s, forallb is_ascii (String.list_ascii_of_string s) = true →
    ToLower s = map_string ascii_lower s;
  ToUpper_ascii : ∀ s, forallb is_ascii (String.list_ascii_of_string s) = true →
    ToUpper s = map_string ascii_upper s;
}.

(** An instance for concrete runs: ASCII only, and an address needs an at sign. *)
#[refine] Definition ascii_text : GoText := {|
  ToLower := map_string ascii_lower;
  ToUpper := map_string ascii_upper;
  ParseAddress s := ContainsAny s ["@"%char];
|}.
Proof. all: done. Defined.

(** ** Facts: splitting *)

(** [sep] does not occur in the string. *)
Fixpoint lacks (sep : ascii) (s : string) : bool :=
  match s with
  | EmptyString => true
  | String c s' => negb (Ascii.eqb c sep) && lacks sep s'
  end.

Lemma Split_lacks sep w : lacks sep w = true → Split sep w = [w].
Proof.
  induction w as [|c w IH]; simpl; [done|]. intros [Hc%negb_true_iff Hw]%andb_prop.
  by rewrite Hc, IH.
Qed.

Lemma Split_sep sep w t :
  lacks sep w = true → Split sep (w +:+ String sep t) = w :: Split sep t.
Proof.
  induction w as [|c w IH]; simpl.
  - change ("" +:+ String sep t) with (String sep t). simpl. by rewrite Ascii.eqb_refl.
  - change (String c w +:+ String sep t) with (String c (w +:+ String sep t)). simpl.
    intros [Hc%negb_true_iff Hw]%andb_prop. by rewrite Hc, IH.
Qed.

(** ** Facts: white space *)

Section Trim.
Implicit Types (p l r : list ascii) (ps : list (list ascii)).

Lemma strip_prefix_Some p l r : strip_prefix p l = Some r ↔ l = p ++ r.
Proof.
  revert l. induction p as [|a p IH]; intros l; simpl.
  - split; congruence.
  - destruct l as [|b l]; [split; congruence|].
    destruct (Ascii.eqb a b) eqn:E.
    + apply Ascii.eqb_eq in E as ->. rewrite IH. split; [by intros ->|by intros [= ->]].
    + apply Ascii.eqb_neq in E. split; congruence.
Qed.

Lemma strip_any_None ps l :
  strip_any ps l = None ↔ ∀ p r, p ∈ ps → l ≠ p ++ r.
Proof.
  induction ps as [|q ps IH]; simpl.
  - split; [|done]. intros _ p r Hp. by apply elem_of_nil in Hp.
  - destruct (strip_prefix q l) as [r|] eqn:E.
    + apply strip_prefix_Some in E. split; [done|]. intros H.
      by destruct (H q r); [left|].
    + rewrite IH. split.
      * intros H p r [->|Hp]%elem_of_cons; [|by apply H].
        intros Hl. apply strip_prefix_Some in Hl. congruence.
      * intros H p r Hp. apply H. by right.
Qed.

Lemma strip_any_Some ps l r :
  strip_any ps l = Some r → ∃ p, p ∈ ps ∧ l = p ++ r.
Proof.
  induction ps as [|q ps IH]; simpl; [done|].
  destruct (strip_prefix q l) as [r'|] eqn:E.
  - intros [= <-]. exists q. split; [by left|]. by apply strip_prefix_Some.
  - intros (p & Hp & Hl)%IH. exists p. split; [by right|done].
Qed.

(** Enough rounds leave no white space in front; what is left is an end of
    the input. *)
Lemma trim_front_spec ps fuel l :
  (∀ p, p ∈ ps → p ≠ []) → (length l ≤ fuel)%nat →
  strip_any ps (trim_front fuel ps l) = None ∧ ∃ q, l = q ++ trim_front fuel ps l.
Proof.
  intros Hne. revert l. induction fuel as [|fuel IH]; intros l Hl; simpl.
  - destruct l; [|simpl in Hl; lia]. split; [|by exists []].
    apply strip_any_None. intros p r Hp. destruct p; [by destruct (Hne _ Hp)|done].
  - destruct (strip_any ps l) as [r|] eqn:E; [|split; [done|by exists []]].
    apply strip_any_Some in E as (p & Hp & ->). pose proof (Hne p Hp).
    rewrite length_app in Hl. destruct p as [|a p]; [done|]. simpl in Hl.
    destruct (IH r) as [Hnone [q Hq]]; [lia|]. split; [done|].
    exists ((a :: p) ++ q). by rewrite <-app_assoc, <-Hq.
Qed.

Lemma trim_front_id ps fuel l : strip_any ps l = None → trim_front fuel ps l = l.
Proof. intros H. destruct fuel; simpl; [done|]. by rewrite H. Qed.

Lemma space_encodings_nonempty p : p ∈ space_encodings → p ≠ [].
Proof.
  intros Hp ->. revert Hp. change (¬ [] ∈ space_encodings).
  apply (bool_decide_eq_false_1 ([] ∈ space_encodings)). vm_compute. done.
Qed.

Lemma rev_space_encodings_nonempty p : p ∈ map (@rev ascii) space_encodings → p ≠ [].
Proof.
  intros (q & -> & Hq)%list_elem_of_fmap Hrev.
  apply (space_encodings_nonempty q Hq). apply (f_equal (@rev ascii)) in Hrev.
  by rewrite rev_involutive in Hrev.
Qed.

(** A prefix of a string without leading white space has none either. *)
Lemma strip_any_None_prefix ps l r : strip_any ps (l ++ r) = None → strip_any ps l = None.
Proof.
  rewrite !strip_any_None. intros H p q Hp ->. apply (H p (q ++ r) Hp). by rewrite app_assoc.
Qed.

Lemma trim_right_prefix l : ∃ q, l = trim_right l ++ q.
Proof.
  unfold trim_right.
  destruct (trim_front_spec (map (@rev ascii) space_encodings) (length l) (rev l))
    as [_ [q Hq]]; [apply rev_space_encodings_nonempty|by rewrite length_rev|].
  exists (rev q). apply (f_equal (@rev ascii)) in Hq.
  by rewrite rev_involutive, rev_app_distr in Hq.
Qed.

Lemma trim_left_None l : strip_any space_encodings (trim_left l) = None.
Proof. apply trim_front_spec; [apply space_encodings_nonempty|done]. Qed.

Lemma trim_right_None l :
  strip_any (map (@rev ascii) space_encodings) (rev (trim_right l)) = None.
Proof.
  unfold trim_right. rewrite rev_involutive.
  apply trim_front_spec; [apply rev_space_encodings_nonempty|by rewrite length_rev].
Qed.

(** What [TrimSpace] leaves unchanged: no white space at either end. *)
Lemma trim_id l :
  strip_any space_encodings l = None →
  strip_any (map (@rev ascii) space_encodings) (rev l) = None →
  trim_right (trim_left l) = l.
Proof.
  intros Hl Hr. unfold trim_left. rewrite trim_front_id by done.
  unfold trim_right. rewrite trim_front_id by done. apply rev_involutive.
Qed.

Lemma TrimSpace_idemp s : TrimSpace (TrimSpace s) = TrimSpace s.
Proof.
  unfold TrimSpace. rewrite String.list_ascii_of_string_of_list_ascii. f_equal.
  apply trim_id; [|apply trim_right_None].
  destruct (trim_right_prefix (trim_left (String.list_ascii_of_string s))) as [q Hq].
  apply (strip_any_None_prefix _ _ q). rewrite <-Hq. apply trim_left_None.
Qed.

(** No encoding in [ps] starts with [c]. *)
Definition no_start (ps : list (list ascii)) (c : ascii) : bool :=
  forallb (λ p, match p with a :: _ => negb (Ascii.eqb a c) | [] => false end) ps.
(** No encoding of a white-space character starts or ends with [c]. *)
Definition plain_char (c : ascii) : bool :=
  no_start space_encodings c && no_start (map (@rev ascii) space_encodings) c.

Lemma strip_any_plain ps c l : no_start ps c = true → strip_any ps (c :: l) = None.
Proof.
  unfold no_start. induction ps as [|[|a p] ps IH]; simpl; [done..|].
  intros [Ha Hps]%andb_prop. apply negb_true_iff in Ha. rewrite Ha. by apply IH.
Qed.

Lemma trim_plain l : forallb plain_char l = true → trim_right (trim_left l) = l.
Proof.
  intros Hl. rewrite forallb_forall in Hl. apply trim_id.
  - destruct l as [|c l]; [done|]. apply strip_any_plain.
    destruct (andb_prop _ _ (Hl c (or_introl eq_refl))); done.
  - destruct (rev l) as [|c r] eqn:E; [done|]. apply strip_any_plain.
    assert (List.In c l) as Hc by (apply in_rev; rewrite E; by left).
    destruct (andb_prop _ _ (Hl c Hc)); done.
Qed.
End Trim.

(** ** Facts: decimal digits *)

Lemma digit_char_val d : 0 ≤ d < 10 → digit_val (digit_char d) = Some d.
Proof.
  intros Hd.
  assert (d = 0 ∨ d = 1 ∨ d = 2 ∨ d = 3 ∨ d = 4 ∨ d = 5 ∨ d = 6 ∨ d = 7 ∨ d = 8 ∨ d = 9)
    as Hc by lia.
  by repeat destruct Hc as [->|Hc]; [..|subst].
Qed.

(** The characters of printed amounts are not white space. *)
Lemma digit_plain c : is_Some (digit_val c) → plain_char c = true.
Proof.
  destruct c as [[] [] [] [] [] [] [] []]; vm_compute; first [done | by intros []].
Qed.

(** ** Order *)

(** [sort.Strings] compares byte-wise. *)
Lemma ascii_compare_lt a b : Ascii.compare a b = Lt ↔ (Ascii.N_of_ascii a < Ascii.N_of_ascii b)%N.
Proof. unfold Ascii.compare. apply N.compare_lt_iff. Qed.

Lemma string_lt_trans x y z :
  String.compare x y = Lt → String.compare y z = Lt → String.compare x z = Lt.
Proof.
  revert y z. induction x as [|a x IH]; intros [|b y] [|c z]; simpl; try done.
  destruct (Ascii.compare a b) eqn:Eab; try done; destruct (Ascii.compare b c) eqn:Ebc; try done;
    intros H1 H2.
  - apply Ascii.compare_eq_iff in Eab, Ebc. subst.
    replace (Ascii.compare c c) with Eq by (unfold Ascii.compare; by rewrite N.compare_refl). eauto.
  - apply Ascii.compare_eq_iff in Eab. subst. by rewrite Ebc.
  - apply Ascii.compare_eq_iff in Ebc. subst. by rewrite Eab.
  - rewrite (proj2 (ascii_compare_lt a c)); [done|].
    apply ascii_compare_lt in Eab. apply ascii_compare_lt in Ebc. by eapply N.lt_trans.
Qed.

Lemma ltb_weak_order : weak_order String.ltb.
Proof.
  assert (∀ x, String.compare x x = Eq) as Hrefl.
  { intros x. pose proof (String.compare_antisym x x) as H.
    by destruct (String.compare x x). }
  unfold weak_order, String.ltb. split_and!.
  - intros x. by rewrite Hrefl.
  - intros x y z. destruct (String.compare x y) eqn:E1; try done.
    destruct (String.compare y z) eqn:E2; try done. by rewrite (string_lt_trans x y z).
  - intros x y z Hxy Hyz. destruct (String.compare x z) eqn:E; try done.
    destruct (String.compare y x) eqn:E1; rewrite String.compare_antisym, E1 in Hxy; try done; simpl in *.
    + apply String.compare_eq_iff in E1. subst. by rewrite E in Hyz.
    + by rewrite (string_lt_trans y x z) in Hyz.
Qed.
