(* ===== verification/Sha256.v ===== *)
(** * The parts of Go's crypto/sha256, crypto/hmac and encoding/base64 the
    program uses.

    SHA-256 is FIPS 180-4, HMAC is RFC 2104 and base64 is RFC 4648 without
    padding; 32-bit words are integers with their wrap-around written out, and a
    byte is an [ascii]. *)
From S2P Require Export GoStrings.

(** ** Bytes and words *)

Definition byte_val (c : ascii) : Z := Z.of_nat (nat_of_ascii c).
Definition val_byte (z : Z) : ascii := ascii_of_nat (Z.to_nat (z `mod` 256)).

Definition word (z : Z) : Z := z `mod` 2 ^ 32.
Definition rotr (n x : Z) : Z := Z.lor (Z.shiftr x n) (word (Z.shiftl x (32 - n))).

(** Big-endian bytes of a 32-bit word. *)
Definition word_bytes (x : Z) : list ascii :=
  [val_byte (Z.shiftr x 24); val_byte (Z.shiftr x 16); val_byte (Z.shiftr x 8); val_byte x].

(** The words of a list of bytes. *)
Fixpoint words (bs : list ascii) : list Z :=
  match bs with
  | a :: b :: c :: d :: bs' =>
      (byte_val a * 2 ^ 24 + byte_val b * 2 ^ 16 + byte_val c * 2 ^ 8 + byte_val d) :: words bs'
  | _ => []
  end.

(** ** crypto/sha256 *)
Module Sha256.

Record digest := mkDigest { h0 : Z; h1 : Z; h2 : Z; h3 : Z; h4 : Z; h5 : Z; h6 : Z; h7 : Z }.

(** The constants are the first 32 bits of the fractional parts of the square
    and cube roots of the first primes. *)
Definition is_prime (n : Z) : bool :=
  forallb (λ d, negb (n `mod` d =? 0)) (Z.of_nat <$> seq 2 (Z.to_nat (n - 2))).
Definition primes : list Z := Eval vm_compute in
  base.filter (λ n, is_prime n = true) (Z.of_nat <$> seq 2 310).

(** The integer below the cube root of [n], bit by bit from [2 ^ bits]. *)
Fixpoint cube_root_bits (bits : nat) (r n : Z) : Z :=
  let r' := r + 2 ^ Z.of_nat bits in
  let best := if r' * (r' * r') <=? n then r' else r in
  match bits with O => best | S bits' => cube_root_bits bits' best n end.

Definition square_fraction (p : Z) : Z := word (Z.sqrt (p * 2 ^ 64)).
Definition cube_fraction (p : Z) : Z := word (cube_root_bits 40 0 (p * 2 ^ 96)).

Definition round_constants : list Z := Eval vm_compute in cube_fraction <$> take 64 primes.

Definition initial : digest := Eval vm_compute in
  match square_fraction <$> take 8 primes with
  | [a; b; c; d; e; f; g; h] => mkDigest a b c d e f g h
  | _ => mkDigest 0 0 0 0 0 0 0 0
  end.

Definition round (k w : Z) (s : digest) : digest :=
  let 'mkDigest a b c d e f g h := s in
  let S1 := Z.lxor (Z.lxor (rotr 6 e) (rotr 11 e)) (rotr 25 e) in
  let ch := Z.lxor (Z.land e f) (Z.land (2 ^ 32 - 1 - e) g) in
  let t1 := word (h + S1 + ch + k + w) in
  let S0 := Z.lxor (Z.lxor (rotr 2 a) (rotr 13 a)) (rotr 22 a) in
  let maj := Z.lxor (Z.lxor (Z.land a b) (Z.land a c)) (Z.land b c) in
  mkDigest (word (t1 + word (S0 + maj))) a b c (word (d + t1)) e f g.

(** The rounds of one block: [w] holds the next sixteen words of its schedule. *)
Fixpoint rounds (ks w : list Z) (s : digest) : digest :=
  match ks with
  | [] => s
  | k :: ks' =>
      let at_ n := nth n w 0 in
      let s0 := Z.lxor (Z.lxor (rotr 7 (at_ 1%nat)) (rotr 18 (at_ 1%nat))) (Z.shiftr (at_ 1%nat) 3) in
      let s1 := Z.lxor (Z.lxor (rotr 17 (at_ 14%nat)) (rotr 19 (at_ 14%nat))) (Z.shiftr (at_ 14%nat) 10) in
      rounds ks' (tail w ++ [word (at_ 0%nat + s0 + at_ 9%nat + s1)]) (round k (at_ 0%nat) s)
  end.

Definition add (s t : digest) : digest :=
  mkDigest (word (h0 s + h0 t)) (word (h1 s + h1 t)) (word (h2 s + h2 t)) (word (h3 s + h3 t))
           (word (h4 s + h4 t)) (word (h5 s + h5 t)) (word (h6 s + h6 t)) (word (h7 s + h7 t)).

(** The message with a one bit, zeros up to 56 bytes of the last block, and its
    length in bits. *)
Definition padded (m : list ascii) : list ascii :=
  let n := Z.of_nat (length m) in
  m ++ [val_byte 128] ++ repeat (val_byte 0) (Z.to_nat ((55 - n) `mod` 64)) ++
  word_bytes (Z.shiftr (8 * n) 32) ++ word_bytes (word (8 * n)).

(** One round of [blocks] per sixteen words; the length of the list is enough. *)
Fixpoint blocks (fuel : nat) (ws : list Z) (s : digest) : digest :=
  match fuel, ws with
  | O, _ | _, [] => s
  | S fuel', _ => blocks fuel' (drop 16 ws) (add s (rounds round_constants (take 16 ws) s))
  end.

Definition bytes_of (s : digest) : list ascii :=
  word_bytes (h0 s) ++ word_bytes (h1 s) ++ word_bytes (h2 s) ++ word_bytes (h3 s) ++
  word_bytes (h4 s) ++ word_bytes (h5 s) ++ word_bytes (h6 s) ++ word_bytes (h7 s).

Definition Sum256 (m : list ascii) : list ascii :=
  let ws := words (padded m) in bytes_of (blocks (length ws) ws initial).

Lemma Sum256_length m : length (Sum256 m) = 32%nat.
Proof. done. Qed.

(** The digest of "abc", from the standard. *)
Example Sum256_abc :
  EncodeToString (Sum256 (String.list_ascii_of_string "abc")) =
  "ba7816bf8f01cfea414140de5dae2223b00361a396177a9cb410ff61f20015ad".
Proof. vm_compute. reflexivity. Qed.
End Sha256.

(** ** crypto/hmac *)

Definition xor_bytes (a b : list ascii) : list ascii :=
  zip_with (λ x y, val_byte (Z.lxor (byte_val x) (byte_val y))) a b.

Definition hmac_sha256 (key message : list ascii) : list ascii :=
  let key := if Z.of_nat (length key) >? 64 then Sha256.Sum256 key else key in
  let block := key ++ repeat (val_byte 0) (64 - length key) in
  let pad z := xor_bytes block (repeat (val_byte z) 64) in
  Sha256.Sum256 (pad 0x5c ++ Sha256.Sum256 (pad 0x36 ++ message)).

(** RFC 4231, test case 2. *)
Example hmac_sha256_rfc4231 :
  EncodeToString (hmac_sha256 (String.list_ascii_of_string "Jefe")
    (String.list_ascii_of_string "what do ya want for nothing?")) =
  "5bdcc146bf60754e6a042426089575c75a003f089d2739839dec58b964ec3843".
Proof. vm_compute. reflexivity. Qed.

Lemma hmac_sha256_length key m : length (hmac_sha256 key m) = 32%nat.
Proof. apply Sha256.Sum256_length. Qed.

(** ** encoding/base64: RawStdEncoding and RawURLEncoding *)
Module Base64.

(** The characters of the two last digits. *)
Record encoding := mkEncoding { char62 : ascii; char63 : ascii }.
Definition RawStdEncoding : encoding := mkEncoding "+" "/".
Definition RawURLEncoding : encoding := mkEncoding "-" "_".

Section Encoding.
Context (e : encoding).

Definition digit (v : Z) : ascii :=
  if v <? 26 then ascii_of_nat (Z.to_nat (65 + v))
  else if v <? 52 then ascii_of_nat (Z.to_nat (71 + v))
  else if v <? 62 then ascii_of_nat (Z.to_nat (v - 4))
  else if v =? 62 then char62 e else char63 e.

Definition digit_of (c : ascii) : option Z :=
  let n := byte_val c in
  if (65 <=? n) && (n <=? 90) then Some (n - 65)
  else if (97 <=? n) && (n <=? 122) then Some (n - 71)
  else if (48 <=? n) && (n <=? 57) then Some (n + 4)
  else if Ascii.eqb c (char62 e) then Some 62
  else if Ascii.eqb c (char63 e) then Some 63 else None.

Fixpoint EncodeToString (bs : list ascii) : string :=
  match bs with
  | a :: b :: c :: bs' =>
      let v := byte_val a * 2 ^ 16 + byte_val b * 2 ^ 8 + byte_val c in
      String (digit (v / 2 ^ 18)) (String (digit ((v / 2 ^ 12) `mod` 64))
        (String (digit ((v / 2 ^ 6) `mod` 64)) (String (digit (v `mod` 64)) (EncodeToString bs'))))
  | [a; b] =>
      let v := byte_val a * 2 ^ 16 + byte_val b * 2 ^ 8 in
      String (digit (v / 2 ^ 18)) (String (digit ((v / 2 ^ 12) `mod` 64))
        (String (digit ((v / 2 ^ 6) `mod` 64)) EmptyString))
  | [a] =>
      let v := byte_val a * 2 ^ 16 in
      String (digit (v / 2 ^ 18)) (String (digit ((v / 2 ^ 12) `mod` 64)) EmptyString)
  | [] => EmptyString
  end.

(** The digits of a text; line ends are skipped. *)
Fixpoint digits_of (s : string) : option (list Z) :=
  match s with
  | EmptyString => Some []
  | String c s' =>
      if Ascii.eqb c "010" || Ascii.eqb c "013" then digits_of s'
      else d ← digit_of c; ds ← digits_of s'; Some (d :: ds)
  end.

(** The bytes of groups of four digits; the unused bits of the last group are
    dropped, and a single digit is an error. *)
Fixpoint groups (ds : list Z) : option (list ascii) :=
  match ds with
  | a :: b :: c :: d :: ds' =>
      let v := a * 2 ^ 18 + b * 2 ^ 12 + c * 2 ^ 6 + d in
      rest ← groups ds';
      Some (val_byte (v / 2 ^ 16) :: val_byte (v / 2 ^ 8) :: val_byte v :: rest)
  | [a; b; c] =>
      let v := a * 2 ^ 18 + b * 2 ^ 12 + c * 2 ^ 6 in
      Some [val_byte (v / 2 ^ 16); val_byte (v / 2 ^ 8)]
  | [a; b] => Some [val_byte ((a * 2 ^ 18 + b * 2 ^ 12) / 2 ^ 16)]
  | [_] => None
  | [] => Some []
  end.

Definition DecodeString (s : string) : option (list ascii) := digits_of s ≫= groups.
End Encoding.

(** ** Facts *)

Lemma byte_val_range c : 0 ≤ byte_val c < 256.
Proof. unfold byte_val. pose proof (nat_ascii_bounded c). lia. Qed.

Lemma val_byte_val z c : z `mod` 256 = byte_val c → val_byte z = c.
Proof.
  intros Hz. unfold val_byte. rewrite Hz. unfold byte_val. rewrite Nat2Z.id. apply ascii_nat_embedding.
Qed.

(** [d] is a digit of either encoding. *)
Definition good_digit (e : encoding) (v : Z) : bool :=
  bool_decide (digit_of e (digit e v) = Some v) &&
  negb (Ascii.eqb (digit e v) "010" || Ascii.eqb (digit e v) "013") &&
  negb (Ascii.eqb (digit e v) "$").

Section Facts.
Context (e : encoding) (He : e = RawStdEncoding ∨ e = RawURLEncoding).

Lemma digits_good v : 0 ≤ v < 64 → good_digit e v = true.
Proof.
  intros Hv. assert (forallb (λ n, good_digit e (Z.of_nat n)) (seq 0 64) = true) as H
    by (destruct He as [-> | ->]; vm_compute; done).
  rewrite forallb_forall in H. specialize (H (Z.to_nat v)). rewrite Z2Nat.id in H by lia.
  apply H, in_seq. lia.
Qed.

Lemma digits_of_digit v s :
  0 ≤ v < 64 → digits_of e (String (digit e v) s) = ds ← digits_of e s; Some (v :: ds).
Proof.
  intros Hv. pose proof (digits_good v Hv) as H. unfold good_digit in H.
  apply andb_prop in H as [H _]. apply andb_prop in H as [Hd Hn]. apply negb_true_iff in Hn.
  apply bool_decide_eq_true_1 in Hd. simpl. by rewrite Hn, Hd.
Qed.

Lemma lacks_digit v s : 0 ≤ v < 64 → lacks "$" (String (digit e v) s) = lacks "$" s.
Proof.
  intros Hv. pose proof (digits_good v Hv) as H. unfold good_digit in H.
  apply andb_prop in H as [_ H]. simpl. by rewrite H.
Qed.

(** Lists in steps of three. *)
Lemma triples_ind {A} (P : list A → Prop) :
  P [] → (∀ a, P [a]) → (∀ a b, P [a; b]) → (∀ a b c l, P l → P (a :: b :: c :: l)) → ∀ l, P l.
Proof.
  intros H0 H1 H2 H3. refine (fix go l := match l with [] => H0 | [a] => H1 a | [a; b] => H2 a b
    | a :: b :: c :: l' => H3 a b c l' (go l') end).
Qed.

Ltac byte_ranges :=
  repeat match goal with
  | c : ascii |- _ =>
      lazymatch goal with
      | H : 0 ≤ byte_val c < 256 |- _ => fail
      | _ => pose proof (byte_val_range c)
      end
  end.
Ltac digit_arith :=
  byte_ranges; change (2 ^ 18) with 262144 in *; change (2 ^ 16) with 65536 in *;
  change (2 ^ 12) with 4096 in *; change (2 ^ 8) with 256 in *; change (2 ^ 6) with 64 in *;
  Z.to_euclidean_division_equations; lia.

Lemma lacks_EncodeToString bs : lacks "$" (EncodeToString e bs) = true.
Proof.
  induction bs as [|a|a b|a b c bs IH] using triples_ind; [done|..];
    cbn [EncodeToString]; cbv zeta; rewrite !lacks_digit by digit_arith; done.
Qed.

Lemma Decode_Encode bs : DecodeString e (EncodeToString e bs) = Some bs.
Proof.
  unfold DecodeString. induction bs as [|a|a b|a b c bs IH] using triples_ind; [done|..];
    cbn [EncodeToString]; cbv zeta; rewrite !digits_of_digit by digit_arith.
  - cbn [groups mbind option_bind digits_of]. do 2 f_equal. apply val_byte_val. digit_arith.
  - cbn [groups mbind option_bind digits_of]. do 2 f_equal; [|f_equal]; apply val_byte_val; digit_arith.
  - destruct (digits_of e (EncodeToString e bs)) as [ds|]; [|done]. cbn [groups mbind option_bind] in *.
    rewrite IH. cbn [groups mbind option_bind].
    do 2 f_equal; [|f_equal; [|f_equal]]; apply val_byte_val; digit_arith.
Qed.
End Facts.
End Base64.
