(* ===== verification/GoTime.v ===== *)
(** * The parts of Go's [time] package the program uses: civil dates.

    An instant is a number of nanoseconds since 1970-01-01T00:00:00Z; dates are
    those of the proleptic Gregorian calendar, in UTC. *)
From S2P Require Export GoStrings.

(** ** Dates *)

Record date := mkDate { year : Z; month : Z; day : Z }.

Definition leap (y : Z) : bool :=
  (y `mod` 4 =? 0) && (negb (y `mod` 100 =? 0) || (y `mod` 400 =? 0)).

(** Days from 1 January of year 1 to 1 January of [y]. *)
Definition days_before_year (y : Z) : Z :=
  let n := y - 1 in 365 * n + n / 4 - n / 100 + n / 400.

Definition days_before_month (y m : Z) : Z :=
  nth (Z.to_nat (m - 1)) [0; 31; 59; 90; 120; 151; 181; 212; 243; 273; 304; 334] 0 +
  (if (2 <? m) && leap y then 1 else 0).

(** [daysIn]. *)
Definition days_in (m y : Z) : Z :=
  if (m =? 2) && leap y then 29
  else nth (Z.to_nat (m - 1)) [31; 28; 31; 30; 31; 30; 31; 31; 30; 31; 30; 31] 0.

Definition unix_days : Z := days_before_year 1970.
Definition day_ns : Z := 86400 * 1000000000.

(** Days of an instant since 1 January of year 1. *)
Definition day_number (t : Z) : Z := t / day_ns + unix_days.

(** [time.Date(y, m, d, 0, 0, 0, 0, time.UTC)] for a month of 1 to 12; a day
    past the end of its month is one of the next month. *)
Definition Date (y m d : Z) : Z :=
  (days_before_year y + days_before_month y m + (d - 1) - unix_days) * day_ns.

(** The [Year] method: a first guess from the mean length of a year is off by at
    most one. *)
Definition Year (t : Z) : Z :=
  let n := day_number t in
  let y := n * 400 / 146097 + 1 in
  if n <? days_before_year y then y - 1
  else if days_before_year (y + 1) <=? n then y + 1 else y.

(** ** time.Parse("2006-01-02", value) *)

(** [n] digits and the rest of the string. *)
Fixpoint take_digits (n : nat) (s : string) (acc : Z) : option (Z * string) :=
  match n, s with
  | O, _ => Some (acc, s)
  | S n', String c s' => d ← digit_val c; take_digits n' s' (acc * 10 + d)
  | S _, EmptyString => None
  end.

Definition ParseDate (value : string) : option date :=
  '(y, s) ← take_digits 4 value 0;
  match s with
  | String "-" s =>
      '(m, s) ← take_digits 2 s 0;
      match s with
      | String "-" s =>
          '(d, s) ← take_digits 2 s 0;
          if bool_decide (s = "") && (1 <=? m) && (m <=? 12) && (1 <=? d) && (d <=? days_in m y)
          then Some (mkDate y m d) else None
      | _ => None
      end
  | _ => None
  end.

Example ParseDate_1990 : ParseDate "1990-12-10" = Some (mkDate 1990 12 10).
Proof. vm_compute. reflexivity. Qed.
Example Date_1990 : Date 1990 12 10 = 660787200 * 1000000000.
Proof. vm_compute. reflexivity. Qed.
Example Year_2000 : Year (Date 2000 12 31) = 2000 ∧ Year (Date 2001 1 1 - 1) = 2000.
Proof. vm_compute. done. Qed.

(** ** Facts *)

Lemma days_before_year_next y :
  days_before_year (y + 1) = days_before_year y + (if leap y then 366 else 365).
Proof.
  unfold days_before_year, leap. replace (y + 1 - 1) with y by lia.
  destruct (Z.eqb_spec (y `mod` 4) 0), (Z.eqb_spec (y `mod` 100) 0), (Z.eqb_spec (y `mod` 400) 0);
    simpl; Z.to_euclidean_division_equations; lia.
Qed.

Lemma days_before_year_mono y y' : y ≤ y' → days_before_year y ≤ days_before_year y'.
Proof. unfold days_before_year. intros Hy. Z.to_euclidean_division_equations; lia. Qed.

Lemma Year_spec t :
  days_before_year (Year t) ≤ day_number t < days_before_year (Year t + 1).
Proof.
  unfold Year. cbv zeta. set (n := day_number t). clearbody n.
  assert (days_before_year (n * 400 / 146097 + 1 - 1) ≤ n <
          days_before_year (n * 400 / 146097 + 1 + 2)) as Hn.
  { unfold days_before_year. Z.to_euclidean_division_equations. lia. }
  set (y := n * 400 / 146097 + 1) in *. clearbody y.
  destruct (Z.ltb_spec n (days_before_year y)).
  { replace (y - 1 + 1) with y by lia. lia. }
  destruct (Z.leb_spec (days_before_year (y + 1)) n); [|lia].
  replace (y + 1 + 1) with (y + 2) by lia. lia.
Qed.

(** A day of a valid date lies in its year, 29 February in any year. *)
Lemma day_of_date y m d :
  1 ≤ m ≤ 12 → 1 ≤ d ≤ (if m =? 2 then 29 else days_in m y) →
  days_before_year y ≤ days_before_year y + days_before_month y m + (d - 1) <
  days_before_year (y + 1).
Proof.
  intros Hm Hd. rewrite days_before_year_next. unfold days_before_month, days_in in *.
  assert (m = 1 ∨ m = 2 ∨ m = 3 ∨ m = 4 ∨ m = 5 ∨ m = 6 ∨ m = 7 ∨ m = 8 ∨ m = 9 ∨ m = 10 ∨
          m = 11 ∨ m = 12) as Hms by lia.
  destruct_or! Hms; subst m; simpl in *; destruct (leap y); lia.
Qed.

Lemma Date_le y m d t :
  Date y m d ≤ t ↔ days_before_year y + days_before_month y m + (d - 1) ≤ day_number t.
Proof. unfold Date, day_number, day_ns. Z.to_euclidean_division_equations. lia. Qed.

(** The birthday comparison of the year [Year t], with the difference of years,
    decides whether [n] full years have passed. *)
Lemma years_passed y m d t n :
  1 ≤ m ≤ 12 → 1 ≤ d ≤ (if m =? 2 then 29 else days_in m y) →
  n ≤ Year t - y - (if t <? Date (Year t) m d then 1 else 0) ↔ Date (y + n) m d ≤ t.
Proof.
  intros Hm Hd. pose proof (Year_spec t) as Ht.
  assert (∀ z, 1 ≤ d ≤ (if m =? 2 then 29 else days_in m z)) as Hdz.
  { intros z. destruct (m =? 2) eqn:E; [done|]. unfold days_in in *. by rewrite E in *. }
  pose proof (day_of_date (y + n) m d Hm (Hdz _)) as Hn.
  destruct (Z.ltb_spec t (Date (Year t) m d)) as [Hlt|Hge].
  - assert (¬ Date (Year t) m d ≤ t) as Hlt' by lia. rewrite Date_le in Hlt'. rewrite Date_le.
    destruct (Z.lt_trichotomy (y + n) (Year t)) as [H|[H|H]].
    + pose proof (days_before_year_mono (y + n + 1) (Year t) ltac:(lia)). lia.
    + rewrite H. lia.
    + pose proof (days_before_year_mono (Year t + 1) (y + n) ltac:(lia)). lia.
  - apply Date_le in Hge. rewrite Date_le.
    destruct (Z.lt_trichotomy (y + n) (Year t)) as [H|[H|H]].
    + pose proof (days_before_year_mono (y + n + 1) (Year t) ltac:(lia)). lia.
    + rewrite H. lia.
    + pose proof (days_before_year_mono (Year t + 1) (y + n) ltac:(lia)). lia.
Qed.
