(* ===== verification/Rfc3339.v ===== *)
(** * Instants as text: [Time.Format] with time.RFC3339, and the JSON form of
    [time.Time] (RFC 3339 with nanoseconds).

    Instants are in UTC, so formatting always writes the zone [Z]; parsing reads
    any offset. *)
From S2P Require Export GoTime.

(** ** Civil dates *)

(** The month of day [n] (from 0) of year [y]. *)
Definition month_at (y n : Z) : Z :=
  1 + Z.of_nat (length (base.filter (λ m, days_before_month y m ≤ n)
                          [2; 3; 4; 5; 6; 7; 8; 9; 10; 11; 12])).

(** The [Date] method. *)
Definition civil (t : Z) : date :=
  let y := Year t in
  let n := day_number t - days_before_year y in
  mkDate y (month_at y n) (n - days_before_month y (month_at y n) + 1).

Definition second_ns : Z := 1000000000.
Definition clock_hour (t : Z) : Z := (t `mod` day_ns) / (3600 * second_ns).
Definition clock_minute (t : Z) : Z := ((t `mod` day_ns) / (60 * second_ns)) `mod` 60.
Definition clock_second (t : Z) : Z := ((t `mod` day_ns) / second_ns) `mod` 60.
Definition clock_nanosecond (t : Z) : Z := t `mod` second_ns.

(** ** Format *)

(** The last [w] decimal digits of [z]. *)
Fixpoint pad (w : nat) (z : Z) : string :=
  match w with
  | O => ""
  | S w' => String (digit_char ((z / 10 ^ Z.of_nat w') `mod` 10)) (pad w' z)
  end.

(** [appendInt(b, y, 4)]. *)
Definition format_year (y : Z) : string :=
  (if y <? 0 then "-" else "") +:+
  (if Z.abs y <? 10000 then pad 4 (Z.abs y) else fmt_nonneg (Z.abs y)).

(** The layout 2006-01-02T15:04:05. *)
Definition format_seconds (t : Z) : string :=
  let 'mkDate y m d := civil t in
  format_year y +:+ "-" +:+ pad 2 m +:+ "-" +:+ pad 2 d +:+ "T" +:+
  pad 2 (clock_hour t) +:+ ":" +:+ pad 2 (clock_minute t) +:+ ":" +:+ pad 2 (clock_second t).

Definition Format_RFC3339 (t : Z) : string := format_seconds t +:+ "Z".

(** The digits of the fraction [z / 10 ^ w], without trailing zeros. *)
Fixpoint frac_digits (w : nat) (z : Z) : string :=
  match w with
  | O => ""
  | S w' =>
      if z =? 0 then ""
      else String (digit_char (z / 10 ^ Z.of_nat w')) (frac_digits w' (z `mod` 10 ^ Z.of_nat w'))
  end.

(** [Time.MarshalJSON]: the year must have four digits. *)
Definition time_text (t : Z) : option string :=
  if (0 <=? Year t) && (Year t <=? 9999) then
    Some (format_seconds t +:+
          (if clock_nanosecond t =? 0 then "" else "." +:+ frac_digits 9 (clock_nanosecond t)) +:+ "Z")
  else None.

(** ** Parse *)

Definition expect (c : ascii) (s : string) : option string :=
  match s with String c' s' => if Ascii.eqb c c' then Some s' else None | EmptyString => None end.

(** [parseUint] on the next [w] digits. *)
Definition take_range (w : nat) (lo hi : Z) (s : string) : option (Z * string) :=
  '(v, s) ← take_digits w s 0;
  if (lo <=? v) && (v <=? hi) then Some (v, s) else None.

Fixpoint frac_value (w : nat) (s : string) : Z :=
  match w, s with
  | S w', String c s' =>
      match digit_val c with
      | Some d => d * 10 ^ Z.of_nat w' + frac_value w' s'
      | None => 0
      end
  | _, _ => 0
  end.
Fixpoint skip_digits (s : string) : string :=
  match s with
  | String c s' => if digit_val c is Some _ then skip_digits s' else s
  | EmptyString => s
  end.

(** The fraction of a second: a point and at least one digit. *)
Definition parse_fraction (s : string) : Z * string :=
  match s with
  | String "." (String c _ as s') =>
      if digit_val c is Some _ then (frac_value 9 s', skip_digits s') else (0, s)
  | _ => (0, s)
  end.

(** The zone: Z, or an offset in minutes. *)
Definition parse_zone (s : string) : option Z :=
  if bool_decide (s = "Z") then Some 0
  else
    match s with
    | String sign s =>
        '(hours, s) ← take_range 2 0 23 s;
        s ← expect ":" s;
        '(minutes, s) ← take_range 2 0 59 s;
        let offset := hours * 60 + minutes in
        if negb (bool_decide (s = "")) then None
        else if Ascii.eqb sign "+" then Some offset
        else if Ascii.eqb sign "-" then Some (- offset)
        else None
    | EmptyString => None
    end.

(** [parseRFC3339]. *)
Definition ParseTime (s : string) : option Z :=
  '(y, s) ← take_range 4 0 9999 s;
  s ← expect "-" s;
  '(m, s) ← take_range 2 1 12 s;
  s ← expect "-" s;
  '(d, s) ← take_range 2 1 (days_in m y) s;
  s ← expect "T" s;
  '(hour, s) ← take_range 2 0 23 s;
  s ← expect ":" s;
  '(minute, s) ← take_range 2 0 59 s;
  s ← expect ":" s;
  '(second, s) ← take_range 2 0 59 s;
  let '(ns, s) := parse_fraction s in
  offset ← parse_zone s;
  Some (Date y m d + ((hour * 60 + minute - offset) * 60 + second) * second_ns + ns).

Example time_text_1990 :
  time_text (Date 1990 12 10 + 3723 * second_ns + 50000) = Some "1990-12-10T01:02:03.00005Z".
Proof. vm_compute. reflexivity. Qed.
Example ParseTime_offset :
  ParseTime "1990-12-10T08:02:03.5+07:00" = Some (Date 1990 12 10 + 3723 * second_ns + 500000000).
Proof. vm_compute. reflexivity. Qed.
Example Format_leap : Format_RFC3339 (Date 2000 2 29) = "2000-02-29T00:00:00Z".
Proof. vm_compute. reflexivity. Qed.

(** ** Facts *)

Lemma digit_char_digit d : 0 ≤ d < 10 → digit_val (digit_char d) = Some d.
Proof. apply digit_char_val. Qed.

Lemma take_digits_pad w z s acc :
  take_digits w (pad w z +:+ s) acc = Some (acc * 10 ^ Z.of_nat w + z `mod` 10 ^ Z.of_nat w, s).
Proof.
  revert acc. induction w as [|w IH]; intros acc.
  { simpl. rewrite Z.mod_1_r. do 2 f_equal. lia. }
  cbn [pad take_digits]. change (String ?c ?t +:+ s) with (String c (t +:+ s)). cbn [take_digits].
  rewrite digit_char_digit by (apply Z.mod_pos_bound; lia). cbn. rewrite IH.
  do 2 f_equal. rewrite Nat2Z.inj_succ, Z.pow_succ_r by lia.
  set (p := 10 ^ Z.of_nat w). assert (0 < p) by (apply Z.pow_pos_nonneg; lia).
  rewrite (Z.mul_comm 10 p), Z.rem_mul_r by lia. ring.
Qed.

Lemma take_range_pad w lo hi z s :
  0 ≤ lo → lo ≤ z ≤ hi → hi < 10 ^ Z.of_nat w → take_range w lo hi (pad w z +:+ s) = Some (z, s).
Proof.
  intros Hlo Hz Hw. unfold take_range. rewrite take_digits_pad.
  cbn [mbind option_bind]. rewrite Z.mul_0_l, Z.add_0_l, Z.mod_small by lia.
  destruct (Z.leb_spec lo z), (Z.leb_spec z hi); (done || lia).
Qed.

Lemma expect_hd c s : expect c (String c s) = Some s.
Proof. simpl. by rewrite Ascii.eqb_refl. Qed.

Lemma frac_round w z s :
  0 ≤ z < 10 ^ Z.of_nat w → (∀ c s', s = String c s' → digit_val c = None) →
  frac_value w (frac_digits w z +:+ s) = z ∧ skip_digits (frac_digits w z +:+ s) = s.
Proof.
  intros Hz Hs. assert (skip_digits s = s) as Hskip.
  { destruct s as [|c s]; [done|]. simpl. by rewrite (Hs c s). }
  revert z Hz. induction w as [|w IH]; intros z Hz.
  { simpl in *. split; [lia|done]. }
  cbn [frac_digits]. destruct (Z.eqb_spec z 0) as [->|Hne].
  - change ("" +:+ s) with s. split; [|done]. destruct s as [|c s]; [done|]. simpl. by rewrite (Hs c s).
  - rewrite Nat2Z.inj_succ, Z.pow_succ_r in Hz by lia.
    set (p := 10 ^ Z.of_nat w) in *. assert (0 < p) by (apply Z.pow_pos_nonneg; lia).
    assert (0 ≤ z / p < 10).
    { split; [apply Z.div_pos; lia|]. apply Z.div_lt_upper_bound; lia. }
    change (String ?c ?t +:+ s) with (String c (t +:+ s)). cbn [frac_value skip_digits].
    rewrite digit_char_digit by done.
    destruct (IH (z `mod` p)) as [-> ->]; [apply Z.mod_pos_bound; lia|].
    split; [|done]. rewrite (Z.div_mod z p) at 3 by lia. fold p. lia.
Qed.

Lemma frac_digits_cons w z :
  0 < z < 10 ^ Z.of_nat w → ∃ c t, frac_digits w z = String c t ∧ is_Some (digit_val c).
Proof.
  intros Hz. destruct w as [|w]; [simpl in Hz; lia|]. cbn [frac_digits].
  destruct (Z.eqb_spec z 0); [lia|]. do 2 eexists. split; [done|].
  rewrite digit_char_digit; [done|]. rewrite Nat2Z.inj_succ, Z.pow_succ_r in Hz by lia.
  split; [apply Z.div_pos; [lia|apply Z.pow_pos_nonneg; lia]|].
  apply Z.div_lt_upper_bound; [apply Z.pow_pos_nonneg; lia|lia].
Qed.

Lemma append_assoc a b c : (a +:+ b) +:+ c = a +:+ (b +:+ c).
Proof. induction a as [|x a IH]; [done|]. change (String x ((a +:+ b) +:+ c) = String x (a +:+ (b +:+ c))). by rewrite IH. Qed.

Lemma append_char c s : String c "" +:+ s = String c s.
Proof. done. Qed.

Lemma append_empty s : "" +:+ s = s.
Proof. done. Qed.

(** The calendar, checked for every day of a common and of a leap year. *)
Lemma month_at_spec y n :
  0 ≤ n < (if leap y then 366 else 365) →
  let m := month_at y n in
  1 ≤ m ≤ 12 ∧ 1 ≤ n - days_before_month y m + 1 ≤ days_in m y.
Proof.
  intros Hn. cbv zeta. unfold month_at, days_in, days_before_month in *.
  assert (∀ b : bool,
    forallb (λ k, let n := Z.of_nat k in
      let before m := nth (Z.to_nat (m - 1)) [0; 31; 59; 90; 120; 151; 181; 212; 243; 273; 304; 334] 0 +
                      (if (2 <? m) && b then 1 else 0) in
      let m := 1 + Z.of_nat (length (base.filter (λ m, before m ≤ n) [2; 3; 4; 5; 6; 7; 8; 9; 10; 11; 12])) in
      let days := if (m =? 2) && b then 29
                  else nth (Z.to_nat (m - 1)) [31; 28; 31; 30; 31; 30; 31; 31; 30; 31; 30; 31] 0 in
      (1 <=? m) && (m <=? 12) && (1 <=? n - before m + 1) && (n - before m + 1 <=? days))
    (seq 0 (if b then 366 else 365)) = true) as H by (intros []; vm_compute; done).
  specialize (H (leap y)). rewrite forallb_forall in H. specialize (H (Z.to_nat n)).
  rewrite Z2Nat.id in H by lia. cbv zeta in H.
  assert (In (Z.to_nat n) (seq 0 (if leap y then 366 else 365))) as Hin
    by (apply in_seq; destruct (leap y); lia).
  specialize (H Hin). apply andb_prop in H as [H H4]. apply andb_prop in H as [H H3].
  apply andb_prop in H as [H1 H2]. lia.
Qed.

Lemma civil_spec t :
  let 'mkDate y m d := civil t in
  y = Year t ∧ 1 ≤ m ≤ 12 ∧ 1 ≤ d ≤ days_in m y ∧ Date y m d = t - t `mod` day_ns.
Proof.
  unfold civil. cbv zeta. pose proof (Year_spec t) as Ht. rewrite days_before_year_next in Ht.
  set (n := day_number t - days_before_year (Year t)).
  pose proof (month_at_spec (Year t) n ltac:(lia)) as (Hm & Hd). split_and!; [done|lia|lia|lia|lia|].
  unfold Date. set (b := days_before_month (Year t) (month_at (Year t) n)) in *.
  assert (days_before_year (Year t) + b + (n - b + 1 - 1) - unix_days = t / day_ns) as ->
    by (unfold n, day_number; lia).
  pose proof (Z.div_mod t day_ns ltac:(unfold day_ns; lia)). lia.
Qed.

#[local] Opaque pad frac_digits.
(** What [MarshalJSON] writes, [UnmarshalJSON] reads as the same instant. *)
Lemma ParseTime_text t s : time_text t = Some s → ParseTime s = Some t.
Proof.
  unfold time_text, format_seconds. pose proof (civil_spec t) as Hc.
  destruct (civil t) as [y m d]. destruct Hc as (-> & Hm & Hd & Ht).
  destruct (Z.leb_spec 0 (Year t)); [|done]. destruct (Z.leb_spec (Year t) 9999); [|done].
  cbn [andb]. intros [= <-]. unfold format_year.
  destruct (Z.ltb_spec (Year t) 0); [lia|]. rewrite Z.abs_eq by lia.
  destruct (Z.ltb_spec (Year t) 10000); [|lia].
  assert (days_in m (Year t) < 100) as Hdays.
  { unfold days_in. destruct (_ && _); [lia|].
    assert (m = 1 ∨ m = 2 ∨ m = 3 ∨ m = 4 ∨ m = 5 ∨ m = 6 ∨ m = 7 ∨ m = 8 ∨ m = 9 ∨ m = 10 ∨
            m = 11 ∨ m = 12) as Hms by lia. destruct_or! Hms; subst m; simpl; lia. }
  assert (0 ≤ clock_hour t ≤ 23 ∧ 0 ≤ clock_minute t ≤ 59 ∧ 0 ≤ clock_second t ≤ 59 ∧ 0 ≤ clock_nanosecond t < 10 ^ 9 ∧
          t `mod` day_ns = ((clock_hour t * 60 + clock_minute t) * 60 + clock_second t) * second_ns + clock_nanosecond t)
    as (Hh & Hmi & Hs & Hns & Hsum).
  { unfold clock_hour, clock_minute, clock_second, clock_nanosecond, second_ns, day_ns. Z.to_euclidean_division_equations. lia. }
  unfold ParseTime. rewrite !append_assoc, !append_empty.
  rewrite take_range_pad by (simpl; lia). cbn [mbind option_bind].
  rewrite !append_char.
  repeat (rewrite expect_hd || (rewrite take_range_pad by (simpl; lia)); cbn [mbind option_bind]).
  assert (parse_fraction ((if clock_nanosecond t =? 0 then ""
                           else String "." (frac_digits 9 (clock_nanosecond t))) +:+ "Z") =
          (clock_nanosecond t, "Z")) as ->.
  { destruct (Z.eqb_spec (clock_nanosecond t) 0) as [->|Hne]; [done|].
    destruct (frac_digits_cons 9 (clock_nanosecond t)) as (c & tl & Hf & [x Hx]); [simpl in *; lia|].
    destruct (frac_round 9 (clock_nanosecond t) "Z" Hns) as [Hv Hk].
    { intros c' s' [= <- <-]. done. }
    rewrite Hf in *. change (String "." (String c tl) +:+ "Z") with (String "." (String c tl +:+ "Z")).
    change (String c tl +:+ "Z") with (String c (tl +:+ "Z")) in *. unfold parse_fraction. by rewrite Hx, Hv, Hk. }
  change (parse_zone "Z") with (Some 0). cbn [mbind option_bind]. f_equal. rewrite Ht, Hsum. ring.
Qed.
