(* ===== verification/Domain.v ===== *)
(** * The domain types: internal/domain.

    One record per Go struct and one inductive per interface whose
    implementations are all in the package.  A field [x] of the struct [T] is
    the projection [t_x] with a prefix per struct; [*T] and [*int] that may be
    nil are options; constants keep their names and values. *)
From S2P Require Export GoStrings.

(** Minor units, an [int64]; every operation on amounts wraps explicitly. *)
Abbreviation Money := Z (only parsing).
(** An instant, in nanoseconds; only order and addition are used. *)
Abbreviation Time := Z (only parsing).

(** ** account.go *)

Record Account := mkAccount {
  acc_ID : string;
  acc_Balance : Money;
  acc_ReservedBalance : Money;
  acc_AvailableBalance : Money;
}.

Record AccountSnapshot := mkAccountSnapshot {
  snap_AggregateID : string;
  snap_Balance : Money;
  snap_ReservedBalance : Money;
  snap_AvailableBalance : Money;
  snap_AsOfSequence : Z;
  snap_OccurredAt : Time;
}.

Record DepositReceipt := mkDepositReceipt {
  dr_InitialAccount : Account;
  dr_FinalAccount : Account;
  dr_DepositAmount : Money;
}.

Record WithdrawalReceipt := mkWithdrawalReceipt {
  wr_InitialAccount : Account;
  wr_FinalAccount : Account;
  wr_WithdrawalAmount : Money;
}.

(** The receipt the transfer service fills in; the two destination accounts
    stay nil there, hence the options. *)
Record TransferReceipt := mkTransferReceipt {
  rc_TransferID : string;
  rc_Status : string;
  rc_InitialSourceAccount : option Account;
  rc_InitialDestinationAccount : option Account;
  rc_FinalSourceAccount : option Account;
  rc_FinalDestinationAccount : option Account;
  rc_TransferAmount : Money;
  rc_FeeAmount : Money;
  rc_CurrentStep : string;
}.

Record TransferCompletedEvent := mkTransferCompletedEvent {
  tce_Timestamp : Time;
  tce_TransferID : string;
  tce_Amount : Money;
  tce_SourceAccountID : string;
  tce_DestinationAccountID : string;
  tce_Fee : Money;
}.

(** ** events.go *)

Record AccountOpened := mkAccountOpened {
  ao_Aggregate : string; ao_Type : string; ao_Seq : Z; ao_Occurred : Time;
  ao_ID : string; ao_InitialBalance : Money;
}.

Record MoneyDebited := mkMoneyDebited {
  md_Aggregate : string; md_Type : string; md_Seq : Z; md_Occurred : Time;
  md_ID : string; md_Amount : Money; md_TransferID : string; md_Purpose : string;
  md_CounterpartyAccountID : string; md_AdjustmentID : string;
  md_AdjustmentReason : string; md_CaseReference : string;
  md_OriginalReference : string;
}.

Record MoneyCredited := mkMoneyCredited {
  mc_Aggregate : string; mc_Type : string; mc_Seq : Z; mc_Occurred : Time;
  mc_ID : string; mc_Amount : Money; mc_TransferID : string; mc_Purpose : string;
  mc_CounterpartyAccountID : string; mc_AdjustmentID : string;
  mc_AdjustmentReason : string; mc_CaseReference : string;
  mc_OriginalReference : string;
}.

Record FundsReserved := mkFundsReserved {
  fr_Aggregate : string; fr_Type : string; fr_Seq : Z; fr_Occurred : Time;
  fr_ID : string; fr_Amount : Money; fr_TransferID : string;
}.

Record ReservationCaptured := mkReservationCaptured {
  rcap_Aggregate : string; rcap_Type : string; rcap_Seq : Z; rcap_Occurred : Time;
  rcap_ID : string; rcap_Amount : Money; rcap_TransferID : string;
}.

Record ReservationReleased := mkReservationReleased {
  rrel_Aggregate : string; rrel_Type : string; rrel_Seq : Z; rrel_Occurred : Time;
  rrel_ID : string; rrel_Amount : Money; rrel_TransferID : string;
}.

(** The interface [Event] and its implementations. *)
Inductive Event : Type :=
| EAccountOpened (e : AccountOpened)
| EMoneyDebited (e : MoneyDebited)
| EMoneyCredited (e : MoneyCredited)
| EFundsReserved (e : FundsReserved)
| EReservationCaptured (e : ReservationCaptured)
| EReservationReleased (e : ReservationReleased).

Definition AggregateID (ev : Event) : string :=
  match ev with
  | EAccountOpened e => ao_Aggregate e
  | EMoneyDebited e => md_Aggregate e
  | EMoneyCredited e => mc_Aggregate e
  | EFundsReserved e => fr_Aggregate e
  | EReservationCaptured e => rcap_Aggregate e
  | EReservationReleased e => rrel_Aggregate e
  end.

Definition EventType (ev : Event) : string :=
  match ev with
  | EAccountOpened e => ao_Type e
  | EMoneyDebited e => md_Type e
  | EMoneyCredited e => mc_Type e
  | EFundsReserved e => fr_Type e
  | EReservationCaptured e => rcap_Type e
  | EReservationReleased e => rrel_Type e
  end.

Definition Version (ev : Event) : Z :=
  match ev with
  | EAccountOpened e => ao_Seq e
  | EMoneyDebited e => md_Seq e
  | EMoneyCredited e => mc_Seq e
  | EFundsReserved e => fr_Seq e
  | EReservationCaptured e => rcap_Seq e
  | EReservationReleased e => rrel_Seq e
  end.

Definition OccurredAt (ev : Event) : Time :=
  match ev with
  | EAccountOpened e => ao_Occurred e
  | EMoneyDebited e => md_Occurred e
  | EMoneyCredited e => mc_Occurred e
  | EFundsReserved e => fr_Occurred e
  | EReservationCaptured e => rcap_Occurred e
  | EReservationReleased e => rrel_Occurred e
  end.

(** ** transfer.go *)

Definition TransferPending : string := "pending".
Definition TransferCompleted : string := "completed".
Definition TransferFailed : string := "failed".
Definition SagaCreated : string := "created".
Definition SagaFundsReserved : string := "funds_reserved".
Definition SagaComplianceApproved : string := "compliance_approved".
Definition SagaLedgerPosted : string := "ledger_posted".
Definition SagaReservationCaptured : string := "reservation_captured".

Record TransferCommand := mkTransferCommand {
  tc_Amount : Money;
  tc_SourceAccountID : string;
  tc_DestinationAccountID : string;
  tc_IdempotencyKey : string;
}.

Record TransferRecord := mkTransferRecord {
  tr_ID : string;
  tr_SourceAccountID : string;
  tr_DestinationAccountID : string;
  tr_IdempotencyKey : string;
  tr_Amount : Money;
  tr_Fee : Money;
  tr_Status : string;
  tr_FailureCode : string;
  tr_InitialSourceBalance : Money;
  tr_FinalSourceBalance : Money;
  tr_CreatedAt : Time;
  tr_UpdatedAt : Time;
  tr_CurrentStep : string;
  tr_ComplianceStatus : string;
  tr_AttemptCount : Z;
  tr_NextAttemptAt : Time;
  tr_LastError : string;
}.

Record TransferSagaUpdate := mkTransferSagaUpdate {
  su_ExpectedStep : string;
  su_CurrentStep : string;
  su_Status : string;
  su_FailureCode : string;
  su_ComplianceStatus : string;
  su_LastError : string;
  su_AttemptCount : Z;
  su_NextAttemptAt : Time;
  su_InitialSourceBalance : Money;
  su_FinalSourceBalance : Money;
}.

(** ** adjustment.go *)

Definition AdjustmentWaiting : string := "waiting_for_approval".
Definition AdjustmentApproved : string := "approved".
Definition AdjustmentRejected : string := "rejected".
Definition AdjustmentManual : string := "manual".
Definition AdjustmentReversal : string := "reversal".

Record AdjustmentRequest := mkAdjustmentRequest {
  adj_ID : string;
  adj_Type : string;
  adj_Status : string;
  adj_AccountID : string;
  adj_Direction : string;
  adj_Amount : Money;
  adj_Fee : Money;
  adj_CounterpartyAccountID : string;
  adj_OriginalTransferID : string;
  adj_OriginalAccountID : string;
  adj_OriginalEventSequence : option Z;
  adj_Reason : string;
  adj_CaseReference : string;
  adj_CreatedBy : string;
  adj_ReviewedBy : string;
  adj_RejectionReason : string;
  adj_CreatedAt : Time;
  adj_ReviewedAt : option Time;
}.

(** ** onboarding.go, review.go, auth.go *)

Definition KYCWaiting : string := "waiting_for_approval".
Definition KYCApproved : string := "approved".
Definition KYCRejected : string := "rejected".

Record ResidentialAddress := mkResidentialAddress {
  ra_Line1 : string; ra_Line2 : string; ra_City : string;
  ra_StateOrProvince : string; ra_PostalCode : string; ra_Country : string;
}.

Record GovernmentDocument := mkGovernmentDocument {
  gd_Type : string; gd_Number : string; gd_IssuingCountry : string;
}.

Record Customer := mkCustomer {
  cus_ID : string;
  cus_AccountID : string;
  cus_LegalFirstName : string;
  cus_LegalLastName : string;
  cus_DateOfBirth : Time;
  cus_Nationality : string;
  cus_Email : string;
  cus_Phone : string;
  cus_PasswordHash : string;
  cus_ResidentialAddress : ResidentialAddress;
  cus_GovernmentDocument : GovernmentDocument;
  cus_PassportImage : list ascii;
  cus_PassportImageMIME : string;
  cus_KYCStatus : string;
  cus_RequestedDeposit : Money;
  cus_ReviewedBy : string;
  cus_ReviewedAt : option Time;
  cus_RejectionReason : string;
  cus_CreatedAt : Time;
}.

Record OnboardingCommand := mkOnboardingCommand {
  oc_LegalFirstName : string;
  oc_LegalLastName : string;
  oc_DateOfBirth : string;
  oc_Nationality : string;
  oc_Email : string;
  oc_Phone : string;
  oc_Password : string;
  oc_ResidentialAddress : ResidentialAddress;
  oc_GovernmentDocument : GovernmentDocument;
  oc_PassportImage : list ascii;
  oc_InitialDeposit : Money;
}.

Record OnboardingReceipt := mkOnboardingReceipt { or_CustomerID : string; or_KYCStatus : string }.

Record ApplicationSummary := mkApplicationSummary {
  as_CustomerID : string;
  as_LegalFirstName : string;
  as_LegalLastName : string;
  as_Email : string;
  as_KYCStatus : string;
  as_RequestedDeposit : Money;
  as_CreatedAt : Time;
  as_ReviewedAt : option Time;
  as_RejectionReason : string;
}.

Record ApplicationDetail := mkApplicationDetail {
  ad_ApplicationSummary : ApplicationSummary;
  ad_DateOfBirth : Time;
  ad_Nationality : string;
  ad_Phone : string;
  ad_ResidentialAddress : ResidentialAddress;
  ad_GovernmentDocument : GovernmentDocument;
  ad_PassportImageMIME : string;
}.

Record Session := mkSession {
  ses_TokenHash : string;
  ses_CustomerID : string;
  ses_AdminID : string;
  ses_ExpiresAt : Time;
}.

Record Principal := mkPrincipal {
  pr_CustomerID : string;
  pr_AccountID : string;
  pr_AdminID : string;
  pr_Email : string;
  pr_Role : string;
  pr_KYCStatus : string;
  pr_RejectionReason : string;
}.

Record Admin := mkAdmin { adm_ID : string; adm_Email : string; adm_PasswordHash : string }.

(** ** Errors *)

(** The error values the program compares with [errors.Is] and [errors.As].
    [OtherError] is an error the modelled code only passes on: of the random
    source, the compliance checker or a database driver. *)
Inductive error : Type :=
| ErrAccountNotFound
| ErrInvalidTransferAmount
| ErrInvalidDepositAmount
| ErrInvalidWithdrawAmount
| ErrOutOfService
| ErrIdempotencyKeyRequired
| ErrIdempotencyConflict
| ErrTransferNotFound
| ErrInvalidAdjustment
| ErrAdjustmentNotFound
| ErrAdjustmentReviewed
| ErrSelfApproval
| ErrAlreadyReversed
| ErrInvalidOnboarding
| ErrCustomerAlreadyExists
| ErrApplicationNotFound
| ErrInvalidReviewStatus
| ErrApplicationReviewed
| ErrInvalidRejectionReason
| ErrInvalidCredentials
| ErrUnauthorized
| ErrForbidden
| ErrInvalidMoney
| ErrConcurrencyConflict
| ErrNoSnapshot
| InsufficientFundsError (account : Account) (amount : Money)
| OnboardingValidationError (field message : string)
| OtherError (message : string).

Abbreviation go_result := (result error).

Definition NewInsufficientFundsError (a : Account) (amount : Money) : error :=
  InsufficientFundsError a amount.

(** The [Error] method. *)
Definition Error (e : error) : string :=
  match e with
  | ErrAccountNotFound => "account not found"
  | ErrInvalidTransferAmount => "invalid transfer amount"
  | ErrInvalidDepositAmount => "invalid deposit amount"
  | ErrInvalidWithdrawAmount => "invalid withdrawal amount"
  | ErrOutOfService => "service is out of service"
  | ErrIdempotencyKeyRequired => "Idempotency-Key header is required"
  | ErrIdempotencyConflict =>
      "idempotency key was already used with different transfer details"
  | ErrTransferNotFound => "transfer not found"
  | ErrInvalidAdjustment => "invalid adjustment request"
  | ErrAdjustmentNotFound => "adjustment request not found"
  | ErrAdjustmentReviewed => "adjustment request has already been reviewed"
  | ErrSelfApproval => "adjustment maker cannot approve their own request"
  | ErrAlreadyReversed => "transaction has already been reversed"
  | ErrInvalidOnboarding => "invalid onboarding data"
  | ErrCustomerAlreadyExists => "customer already exists"
  | ErrApplicationNotFound => "application not found"
  | ErrInvalidReviewStatus => "invalid application status"
  | ErrApplicationReviewed => "application has already been reviewed"
  | ErrInvalidRejectionReason => "rejection reason must contain 1 to 500 characters"
  | ErrInvalidCredentials => "invalid email or password"
  | ErrUnauthorized => "authentication required"
  | ErrForbidden => "access denied"
  | ErrInvalidMoney => "invalid monetary amount"
  | ErrConcurrencyConflict => "event store: concurrency conflict on append"
  | ErrNoSnapshot => "event store: no snapshot for aggregate"
  | InsufficientFundsError _ _ => "insufficient funds in account"
  | OnboardingValidationError _ message => message
  | OtherError message => message
  end.

(** [fmt.Errorf("context: %w", err)].  The program wraps only errors of the
    random source, which it compares with nothing, so the wrapped error is kept as
    text. *)
Definition Errorf (context : string) (e : error) : error :=
  OtherError (context +:+ ": " +:+ Error e).

(** ** Decidable equality *)

#[export] Instance Account_eq_dec : EqDecision Account.
Proof. solve_decision. Defined.
#[export] Instance error_eq_dec : EqDecision error.
Proof. solve_decision. Defined.
#[export] Instance AccountOpened_eq_dec : EqDecision AccountOpened.
Proof. solve_decision. Defined.
#[export] Instance MoneyDebited_eq_dec : EqDecision MoneyDebited.
Proof. solve_decision. Defined.
#[export] Instance MoneyCredited_eq_dec : EqDecision MoneyCredited.
Proof. solve_decision. Defined.
#[export] Instance FundsReserved_eq_dec : EqDecision FundsReserved.
Proof. solve_decision. Defined.
#[export] Instance ReservationCaptured_eq_dec : EqDecision ReservationCaptured.
Proof. solve_decision. Defined.
#[export] Instance ReservationReleased_eq_dec : EqDecision ReservationReleased.
Proof. solve_decision. Defined.
#[export] Instance Event_eq_dec : EqDecision Event.
Proof. solve_decision. Defined.
#[export] Instance TransferRecord_eq_dec : EqDecision TransferRecord.
Proof. solve_decision. Defined.
#[export] Instance AdjustmentRequest_eq_dec : EqDecision AdjustmentRequest.
Proof. solve_decision. Defined.
