(* ===== verification/Money.v ===== *)
(** * Amounts of money: internal/domain/money.go and the fee policies of
    internal/policy/policies.go. *)
From S2P Require Export Domain.

(** ** money.go *)

(** [for len(frac) < 2 { frac += "0" }]: two rounds bring any string to length
    two. *)
Fixpoint pad_frac (fuel : nat) (frac : string) : string :=
  match fuel with
  | O => frac
  | S fuel' => if slen frac <? 2 then pad_frac fuel' (frac +:+ "0") else frac
  end.

Definition ParseMoney (value : string) : go_result Money :=
  let value := TrimSpace value in
  if bool_decide (value = "") || ContainsAny value ["e"%char; "E"%char]
  then Err ErrInvalidMoney
  else
    let '(negative, value) :=
      match value with String "-" v => (true, v) | _ => (false, value) end in
    let parts := Split "." value in
    let part i := default "" (parts !! i) in
    if (2 <? Z.of_nat (length parts)) || bool_decide (part 0%nat = "")
    then Err ErrInvalidMoney
    else if (Z.of_nat (length parts) =? 2) && (2 <? slen (part 1%nat))
    then Err ErrInvalidMoney
    else
      let frac := pad_frac 2 (if Z.of_nat (length parts) =? 2 then part 1%nat else "") in
      match ParseInt (part 0%nat) with
      | None => Err ErrInvalidMoney
      | Some whole =>
          match (if bool_decide (frac = "") then Some 0 else ParseInt frac) with
          | None => Err ErrInvalidMoney
          | Some cents =>
              if whole >? Z.quot (MaxInt64 -! cents) 100 then Err ErrInvalidMoney
              else
                let result := (whole *! 100) +! cents in
                Ok (if negative then -! result else result)
          end
      end.

(** The method [Money.String]; [MarshalJSON] writes the same bytes. *)
Definition Money_String (m : Money) : string :=
  let '(sign, n) := if m <? 0 then ("-", -! m) else ("", m) in
  sign +:+ fmt_d (Z.quot n 100) +:+ "." +:+ fmt_02d (Z.rem n 100).

Definition MarshalJSON (m : Money) : go_result string := Ok (Money_String m).

(** ** policies.go *)

(** The implementations of [FeePolicy]. *)
Inductive FeePolicy : Type :=
| FlatFeePolicy (Fee : Money)
| ZeroFeePolicy
| VariableFeePolicy (BasisPoints : Z).

Definition CalculateFee (p : FeePolicy) (amount : Money) : Money :=
  match p with
  | FlatFeePolicy fee => fee
  | ZeroFeePolicy => 0
  | VariableFeePolicy bp => Z.quot ((amount *! bp) +! 5000) 10000
  end.

(** [DefaultTimeService]: the flag answers for every instant. *)
Record DefaultTimeService := mkDefaultTimeService { ServiceAvailable : bool }.
Definition IsServiceAvailable (s : DefaultTimeService) (t : Time) : bool :=
  ServiceAvailable s.

(** ** Decimal digits *)

Fixpoint all_digits (s : string) : bool :=
  match s with
  | EmptyString => true
  | String c s' => bool_decide (is_Some (digit_val c)) && all_digits s'
  end.

(** The number a digit string denotes. *)
Fixpoint digits_value (s : string) (acc : Z) : Z :=
  match s with
  | EmptyString => acc
  | String c s' => digits_value s' (acc * 10 + default 0 (digit_val c))
  end.

(** The cents a fraction of at most two digits denotes. *)
Definition cents_value (f : string) : Z := digits_value (pad_frac 2 f) 0.

(** ** Facts: strings of digits *)

Lemma parse_digits_value s acc :
  all_digits s = true → parse_digits s acc = Some (digits_value s acc).
Proof.
  revert acc. induction s as [|c s IH]; intros acc; simpl; [done|].
  intros [Hc Hs]%andb_prop. apply bool_decide_eq_true_1 in Hc as [d Hd].
  rewrite Hd. simpl. by apply IH.
Qed.

Lemma digits_value_nonneg s acc : 0 ≤ acc → 0 ≤ digits_value s acc.
Proof.
  revert acc. induction s as [|c s IH]; intros acc Hacc; simpl; [done|].
  apply IH. unfold digit_val. case_goal; boolify; simpl; lia.
Qed.

Lemma parse_fmt_digits fuel n acc :
  0 ≤ n < 10 ^ Z.of_nat fuel → (0 < fuel)%nat →
  parse_digits (fmt_digits fuel n acc) 0 = parse_digits acc n.
Proof.
  revert n acc. induction fuel as [|fuel IH]; intros n acc Hn Hf; [lia|]. simpl.
  pose proof (Z.mod_pos_bound n 10 ltac:(lia)) as Hmod.
  pose proof (Z.div_mod n 10 ltac:(lia)) as Hdiv.
  destruct (Z.ltb_spec n 10) as [Hlt|Hge].
  - simpl. rewrite digit_char_val by lia. by rewrite Z.mod_small by lia.
  - rewrite Nat2Z.inj_succ, Z.pow_succ_r in Hn by lia.
    destruct fuel as [|fuel]; [simpl in Hn; lia|].
    rewrite IH; [|split; [apply Z.div_pos; lia|apply Z.div_lt_upper_bound; lia]|lia].
    simpl. rewrite digit_char_val by lia. f_equal. lia.
Qed.

Lemma all_digits_fmt fuel n acc :
  all_digits acc = true → all_digits (fmt_digits fuel n acc) = true.
Proof.
  revert n acc. induction fuel as [|fuel IH]; intros n acc Hacc; simpl; [done|].
  assert (all_digits (String (digit_char (n `mod` 10)) acc) = true) as H'.
  { simpl. rewrite digit_char_val by (apply Z.mod_pos_bound; lia). done. }
  case_goal; auto.
Qed.

Lemma fmt_digits_nonempty fuel n acc : (0 < fuel)%nat → fmt_digits fuel n acc ≠ "".
Proof.
  revert n acc. induction fuel as [|fuel IH]; intros n acc Hf; [lia|]. simpl.
  case_goal; [done|]. destruct fuel; [done|]. apply IH. lia.
Qed.

Lemma all_digits_lacks sep w :
  digit_val sep = None → all_digits w = true → lacks sep w = true.
Proof.
  intros Hsep. induction w as [|c w IH]; simpl; [done|].
  intros [Hc Hw]%andb_prop. apply bool_decide_eq_true_1 in Hc as [d Hd].
  rewrite IH, andb_true_r by done. destruct (Ascii.eqb_spec c sep) as [->|]; [congruence|done].
Qed.

Lemma ParseInt_digits w :
  all_digits w = true → w ≠ "" →
  ParseInt w = if digits_value w 0 <=? MaxInt64 then Some (digits_value w 0) else None.
Proof.
  intros Hw Hne. assert (parse_magnitude w = Some (digits_value w 0)) as Hm.
  { unfold parse_magnitude. destruct w; [done|]. by apply parse_digits_value. }
  destruct w as [|c w']; [done|]. simpl in Hw. apply andb_prop in Hw as [Hc _].
  apply bool_decide_eq_true_1 in Hc. unfold ParseInt. rewrite Hm.
  destruct c as [[] [] [] [] [] [] [] []]; first [done | by destruct Hc].
Qed.

Lemma list_ascii_app s t :
  String.list_ascii_of_string (s +:+ t) =
  String.list_ascii_of_string s ++ String.list_ascii_of_string t.
Proof.
  induction s as [|c s IH]; [done|].
  change (String c s +:+ t) with (String c (s +:+ t)). simpl. by rewrite IH.
Qed.

(** The characters of amounts: signs, digits and the point. *)
Definition amount_char (c : ascii) : bool :=
  bool_decide (is_Some (digit_val c)) || Ascii.eqb c "." || Ascii.eqb c "-".
Definition amount_string (s : string) : bool :=
  forallb amount_char (String.list_ascii_of_string s).

Lemma amount_string_app s t : amount_string (s +:+ t) = amount_string s && amount_string t.
Proof. unfold amount_string. by rewrite list_ascii_app, forallb_app. Qed.

Lemma amount_string_digits s : all_digits s = true → amount_string s = true.
Proof.
  unfold amount_string. induction s as [|c s IH]; simpl; [done|].
  intros [Hc Hs]%andb_prop. unfold amount_char at 1. by rewrite Hc, IH.
Qed.

Lemma amount_char_plain c : amount_char c = true → plain_char c = true.
Proof.
  unfold amount_char. intros H. apply orb_prop in H as [H|H]; [apply orb_prop in H as [H|H]|].
  - apply bool_decide_eq_true_1 in H. by apply digit_plain.
  - by apply Ascii.eqb_eq in H as ->.
  - by apply Ascii.eqb_eq in H as ->.
Qed.

Lemma TrimSpace_amount s : amount_string s = true → TrimSpace s = s.
Proof.
  unfold amount_string, TrimSpace. intros Hs. rewrite trim_plain.
  - apply String.string_of_list_ascii_of_string.
  - rewrite forallb_forall in *. intros c Hc. by apply amount_char_plain, Hs.
Qed.

Lemma ContainsAny_amount s :
  amount_string s = true → ContainsAny s ["e"%char; "E"%char] = false.
Proof.
  unfold amount_string. induction s as [|c s IH]; simpl; [done|].
  intros [Hc Hs]%andb_prop. rewrite IH by done.
  destruct (Ascii.eqb_spec c "e") as [->|]; [done|].
  by destruct (Ascii.eqb_spec c "E") as [->|].
Qed.

(** ** Facts: ParseMoney on decimal notation *)

Lemma pad_frac_digits f : all_digits f = true → all_digits (pad_frac 2 f) = true.
Proof.
  assert (∀ g, all_digits g = true → all_digits (g +:+ "0") = true) as Happ.
  { intros g. induction g as [|c g IH]; [done|].
    change (String c g +:+ "0") with (String c (g +:+ "0")). simpl.
    intros [Hc Hg]%andb_prop. by rewrite Hc, IH. }
  intros Hf. simpl. repeat case_goal; auto.
Qed.

Lemma pad_frac_nonempty f : pad_frac 2 f ≠ "".
Proof.
  assert (∀ g, g +:+ "0" ≠ "") as Happ by (by intros []).
  simpl. repeat case_goal; auto. by intros ->.
Qed.

Lemma cents_value_bounds f : all_digits f = true → slen f ≤ 2 → 0 ≤ cents_value f ≤ 99.
Proof.
  unfold slen. intros Hf Hl.
  assert (∀ c, 0 ≤ default 0 (digit_val c) ≤ 9) as Hd.
  { intros c. unfold digit_val. case_goal; boolify; simpl; lia. }
  destruct f as [|a [|b [|c f]]]; simpl in Hl; [done| | |lia].
  - change (cents_value (String a "")) with ((0 * 10 + default 0 (digit_val a)) * 10 + 0).
    pose proof (Hd a). lia.
  - change (cents_value (String a (String b "")))
      with ((0 * 10 + default 0 (digit_val a)) * 10 + default 0 (digit_val b)).
    pose proof (Hd a). pose proof (Hd b). lia.
Qed.

(** The sign handling of [ParseMoney] on a string of digits. *)
Definition with_sign (negative : bool) (s : string) : string :=
  if negative then String "-" s else s.

(** What [ParseMoney] computes once the whole part and the fraction are known
    to be digits. *)
Lemma parse_parts w f :
  all_digits w = true → w ≠ "" → all_digits f = true → slen f ≤ 2 →
  ∀ negative : bool,
  match ParseInt w with
  | None => Err ErrInvalidMoney
  | Some whole =>
      match (if bool_decide (pad_frac 2 f = "") then Some 0 else ParseInt (pad_frac 2 f)) with
      | None => Err ErrInvalidMoney
      | Some cents =>
          if whole >? Z.quot (MaxInt64 -! cents) 100 then Err ErrInvalidMoney
          else let result := (whole *! 100) +! cents in
               Ok (if negative then -! result else result)
      end
  end =
  let v := digits_value w 0 * 100 + cents_value f in
  if v <=? MaxInt64 then Ok (if negative then - v else v) else @Err error Z ErrInvalidMoney.
Proof.
  intros Hw Hne Hf Hl negative.
  pose proof (cents_value_bounds f Hf Hl) as Hc.
  pose proof (digits_value_nonneg w 0 ltac:(lia)) as Hv.
  rewrite bool_decide_eq_false_2 by apply pad_frac_nonempty.
  rewrite (ParseInt_digits w) by done.
  rewrite (ParseInt_digits (pad_frac 2 f)) by auto using pad_frac_digits, pad_frac_nonempty.
  fold (cents_value f).
  generalize dependent (cents_value f). intros cents Hc.
  generalize dependent (digits_value w 0). intros whole Hv. cbv zeta.
  rewrite (proj2 (Z.leb_le cents MaxInt64)) by (unfold MaxInt64; lia).
  destruct (Z.leb_spec whole MaxInt64) as [Hmax|Hmax].
  2:{ destruct (Z.leb_spec (whole * 100 + cents) MaxInt64); [lia|done]. }
  rewrite (int64_wrap_id (MaxInt64 - cents)) by (unfold int64_ok, MinInt64, MaxInt64; lia).
  rewrite Z.quot_div_nonneg by (unfold MaxInt64; lia).
  destruct (Z.leb_spec (whole * 100 + cents) MaxInt64) as [Hle|Hgt].
  - assert (whole ≤ (MaxInt64 - cents) / 100) by (apply Z.div_le_lower_bound; lia).
    destruct (Z.gtb_spec whole ((MaxInt64 - cents) / 100)); [lia|].
    destruct negative; wrap_exact; done.
  - assert ((MaxInt64 - cents) / 100 < whole) by (apply Z.div_lt_upper_bound; lia).
    destruct (Z.gtb_spec whole ((MaxInt64 - cents) / 100)); [done|lia].
Qed.

Lemma sign_match {A} (k : bool → string → A) w t :
  all_digits w = true → w ≠ "" →
  (let '(neg, v) := match w +:+ t with String "-" v => (true, v) | _ => (false, w +:+ t) end
   in k neg v) = k false (w +:+ t).
Proof.
  intros Hw Hne. destruct w as [|c w]; [done|].
  change (String c w +:+ t) with (String c (w +:+ t)).
  simpl in Hw. apply andb_prop in Hw as [Hc _]. apply bool_decide_eq_true_1 in Hc.
  destruct c as [[] [] [] [] [] [] [] []]; first [done | by destruct Hc].
Qed.

(** The decimal notation of amounts: an optional minus, digits, and possibly a
    point with at most two digits after it. *)
Definition decimal_text (negative : bool) (w : string) (frac : option string) : string :=
  with_sign negative (w +:+ match frac with Some f => String "." f | None => "" end).
(** The amount it denotes, in cents. *)
Definition decimal_value (w : string) (frac : option string) : Z :=
  digits_value w 0 * 100 + cents_value (default "" frac).

Section Decimal.
Variables (negative : bool) (w : string) (frac : option string).
Hypotheses (Hw : all_digits w = true) (Hne : w ≠ "").
Hypotheses (Hf : all_digits (default "" frac) = true) (Hl : slen (default "" frac) ≤ 2).

Lemma decimal_text_amount : amount_string (decimal_text negative w frac) = true.
Proof.
  unfold decimal_text. assert (∀ s, amount_string s = true →
    amount_string (with_sign negative s) = true) as Hs.
  { intros s H. destruct negative; [|done]. unfold amount_string in *. simpl.
    by rewrite H. }
  apply Hs. rewrite amount_string_app, (amount_string_digits w) by done.
  destruct frac as [f|]; [|done].
  change (String "." f) with ("." +:+ f).
  rewrite amount_string_app, (amount_string_digits f) by done. done.
Qed.

Lemma decimal_text_nonempty : decimal_text negative w frac ≠ "".
Proof. unfold decimal_text, with_sign. by destruct negative, w. Qed.

Lemma decimal_split :
  Split "." (w +:+ match frac with Some f => String "." f | None => "" end) =
  w :: match frac with Some f => [f] | None => [] end.
Proof.
  destruct frac as [f|].
  - simpl in Hf. by rewrite Split_sep, Split_lacks by by apply all_digits_lacks.
  - rewrite <-(Split_lacks "." w (all_digits_lacks "." w eq_refl Hw)). f_equal.
    clear Hw Hne. induction w as [|c w' IH]; [done|].
    change (String c w' +:+ "") with (String c (w' +:+ "")). by rewrite IH.
Qed.

Lemma ParseMoney_decimal_text :
  ParseMoney (decimal_text negative w frac) =
  let v := decimal_value w frac in
  if v <=? MaxInt64 then Ok (if negative then - v else v) else Err ErrInvalidMoney.
Proof.
  unfold ParseMoney. rewrite TrimSpace_amount by apply decimal_text_amount.
  rewrite bool_decide_eq_false_2 by apply decimal_text_nonempty.
  rewrite ContainsAny_amount by apply decimal_text_amount. simpl orb. cbv iota.
  set (tail := match frac with Some f => String "." f | None => "" end).
  assert (∀ A (k : bool → string → A),
    (let '(neg, v) := match decimal_text negative w frac with
       | String "-" v => (true, v) | _ => (false, decimal_text negative w frac) end
     in k neg v) = k negative (w +:+ tail)) as Hsign.
  { intros A k. unfold decimal_text, with_sign. fold tail. destruct negative; [done|].
    by apply sign_match. }
  rewrite Hsign. clear Hsign. subst tail. rewrite decimal_split.
  etrans; [|exact (parse_parts w (default "" frac) Hw Hne Hf Hl negative)].
  assert (bool_decide (w = "") = false) as Hwb by by apply bool_decide_eq_false_2.
  destruct frac as [f|]; simpl in *.
  - rewrite Hwb. destruct (Z.ltb_spec 2 (slen f)); [lia|done].
  - by rewrite Hwb.
Qed.
End Decimal.

(** ** Facts: printing *)

Lemma fmt_digits_value fuel n :
  0 ≤ n < 10 ^ Z.of_nat fuel → (0 < fuel)%nat → digits_value (fmt_digits fuel n "") 0 = n.
Proof.
  intros Hn Hf. pose proof (parse_fmt_digits fuel n "" Hn Hf) as Hp.
  rewrite (parse_digits_value _ 0) in Hp by by apply all_digits_fmt.
  by injection Hp.
Qed.

Lemma fmt_nonneg_spec n :
  0 ≤ n ≤ MaxInt64 →
  all_digits (fmt_nonneg n) = true ∧ fmt_nonneg n ≠ "" ∧ digits_value (fmt_nonneg n) 0 = n.
Proof.
  intros Hn. unfold fmt_nonneg. split_and!.
  - by apply all_digits_fmt.
  - apply fmt_digits_nonempty. lia.
  - apply fmt_digits_value; [|lia]. unfold MaxInt64 in Hn. lia.
Qed.

Lemma fmt_02d_cents n :
  0 ≤ n < 100 →
  all_digits (fmt_02d n) = true ∧ slen (fmt_02d n) ≤ 2 ∧ cents_value (fmt_02d n) = n.
Proof.
  intros Hn.
  assert (forallb (λ k : nat, let f := fmt_02d (Z.of_nat k) in
    all_digits f && (slen f <=? 2) && (cents_value f =? Z.of_nat k)) (seq 0 100) = true)
    as Hall by (vm_compute; done).
  rewrite forallb_forall in Hall. specialize (Hall (Z.to_nat n)).
  rewrite Z2Nat.id in Hall by lia. cbv zeta in Hall.
  destruct (andb_prop _ _ (Hall ltac:(apply in_seq; lia))) as [H12 H3].
  apply andb_prop in H12 as [H1 H2]. split_and!; [done|lia|lia].
Qed.

(** Except for the smallest amount, whose negation wraps, [String] writes
    decimal notation. *)
Lemma Money_String_text m :
  int64_ok m → m ≠ MinInt64 →
  Money_String m = decimal_text (m <? 0) (fmt_nonneg (Z.quot (Z.abs m) 100))
                     (Some (fmt_02d (Z.rem (Z.abs m) 100))).
Proof.
  intros Hok Hmin. unfold int64_ok, MinInt64, MaxInt64 in *.
  pose proof (Z.quot_pos (Z.abs m) 100 ltac:(lia) ltac:(lia)) as Hq.
  unfold Money_String, decimal_text, with_sign, fmt_d.
  destruct (Z.ltb_spec m 0) as [Hneg|Hpos].
  - wrap_exact. replace (Z.abs m) with (- m) in * by lia.
    destruct (Z.ltb_spec (Z.quot (- m) 100) 0); [lia|done].
  - replace (Z.abs m) with m in * by lia.
    destruct (Z.ltb_spec (Z.quot m 100) 0); [lia|done].
Qed.

Lemma Money_String_decimal m :
  int64_ok m → m ≠ MinInt64 →
  ∃ w f, Money_String m = decimal_text (m <? 0) w (Some f) ∧
    all_digits w = true ∧ w ≠ "" ∧ all_digits f = true ∧ slen f ≤ 2 ∧
    decimal_value w (Some f) = Z.abs m.
Proof.
  intros Hok Hmin. pose proof (Money_String_text m Hok Hmin) as Ht. unfold int64_ok, MinInt64, MaxInt64 in *.
  pose proof (Z.quot_rem' (Z.abs m) 100) as Hqr.
  pose proof (Z.rem_bound_pos (Z.abs m) 100 ltac:(lia) ltac:(lia)) as Hr.
  pose proof (Z.quot_pos (Z.abs m) 100 ltac:(lia) ltac:(lia)) as Hq.
  destruct (fmt_nonneg_spec (Z.quot (Z.abs m) 100)) as (Hw & Hne & Hwv); [unfold MaxInt64; lia|].
  destruct (fmt_02d_cents (Z.rem (Z.abs m) 100)) as (Hf & Hl & Hfv); [lia|].
  do 2 eexists. split_and!; [exact Ht|done..|]. unfold decimal_value. simpl. rewrite Hwv, Hfv. lia.
Qed.

Lemma parse_printed m : int64_ok m → ParseMoney (Money_String m) = Ok m.
Proof.
  intros Hok. destruct (decide (m = MinInt64)) as [->|Hne]; [vm_compute; done|].
  destruct (Money_String_decimal m) as (w & f & -> & Hw & Hwne & Hf & Hl & Hv); [done..|].
  rewrite ParseMoney_decimal_text by done. cbv zeta. rewrite Hv.
  unfold int64_ok, MinInt64, MaxInt64 in *.
  destruct (Z.leb_spec (Z.abs m) (2 ^ 63 - 1)); [|lia].
  f_equal. destruct (Z.ltb_spec m 0); lia.
Qed.

(** ** Properties *)

(** C33: every 64-bit amount is parsed back from its text: what [Money.String]
    (and so [MarshalJSON]) writes, [ParseMoney] reads as the same amount.  This
    includes the smallest amount, whose negation overflows in both functions. *)
Theorem ParseMoney_String m : int64_ok m → ParseMoney (Money_String m) = Ok m.
Proof. apply parse_printed. Qed.

Lemma ParseMoney_String_witness : int64_ok (-1250) ∧ ParseMoney (Money_String (-1250)) = Ok (-1250).
Proof. split; [vm_compute; split; intros [=]|apply ParseMoney_String; vm_compute; split; intros [=]]. Defined.

(** On decimal notation (an optional minus, digits, and possibly a point
    with at most two digits), with white space around it, [ParseMoney] returns
    exactly the amount denoted, and [ErrInvalidMoney] exactly when its
    magnitude exceeds an [int64]. *)
Theorem ParseMoney_decimal s negative w frac :
  TrimSpace s = decimal_text negative w frac →
  all_digits w = true → w ≠ "" →
  all_digits (default "" frac) = true → slen (default "" frac) ≤ 2 →
  ParseMoney s =
  if decimal_value w frac <=? MaxInt64
  then Ok (if negative then - decimal_value w frac else decimal_value w frac)
  else Err ErrInvalidMoney.
Proof.
  intros Hs Hw Hne Hf Hl.
  etrans; [|exact (ParseMoney_decimal_text negative w frac Hw Hne Hf Hl)].
  unfold ParseMoney. by rewrite <-Hs, TrimSpace_idemp.
Qed.

Lemma ParseMoney_decimal_witness : ParseMoney " -12.5 " = Ok (-1250).
Proof. apply (ParseMoney_decimal _ true "12" (Some "5")); vm_compute; by intros. Defined.

(** A second sign slips through: [strconv.ParseInt] accepts it in the
    whole part and, if it is a plus, in the fraction, so texts that are not
    amounts are read as amounts, with the fraction subtracted, or with the
    multiplication by 100 silently wrapping around. *)
Theorem ParseMoney_second_sign :
  ParseMoney "--5.25" = Ok 475 ∧ ParseMoney "1.+5" = Ok 105 ∧
  ParseMoney "--92233720368547760" = Ok (-9223372036854775616).
Proof. vm_compute. done. Qed.

(** [VariableFeePolicy] rounds half up to a cent: as long as the product
    fits an [int64], the fee is the nearest number of cents to
    [amount * BasisPoints / 10000], and not negative. *)
Theorem CalculateFee_rounds bp amount :
  0 ≤ amount → 0 ≤ bp → amount * bp + 5000 ≤ MaxInt64 →
  let fee := CalculateFee (VariableFeePolicy bp) amount in
  0 ≤ fee ∧ - 5000 < fee * 10000 - amount * bp ≤ 5000.
Proof.
  intros Ha Hb Hmax. assert (0 ≤ amount * bp) by (by apply Z.mul_nonneg_nonneg).
  cbv zeta. simpl. wrap_exact. rewrite Z.quot_div_nonneg by lia.
  pose proof (Z.div_mod (amount * bp + 5000) 10000 ltac:(lia)).
  pose proof (Z.mod_pos_bound (amount * bp + 5000) 10000 ltac:(lia)). lia.
Qed.

Lemma CalculateFee_rounds_witness :
  let fee := CalculateFee (VariableFeePolicy 25) 12345 in
  0 ≤ fee ∧ - 5000 < fee * 10000 - 12345 * 25 ≤ 5000.
Proof. apply CalculateFee_rounds; vm_compute; by intros. Defined.
