(* ===== verification/Account.v ===== *)
(** * Accounts as views of their event streams: internal/domain/account.go.

    [ReplayAccount] and [ReplayAccountFrom] fold the events of a stream.  The
    facts relate the wrapped [int64] result to exact sums, and a replay that
    starts at a snapshot to a full one. *)
From S2P Require Export Money.

(** ** Definitions *)

Definition fold_event (a : Account) (ev : Event) : Account :=
  let '(mkAccount id balance reserved available) := a in
  match ev with
  | EAccountOpened e => mkAccount id (ao_InitialBalance e) reserved available
  | EMoneyCredited e => mkAccount id (balance +! mc_Amount e) reserved available
  | EMoneyDebited e => mkAccount id (balance -! md_Amount e) reserved available
  | EFundsReserved e => mkAccount id balance (reserved +! fr_Amount e) available
  | EReservationCaptured e => mkAccount id balance (reserved -! rcap_Amount e) available
  | EReservationReleased e => mkAccount id balance (reserved -! rrel_Amount e) available
  end.

(** [a.AvailableBalance = a.Balance - a.ReservedBalance]. *)
Definition set_available (a : Account) : Account :=
  mkAccount (acc_ID a) (acc_Balance a) (acc_ReservedBalance a)
    (acc_Balance a -! acc_ReservedBalance a).

Definition ReplayAccountFrom (id : string) (snap : option AccountSnapshot)
    (events : list Event) : Account :=
  match snap with
  | Some s =>
      if bool_decide (snap_AggregateID s = id) then
        let cutoff := snap_AsOfSequence s in
        set_available
          (foldl (λ a ev, if Version ev <=? cutoff then a else fold_event a ev)
             (mkAccount id (snap_Balance s) (snap_ReservedBalance s) 0) events)
      else set_available (foldl fold_event (mkAccount id 0 0 0) events)
  | None => set_available (foldl fold_event (mkAccount id 0 0 0) events)
  end.

Definition ReplayAccount (id : string) (events : list Event) : Account :=
  ReplayAccountFrom id None events.

(** ** Exact sums *)

(** The balance and the reserved balance of a stream as exact numbers: what
    the account would hold if amounts did not wrap. *)
Definition balance_step (b : Z) (ev : Event) : Z :=
  match ev with
  | EAccountOpened e => ao_InitialBalance e
  | EMoneyCredited e => b + mc_Amount e
  | EMoneyDebited e => b - md_Amount e
  | _ => b
  end.
Definition reserved_step (r : Z) (ev : Event) : Z :=
  match ev with
  | EFundsReserved e => r + fr_Amount e
  | EReservationCaptured e => r - rcap_Amount e
  | EReservationReleased e => r - rrel_Amount e
  | _ => r
  end.
Definition exact_balance (events : list Event) : Z := foldl balance_step 0 events.
Definition exact_reserved (events : list Event) : Z := foldl reserved_step 0 events.

(** The amount an event carries. *)
Definition event_amount (ev : Event) : Z :=
  match ev with
  | EAccountOpened e => ao_InitialBalance e
  | EMoneyDebited e => md_Amount e
  | EMoneyCredited e => mc_Amount e
  | EFundsReserved e => fr_Amount e
  | EReservationCaptured e => rcap_Amount e
  | EReservationReleased e => rrel_Amount e
  end.

(** The event at position [i] of a stream carries sequence number [i]. *)
Definition versions_ok (events : list Event) : Prop :=
  ∀ i ev, events !! i = Some ev → Version ev = Z.of_nat i.

(** ** Facts *)

Lemma fold_event_ID a ev : acc_ID (fold_event a ev) = acc_ID a.
Proof. by destruct a, ev. Qed.

Lemma ReplayAccount_ID id events : acc_ID (ReplayAccount id events) = id.
Proof.
  unfold ReplayAccount. simpl.
  assert (∀ a, acc_ID (foldl fold_event a events) = acc_ID a) as H; [|by rewrite H].
  induction events as [|ev events IH]; intros a; simpl; [done|].
  by rewrite IH, fold_event_ID.
Qed.

Section Exact.
Implicit Types (events : list Event) (a : Account).

Lemma foldl_balance events a b r :
  Forall (λ ev, int64_ok (event_amount ev)) events →
  acc_Balance a = int64_wrap b → acc_ReservedBalance a = int64_wrap r →
  acc_Balance (foldl fold_event a events) = int64_wrap (foldl balance_step b events) ∧
  acc_ReservedBalance (foldl fold_event a events) = int64_wrap (foldl reserved_step r events).
Proof.
  intros Hok. revert a b r. induction Hok as [|ev events Hev Hevs IH]; intros a b r Hb Hr; [done|].
  simpl. apply IH; destruct a, ev; simpl in *; subst; wrap_solve; by rewrite int64_wrap_id.
Qed.

Lemma ReplayAccount_exact id events :
  Forall (λ ev, int64_ok (event_amount ev)) events →
  ReplayAccount id events =
  mkAccount id (int64_wrap (exact_balance events)) (int64_wrap (exact_reserved events))
    (int64_wrap (exact_balance events - exact_reserved events)).
Proof.
  intros Hok. destruct (foldl_balance events (mkAccount id 0 0 0) 0 0) as [Hb Hr];
    [done|vm_compute; done..|].
  pose proof (ReplayAccount_ID id events) as Hid.
  unfold ReplayAccount in *. simpl in *. unfold set_available in *. simpl in Hid.
  rewrite Hid, Hb, Hr. unfold exact_balance, exact_reserved. f_equal. wrap_solve.
Qed.

Lemma exact_balance_snoc events ev :
  exact_balance (events ++ [ev]) = balance_step (exact_balance events) ev.
Proof. unfold exact_balance. by rewrite foldl_app. Qed.
Lemma exact_reserved_snoc events ev :
  exact_reserved (events ++ [ev]) = reserved_step (exact_reserved events) ev.
Proof. unfold exact_reserved. by rewrite foldl_app. Qed.
End Exact.

(** Replays only look at the balance and the reserved balance. *)
Lemma foldl_skip cutoff a events :
  (∀ ev, ev ∈ events → Version ev ≤ cutoff) →
  foldl (λ a ev, if Version ev <=? cutoff then a else fold_event a ev) a events = a.
Proof.
  revert a. induction events as [|ev events IH]; intros a H; simpl; [done|].
  rewrite (proj2 (Z.leb_le _ _)) by (apply H; left). apply IH. intros ev' ?. apply H. by right.
Qed.

Lemma foldl_keep cutoff a events :
  (∀ ev, ev ∈ events → cutoff < Version ev) →
  foldl (λ a ev, if Version ev <=? cutoff then a else fold_event a ev) a events =
  foldl fold_event a events.
Proof.
  revert a. induction events as [|ev events IH]; intros a H; simpl; [done|].
  rewrite (proj2 (Z.leb_gt _ _)) by (apply H; left). apply IH. intros ev' ?. apply H. by right.
Qed.

Lemma versions_ok_take n events : versions_ok events → versions_ok (take n events).
Proof. intros H i ev Hi. apply H. apply lookup_take_Some in Hi. tauto. Qed.

Lemma versions_ok_snoc events ev :
  versions_ok events → Version ev = Z.of_nat (length events) → versions_ok (events ++ [ev]).
Proof.
  intros H Hv i ev'. destruct (decide (i < length events)%nat).
  - rewrite lookup_app_l by done. apply H.
  - intros Hi. rewrite lookup_app_r in Hi by lia. apply list_lookup_singleton_Some in Hi as [? <-].
    rewrite Hv. lia.
Qed.

#[export] Hint Resolve versions_ok_take versions_ok_snoc : core.

(** The fields a replay reads off the state it starts from. *)
Lemma foldl_fold_event_available id b r v v' events :
  set_available (foldl fold_event (mkAccount id b r v) events) =
  set_available (foldl fold_event (mkAccount id b r v') events).
Proof.
  revert b r. induction events as [|ev events IH]; intros b r; simpl; [done|].
  destruct ev; apply IH.
Qed.

(** The snapshot of a replay, cut off at sequence number [seq]. *)
Definition snapshot_of (a : Account) (seq : Z) (at_ : Time) : AccountSnapshot :=
  mkAccountSnapshot (acc_ID a) (acc_Balance a) (acc_ReservedBalance a)
    (acc_AvailableBalance a) seq at_.

(** A replay from the snapshot of the first [n] events over the first [k]
    events is the replay of whichever is longer. *)
Lemma replay_from_snapshot id events n k at_ :
  versions_ok events → (n ≤ length events)%nat →
  ReplayAccountFrom id
    (Some (snapshot_of (ReplayAccount id (take n events)) (Z.of_nat n - 1) at_)) (take k events)
  = ReplayAccount id (take (n `max` k) events).
Proof.
  intros Hv Hn.
  assert (∀ m i ev, take m events !! i = Some ev → Version ev = Z.of_nat i ∧ (i < m)%nat) as Hver.
  { intros m i ev Hi. apply lookup_take_Some in Hi as [Hi Hm]. split; [by apply Hv|done]. }
  pose proof (ReplayAccount_ID id (take n events)) as Hid.
  unfold ReplayAccount, ReplayAccountFrom in *.
  set (a := foldl fold_event (mkAccount id 0 0 0) (take n events)) in *.
  unfold snapshot_of. simpl in *. rewrite Hid, bool_decide_eq_true_2 by done.
  destruct (decide (k ≤ n)%nat) as [Hkn|Hkn].
  - rewrite Nat.max_l, foldl_skip; [|  |done].
    + fold a. unfold set_available. simpl. by rewrite Hid.
    + intros ev [i Hi]%list_elem_of_lookup. destruct (Hver _ _ _ Hi). lia.
  - rewrite Nat.max_r by lia.
    rewrite <-(take_drop n (take k events)), take_take, Nat.min_l by lia.
    rewrite !foldl_app, (foldl_skip _ _ (take n events)), (foldl_keep _ _ (drop n _)).
    + fold a. clearbody a. destruct a. simpl in *. subst. apply foldl_fold_event_available.
    + intros ev [i Hi]%list_elem_of_lookup. rewrite lookup_drop in Hi.
      destruct (Hver _ _ _ Hi). lia.
    + intros ev [i Hi]%list_elem_of_lookup. destruct (Hver _ _ _ Hi). lia.
Qed.

(** ** Properties *)

(** C31: a replay yields the signed 64-bit image of the exact ledger: the balance
    of the last opening plus the credits minus the debits since, the holds not
    yet captured or released, and their difference as the available balance. *)
Theorem ReplayAccount_ledger id events :
  Forall (λ ev, int64_ok (event_amount ev)) events →
  let a := ReplayAccount id events in
  acc_ID a = id ∧
  acc_Balance a = int64_wrap (exact_balance events) ∧
  acc_ReservedBalance a = int64_wrap (exact_reserved events) ∧
  acc_AvailableBalance a = int64_wrap (exact_balance events - exact_reserved events).
Proof. intros H. cbv zeta. by rewrite ReplayAccount_exact. Qed.

Definition sample_opened : Event :=
  EAccountOpened (mkAccountOpened "acc1" "AccountOpened" 0 0 "acc1" 10000).
Definition sample_credit : Event :=
  EMoneyCredited (mkMoneyCredited "acc1" "MoneyCredited" 1 0 "acc1" 2500 "" "" "" "" "" "" "").
Definition sample_hold : Event :=
  EFundsReserved (mkFundsReserved "acc1" "FundsReserved" 2 0 "acc1" 400 "trf_1").

Lemma ReplayAccount_ledger_witness :
  acc_AvailableBalance (ReplayAccount "acc1" [sample_opened; sample_credit; sample_hold]) =
  int64_wrap (12500 - 400).
Proof.
  apply (ReplayAccount_ledger "acc1" [sample_opened; sample_credit; sample_hold]).
  repeat constructor; vm_compute; intros [=].
Defined.

(** C30: a snapshot plus its tail equals a full replay wherever the boundary
    falls: from the snapshot of the first [n] events of a stream, replaying any
    first [k] events of it gives the account after the first [max n k].  With
    [n <= k] this is the full replay; with [k < n] (the events were loaded
    before a newer snapshot was stored) it is the newer state. *)
Theorem ReplayAccountFrom_snapshot id events n k at_ :
  versions_ok events → (n ≤ length events)%nat →
  let snap := snapshot_of (ReplayAccount id (take n events)) (Z.of_nat n - 1) at_ in
  ReplayAccountFrom id (Some snap) (take k events) = ReplayAccount id (take (n `max` k) events).
Proof. apply replay_from_snapshot. Qed.

Lemma ReplayAccountFrom_snapshot_witness :
  let evs := [sample_opened; sample_credit; sample_hold] in
  ReplayAccountFrom "acc1"
    (Some (snapshot_of (ReplayAccount "acc1" (take 2 evs)) (Z.of_nat 2 - 1) 0)) (take 3 evs) =
  ReplayAccount "acc1" (take 3 evs).
Proof.
  apply (ReplayAccountFrom_snapshot "acc1" [sample_opened; sample_credit; sample_hold] 2 3 0).
  - intros [|[|[|i]]] ev; simpl; intros [= <-]; reflexivity.
  - simpl. lia.
Defined.

#[global] Arguments ReplayAccount : simpl never.
