(* ===== verification/Json.v ===== *)
(** * The parts of Go's encoding/json the program uses, on JSON values.

    The step between bytes and values (the grammar of JSON) is left out: a body
    is the value its bytes denote.  A struct is decoded key by key into a
    variable that holds the values so far, and a [MarshalJSON] method that fails
    makes the encoding of the whole value fail. *)
From S2P Require Export Rfc3339 Money.

(** A number is kept as its literal, which is what an [UnmarshalJSON] method
    sees.  [JError] stands for a value whose [MarshalJSON] fails; no text
    denotes it. *)
#[local] Unset Elimination Schemes.
Inductive json : Type :=
| JNull
| JBool (b : bool)
| JNumber (literal : string)
| JString (s : string)
| JArray (items : list json)
| JObject (fields : list (string * json))
| JError.
#[local] Set Elimination Schemes.

(** ** Encoding *)

Fixpoint encodable (j : json) : bool :=
  match j with
  | JNull | JBool _ | JNumber _ | JString _ => true
  | JArray items => forallb encodable items
  | JObject fields => forallb (λ kv, encodable kv.2) fields
  | JError => false
  end.

(** [json.Marshal]. *)
Definition Marshal (j : json) : option json := if encodable j then Some j else None.

Definition all_digits' (s : string) : bool := negb (bool_decide (s = "")) && all_digits s.

(** The literals of JSON numbers without an exponent. *)
Definition valid_number (s : string) : bool :=
  let s := match s with String "-" s' => s' | _ => s end in
  let whole w := all_digits' w && (bool_decide (w = "0") || negb (match w with String "0" _ => true | _ => false end)) in
  match Split "." s with
  | [w] => whole w
  | [w; f] => whole w && all_digits' f
  | _ => false
  end.

(** What [json.Marshal] makes of the text a [MarshalJSON] method returns. *)
Definition raw_number (s : string) : json := if valid_number s then JNumber s else JError.

Definition enc_money (m : Money) : json := raw_number (Money_String m).
Definition enc_int (n : Z) : json := JNumber (fmt_d n).
Definition enc_time (t : Time) : json :=
  match time_text t with Some s => JString s | None => JError end.

(** A struct field, and one with the option omitempty. *)
Definition field (name : string) (j : json) : list (string * json) := [(name, j)].
Definition omit_string (name s : string) : list (string * json) :=
  if bool_decide (s = "") then [] else [(name, JString s)].
Definition omit_money (name : string) (m : Money) : list (string * json) :=
  if m =? 0 then [] else [(name, enc_money m)].
Definition omit_int (name : string) (n : Z) : list (string * json) :=
  if n =? 0 then [] else [(name, enc_int n)].
Definition omit_nil {A} (name : string) (enc : A → json) (p : option A) : list (string * json) :=
  match p with Some a => [(name, enc a)] | None => [] end.

(** A Go map is encoded with its keys in order. *)
Definition enc_map (fields : list (string * json)) : json :=
  JObject (merge_sort (λ a b, Is_true (String.leb a.1 b.1)) fields).

(** ** Decoding *)

(** [d j x]: decodes [j] into a variable that holds [x]. *)
Definition decoder (A : Type) : Type := json → A → option A.

Definition dec_string : decoder string := λ j x,
  match j with JNull => Some x | JString s => Some s | _ => None end.
Definition dec_int : decoder Z := λ j x,
  match j with JNull => Some x | JNumber n => ParseInt n | _ => None end.
(** [Money.UnmarshalJSON]: the text of a number or of a string is parsed; that of
    any other value (null, true, false, an object or an array) is no amount. *)
Definition dec_money : decoder Money := λ j _,
  match j with
  | JNumber s | JString s => match ParseMoney s with Ok m => Some m | Err _ => None end
  | _ => None
  end.
(** [Time.UnmarshalJSON]. *)
Definition dec_time : decoder Time := λ j x,
  match j with JNull => Some x | JString s => ParseTime s | _ => None end.
(** A pointer: null is nil, any other value is decoded into a new variable. *)
Definition dec_pointer {A} (zero : A) (d : decoder A) : decoder (option A) := λ j _,
  match j with JNull => Some None | _ => Some <$> d j zero end.

(** The key of a struct field: the exact name, or else a name that is equal up to
    the case of letters.  (Of the characters outside ASCII only U+017F and U+212A
    fold to ASCII letters.) *)
Fixpoint fold_name (s : string) : string :=
  match s with
  | String a (String b s' as r) =>
      if (nat_of_ascii a =? 197)%nat && (nat_of_ascii b =? 191)%nat then String "S" (fold_name s')
      else
        match s' with
        | String c s'' =>
            if (nat_of_ascii a =? 226)%nat && (nat_of_ascii b =? 132)%nat && (nat_of_ascii c =? 170)%nat
            then String "K" (fold_name s'') else String (ascii_upper a) (fold_name r)
        | EmptyString => String (ascii_upper a) (fold_name r)
        end
  | String a r => String (ascii_upper a) (fold_name r)
  | EmptyString => EmptyString
  end.

(** The field of a struct with the fields [names] a key belongs to. *)
Definition resolve (names : list string) (key : string) : option string :=
  match list_find (λ n, n = key) names with
  | Some (_, n) => Some n
  | None => snd <$> list_find (λ n, fold_name n = fold_name key) names
  end.

(** The value of the field [name], [x] before, after the keys of an object have
    been decoded one by one; keys of other fields, or of none, are passed over. *)
Fixpoint member {A} (names : list string) (kvs : list (string * json)) (name : string)
    (d : decoder A) (x : A) : option A :=
  match kvs with
  | [] => Some x
  | (k, j) :: kvs' =>
      if bool_decide (resolve names k = Some name)
      then y ← d j x; member names kvs' name d y
      else member names kvs' name d x
  end.

(** A struct: null leaves it as it is, and only an object decodes into it. *)
Definition dec_struct {T} (fields : list (string * json) → T → option T) : decoder T := λ j x,
  match j with JNull => Some x | JObject kvs => fields kvs x | _ => None end.

Example fold_name_kelvin :
  fold_name ("acc" +:+ String (ascii_of_nat 226) (String (ascii_of_nat 132) (String (ascii_of_nat 170) "_id"))) = "ACCK_ID".
Proof. vm_compute. reflexivity. Qed.

(** ** Facts: objects *)

(** The value of the first member with the key. *)
Fixpoint lookup_key (key : string) (kvs : list (string * json)) : option json :=
  match kvs with
  | [] => None
  | (k, v) :: kvs' => if bool_decide (k = key) then Some v else lookup_key key kvs'
  end.

Lemma lookup_key_app key kvs kvs' :
  lookup_key key (kvs ++ kvs') =
  match lookup_key key kvs with Some v => Some v | None => lookup_key key kvs' end.
Proof. induction kvs as [|[k v] kvs IH]; simpl; [done|]. by case_bool_decide. Qed.

Lemma lookup_key_omit_string key name s :
  name ≠ key → lookup_key key (omit_string name s) = None.
Proof. intros Hne. unfold omit_string. case_bool_decide; simpl; [done|]. by rewrite bool_decide_eq_false_2. Qed.

Lemma lookup_key_field key name j :
  lookup_key key (field name j) = if bool_decide (name = key) then Some j else None.
Proof. done. Qed.

Lemma lookup_key_elem key kvs j :
  NoDup kvs.*1 → lookup_key key kvs = Some j ↔ (key, j) ∈ kvs.
Proof.
  induction kvs as [|[k v] kvs IH]; cbn [lookup_key fmap list_fmap fst].
  { intros _. split; [done|]. by intros ?%not_elem_of_nil. }
  intros [Hk Hnd]%NoDup_cons. rewrite elem_of_cons. case_bool_decide as Hkey; [subst|].
  - split; [intros [= ->]; by left|]. intros [[= ->]|Hin]; [done|].
    destruct Hk. apply list_elem_of_fmap. by exists (key, j).
  - rewrite IH by done. split; [by right|]. intros [[= -> _]|Hin]; done.
Qed.

Lemma lookup_key_perm key kvs kvs' :
  NoDup kvs.*1 → kvs ≡ₚ kvs' → lookup_key key kvs = lookup_key key kvs'.
Proof.
  intros Hnd Hp. assert (NoDup kvs'.*1) as Hnd' by by rewrite <-Hp.
  apply option_eq. intros j. by rewrite !lookup_key_elem, Hp.
Qed.

Lemma resolve_exact names key : key ∈ names → resolve names key = Some key.
Proof.
  intros Hk. unfold resolve. destruct (list_find (λ n, n = key) names) as [[i n]|] eqn:Hf.
  - by apply list_find_Some in Hf as (_ & -> & _).
  - apply list_find_None in Hf. rewrite Forall_forall in Hf. by destruct (Hf key Hk).
Qed.

Lemma member_absent {A} names kvs name (d : decoder A) x :
  (∀ k, k ∈ kvs.*1 → k ∈ names) → name ∉ kvs.*1 → member names kvs name d x = Some x.
Proof.
  induction kvs as [|[k j] kvs IH]; intros Hk Hn; [done|]. simpl in *.
  rewrite resolve_exact by (apply Hk; by left). rewrite bool_decide_eq_false_2.
  - apply IH; [intros k' Hk'; apply Hk; by right|]. intros Hin. apply Hn. by right.
  - intros [= ->]. apply Hn. by left.
Qed.

(** A field of an object whose keys are fields, each once. *)
Lemma member_lookup {A} names kvs name (d : decoder A) x :
  NoDup kvs.*1 → (∀ k, k ∈ kvs.*1 → k ∈ names) →
  member names kvs name d x = match lookup_key name kvs with Some j => d j x | None => Some x end.
Proof.
  induction kvs as [|[k j] kvs IH]; intros Hnd Hk; [done|]. simpl in *.
  apply NoDup_cons in Hnd as [Hkn Hnd]. rewrite resolve_exact by (apply Hk; by left).
  destruct (decide (k = name)) as [->|Hne].
  - rewrite !bool_decide_eq_true_2 by done. destruct (d j x) as [y|]; [|done]. simpl.
    apply member_absent; [|done]. intros k' Hk'. apply Hk. by right.
  - rewrite !bool_decide_eq_false_2 by congruence. apply IH; [done|]. intros k' Hk'. apply Hk. by right.
Qed.

(** ** Facts: amounts are valid JSON numbers *)

Lemma fmt_digits_leading fuel n acc :
  0 < n < 10 ^ Z.of_nat fuel →
  ∃ d s, fmt_digits fuel n acc = String (digit_char d) s ∧ 1 ≤ d ≤ 9.
Proof.
  revert n acc. induction fuel as [|fuel IH]; intros n acc Hn; [simpl in Hn; lia|]. cbn [fmt_digits].
  destruct (Z.ltb_spec n 10).
  - exists n. eexists. rewrite Z.mod_small by lia. split; [done|lia].
  - apply IH. rewrite Nat2Z.inj_succ, Z.pow_succ_r in Hn by lia.
    split; [apply Z.div_str_pos; lia|apply Z.div_lt_upper_bound; lia].
Qed.

Lemma valid_number_decimal negative w f :
  all_digits w = true → w ≠ "" → (w = "0" ∨ ∃ d s, w = String (digit_char d) s ∧ 1 ≤ d ≤ 9) →
  all_digits f = true → f ≠ "" → valid_number (decimal_text negative w (Some f)) = true.
Proof.
  intros Hw Hwne Hlead Hf Hfne. unfold valid_number, all_digits'.
  assert (match decimal_text negative w (Some f) with String "-" s' => s' | _ => decimal_text negative w (Some f) end =
          w +:+ String "." f) as ->.
  { unfold decimal_text, with_sign. destruct negative; [done|].
    pose proof (sign_match (λ _ v, v) w (String "." f) Hw Hwne) as Hs. etrans; [|exact Hs].
    destruct (w +:+ String "." f) as [|[[] [] [] [] [] [] [] []] ?]; done. }
  rewrite Split_sep, Split_lacks by by apply all_digits_lacks.
  rewrite Hw, Hf, (bool_decide_eq_false_2 (w = "")), (bool_decide_eq_false_2 (f = "")) by done.
  cbn [negb andb]. rewrite andb_true_r. apply orb_true_iff.
  destruct Hlead as [->|(d & t & -> & Hd)]; [by left|right].
  assert (d = 1 ∨ d = 2 ∨ d = 3 ∨ d = 4 ∨ d = 5 ∨ d = 6 ∨ d = 7 ∨ d = 8 ∨ d = 9) as Hds by lia.
  by destruct_or! Hds; subst d.
Qed.

Lemma fmt_02d_nonempty n : 0 ≤ n < 100 → fmt_02d n ≠ "".
Proof.
  intros Hn. unfold fmt_02d, fmt_d. destruct (Z.ltb_spec n 0); [lia|].
  case_match; [done|]. apply fmt_digits_nonempty. lia.
Qed.

(** Every amount but the smallest is written as a JSON number, and read back. *)
Lemma enc_money_number m : int64_ok m → m ≠ MinInt64 → enc_money m = JNumber (Money_String m).
Proof.
  intros Hok Hne. unfold enc_money, raw_number. rewrite Money_String_text by done.
  pose proof (Z.rem_bound_pos (Z.abs m) 100 ltac:(lia) ltac:(lia)) as Hr.
  pose proof (Z.quot_pos (Z.abs m) 100 ltac:(lia) ltac:(lia)) as Hq.
  assert (Z.quot (Z.abs m) 100 < 10 ^ 20) as Hlt.
  { apply Z.quot_lt_upper_bound; [lia..|]. unfold int64_ok, MinInt64, MaxInt64 in *. lia. }
  rewrite valid_number_decimal; [done|..].
  - by apply all_digits_fmt.
  - apply fmt_digits_nonempty. lia.
  - destruct (Z.eqb_spec (Z.quot (Z.abs m) 100) 0) as [->|Hnz]; [by left|right].
    apply fmt_digits_leading. lia.
  - apply fmt_02d_cents. lia.
  - apply fmt_02d_nonempty. lia.
Qed.

Lemma dec_enc_money m x : int64_ok m → m ≠ MinInt64 → dec_money (enc_money m) x = Some m.
Proof. intros Hok Hne. rewrite enc_money_number by done. simpl. by rewrite parse_printed. Qed.

Lemma dec_enc_int n x : 0 ≤ n ≤ MaxInt64 → dec_int (enc_int n) x = Some n.
Proof.
  intros Hn. simpl. unfold fmt_d. destruct (Z.ltb_spec n 0); [lia|].
  destruct (fmt_nonneg_spec n) as (Hd & Hne & Hv); [lia|].
  rewrite (ParseInt_digits _ Hd Hne), Hv. destruct (Z.leb_spec n MaxInt64); [done|lia].
Qed.

Lemma dec_enc_time t x : (0 ≤ Year t ≤ 9999) → dec_time (enc_time t) x = Some t.
Proof.
  intros Hy. unfold enc_time. destruct (time_text t) as [s|] eqn:Ht.
  - simpl. by apply ParseTime_text.
  - unfold time_text in Ht. destruct (Z.leb_spec 0 (Year t)), (Z.leb_spec (Year t) 9999); (lia || done).
Qed.
