(* ===== verification/Codec.v ===== *)
(** * The JSON forms of the domain types (the struct tags of internal/domain).

    What the router reads and writes, and what the PostgreSQL store keeps as the
    payload of an event. *)
From S2P Require Export Json Account.

(** ** Encoders *)

Definition enc_account (a : Account) : json := JObject (
  field "ID" (JString (acc_ID a)) ++ field "Balance" (enc_money (acc_Balance a)) ++
  field "ReservedBalance" (enc_money (acc_ReservedBalance a)) ++
  field "AvailableBalance" (enc_money (acc_AvailableBalance a))).

(** A pointer that may be nil. *)
Definition enc_pointer {A} (enc : A → json) (p : option A) : json :=
  match p with Some a => enc a | None => JNull end.

Definition enc_deposit_receipt (r : DepositReceipt) : json := JObject (
  field "InitialAccount" (enc_account (dr_InitialAccount r)) ++
  field "FinalAccount" (enc_account (dr_FinalAccount r)) ++
  field "DepositAmount" (enc_money (dr_DepositAmount r))).

Definition enc_withdrawal_receipt (r : WithdrawalReceipt) : json := JObject (
  field "InitialAccount" (enc_account (wr_InitialAccount r)) ++
  field "FinalAccount" (enc_account (wr_FinalAccount r)) ++
  field "WithdrawalAmount" (enc_money (wr_WithdrawalAmount r))).

(** The idempotency key is not shown. *)
Definition enc_transfer_record (r : TransferRecord) : json := JObject (
  field "transfer_id" (JString (tr_ID r)) ++
  field "source_account_id" (JString (tr_SourceAccountID r)) ++
  field "destination_account_id" (JString (tr_DestinationAccountID r)) ++
  field "amount" (enc_money (tr_Amount r)) ++ field "fee" (enc_money (tr_Fee r)) ++
  field "status" (JString (tr_Status r)) ++ omit_string "failure_code" (tr_FailureCode r) ++
  field "initial_source_balance" (enc_money (tr_InitialSourceBalance r)) ++
  field "final_source_balance" (enc_money (tr_FinalSourceBalance r)) ++
  field "created_at" (enc_time (tr_CreatedAt r)) ++
  field "updated_at" (enc_time (tr_UpdatedAt r)) ++
  field "current_step" (JString (tr_CurrentStep r)) ++
  omit_string "compliance_status" (tr_ComplianceStatus r) ++
  omit_int "attempt_count" (tr_AttemptCount r) ++
  field "next_attempt_at" (enc_time (tr_NextAttemptAt r)) ++
  omit_string "last_error" (tr_LastError r)).

Definition enc_adjustment (r : AdjustmentRequest) : json := JObject (
  field "adjustment_id" (JString (adj_ID r)) ++ field "type" (JString (adj_Type r)) ++
  field "status" (JString (adj_Status r)) ++ field "account_id" (JString (adj_AccountID r)) ++
  omit_string "direction" (adj_Direction r) ++ field "amount" (enc_money (adj_Amount r)) ++
  omit_money "fee" (adj_Fee r) ++
  omit_string "counterparty_account_id" (adj_CounterpartyAccountID r) ++
  omit_string "original_transfer_id" (adj_OriginalTransferID r) ++
  omit_string "original_account_id" (adj_OriginalAccountID r) ++
  omit_nil "original_event_sequence" enc_int (adj_OriginalEventSequence r) ++
  field "reason" (JString (adj_Reason r)) ++
  field "case_reference" (JString (adj_CaseReference r)) ++
  field "created_by" (JString (adj_CreatedBy r)) ++
  omit_string "reviewed_by" (adj_ReviewedBy r) ++
  omit_string "rejection_reason" (adj_RejectionReason r) ++
  field "created_at" (enc_time (adj_CreatedAt r)) ++
  omit_nil "reviewed_at" enc_time (adj_ReviewedAt r)).

Definition enc_principal (p : Principal) : json := JObject (
  omit_string "customer_id" (pr_CustomerID p) ++ omit_string "account_id" (pr_AccountID p) ++
  omit_string "admin_id" (pr_AdminID p) ++ field "email" (JString (pr_Email p)) ++
  field "role" (JString (pr_Role p)) ++ omit_string "kyc_status" (pr_KYCStatus p) ++
  omit_string "rejection_reason" (pr_RejectionReason p)).

Definition enc_onboarding_receipt (r : OnboardingReceipt) : json := JObject (
  field "customer_id" (JString (or_CustomerID r)) ++
  field "kyc_status" (JString (or_KYCStatus r))).

Definition summary_fields (a : ApplicationSummary) : list (string * json) :=
  field "customer_id" (JString (as_CustomerID a)) ++
  field "legal_first_name" (JString (as_LegalFirstName a)) ++
  field "legal_last_name" (JString (as_LegalLastName a)) ++
  field "email" (JString (as_Email a)) ++ field "kyc_status" (JString (as_KYCStatus a)) ++
  field "requested_initial_deposit" (enc_money (as_RequestedDeposit a)) ++
  field "created_at" (enc_time (as_CreatedAt a)) ++
  omit_nil "reviewed_at" enc_time (as_ReviewedAt a) ++
  omit_string "rejection_reason" (as_RejectionReason a).
Definition enc_summary (a : ApplicationSummary) : json := JObject (summary_fields a).

Definition enc_address (a : ResidentialAddress) : json := JObject (
  field "line1" (JString (ra_Line1 a)) ++ field "line2" (JString (ra_Line2 a)) ++
  field "city" (JString (ra_City a)) ++
  field "state_or_province" (JString (ra_StateOrProvince a)) ++
  field "postal_code" (JString (ra_PostalCode a)) ++ field "country" (JString (ra_Country a))).
Definition enc_document (d : GovernmentDocument) : json := JObject (
  field "type" (JString (gd_Type d)) ++ field "number" (JString (gd_Number d)) ++
  field "issuing_country" (JString (gd_IssuingCountry d))).
(** The fields of the embedded summary come first. *)
Definition enc_detail (a : ApplicationDetail) : json := JObject (
  summary_fields (ad_ApplicationSummary a) ++
  field "date_of_birth" (enc_time (ad_DateOfBirth a)) ++
  field "nationality" (JString (ad_Nationality a)) ++ field "phone" (JString (ad_Phone a)) ++
  field "residential_address" (enc_address (ad_ResidentialAddress a)) ++
  field "government_document" (enc_document (ad_GovernmentDocument a)) ++
  field "passport_image_mime" (JString (ad_PassportImageMIME a))).

(** ** Decoders *)

(** The zero [time.Time]. *)
Definition zero_time : Time := Date 1 1 1.

Definition zero_adjustment : AdjustmentRequest :=
  mkAdjustmentRequest "" "" "" "" "" 0 0 "" "" "" None "" "" "" "" "" zero_time None.

(** [json.Unmarshal] into a [domain.AdjustmentRequest]. *)
Definition adjustment_names : list string :=
  ["adjustment_id"; "type"; "status"; "account_id"; "direction"; "amount"; "fee";
   "counterparty_account_id"; "original_transfer_id"; "original_account_id";
   "original_event_sequence"; "reason"; "case_reference"; "created_by"; "reviewed_by";
   "rejection_reason"; "created_at"; "reviewed_at"].
Definition dec_adjustment : decoder AdjustmentRequest := dec_struct (λ kvs r,
  let get {A} := @member A adjustment_names kvs in
  i ← get "adjustment_id" dec_string (adj_ID r);
  t ← get "type" dec_string (adj_Type r);
  s ← get "status" dec_string (adj_Status r);
  a ← get "account_id" dec_string (adj_AccountID r);
  d ← get "direction" dec_string (adj_Direction r);
  am ← get "amount" dec_money (adj_Amount r);
  f ← get "fee" dec_money (adj_Fee r);
  c ← get "counterparty_account_id" dec_string (adj_CounterpartyAccountID r);
  ot ← get "original_transfer_id" dec_string (adj_OriginalTransferID r);
  oa ← get "original_account_id" dec_string (adj_OriginalAccountID r);
  os ← get "original_event_sequence" (dec_pointer 0 dec_int) (adj_OriginalEventSequence r);
  re ← get "reason" dec_string (adj_Reason r);
  cr ← get "case_reference" dec_string (adj_CaseReference r);
  cb ← get "created_by" dec_string (adj_CreatedBy r);
  rb ← get "reviewed_by" dec_string (adj_ReviewedBy r);
  rr ← get "rejection_reason" dec_string (adj_RejectionReason r);
  ca ← get "created_at" dec_time (adj_CreatedAt r);
  ra ← get "reviewed_at" (dec_pointer zero_time dec_time) (adj_ReviewedAt r);
  Some (mkAdjustmentRequest i t s a d am f c ot oa os re cr cb rb rr ca ra)).

Definition address_names : list string :=
  ["line1"; "line2"; "city"; "state_or_province"; "postal_code"; "country"].
Definition dec_address : decoder ResidentialAddress := dec_struct (λ kvs a,
  let get {A} := @member A address_names kvs in
  l1 ← get "line1" dec_string (ra_Line1 a);
  l2 ← get "line2" dec_string (ra_Line2 a);
  ci ← get "city" dec_string (ra_City a);
  st ← get "state_or_province" dec_string (ra_StateOrProvince a);
  po ← get "postal_code" dec_string (ra_PostalCode a);
  co ← get "country" dec_string (ra_Country a);
  Some (mkResidentialAddress l1 l2 ci st po co)).

Definition document_names : list string := ["type"; "number"; "issuing_country"].
Definition dec_document : decoder GovernmentDocument := dec_struct (λ kvs d,
  let get {A} := @member A document_names kvs in
  t ← get "type" dec_string (gd_Type d);
  n ← get "number" dec_string (gd_Number d);
  c ← get "issuing_country" dec_string (gd_IssuingCountry d);
  Some (mkGovernmentDocument t n c)).
