(* ===== verification/MemoryStore.v ===== *)
(** * The in-memory store: internal/eventstore/memory_store.go.

    The state is the struct's maps; every method is a function from its
    arguments and the state to its result and the new state.  Each method holds
    the store's mutex from its first statement to its last, so it is one atomic
    step.  Slices and records are values here: the store never keeps a slice it
    also hands out ([Load] and [GetPassportImage] copy), every stream grows from
    a slice of its own, and the two appends to one base slice that
    [WithdrawAvailable] makes write the same event.  (Where a transfer record
    names one account twice, which [TransferService.Transfer] refuses, the two
    slices of [PostTransferLedger] would share their base.) *)
From S2P Require Export Account.

(** ** State *)

Record memoryReservation := mkMemoryReservation {
  res_AccountID : string;
  res_Amount : Money;
  res_State : string;
}.

Record MemoryStore := mkMemoryStore {
  ms_streams : gmap string (list Event);
  ms_snapshots : gmap string AccountSnapshot;
  ms_customers : gmap string Customer;
  ms_admins : gmap string Admin;
  ms_sessions : gmap string Session;
  ms_transfers : gmap string TransferRecord;
  ms_adjustments : gmap string AdjustmentRequest;
  ms_reservations : gmap string memoryReservation;
  ms_ledgerPostings : gmap string bool;
  ms_complianceDecisions : gmap string string;
}.

Definition NewMemoryStore : MemoryStore := mkMemoryStore ∅ ∅ ∅ ∅ ∅ ∅ ∅ ∅ ∅ ∅.

(** Assignments [m.field = ...]. *)
Definition set_streams (x : gmap string (list Event)) (m : MemoryStore) : MemoryStore :=
  mkMemoryStore x (ms_snapshots m) (ms_customers m) (ms_admins m) (ms_sessions m)
    (ms_transfers m) (ms_adjustments m) (ms_reservations m) (ms_ledgerPostings m) (ms_complianceDecisions m).
Definition set_snapshots (x : gmap string AccountSnapshot) (m : MemoryStore) : MemoryStore :=
  mkMemoryStore (ms_streams m) x (ms_customers m) (ms_admins m) (ms_sessions m)
    (ms_transfers m) (ms_adjustments m) (ms_reservations m) (ms_ledgerPostings m) (ms_complianceDecisions m).
Definition set_customers (x : gmap string Customer) (m : MemoryStore) : MemoryStore :=
  mkMemoryStore (ms_streams m) (ms_snapshots m) x (ms_admins m) (ms_sessions m)
    (ms_transfers m) (ms_adjustments m) (ms_reservations m) (ms_ledgerPostings m) (ms_complianceDecisions m).
Definition set_admins (x : gmap string Admin) (m : MemoryStore) : MemoryStore :=
  mkMemoryStore (ms_streams m) (ms_snapshots m) (ms_customers m) x (ms_sessions m)
    (ms_transfers m) (ms_adjustments m) (ms_reservations m) (ms_ledgerPostings m) (ms_complianceDecisions m).
Definition set_sessions (x : gmap string Session) (m : MemoryStore) : MemoryStore :=
  mkMemoryStore (ms_streams m) (ms_snapshots m) (ms_customers m) (ms_admins m) x
    (ms_transfers m) (ms_adjustments m) (ms_reservations m) (ms_ledgerPostings m) (ms_complianceDecisions m).
Definition set_transfers (x : gmap string TransferRecord) (m : MemoryStore) : MemoryStore :=
  mkMemoryStore (ms_streams m) (ms_snapshots m) (ms_customers m) (ms_admins m) (ms_sessions m)
    x (ms_adjustments m) (ms_reservations m) (ms_ledgerPostings m) (ms_complianceDecisions m).
Definition set_adjustments (x : gmap string AdjustmentRequest) (m : MemoryStore) : MemoryStore :=
  mkMemoryStore (ms_streams m) (ms_snapshots m) (ms_customers m) (ms_admins m) (ms_sessions m)
    (ms_transfers m) x (ms_reservations m) (ms_ledgerPostings m) (ms_complianceDecisions m).
Definition set_reservations (x : gmap string memoryReservation) (m : MemoryStore) : MemoryStore :=
  mkMemoryStore (ms_streams m) (ms_snapshots m) (ms_customers m) (ms_admins m) (ms_sessions m)
    (ms_transfers m) (ms_adjustments m) x (ms_ledgerPostings m) (ms_complianceDecisions m).
Definition set_ledgerPostings (x : gmap string bool) (m : MemoryStore) : MemoryStore :=
  mkMemoryStore (ms_streams m) (ms_snapshots m) (ms_customers m) (ms_admins m) (ms_sessions m)
    (ms_transfers m) (ms_adjustments m) (ms_reservations m) x (ms_complianceDecisions m).
Definition set_complianceDecisions (x : gmap string string) (m : MemoryStore) : MemoryStore :=
  mkMemoryStore (ms_streams m) (ms_snapshots m) (ms_customers m) (ms_admins m) (ms_sessions m)
    (ms_transfers m) (ms_adjustments m) (ms_reservations m) (ms_ledgerPostings m) x.

(** [m.streams[id]]: nil, of length 0, for an unknown account. *)
Definition stream (m : MemoryStore) (id : string) : list Event := default [] (ms_streams m !! id).
(** [m.streams[id] = events]. *)
Definition put_stream (id : string) (events : list Event) (m : MemoryStore) : MemoryStore :=
  set_streams (<[id := events]> (ms_streams m)) m.
(** [len(events)], an [int]. *)
Definition seq_of (events : list Event) : Z := Z.of_nat (length events).

Section Store.
Context `{GoRuntime}.

(** ** Event streams *)

Definition Append (event : Event) (expectedVersion : Z) (m : MemoryStore)
    : go_result unit * MemoryStore :=
  let id := AggregateID event in
  let events := stream m id in
  if bool_decide (seq_of events = expectedVersion)
  then (Ok tt, put_stream id (events ++ [event]) m)
  else (Err ErrConcurrencyConflict, m).

Definition Load (aggregateID : string) (m : MemoryStore) : go_result (list Event) :=
  Ok (stream m aggregateID).

Definition ListAggregates (m : MemoryStore) : go_result (list string) :=
  Ok (sort_slice String.ltb (range_map (ms_streams m)).*1).

Definition SaveSnapshot (snap : AccountSnapshot) (m : MemoryStore)
    : go_result unit * MemoryStore :=
  match ms_snapshots m !! snap_AggregateID snap with
  | Some existing =>
      if snap_AsOfSequence snap <=? snap_AsOfSequence existing then (Ok tt, m)
      else (Ok tt, set_snapshots (<[snap_AggregateID snap := snap]> (ms_snapshots m)) m)
  | None => (Ok tt, set_snapshots (<[snap_AggregateID snap := snap]> (ms_snapshots m)) m)
  end.

Definition LoadSnapshot (aggregateID : string) (m : MemoryStore) : go_result AccountSnapshot :=
  match ms_snapshots m !! aggregateID with
  | Some snap => Ok snap
  | None => Err ErrNoSnapshot
  end.

Definition WithdrawAvailable (accountID : string) (amount : Money) (at_ : Time) (m : MemoryStore)
    : go_result (Account * Account) * MemoryStore :=
  let events := stream m accountID in
  if seq_of events =? 0 then (Err ErrAccountNotFound, m)
  else
    let initial := ReplayAccount accountID events in
    if acc_AvailableBalance initial <? amount
    then (Err (NewInsufficientFundsError initial amount), m)
    else
      let ev := EMoneyDebited {|
        md_Aggregate := accountID; md_Type := "MoneyDebited"; md_Seq := seq_of events;
        md_Occurred := at_; md_ID := accountID; md_Amount := amount;
        md_TransferID := ""; md_Purpose := ""; md_CounterpartyAccountID := "";
        md_AdjustmentID := ""; md_AdjustmentReason := ""; md_CaseReference := "";
        md_OriginalReference := "" |} in
      (Ok (initial, ReplayAccount accountID (events ++ [ev])),
       put_stream accountID (events ++ [ev]) m).

(** ** Customers, admins and sessions *)

Definition CreateCustomerApplication (customer : Customer) (m : MemoryStore)
    : go_result unit * MemoryStore :=
  let same existing :=
    bool_decide (cus_Email existing = cus_Email customer) ||
    (let d := cus_GovernmentDocument existing in
     let d' := cus_GovernmentDocument customer in
     bool_decide (gd_Type d = gd_Type d') && bool_decide (gd_Number d = gd_Number d') &&
     bool_decide (gd_IssuingCountry d = gd_IssuingCountry d')) in
  match range_find same (ms_customers m) with
  | Some _ => (Err ErrCustomerAlreadyExists, m)
  | None =>
      match ms_customers m !! cus_ID customer with
      | Some _ => (Err ErrCustomerAlreadyExists, m)
      | None => (Ok tt, set_customers (<[cus_ID customer := customer]> (ms_customers m)) m)
      end
  end.

Definition FindCustomerByEmail (email : string) (m : MemoryStore) : go_result Customer :=
  match range_find (λ c, bool_decide (cus_Email c = email)) (ms_customers m) with
  | Some (_, customer) => Ok customer
  | None => Err ErrInvalidCredentials
  end.

Definition FindAdminByEmail (email : string) (m : MemoryStore) : go_result Admin :=
  match range_find (λ a, bool_decide (adm_Email a = email)) (ms_admins m) with
  | Some (_, admin) => Ok admin
  | None => Err ErrInvalidCredentials
  end.

Definition UpsertAdmin (admin : Admin) (m : MemoryStore) : go_result unit * MemoryStore :=
  match range_find (λ a, bool_decide (adm_Email a = adm_Email admin)) (ms_admins m) with
  | Some (id, _) =>
      (Ok tt, set_admins (<[id := mkAdmin id (adm_Email admin) (adm_PasswordHash admin)]>
                            (ms_admins m)) m)
  | None => (Ok tt, set_admins (<[adm_ID admin := admin]> (ms_admins m)) m)
  end.

Definition CreateSession (session : Session) (m : MemoryStore) : go_result unit * MemoryStore :=
  (Ok tt, set_sessions (<[ses_TokenHash session := session]> (ms_sessions m)) m).

Definition FindSession (tokenHash : string) (now : Time) (m : MemoryStore)
    : go_result Principal :=
  match ms_sessions m !! tokenHash with
  | None => Err ErrUnauthorized
  | Some session =>
      if ses_ExpiresAt session <=? now then Err ErrUnauthorized
      else if negb (bool_decide (ses_AdminID session = "")) then
        match ms_admins m !! ses_AdminID session with
        | None => Err ErrUnauthorized
        | Some admin => Ok {|
            pr_CustomerID := ""; pr_AccountID := ""; pr_AdminID := adm_ID admin;
            pr_Email := adm_Email admin; pr_Role := "admin"; pr_KYCStatus := "";
            pr_RejectionReason := "" |}
        end
      else
        match ms_customers m !! ses_CustomerID session with
        | None => Err ErrUnauthorized
        | Some customer => Ok {|
            pr_CustomerID := cus_ID customer; pr_AccountID := cus_AccountID customer;
            pr_AdminID := ""; pr_Email := cus_Email customer; pr_Role := "customer";
            pr_KYCStatus := cus_KYCStatus customer;
            pr_RejectionReason := cus_RejectionReason customer |}
        end
  end.

Definition DeleteSession (tokenHash : string) (m : MemoryStore) : go_result unit * MemoryStore :=
  (Ok tt, set_sessions (delete tokenHash (ms_sessions m)) m).

(** ** Application review *)

Definition summary (c : Customer) : ApplicationSummary := {|
  as_CustomerID := cus_ID c; as_LegalFirstName := cus_LegalFirstName c;
  as_LegalLastName := cus_LegalLastName c; as_Email := cus_Email c;
  as_KYCStatus := cus_KYCStatus c; as_RequestedDeposit := cus_RequestedDeposit c;
  as_CreatedAt := cus_CreatedAt c; as_ReviewedAt := cus_ReviewedAt c;
  as_RejectionReason := cus_RejectionReason c |}.

Definition ListApplications (status : string) (m : MemoryStore)
    : go_result (list ApplicationSummary) :=
  Ok (sort_slice (λ a b, as_CreatedAt a <? as_CreatedAt b)
        (summary <$> filter (λ c, cus_KYCStatus c = status) (range_map (ms_customers m)).*2)).

Definition GetApplication (id : string) (m : MemoryStore) : go_result ApplicationDetail :=
  match ms_customers m !! id with
  | None => Err ErrApplicationNotFound
  | Some c => Ok {|
      ad_ApplicationSummary := summary c; ad_DateOfBirth := cus_DateOfBirth c;
      ad_Nationality := cus_Nationality c; ad_Phone := cus_Phone c;
      ad_ResidentialAddress := cus_ResidentialAddress c;
      ad_GovernmentDocument := cus_GovernmentDocument c;
      ad_PassportImageMIME := cus_PassportImageMIME c |}
  end.

Definition GetPassportImage (id : string) (m : MemoryStore) : go_result (list ascii * string) :=
  match ms_customers m !! id with
  | None => Err ErrApplicationNotFound
  | Some c => Ok (cus_PassportImage c, cus_PassportImageMIME c)
  end.

(** The assignments to [c.KYCStatus], [c.AccountID], [c.ReviewedBy],
    [c.ReviewedAt] and [c.RejectionReason]. *)
Definition reviewed (c : Customer) (status accountID by_ reason : string) (at_ : Time)
    : Customer := {|
  cus_ID := cus_ID c; cus_AccountID := accountID;
  cus_LegalFirstName := cus_LegalFirstName c; cus_LegalLastName := cus_LegalLastName c;
  cus_DateOfBirth := cus_DateOfBirth c; cus_Nationality := cus_Nationality c;
  cus_Email := cus_Email c; cus_Phone := cus_Phone c;
  cus_PasswordHash := cus_PasswordHash c;
  cus_ResidentialAddress := cus_ResidentialAddress c;
  cus_GovernmentDocument := cus_GovernmentDocument c;
  cus_PassportImage := cus_PassportImage c; cus_PassportImageMIME := cus_PassportImageMIME c;
  cus_KYCStatus := status; cus_RequestedDeposit := cus_RequestedDeposit c;
  cus_ReviewedBy := by_; cus_ReviewedAt := Some at_; cus_RejectionReason := reason;
  cus_CreatedAt := cus_CreatedAt c |}.

Definition ApproveApplication (id adminID accountID : string) (at_ : Time) (m : MemoryStore)
    : go_result unit * MemoryStore :=
  match ms_customers m !! id with
  | None => (Err ErrApplicationNotFound, m)
  | Some c =>
      if negb (bool_decide (cus_KYCStatus c = KYCWaiting)) then (Err ErrApplicationReviewed, m)
      else
        let c' := reviewed c KYCApproved accountID adminID (cus_RejectionReason c) at_ in
        let m1 := set_customers (<[id := c']> (ms_customers m)) m in
        (Ok tt, put_stream accountID [EAccountOpened {|
           ao_Aggregate := accountID; ao_Type := "AccountOpened"; ao_Seq := 0;
           ao_Occurred := at_; ao_ID := accountID;
           ao_InitialBalance := cus_RequestedDeposit c |}] m1)
  end.

Definition RejectApplication (id adminID reason : string) (at_ : Time) (m : MemoryStore)
    : go_result unit * MemoryStore :=
  match ms_customers m !! id with
  | None => (Err ErrApplicationNotFound, m)
  | Some c =>
      if negb (bool_decide (cus_KYCStatus c = KYCWaiting)) then (Err ErrApplicationReviewed, m)
      else
        let c' := reviewed c KYCRejected (cus_AccountID c) adminID reason at_ in
        (Ok tt, set_customers (<[id := c']> (ms_customers m)) m)
  end.

(** ** Adjustments *)

(** The assignments to [r.AccountID], [r.CounterpartyAccountID], [r.Amount],
    [r.Fee] and [r.Direction]. *)
Definition retarget (r : AdjustmentRequest) (accountID counterparty : string)
    (amount fee : Money) (direction : string) : AdjustmentRequest := {|
  adj_ID := adj_ID r; adj_Type := adj_Type r; adj_Status := adj_Status r;
  adj_AccountID := accountID; adj_Direction := direction; adj_Amount := amount;
  adj_Fee := fee; adj_CounterpartyAccountID := counterparty;
  adj_OriginalTransferID := adj_OriginalTransferID r;
  adj_OriginalAccountID := adj_OriginalAccountID r;
  adj_OriginalEventSequence := adj_OriginalEventSequence r;
  adj_Reason := adj_Reason r; adj_CaseReference := adj_CaseReference r;
  adj_CreatedBy := adj_CreatedBy r; adj_ReviewedBy := adj_ReviewedBy r;
  adj_RejectionReason := adj_RejectionReason r; adj_CreatedAt := adj_CreatedAt r;
  adj_ReviewedAt := adj_ReviewedAt r |}.

(** The event a customer-originated movement reverses into: its amount and the
    opposite direction; none for the legs of transfers, fees, adjustments and
    the other events. *)
Definition reversible_movement (ev : Event) : option (Money * string) :=
  match ev with
  | EMoneyCredited e =>
      if negb (bool_decide (mc_TransferID e = "")) || bool_decide (mc_Purpose e = "fee") ||
         negb (bool_decide (mc_AdjustmentID e = "")) then None
      else Some (mc_Amount e, "debit")
  | EMoneyDebited e =>
      if negb (bool_decide (md_TransferID e = "")) || bool_decide (md_Purpose e = "fee") ||
         negb (bool_decide (md_AdjustmentID e = "")) then None
      else Some (md_Amount e, "credit")
  | _ => None
  end.

Definition CreateAdjustment (r : AdjustmentRequest) (m : MemoryStore)
    : go_result AdjustmentRequest * MemoryStore :=
  let store r' := (Ok r', set_adjustments (<[adj_ID r' := r']> (ms_adjustments m)) m) in
  if bool_decide (adj_Type r = AdjustmentManual) then
    if seq_of (stream m (adj_AccountID r)) =? 0 then (Err ErrAccountNotFound, m) else store r
  else if negb (bool_decide (adj_OriginalTransferID r = "")) then
    match ms_transfers m !! adj_OriginalTransferID r with
    | None => (Err ErrTransferNotFound, m)
    | Some t =>
        if negb (bool_decide (tr_Status t = TransferCompleted)) then (Err ErrTransferNotFound, m)
        else if range_find (λ a,
                  bool_decide (adj_OriginalTransferID a = adj_OriginalTransferID r) &&
                  negb (bool_decide (adj_Status a = AdjustmentRejected))) (ms_adjustments m)
          is Some _ then (Err ErrAlreadyReversed, m)
        else store (retarget r (tr_SourceAccountID t) (tr_DestinationAccountID t)
                      (tr_Amount t) (tr_Fee t) "reversal")
    end
  else
    let events := stream m (adj_OriginalAccountID r) in
    match adj_OriginalEventSequence r with
    | None => (Err ErrInvalidAdjustment, m)
    | Some seq =>
        if (seq <? 0) || (seq_of events <=? seq) then (Err ErrInvalidAdjustment, m)
        else if range_find (λ a,
                  bool_decide (adj_OriginalAccountID a = adj_OriginalAccountID r) &&
                  bool_decide (adj_OriginalEventSequence a = Some seq) &&
                  negb (bool_decide (adj_Status a = AdjustmentRejected))) (ms_adjustments m)
          is Some _ then (Err ErrAlreadyReversed, m)
        else
          match events !! Z.to_nat seq ≫= reversible_movement with
          | None => (Err ErrInvalidAdjustment, m)
          | Some (amount, direction) =>
              store (retarget r (adj_OriginalAccountID r) (adj_CounterpartyAccountID r)
                       amount (adj_Fee r) direction)
          end
    end.

Definition ListAdjustments (status : string) (m : MemoryStore)
    : go_result (list AdjustmentRequest) :=
  Ok (sort_slice (λ a b, adj_CreatedAt a <? adj_CreatedAt b)
        (filter (λ r, adj_Status r = status) (range_map (ms_adjustments m)).*2)).

Definition GetAdjustment (id : string) (m : MemoryStore) : go_result AdjustmentRequest :=
  match ms_adjustments m !! id with
  | None => Err ErrAdjustmentNotFound
  | Some r => Ok r
  end.

(** [ref] of [ApproveAdjustment]. *)
Definition original_reference (r : AdjustmentRequest) : string :=
  match adj_OriginalEventSequence r with
  | Some seq =>
      if bool_decide (adj_OriginalTransferID r = "")
      then adj_OriginalAccountID r +:+ ":" +:+ fmt_d seq
      else adj_OriginalTransferID r
  | None => adj_OriginalTransferID r
  end.
Definition adjustment_purpose (r : AdjustmentRequest) : string :=
  if bool_decide (adj_Type r = AdjustmentReversal) then "reversal" else "adjustment".

(** The closures [appendCredit] and [appendDebit] of [ApproveAdjustment]. *)
Definition appendCredit (r : AdjustmentRequest) (at_ : Time)
    (account : string) (amount : Money) (counterparty : string) (m : MemoryStore) : MemoryStore :=
  let events := stream m account in
  put_stream account (events ++ [EMoneyCredited {|
    mc_Aggregate := account; mc_Type := "MoneyCredited"; mc_Seq := seq_of events;
    mc_Occurred := at_; mc_ID := account; mc_Amount := amount; mc_TransferID := "";
    mc_Purpose := adjustment_purpose r; mc_CounterpartyAccountID := counterparty;
    mc_AdjustmentID := adj_ID r; mc_AdjustmentReason := adj_Reason r;
    mc_CaseReference := adj_CaseReference r;
    mc_OriginalReference := original_reference r |}]) m.

Definition appendDebit (r : AdjustmentRequest) (at_ : Time)
    (account : string) (amount : Money) (counterparty : string) (m : MemoryStore)
    : go_result unit * MemoryStore :=
  let events := stream m account in
  if acc_AvailableBalance (ReplayAccount account events) <? amount
  then (Err (NewInsufficientFundsError (ReplayAccount account events) amount), m)
  else
    (Ok tt, put_stream account (events ++ [EMoneyDebited {|
      md_Aggregate := account; md_Type := "MoneyDebited"; md_Seq := seq_of events;
      md_Occurred := at_; md_ID := account; md_Amount := amount; md_TransferID := "";
      md_Purpose := adjustment_purpose r; md_CounterpartyAccountID := counterparty;
      md_AdjustmentID := adj_ID r; md_AdjustmentReason := adj_Reason r;
      md_CaseReference := adj_CaseReference r;
      md_OriginalReference := original_reference r |}]) m).

(** The assignments to [r.Status], [r.ReviewedBy], [r.RejectionReason] and
    [r.ReviewedAt]. *)
Definition settle (r : AdjustmentRequest) (status by_ reason : string) (at_ : Time)
    : AdjustmentRequest := {|
  adj_ID := adj_ID r; adj_Type := adj_Type r; adj_Status := status;
  adj_AccountID := adj_AccountID r; adj_Direction := adj_Direction r;
  adj_Amount := adj_Amount r; adj_Fee := adj_Fee r;
  adj_CounterpartyAccountID := adj_CounterpartyAccountID r;
  adj_OriginalTransferID := adj_OriginalTransferID r;
  adj_OriginalAccountID := adj_OriginalAccountID r;
  adj_OriginalEventSequence := adj_OriginalEventSequence r;
  adj_Reason := adj_Reason r; adj_CaseReference := adj_CaseReference r;
  adj_CreatedBy := adj_CreatedBy r; adj_ReviewedBy := by_;
  adj_RejectionReason := reason; adj_CreatedAt := adj_CreatedAt r;
  adj_ReviewedAt := Some at_ |}.

Definition ApproveAdjustment (id adminID : string) (at_ : Time) (m : MemoryStore)
    : go_result unit * MemoryStore :=
  match ms_adjustments m !! id with
  | None => (Err ErrAdjustmentNotFound, m)
  | Some r =>
      if negb (bool_decide (adj_Status r = AdjustmentWaiting)) then (Err ErrAdjustmentReviewed, m)
      else if bool_decide (adj_CreatedBy r = adminID) then (Err ErrSelfApproval, m)
      else
        let '(posted, m1) :=
          if negb (bool_decide (adj_OriginalTransferID r = "")) then
            match appendDebit r at_ (adj_CounterpartyAccountID r) (adj_Amount r)
                    (adj_AccountID r) m with
            | (Err e, m') => (Err e, m')
            | (Ok _, m') =>
                (Ok tt, appendCredit r at_ (adj_AccountID r) (adj_Amount r +! adj_Fee r)
                          (adj_CounterpartyAccountID r) m')
            end
          else if bool_decide (adj_Direction r = "credit") then
            (Ok tt, appendCredit r at_ (adj_AccountID r) (adj_Amount r) "" m)
          else appendDebit r at_ (adj_AccountID r) (adj_Amount r) "" m in
        match posted with
        | Err e => (Err e, m1)
        | Ok _ =>
            let r' := settle r AdjustmentApproved adminID (adj_RejectionReason r) at_ in
            (Ok tt, set_adjustments (<[id := r']> (ms_adjustments m1)) m1)
        end
  end.

Definition RejectAdjustment (id adminID reason : string) (at_ : Time) (m : MemoryStore)
    : go_result unit * MemoryStore :=
  match ms_adjustments m !! id with
  | None => (Err ErrAdjustmentNotFound, m)
  | Some r =>
      if negb (bool_decide (adj_Status r = AdjustmentWaiting)) then (Err ErrAdjustmentReviewed, m)
      else if bool_decide (adj_CreatedBy r = adminID) then (Err ErrSelfApproval, m)
      else (Ok tt, set_adjustments
              (<[id := settle r AdjustmentRejected adminID reason at_]> (ms_adjustments m)) m)
  end.

(** ** Transfers and their sagas *)

(** The lookup by source account and idempotency key. *)
Definition find_by_key (source key : string) (m : MemoryStore) : option (string * TransferRecord) :=
  range_find (λ existing, bool_decide (tr_SourceAccountID existing = source) &&
                          bool_decide (tr_IdempotencyKey existing = key)) (ms_transfers m).

Definition CreateTransfer (record : TransferRecord) (m : MemoryStore)
    : go_result (TransferRecord * bool) * MemoryStore :=
  match find_by_key (tr_SourceAccountID record) (tr_IdempotencyKey record) m with
  | Some (_, existing) =>
      if negb (bool_decide (tr_Amount existing = tr_Amount record)) ||
         negb (bool_decide (tr_DestinationAccountID existing = tr_DestinationAccountID record))
      then (Err ErrIdempotencyConflict, m)
      else (Ok (existing, false), m)
  | None =>
      (Ok (record, true), set_transfers (<[tr_ID record := record]> (ms_transfers m)) m)
  end.

(** The loop of [ListDueTransfers], which stops at the limit. *)
Fixpoint collect_due (now : Time) (limit : Z) (out : list TransferRecord)
    (entries : list (string * TransferRecord)) : list TransferRecord :=
  match entries with
  | [] => out
  | (_, r) :: entries' =>
      if bool_decide (tr_Status r = TransferPending) && (tr_NextAttemptAt r <=? now) then
        let out' := out ++ [r] in
        if limit <=? Z.of_nat (length out') then out' else collect_due now limit out' entries'
      else collect_due now limit out entries'
  end.

Definition ListDueTransfers (now : Time) (limit : Z) (m : MemoryStore)
    : go_result (list TransferRecord) :=
  Ok (sort_slice (λ a b, tr_CreatedAt a <? tr_CreatedAt b)
        (collect_due now limit [] (range_map (ms_transfers m)))).

(** The assignments of [UpdateTransferSaga] to the record. *)
Definition apply_update (r : TransferRecord) (u : TransferSagaUpdate) (at_ : Time)
    : TransferRecord := {|
  tr_ID := tr_ID r; tr_SourceAccountID := tr_SourceAccountID r;
  tr_DestinationAccountID := tr_DestinationAccountID r;
  tr_IdempotencyKey := tr_IdempotencyKey r; tr_Amount := tr_Amount r; tr_Fee := tr_Fee r;
  tr_Status := su_Status u; tr_FailureCode := su_FailureCode u;
  tr_InitialSourceBalance :=
    if su_InitialSourceBalance u =? 0 then tr_InitialSourceBalance r
    else su_InitialSourceBalance u;
  tr_FinalSourceBalance :=
    if su_FinalSourceBalance u =? 0 then tr_FinalSourceBalance r else su_FinalSourceBalance u;
  tr_CreatedAt := tr_CreatedAt r; tr_UpdatedAt := at_; tr_CurrentStep := su_CurrentStep u;
  tr_ComplianceStatus :=
    if bool_decide (su_ComplianceStatus u = "") then tr_ComplianceStatus r
    else su_ComplianceStatus u;
  tr_AttemptCount := su_AttemptCount u; tr_NextAttemptAt := su_NextAttemptAt u;
  tr_LastError := su_LastError u |}.

Definition UpdateTransferSaga (id : string) (u : TransferSagaUpdate) (at_ : Time)
    (m : MemoryStore) : go_result bool * MemoryStore :=
  match ms_transfers m !! id with
  | None => (Err ErrTransferNotFound, m)
  | Some r =>
      if negb (bool_decide (tr_Status r = TransferPending)) ||
         negb (bool_decide (tr_CurrentStep r = su_ExpectedStep u))
      then (Ok false, m)
      else (Ok true, set_transfers (<[id := apply_update r u at_]> (ms_transfers m)) m)
  end.

Definition ReserveTransferFunds (r : TransferRecord) (at_ : Time) (m : MemoryStore)
    : go_result Money * MemoryStore :=
  match ms_reservations m !! tr_ID r with
  | Some _ =>
      (Ok (acc_Balance (ReplayAccount (tr_SourceAccountID r) (stream m (tr_SourceAccountID r)))), m)
  | None =>
      let src := stream m (tr_SourceAccountID r) in
      let dst := stream m (tr_DestinationAccountID r) in
      if (seq_of src =? 0) || (seq_of dst =? 0) then (Err ErrAccountNotFound, m)
      else
        let a := ReplayAccount (tr_SourceAccountID r) src in
        let amount := tr_Amount r +! tr_Fee r in
        if acc_AvailableBalance a <? amount then (Err (NewInsufficientFundsError a amount), m)
        else
          let hold := mkMemoryReservation (tr_SourceAccountID r) amount "reserved" in
          let m1 := set_reservations (<[tr_ID r := hold]> (ms_reservations m)) m in
          (Ok (acc_Balance a), put_stream (tr_SourceAccountID r) (src ++ [EFundsReserved {|
             fr_Aggregate := tr_SourceAccountID r; fr_Type := "FundsReserved";
             fr_Seq := seq_of src; fr_Occurred := at_; fr_ID := tr_SourceAccountID r;
             fr_Amount := amount; fr_TransferID := tr_ID r |}]) m1)
  end.

Definition RecordComplianceDecision (id decision : string) (at_ : Time) (m : MemoryStore)
    : go_result unit * MemoryStore :=
  let store := (Ok tt, set_complianceDecisions (<[id := decision]> (ms_complianceDecisions m)) m) in
  match ms_complianceDecisions m !! id with
  | Some old => if bool_decide (old = decision) then store else (Err ErrIdempotencyConflict, m)
  | None => store
  end.

(** The debit legs of a transfer after [src], and its credit after [dst]. *)
Definition transfer_debit (r : TransferRecord) (at_ : Time) (amount : Money) (purpose : string)
    (src : list Event) : Event := EMoneyDebited {|
  md_Aggregate := tr_SourceAccountID r; md_Type := "MoneyDebited"; md_Seq := seq_of src;
  md_Occurred := at_; md_ID := tr_SourceAccountID r; md_Amount := amount;
  md_TransferID := tr_ID r; md_Purpose := purpose;
  md_CounterpartyAccountID := tr_DestinationAccountID r; md_AdjustmentID := "";
  md_AdjustmentReason := ""; md_CaseReference := ""; md_OriginalReference := "" |}.
Definition transfer_credit (r : TransferRecord) (at_ : Time) (dst : list Event) : Event :=
  EMoneyCredited {|
  mc_Aggregate := tr_DestinationAccountID r; mc_Type := "MoneyCredited"; mc_Seq := seq_of dst;
  mc_Occurred := at_; mc_ID := tr_DestinationAccountID r; mc_Amount := tr_Amount r;
  mc_TransferID := tr_ID r; mc_Purpose := "transfer";
  mc_CounterpartyAccountID := tr_SourceAccountID r; mc_AdjustmentID := "";
  mc_AdjustmentReason := ""; mc_CaseReference := ""; mc_OriginalReference := "" |}.

Definition PostTransferLedger (r : TransferRecord) (at_ : Time) (m : MemoryStore)
    : go_result Money * MemoryStore :=
  if default false (ms_ledgerPostings m !! tr_ID r) then
    (Ok (acc_Balance (ReplayAccount (tr_SourceAccountID r) (stream m (tr_SourceAccountID r)))), m)
  else
    let src := stream m (tr_SourceAccountID r) in
    let dst := stream m (tr_DestinationAccountID r) in
    if (seq_of src =? 0) || (seq_of dst =? 0) then (Err ErrAccountNotFound, m)
    else
      let src1 := if tr_Fee r >? 0 then src ++ [transfer_debit r at_ (tr_Fee r) "fee" src]
                  else src in
      let src2 := src1 ++ [transfer_debit r at_ (tr_Amount r) "transfer" src1] in
      let dst1 := dst ++ [transfer_credit r at_ dst] in
      let m1 := put_stream (tr_SourceAccountID r) src2 m in
      let m2 := put_stream (tr_DestinationAccountID r) dst1 m1 in
      let m3 := set_ledgerPostings (<[tr_ID r := true]> (ms_ledgerPostings m2)) m2 in
      (Ok (acc_Balance (ReplayAccount (tr_SourceAccountID r) src2)), m3).

Definition finishReservation (r : TransferRecord) (at_ : Time) (state : string)
    (m : MemoryStore) : go_result unit * MemoryStore :=
  match ms_reservations m !! tr_ID r with
  | None => (Ok tt, m)
  | Some hold =>
      if bool_decide (res_State hold = state) then (Ok tt, m)
      else if negb (bool_decide (res_State hold = "reserved")) then (Err ErrIdempotencyConflict, m)
      else
        let account := res_AccountID hold in
        let events := stream m account in
        let ev :=
          if bool_decide (state = "captured") then EReservationCaptured {|
            rcap_Aggregate := account; rcap_Type := "ReservationCaptured";
            rcap_Seq := seq_of events; rcap_Occurred := at_; rcap_ID := account;
            rcap_Amount := res_Amount hold; rcap_TransferID := tr_ID r |}
          else EReservationReleased {|
            rrel_Aggregate := account; rrel_Type := "ReservationReleased";
            rrel_Seq := seq_of events; rrel_Occurred := at_; rrel_ID := account;
            rrel_Amount := res_Amount hold; rrel_TransferID := tr_ID r |} in
        let hold' := mkMemoryReservation account (res_Amount hold) state in
        let m1 := set_reservations (<[tr_ID r := hold']> (ms_reservations m)) m in
        (Ok tt, put_stream account (events ++ [ev]) m1)
  end.

Definition CaptureTransferReservation (r : TransferRecord) (at_ : Time) (m : MemoryStore)
    : go_result unit * MemoryStore := finishReservation r at_ "captured" m.
Definition ReleaseTransferReservation (r : TransferRecord) (at_ : Time) (m : MemoryStore)
    : go_result unit * MemoryStore := finishReservation r at_ "released" m.

Definition FindTransfer (id : string) (m : MemoryStore) : go_result TransferRecord :=
  match ms_transfers m !! id with
  | None => Err ErrTransferNotFound
  | Some r => Ok r
  end.

(** The record [ExecuteTransfer] stores: its status, failure code, balances and
    time of update. *)
Definition outcome (r : TransferRecord) (status code : string) (initial final : Money)
    (updated : Time) : TransferRecord := {|
  tr_ID := tr_ID r; tr_SourceAccountID := tr_SourceAccountID r;
  tr_DestinationAccountID := tr_DestinationAccountID r;
  tr_IdempotencyKey := tr_IdempotencyKey r; tr_Amount := tr_Amount r; tr_Fee := tr_Fee r;
  tr_Status := status; tr_FailureCode := code; tr_InitialSourceBalance := initial;
  tr_FinalSourceBalance := final; tr_CreatedAt := tr_CreatedAt r; tr_UpdatedAt := updated;
  tr_CurrentStep := tr_CurrentStep r; tr_ComplianceStatus := tr_ComplianceStatus r;
  tr_AttemptCount := tr_AttemptCount r; tr_NextAttemptAt := tr_NextAttemptAt r;
  tr_LastError := tr_LastError r |}.

(** The transfer in one step that the sagas replaced; [now] is the time it
    reads. *)
Definition ExecuteTransfer (record : TransferRecord) (now : Time) (m : MemoryStore)
    : go_result (TransferRecord * bool) * MemoryStore :=
  match find_by_key (tr_SourceAccountID record) (tr_IdempotencyKey record) m with
  | Some (_, existing) =>
      if negb (bool_decide (tr_Amount existing = tr_Amount record)) ||
         negb (bool_decide (tr_DestinationAccountID existing = tr_DestinationAccountID record))
      then (Err ErrIdempotencyConflict, m)
      else (Ok (existing, false), m)
  | None =>
      let done_ r m' := (Ok (r, true), set_transfers (<[tr_ID r := r]> (ms_transfers m')) m') in
      let src := stream m (tr_SourceAccountID record) in
      let dst := stream m (tr_DestinationAccountID record) in
      if (seq_of src =? 0) || (seq_of dst =? 0) then
        done_ (outcome record TransferFailed "account_not_found" (tr_InitialSourceBalance record)
                 (tr_FinalSourceBalance record) (tr_UpdatedAt record)) m
      else
        let balance := acc_Balance (ReplayAccount (tr_SourceAccountID record) src) in
        if balance <? tr_Amount record +! tr_Fee record then
          done_ (outcome record TransferFailed "insufficient_funds" balance
                   (tr_FinalSourceBalance record) (tr_UpdatedAt record)) m
        else
          let src1 := if tr_Fee record >? 0
                      then src ++ [transfer_debit record now (tr_Fee record) "fee" src]
                      else src in
          let src2 := src1 ++ [transfer_debit record now (tr_Amount record) "transfer" src1] in
          let dst1 := dst ++ [transfer_credit record now dst] in
          let m1 := put_stream (tr_SourceAccountID record) src2 m in
          let m2 := put_stream (tr_DestinationAccountID record) dst1 m1 in
          done_ (outcome record TransferCompleted (tr_FailureCode record) balance
                   (balance -! tr_Amount record -! tr_Fee record) now) m2
  end.
End Store.
