(* ===== verification/Effects.v ===== *)
(** * Services as programs over their collaborators.

    A service method is a program whose calls (to the store, the clock, the
    random source, the compliance checker, the event bus) are explicit: each
    store method is one atomic step, and between two calls of one request the
    calls of others, or a crash, may come.  [BankStore] is the interface of the
    stores; [interp] runs a program alone, and [allowed_step] interleaves the calls of
    several programs.  A program that is never scheduled again has crashed. *)
From S2P Require Export MemoryStore.

(** ** Calls *)

(** The methods of eventstore.Store, domain.TransferSagaStore,
    domain.ReviewStore, domain.AdjustmentStore and the others. *)
Inductive storeE : Type → Type :=
| cAppend (event : Event) (expectedVersion : Z) : storeE (go_result unit)
| cLoad (aggregateID : string) : storeE (go_result (list Event))
| cListAggregates : storeE (go_result (list string))
| cSaveSnapshot (snap : AccountSnapshot) : storeE (go_result unit)
| cLoadSnapshot (aggregateID : string) : storeE (go_result AccountSnapshot)
| cWithdrawAvailable (accountID : string) (amount : Money) (at_ : Time)
    : storeE (go_result (Account * Account))
| cCreateTransfer (record : TransferRecord) : storeE (go_result (TransferRecord * bool))
| cFindTransfer (id : string) : storeE (go_result TransferRecord)
| cListDueTransfers (now : Time) (limit : Z) : storeE (go_result (list TransferRecord))
| cUpdateTransferSaga (id : string) (u : TransferSagaUpdate) (at_ : Time)
    : storeE (go_result bool)
| cReserveTransferFunds (record : TransferRecord) (at_ : Time) : storeE (go_result Money)
| cRecordComplianceDecision (id decision : string) (at_ : Time) : storeE (go_result unit)
| cPostTransferLedger (record : TransferRecord) (at_ : Time) : storeE (go_result Money)
| cCaptureTransferReservation (record : TransferRecord) (at_ : Time) : storeE (go_result unit)
| cReleaseTransferReservation (record : TransferRecord) (at_ : Time) : storeE (go_result unit)
| cCreateCustomerApplication (customer : Customer) : storeE (go_result unit)
| cListApplications (status : string) : storeE (go_result (list ApplicationSummary))
| cGetApplication (id : string) : storeE (go_result ApplicationDetail)
| cGetPassportImage (id : string) : storeE (go_result (list ascii * string))
| cApproveApplication (id adminID accountID : string) (at_ : Time) : storeE (go_result unit)
| cRejectApplication (id adminID reason : string) (at_ : Time) : storeE (go_result unit)
| cCreateAdjustment (request : AdjustmentRequest) : storeE (go_result AdjustmentRequest)
| cListAdjustments (status : string) : storeE (go_result (list AdjustmentRequest))
| cGetAdjustment (id : string) : storeE (go_result AdjustmentRequest)
| cApproveAdjustment (id adminID : string) (at_ : Time) : storeE (go_result unit)
| cRejectAdjustment (id adminID reason : string) (at_ : Time) : storeE (go_result unit)
| cFindCustomerByEmail (email : string) : storeE (go_result Customer)
| cFindAdminByEmail (email : string) : storeE (go_result Admin)
| cUpsertAdmin (admin : Admin) : storeE (go_result unit)
| cCreateSession (session : Session) : storeE (go_result unit)
| cFindSession (tokenHash : string) (now : Time) : storeE (go_result Principal)
| cDeleteSession (tokenHash : string) : storeE (go_result unit).

(** What [select] in [TransferService.Run] can take. *)
Inductive select_case := CtxDone | TickerFired | WakeReceived.

(** Everything else a service calls. *)
Inductive envE : Type → Type :=
| TimeNow : envE Time
| RandRead (n : nat) : envE (go_result (list ascii))
| CheckTransfer (record : TransferRecord) : envE (go_result bool)
| PublishCompleted (event : TransferCompletedEvent) : envE unit
| SendWake : envE unit
| CtxErr : envE (option error)
| Select : envE select_case.

Inductive svcE : Type → Type :=
| onStore {X} (op : storeE X) : svcE X
| onEnv {X} (op : envE X) : svcE X.

(** ** Programs *)

Inductive prog (A : Type) : Type :=
| Ret (a : A)
| Vis {X : Type} (op : svcE X) (k : X → prog A).
Arguments Ret {A} a.
Arguments Vis {A X} op k.

Fixpoint prog_bind_def {A B} (f : A → prog B) (p : prog A) : prog B :=
  match p with
  | Ret a => f a
  | Vis op k => Vis op (λ x, prog_bind_def f (k x))
  end.
#[export] Instance prog_ret : MRet prog := @Ret.
#[export] Instance prog_bind : MBind prog := @prog_bind_def.

Definition store {X} (op : storeE X) : prog X := Vis (onStore op) Ret.
Definition env {X} (op : envE X) : prog X := Vis (onEnv op) Ret.

(** [x, err := p; if err != nil { return nil, err }; k]. *)
Definition try_bind {A B} (p : prog (go_result A)) (k : A → prog (go_result B))
    : prog (go_result B) :=
  r ← p; match r with Ok a => k a | Err e => Ret (Err e) end.
Notation "'let?' x := p 'in' k" := (try_bind p (λ x, k))
  (at level 10, x pattern, p at level 200, k at level 200) : go_scope.
(** [return nil, err] and [return v, nil]. *)
Definition fail {A} (e : error) : prog (go_result A) := Ret (Err e).
Definition succeed {A} (a : A) : prog (go_result A) := Ret (Ok a).

(** ** The interface of the stores *)

(** A store interprets every method on its state. *)
Class BankStore (St : Type) :=
  store_call : GoRuntime → ∀ {X : Type}, storeE X → St → X * St.

Definition reads {A St} (f : St → A) (m : St) : A * St := (f m, m).

#[export] Instance memory_store : BankStore MemoryStore := λ G X op,
  match op in storeE X return MemoryStore → X * MemoryStore with
  | cAppend ev v => Append ev v
  | cLoad id => reads (Load id)
  | cListAggregates => reads ListAggregates
  | cSaveSnapshot snap => SaveSnapshot snap
  | cLoadSnapshot id => reads (LoadSnapshot id)
  | cWithdrawAvailable id amount at_ => WithdrawAvailable id amount at_
  | cCreateTransfer r => CreateTransfer r
  | cFindTransfer id => reads (FindTransfer id)
  | cListDueTransfers now limit => reads (ListDueTransfers now limit)
  | cUpdateTransferSaga id u at_ => UpdateTransferSaga id u at_
  | cReserveTransferFunds r at_ => ReserveTransferFunds r at_
  | cRecordComplianceDecision id d at_ => RecordComplianceDecision id d at_
  | cPostTransferLedger r at_ => PostTransferLedger r at_
  | cCaptureTransferReservation r at_ => CaptureTransferReservation r at_
  | cReleaseTransferReservation r at_ => ReleaseTransferReservation r at_
  | cCreateCustomerApplication c => CreateCustomerApplication c
  | cListApplications status => reads (ListApplications status)
  | cGetApplication id => reads (GetApplication id)
  | cGetPassportImage id => reads (GetPassportImage id)
  | cApproveApplication id adm acc at_ => ApproveApplication id adm acc at_
  | cRejectApplication id adm reason at_ => RejectApplication id adm reason at_
  | cCreateAdjustment r => CreateAdjustment r
  | cListAdjustments status => reads (ListAdjustments status)
  | cGetAdjustment id => reads (GetAdjustment id)
  | cApproveAdjustment id adm at_ => ApproveAdjustment id adm at_
  | cRejectAdjustment id adm reason at_ => RejectAdjustment id adm reason at_
  | cFindCustomerByEmail email => reads (FindCustomerByEmail email)
  | cFindAdminByEmail email => reads (FindAdminByEmail email)
  | cUpsertAdmin adm => UpsertAdmin adm
  | cCreateSession session => CreateSession session
  | cFindSession h now => reads (FindSession h now)
  | cDeleteSession h => DeleteSession h
  end.

(** ** Runs *)

(** What the environment answers to the call number [n] of a run. *)
Record Env := mkEnv {
  env_runtime : nat → GoRuntime;
  env_now : nat → Time;
  env_rand : nat → nat → go_result (list ascii);
  env_check : nat → TransferRecord → go_result bool;
  env_ctx : nat → option error;
  env_select : nat → select_case;
}.

Record World (St : Type) := mkWorld {
  w_store : St;
  w_calls : nat;                           (** calls made so far *)
  w_bus : list TransferCompletedEvent;     (** events published so far *)
  w_wake : bool;                           (** the wake channel holds a value *)
}.
Arguments mkWorld {St}.
Arguments w_store {St}.
Arguments w_calls {St}.
Arguments w_bus {St}.
Arguments w_wake {St}.

Section Runs.
Context {St : Type} `{BankStore St} (E : Env).

Definition env_call {X} (op : envE X) (w : World St) : X * World St :=
  let n := w_calls w in
  let w' := mkWorld (w_store w) (S n) (w_bus w) (w_wake w) in
  match op in envE X return X * World St with
  | TimeNow => (env_now E n, w')
  | RandRead k => (env_rand E n k, w')
  | CheckTransfer r => (env_check E n r, w')
  | PublishCompleted ev => (tt, mkWorld (w_store w) (S n) (w_bus w ++ [ev]) (w_wake w))
  | SendWake => (tt, mkWorld (w_store w) (S n) (w_bus w) true)
  | CtxErr => (env_ctx E n, w')
  | Select =>
      match env_select E n with
      | WakeReceived =>
          if w_wake w then (WakeReceived, mkWorld (w_store w) (S n) (w_bus w) false)
          else (TickerFired, w')
      | c => (c, w')
      end
  end.

Definition call {X} (op : svcE X) : World St → X * World St :=
  match op in svcE X return World St → X * World St with
  | onStore o => λ w,
      let '(x, s) := store_call (env_runtime E (w_calls w)) o (w_store w) in
      (x, mkWorld s (S (w_calls w)) (w_bus w) (w_wake w))
  | onEnv o => env_call o
  end.

Fixpoint interp {A} (p : prog A) (w : World St) : A * World St :=
  match p with
  | Ret a => (a, w)
  | Vis op k => let '(x, w') := call op w in interp (k x) w'
  end.

Lemma interp_bind {A B} (p : prog A) (f : A → prog B) w :
  interp (p ≫= f) w = let '(a, w') := interp p w in interp (f a) w'.
Proof.
  revert w. induction p as [a|X op k IH]; intros w; simpl; [done|].
  destruct (call op w) as [x w']. apply IH.
Qed.

Lemma interp_store {X} (op : storeE X) w :
  interp (store op) w =
  let '(x, s) := store_call (env_runtime E (w_calls w)) op (w_store w) in
  (x, mkWorld s (S (w_calls w)) (w_bus w) (w_wake w)).
Proof. simpl. by destruct (store_call _ _ _). Qed.
End Runs.

(** ** What a program may call *)

(** Every call [p] makes satisfies [P], whatever the answers. *)
Fixpoint calls_only {A} (P : ∀ X, svcE X → Prop) (p : prog A) : Prop :=
  match p with
  | Ret _ => True
  | Vis op k => P _ op ∧ ∀ x, calls_only P (k x)
  end.

Lemma calls_only_bind {A B} P (p : prog A) (f : A → prog B) :
  calls_only P p → (∀ a, calls_only P (f a)) → calls_only P (p ≫= f).
Proof. induction p as [a|X op k IH]; simpl; [auto|]. intros [Hop Hk] Hf. eauto. Qed.

Lemma calls_only_mono {A} (P P' : ∀ X, svcE X → Prop) (p : prog A) :
  (∀ X op, P X op → P' X op) → calls_only P p → calls_only P' p.
Proof. intros HP. induction p as [a|X op k IH]; simpl; [done|]. intros [Hop Hk]. eauto. Qed.

Lemma calls_only_try {A B} P (p : prog (go_result A)) (k : A → prog (go_result B)) :
  calls_only P p → (∀ a, calls_only P (k a)) → calls_only P (try_bind p k).
Proof. intros Hp Hk. apply calls_only_bind; [done|]. by intros [a|e]. Qed.

(** ** Rely and guarantee

    [safe p s]: from state [s], whatever calls of others come in between, every
    call [p] makes meets its contract [Owes] where it is made, keeps the invariant
    and moves the state along [Evo], and a result of [p] satisfies [Q].  [Allowed]
    restricts the runs considered (a drawn identifier is not in use). *)
Section Rely.
Context {St : Type} `{BankStore St}.
Context (Inv : St → Prop) (Evo : St → St → Prop) `{!PreOrder Evo}.
Context (Allowed Owes : ∀ X, storeE X → St → Prop).

Fixpoint safe {A} (Q : A → St → Prop) (p : prog A) (s : St) : Prop :=
  match p with
  | Ret a => ∀ s', Evo s s' → Inv s' → Q a s'
  | Vis op k => ∀ s', Evo s s' → Inv s' →
      match op in svcE X return (X → St → Prop) → Prop with
      | onStore op => λ rest, ∀ G, Allowed _ op s' →
          Owes _ op s' ∧ Inv (store_call G op s').2 ∧ Evo s' (store_call G op s').2 ∧
          rest (store_call G op s').1 (store_call G op s').2
      | onEnv op => λ rest, ∀ x, rest x s'
      end (λ x, safe Q (k x))
  end.

Lemma safe_evo {A} (Q : A → St → Prop) p s s' : Evo s s' → safe Q p s → safe Q p s'.
Proof.
  intros Hs. destruct p as [a|X op k]; simpl; intros Hp s'' Hs'' HI;
    (apply Hp; [by etrans|done]).
Qed.

(** What holds at every allowed later state holds now. *)
Lemma safe_intro {A} (Q : A → St → Prop) p s :
  (∀ s', Evo s s' → Inv s' → safe Q p s') → safe Q p s.
Proof. destruct p as [a|X op k]; simpl; intros Hp s' Hs HI; by apply (Hp s' Hs HI). Qed.

Lemma safe_bind {A B} (Q : B → St → Prop) (p : prog A) (f : A → prog B) s :
  safe (λ a, safe Q (f a)) p s → safe Q (p ≫= f) s.
Proof.
  revert s. induction p as [a|X op k IH]; intros s; simpl; [apply safe_intro|].
  intros Hp s' Hs HI. specialize (Hp s' Hs HI). destruct op as [X op|X op].
  - intros G HA. destruct (Hp G HA) as (? & ? & ? & Hk). eauto.
  - intros x. apply IH, Hp.
Qed.

Lemma safe_mono {A} (Q Q' : A → St → Prop) p s :
  (∀ a s', Evo s s' → Inv s' → Q a s' → Q' a s') → safe Q p s → safe Q' p s.
Proof.
  revert s. induction p as [a|X op k IH]; intros s HQ; simpl; intros Hp s' Hs HI; [eauto|].
  specialize (Hp s' Hs HI). destruct op as [X op|X op].
  - intros G HA. destruct (Hp G HA) as (? & ? & He & Hk). split_and!; [done..|].
    eapply IH; [|done]. intros a s'' ?. apply HQ. by do 2 (etrans; [done|]).
  - intros x. eapply IH; [|apply Hp]. intros a s'' ?. apply HQ. by etrans.
Qed.

(** One call, then the rest. *)
Lemma safe_store {X A} (Q : A → St → Prop) (op : storeE X) (k : X → prog A) s :
  (∀ s', Evo s s' → Inv s' → ∀ G, Allowed _ op s' →
     Owes _ op s' ∧
     let '(x, s'') := store_call G op s' in
     Inv s'' ∧ Evo s' s'' ∧ safe Q (k x) s'') →
  safe Q (store op ≫= k) s.
Proof.
  intros Hp s' Hs HI G HA. destruct (Hp s' Hs HI G HA) as [HO Hk]. split; [done|].
  by destruct (store_call G op s') as [x s''].
Qed.

Lemma safe_env {X A} (Q : A → St → Prop) (op : envE X) (k : X → prog A) s :
  (∀ x, safe Q (k x) s) → safe Q (env op ≫= k) s.
Proof. intros Hp s' Hs HI x. eapply safe_evo; [exact Hs|apply Hp]. Qed.

Lemma safe_ret {A} (Q : A → St → Prop) a s :
  (∀ s', Evo s s' → Inv s' → Q a s') → safe Q (Ret a) s.
Proof. done. Qed.

(** Programs that only make calls which keep the invariant. *)
Lemma calls_only_safe {A} (P : ∀ X, svcE X → Prop) (p : prog A) s :
  (∀ X (op : storeE X) G s, P X (onStore op) → Allowed X op s → Inv s →
     Owes X op s ∧ Inv (store_call G op s).2 ∧ Evo s (store_call G op s).2) →
  calls_only P p → safe (λ _ _, True) p s.
Proof.
  intros Hstore. revert s. induction p as [a|X op k IH]; intros s; simpl; [done|].
  intros [Hop Hk] s' Hs HI. destruct op as [X op|X op].
  - intros G HA. destruct (Hstore X op G s' Hop HA HI) as (? & ? & ?). auto.
  - intros x. by apply IH.
Qed.

(** The pool steps whose call is allowed. *)
Inductive allowed_step {A} (E : Env) :
    World St * list (prog A) → World St * list (prog A) → Prop :=
| allowed_call w ps i X (op : svcE X) (k : X → prog A) :
    ps !! i = Some (Vis op k) →
    (match op with onStore op => Allowed _ op (w_store w) | onEnv _ => True end) →
    allowed_step E (w, ps) ((call E op w).2, <[i := k (call E op w).1]> ps).

(** Every program [i] of the pool is safe for its own [Q i]. *)
Definition pool_safe {A} (Q : nat → A → St → Prop) (ps : list (prog A)) (s : St) : Prop :=
  ∀ i p, ps !! i = Some p → safe (Q i) p s.

Lemma env_call_store (E : Env) {X} (op : envE X) (w : World St) :
  w_store (env_call E op w).2 = w_store w.
Proof. destruct op; simpl; try done. by repeat case_match. Qed.

Lemma safe_call {A} (E : Env) (Q : A → St → Prop) X (op : svcE X) (k : X → prog A) w :
  (match op with onStore op => Allowed _ op (w_store w) | onEnv _ => True end) →
  Inv (w_store w) → safe Q (Vis op k) (w_store w) →
  let '(x, w') := call E op w in
  Inv (w_store w') ∧ Evo (w_store w) (w_store w') ∧ safe Q (k x) (w_store w').
Proof.
  intros HA HI Hp. simpl in Hp. specialize (Hp (w_store w) (reflexivity _) HI).
  destruct op as [X op|X op]; simpl.
  - destruct (Hp (env_runtime E (w_calls w)) HA) as [_ Hk]. revert Hk.
    by destruct (store_call _ op (w_store w)) as [x s'].
  - pose proof (env_call_store E op w) as Hw. destruct (env_call E op w) as [x w'].
    simpl in Hw. rewrite Hw. by split_and!.
Qed.

(** A safe program that runs alone, when all its calls are allowed. *)
Definition always_allowed (X : Type) (op : svcE X) : Prop :=
  match op with onStore op => ∀ s, Allowed _ op s | onEnv _ => True end.

Lemma safe_interp {A} (E : Env) (Q : A → St → Prop) p (w : World St) :
  calls_only always_allowed p → Inv (w_store w) → safe Q p (w_store w) →
  let '(a, w') := interp E p w in
  Inv (w_store w') ∧ Evo (w_store w) (w_store w') ∧ Q a (w_store w').
Proof.
  revert w. induction p as [a|X op k IH]; intros w; simpl; intros Hcalls HI Hp.
  { split_and!; [done..|]. by apply Hp. }
  destruct Hcalls as [HA Hcalls].
  pose proof (safe_call E Q X op k w) as Hstep. destruct (call E op w) as [x w1].
  destruct Hstep as (HI1 & He1 & Hk); [by destruct op; [apply HA|]|done|done|].
  specialize (IH x w1 (Hcalls x) HI1 Hk). destruct (interp E (k x) w1) as [a w2].
  destruct IH as (? & ? & ?). split_and!; [done|by etrans|done].
Qed.

Lemma pool_safe_steps {A} (E : Env) (Q : nat → A → St → Prop) c c' :
  rtc (allowed_step E) c c' →
  Inv (w_store c.1) → pool_safe Q c.2 (w_store c.1) →
  Inv (w_store c'.1) ∧ Evo (w_store c.1) (w_store c'.1) ∧ pool_safe Q c'.2 (w_store c'.1).
Proof.
  induction 1 as [c|c1 c2 c3 Hstep _ IH]; intros HI Hps; [done|].
  destruct Hstep as [w ps i X op k Hi HA]. simpl in *.
  pose proof (safe_call E (Q i) X op k w HA HI (Hps i _ Hi)) as Hc.
  destruct (call E op w) as [x w']. simpl in *. destruct Hc as (HI' & He & Hk).
  destruct IH as (? & ? & ?); [done|..|].
  - intros j p Hj. destruct (decide (i = j)) as [<-|Hne].
    + rewrite list_lookup_insert_eq in Hj by by eapply lookup_lt_Some. by simplify_eq.
    + rewrite list_lookup_insert_ne in Hj by done. eapply safe_evo; [done|by apply Hps].
  - split_and!; [done|by etrans|done].
Qed.

(** A thread that has returned satisfies its postcondition. *)
Lemma pool_safe_result {A} (Q : nat → A → St → Prop) ps s i a :
  Inv s → pool_safe Q ps s → ps !! i = Some (Ret a) → Q i a s.
Proof. intros HI Hps Hi. by apply (Hps i _ Hi s). Qed.
End Rely.

(** More is kept: by calls that meet their contract, under more conditions on the
    runs. *)
Lemma safe_extend {St} `{BankStore St} (Inv Extra : St → Prop) Evo
    (Allowed Allowed' Owes : ∀ X, storeE X → St → Prop) (P : ∀ X, svcE X → Prop)
    {A} (Q : A → St → Prop) p s :
  (∀ X (op : storeE X) s, Allowed' X op s → Allowed X op s) →
  (∀ X (op : storeE X) G s, P X (onStore op) → Owes X op s → Allowed' X op s → Inv s → Extra s →
     Extra (store_call G op s).2) →
  calls_only P p → safe Inv Evo Allowed Owes Q p s →
  safe (λ s, Inv s ∧ Extra s) Evo Allowed' Owes Q p s.
Proof.
  intros HA Hextra. revert s. induction p as [a|X op k IH]; intros s; simpl.
  - intros _ Hp s' Hs [HI _]. by apply Hp.
  - intros [Hop Hk] Hp s' Hs [HI HE]. specialize (Hp s' Hs HI). destruct op as [X op|X op].
    + intros G HA'. destruct (Hp G (HA _ _ _ HA')) as (HO & ? & ? & Hrest). split_and!; [done..| |done|].
      * by apply Hextra.
      * by apply IH.
    + intros x. apply IH; [done|apply Hp].
Qed.

#[global] Arguments safe : simpl never.
(** Computes one store call. *)
Ltac store_cbv := unfold store_call, memory_store, reads; cbv beta iota.
(** A program in front of a rest. *)
Ltac safe_bind := apply safe_bind; [apply _|].
