(* ===== verification/Services.v ===== *)
(** * The services: internal/service (transfers in TransferService.v) and
    internal/repository.

    Each method is a program over the calls of Effects.v, in the order the
    source makes them. *)
From S2P Require Export Effects.

(** ** deposit_service.go *)

Definition minimumDepositAmount : Money := 1000.

Definition Deposit (amount : Money) (accountID : string) : prog (go_result DepositReceipt) :=
  if amount <? minimumDepositAmount then fail ErrInvalidDepositAmount
  else
    let? events := store (cLoad accountID) in
    if seq_of events =? 0 then fail ErrAccountNotFound
    else
      let initial := ReplayAccount accountID events in
      now ← env TimeNow;
      let credit := EMoneyCredited {|
        mc_Aggregate := accountID; mc_Type := "MoneyCredited"; mc_Seq := seq_of events;
        mc_Occurred := now; mc_ID := accountID; mc_Amount := amount; mc_TransferID := "";
        mc_Purpose := ""; mc_CounterpartyAccountID := ""; mc_AdjustmentID := "";
        mc_AdjustmentReason := ""; mc_CaseReference := ""; mc_OriginalReference := "" |} in
      let? _ := store (cAppend credit (Version credit)) in
      succeed (mkDepositReceipt initial (ReplayAccount accountID (events ++ [credit])) amount).

(** ** withdraw_service.go *)

Definition minimumWithdrawAmount : Money := 1000.

(** [atomic]: the store implements [atomicAvailableWithdrawer], as both stores
    of the program do. *)
Definition Withdraw (atomic : bool) (amount : Money) (accountID : string)
    : prog (go_result WithdrawalReceipt) :=
  if amount <? minimumWithdrawAmount then fail ErrInvalidWithdrawAmount
  else if atomic then
    now ← env TimeNow;
    let? (initial, final) := store (cWithdrawAvailable accountID amount now) in
    succeed (mkWithdrawalReceipt initial final amount)
  else
    let? events := store (cLoad accountID) in
    if seq_of events =? 0 then fail ErrAccountNotFound
    else
      let initial := ReplayAccount accountID events in
      if acc_AvailableBalance initial <? amount
      then fail (NewInsufficientFundsError initial amount)
      else
        now ← env TimeNow;
        let debit := EMoneyDebited {|
          md_Aggregate := accountID; md_Type := "MoneyDebited"; md_Seq := seq_of events;
          md_Occurred := now; md_ID := accountID; md_Amount := amount; md_TransferID := "";
          md_Purpose := ""; md_CounterpartyAccountID := ""; md_AdjustmentID := "";
          md_AdjustmentReason := ""; md_CaseReference := ""; md_OriginalReference := "" |} in
        let? _ := store (cAppend debit (Version debit)) in
        succeed (mkWithdrawalReceipt initial (ReplayAccount accountID (events ++ [debit])) amount).

(** ** onboarding_service.go: randomID *)

Definition randomID (prefix : string) : prog (go_result string) :=
  let? raw := env (RandRead 16) in
  succeed (prefix +:+ EncodeToString raw).

(** ** review_service.go *)
Module ReviewService.

Definition List (status : string) : prog (go_result (list ApplicationSummary)) :=
  let status := if bool_decide (status = "") then KYCWaiting else status in
  if negb (bool_decide (status = KYCWaiting)) && negb (bool_decide (status = KYCApproved)) &&
     negb (bool_decide (status = KYCRejected))
  then fail ErrInvalidReviewStatus
  else store (cListApplications status).

Definition Get (id : string) : prog (go_result ApplicationDetail) := store (cGetApplication id).

Definition Passport (id : string) : prog (go_result (list ascii * string)) :=
  store (cGetPassportImage id).

Definition Approve (id adminID : string) : prog (go_result unit) :=
  let? accountID := randomID "acc_" in
  now ← env TimeNow;
  store (cApproveApplication id adminID accountID now).

Definition Reject (id adminID reason : string) : prog (go_result unit) :=
  let reason := TrimSpace reason in
  if (slen reason =? 0) || (500 <? slen reason) then fail ErrInvalidRejectionReason
  else
    now ← env TimeNow;
    store (cRejectApplication id adminID reason now).
End ReviewService.

(** ** adjustment_service.go *)
Module AdjustmentService.

(** The assignments to [r.Type], [r.Direction], [r.Reason], [r.CaseReference]. *)
Definition trimmed (r : AdjustmentRequest) : AdjustmentRequest := {|
  adj_ID := adj_ID r; adj_Type := TrimSpace (adj_Type r); adj_Status := adj_Status r;
  adj_AccountID := adj_AccountID r; adj_Direction := TrimSpace (adj_Direction r);
  adj_Amount := adj_Amount r; adj_Fee := adj_Fee r;
  adj_CounterpartyAccountID := adj_CounterpartyAccountID r;
  adj_OriginalTransferID := adj_OriginalTransferID r;
  adj_OriginalAccountID := adj_OriginalAccountID r;
  adj_OriginalEventSequence := adj_OriginalEventSequence r;
  adj_Reason := TrimSpace (adj_Reason r);
  adj_CaseReference := TrimSpace (adj_CaseReference r);
  adj_CreatedBy := adj_CreatedBy r; adj_ReviewedBy := adj_ReviewedBy r;
  adj_RejectionReason := adj_RejectionReason r; adj_CreatedAt := adj_CreatedAt r;
  adj_ReviewedAt := adj_ReviewedAt r |}.

(** The three guards of [Create], on the trimmed request. *)
Definition invalid_request (r : AdjustmentRequest) : bool :=
  let manual := bool_decide (adj_Type r = AdjustmentManual) in
  let reversal := bool_decide (adj_Type r = AdjustmentReversal) in
  (negb manual && negb reversal) ||
  (slen (adj_Reason r) <? 10) || (500 <? slen (adj_Reason r)) ||
  (slen (adj_CaseReference r) <? 1) || (100 <? slen (adj_CaseReference r)) ||
  (manual &&
   (bool_decide (adj_AccountID r = "") ||
    (negb (bool_decide (adj_Direction r = "credit")) &&
     negb (bool_decide (adj_Direction r = "debit"))) ||
    (adj_Amount r <? 1))) ||
  (reversal && bool_decide (adj_OriginalTransferID r = "") &&
   (bool_decide (adj_OriginalAccountID r = "") ||
    bool_decide (adj_OriginalEventSequence r = None))).

(** The assignments to [r.ID], [r.Status], [r.CreatedBy] and [r.CreatedAt]. *)
Definition stamped (r : AdjustmentRequest) (id adminID : string) (now : Time)
    : AdjustmentRequest := {|
  adj_ID := id; adj_Type := adj_Type r; adj_Status := AdjustmentWaiting;
  adj_AccountID := adj_AccountID r; adj_Direction := adj_Direction r;
  adj_Amount := adj_Amount r; adj_Fee := adj_Fee r;
  adj_CounterpartyAccountID := adj_CounterpartyAccountID r;
  adj_OriginalTransferID := adj_OriginalTransferID r;
  adj_OriginalAccountID := adj_OriginalAccountID r;
  adj_OriginalEventSequence := adj_OriginalEventSequence r;
  adj_Reason := adj_Reason r; adj_CaseReference := adj_CaseReference r;
  adj_CreatedBy := adminID; adj_ReviewedBy := adj_ReviewedBy r;
  adj_RejectionReason := adj_RejectionReason r; adj_CreatedAt := now;
  adj_ReviewedAt := adj_ReviewedAt r |}.

Definition Create (r : AdjustmentRequest) (adminID : string)
    : prog (go_result AdjustmentRequest) :=
  let r := trimmed r in
  if invalid_request r then fail ErrInvalidAdjustment
  else
    let? id := randomID "adj_" in
    now ← env TimeNow;
    store (cCreateAdjustment (stamped r id adminID now)).

Definition List (status : string) : prog (go_result (list AdjustmentRequest)) :=
  let status := if bool_decide (status = "") then AdjustmentWaiting else status in
  if negb (bool_decide (status = AdjustmentWaiting)) &&
     negb (bool_decide (status = AdjustmentApproved)) &&
     negb (bool_decide (status = AdjustmentRejected))
  then fail ErrInvalidAdjustment
  else store (cListAdjustments status).

Definition Get (id : string) : prog (go_result AdjustmentRequest) := store (cGetAdjustment id).

Definition Approve (id adminID : string) : prog (go_result unit) :=
  now ← env TimeNow;
  store (cApproveAdjustment id adminID now).

Definition Reject (id adminID reason : string) : prog (go_result unit) :=
  let reason := TrimSpace reason in
  if (slen reason <? 1) || (500 <? slen reason) then fail ErrInvalidAdjustment
  else
    now ← env TimeNow;
    store (cRejectAdjustment id adminID reason now).
End AdjustmentService.

(** ** memory_repo.go *)
Module Repository.

Definition snapshot (id : string) : prog (option AccountSnapshot) :=
  r ← store (cLoadSnapshot id);
  match r with Ok snap => Ret (Some snap) | Err _ => Ret None end.

Definition maybeSnapshot (threshold : Z) (id : string) (events : list Event)
    (account : Account) : prog unit :=
  if (threshold <=? 0) || (seq_of events <? threshold) then Ret tt
  else
    match last events with
    | None => Ret tt
    | Some ev =>
        _ ← store (cSaveSnapshot {|
              snap_AggregateID := id; snap_Balance := acc_Balance account;
              snap_ReservedBalance := acc_ReservedBalance account;
              snap_AvailableBalance := acc_AvailableBalance account;
              snap_AsOfSequence := Version ev; snap_OccurredAt := OccurredAt ev |});
        Ret tt
    end.

Definition FindByID (threshold : Z) (id : string) : prog (go_result Account) :=
  let? events := store (cLoad id) in
  if seq_of events =? 0 then fail ErrAccountNotFound
  else
    snap ← snapshot id;
    let account := ReplayAccountFrom id snap events in
    _ ← maybeSnapshot threshold id events account;
    succeed account.
End Repository.

(** ** cmd/server/main.go: seedIfEmpty *)

(** The loop over the demo accounts. *)
Fixpoint seed_accounts (accounts : list (string * Money)) : prog (go_result unit) :=
  match accounts with
  | [] => succeed tt
  | (id, amount) :: accounts' =>
      let? events := store (cLoad id) in
      if seq_of events >? 0 then seed_accounts accounts'
      else
        now ← env TimeNow;
        let? _ := store (cAppend (EAccountOpened {|
          ao_Aggregate := id; ao_Type := "AccountOpened"; ao_Seq := 0; ao_Occurred := now;
          ao_ID := id; ao_InitialBalance := amount |}) 0) in
        seed_accounts accounts'
  end.
Definition seedIfEmpty : prog (go_result unit) := seed_accounts [("acc1", 10000); ("acc2", 5000)].
