(* ===== verification/TransferService.v ===== *)
(** * Transfers and their sagas: internal/service/transfer_service.go. *)
From S2P Require Export Services.

(** The collaborators the service holds besides its store, its compliance
    checker and its wake channel, which are calls. *)
Record TransferService := mkTransferService {
  ts_feePolicy : Money → Money;
  ts_available : Time → bool;
  ts_eventBus : bool;                      (** the bus function is not nil *)
}.

(** [approveAllCompliance], the default checker. *)
Definition approveAll (r : TransferRecord) : go_result bool := Ok true.

Definition receiptFromTransfer (r : TransferRecord) : TransferReceipt := {|
  rc_TransferID := tr_ID r; rc_Status := tr_Status r;
  rc_InitialSourceAccount := Some (mkAccount (tr_SourceAccountID r) (tr_InitialSourceBalance r) 0 0);
  rc_InitialDestinationAccount := None;
  rc_FinalSourceAccount := Some (mkAccount (tr_SourceAccountID r) (tr_FinalSourceBalance r) 0 0);
  rc_FinalDestinationAccount := None;
  rc_TransferAmount := tr_Amount r; rc_FeeAmount := tr_Fee r;
  rc_CurrentStep := tr_CurrentStep r |}.

(** The record a transfer starts as. *)
Definition new_transfer (command : TransferCommand) (key id : string) (fee : Money) (now : Time)
    : TransferRecord := {|
  tr_ID := id; tr_SourceAccountID := tc_SourceAccountID command;
  tr_DestinationAccountID := tc_DestinationAccountID command; tr_IdempotencyKey := key;
  tr_Amount := tc_Amount command; tr_Fee := fee; tr_Status := TransferPending;
  tr_FailureCode := ""; tr_InitialSourceBalance := 0; tr_FinalSourceBalance := 0;
  tr_CreatedAt := now; tr_UpdatedAt := now; tr_CurrentStep := SagaCreated;
  tr_ComplianceStatus := ""; tr_AttemptCount := 0; tr_NextAttemptAt := now;
  tr_LastError := "" |}.

Definition Transfer (s : TransferService) (command : TransferCommand)
    : prog (go_result TransferReceipt) :=
  if (tc_Amount command <? 100) ||
     bool_decide (tc_SourceAccountID command = tc_DestinationAccountID command)
  then fail ErrInvalidTransferAmount
  else
    let key := TrimSpace (tc_IdempotencyKey command) in
    if bool_decide (key = "") || (128 <? slen key) then fail ErrIdempotencyKeyRequired
    else
      t ← env TimeNow;
      if negb (ts_available s t) then fail ErrOutOfService
      else
        let? raw := env (RandRead 16) in
        now ← env TimeNow;
        let fee := ts_feePolicy s (tc_Amount command) in
        if (fee <? 0) || (MaxInt64 -! fee <? tc_Amount command)
        then fail ErrInvalidTransferAmount
        else
          let? (record, _) := store (cCreateTransfer
            (new_transfer command key ("trf_" +:+ EncodeToString raw) fee now)) in
          _ ← env SendWake;
          succeed (receiptFromTransfer record).

Definition Find (id sourceID : string) : prog (go_result TransferRecord) :=
  let? r := store (cFindTransfer id) in
  if negb (bool_decide (sourceID = "")) && negb (bool_decide (tr_SourceAccountID r = sourceID))
  then fail ErrForbidden
  else succeed r.

(** A [TransferSagaUpdate] literal that leaves the record at its step [r]; the
    fields it does not mention are zero. *)
Definition saga_update (r : TransferRecord) (step status code compliance lastError : string)
    (attempts : Z) (next : Time) (initial final : Money) : TransferSagaUpdate := {|
  su_ExpectedStep := tr_CurrentStep r; su_CurrentStep := step; su_Status := status;
  su_FailureCode := code; su_ComplianceStatus := compliance; su_LastError := lastError;
  su_AttemptCount := attempts; su_NextAttemptAt := next; su_InitialSourceBalance := initial;
  su_FinalSourceBalance := final |}.

Definition advance (r : TransferRecord) (u : TransferSagaUpdate) : prog (go_result unit) :=
  now ← env TimeNow;
  let? _ := store (cUpdateTransferSaga (tr_ID r) u now) in
  succeed tt.

Definition Second : Time := 1000000000.

(** The delay before the next attempt. *)
Definition retry_delay (attempt : Z) (afterLedger : bool) : Time :=
  let delay := Second *! 2 ^ Z.min (attempt - 1) 4 in
  if afterLedger && (30 * Second <? delay) then 30 * Second else delay.

Definition retry (r : TransferRecord) (stepErr : error) (afterLedger : bool)
    : prog (go_result unit) :=
  let attempt := tr_AttemptCount r +! 1 in
  if negb afterLedger && (5 <=? attempt) then
    _ ← (if negb (bool_decide (tr_CurrentStep r = SagaCreated)) then
           now ← env TimeNow; store (cReleaseTransferReservation r now)
         else succeed tt);
    now ← env TimeNow;
    advance r (saga_update r (tr_CurrentStep r) TransferFailed "retry_exhausted" ""
                 (Error stepErr) attempt now 0 0)
  else
    now ← env TimeNow;
    advance r (saga_update r (tr_CurrentStep r) TransferPending "" "" (Error stepErr) attempt
                 (now + retry_delay attempt afterLedger) 0 0).

Definition handleStepError (r : TransferRecord) (stepErr : error) (reserved : bool)
    : prog (go_result unit) :=
  let code :=
    match stepErr with
    | ErrAccountNotFound => Some "account_not_found"
    | InsufficientFundsError _ _ => Some "insufficient_funds"
    | _ => None
    end in
  match code with
  | Some code =>
      _ ← (if reserved then
             now ← env TimeNow; store (cReleaseTransferReservation r now)
           else succeed tt);
      now ← env TimeNow;
      advance r (saga_update r (tr_CurrentStep r) TransferFailed code "" (Error stepErr) 0
                   now 0 0)
  | None => retry r stepErr false
  end.

(** [if err != nil { return handler(err) }; k]. *)
Definition on_error {A} (p : prog (go_result A)) (handler : error → prog (go_result unit))
    (k : A → prog (go_result unit)) : prog (go_result unit) :=
  r ← p; match r with Ok a => k a | Err e => handler e end.

Definition Process (s : TransferService) (r : TransferRecord) : prog (go_result unit) :=
  now ← env TimeNow;
  let step := tr_CurrentStep r in
  if bool_decide (step = SagaCreated) then
    on_error (store (cReserveTransferFunds r now)) (λ e, handleStepError r e false) (λ balance,
    advance r (saga_update r SagaFundsReserved TransferPending "" "" "" 0 now balance 0))
  else if bool_decide (step = SagaFundsReserved) then
    on_error (env (CheckTransfer r)) (λ e, handleStepError r e true) (λ approved : bool,
    let decision := if approved then "approved" else "rejected" in
    on_error (store (cRecordComplianceDecision (tr_ID r) decision now))
      (λ e, handleStepError r e true) (λ _,
    if negb approved then
      on_error (store (cReleaseTransferReservation r now)) (λ e, handleStepError r e true) (λ _,
      advance r (saga_update r step TransferFailed "compliance_rejected" decision "" 0 now 0 0))
    else
      advance r (saga_update r SagaComplianceApproved TransferPending "" decision "" 0 now 0 0)))
  else if bool_decide (step = SagaComplianceApproved) then
    on_error (store (cPostTransferLedger r now)) (λ e, handleStepError r e true) (λ final,
    advance r (saga_update r SagaLedgerPosted TransferPending "" "" "" 0 now 0 final))
  else if bool_decide (step = SagaLedgerPosted) then
    on_error (store (cCaptureTransferReservation r now)) (λ e, retry r e true) (λ _,
    advance r (saga_update r SagaReservationCaptured TransferPending "" "" "" 0 now 0 0))
  else if bool_decide (step = SagaReservationCaptured) then
    let? ok := store (cUpdateTransferSaga (tr_ID r)
                 (saga_update r step TransferCompleted "" "" "" 0 now 0 0) now) in
    if ok && ts_eventBus s then
      _ ← env (PublishCompleted {|
            tce_Timestamp := now; tce_TransferID := tr_ID r; tce_Amount := tr_Amount r;
            tce_SourceAccountID := tr_SourceAccountID r;
            tce_DestinationAccountID := tr_DestinationAccountID r; tce_Fee := tr_Fee r |});
      succeed tt
    else succeed tt
  else succeed tt.

(** The loop of [ProcessDue] over the due records; the error of one record does
    not stop it. *)
Fixpoint process_items (s : TransferService) (items : list TransferRecord)
    : prog (go_result unit) :=
  match items with
  | [] => succeed tt
  | r :: items' =>
      ctxErr ← env CtxErr;
      match ctxErr with
      | Some e => fail e
      | None => _ ← Process s r; process_items s items'
      end
  end.

Definition ProcessDue (s : TransferService) : prog (go_result unit) :=
  now ← env TimeNow;
  let? items := store (cListDueTransfers now 100) in
  process_items s items.

(** [Run]: [rounds] bounds the iterations of its endless loop. *)
Fixpoint Run (s : TransferService) (rounds : nat) : prog unit :=
  match rounds with
  | O => Ret tt
  | S rounds' =>
      c ← env Select;
      match c with
      | CtxDone => Ret tt
      | TickerFired | WakeReceived => _ ← ProcessDue s; Run s rounds'
      end
  end.
