(* ===== verification/Password.v ===== *)
(** * Password hashing: internal/service/password.go. *)
From S2P Require Export Sha256 Money Services.

Definition passwordIterations : Z := 600000.

(** The bytes of a Go string. *)
Abbreviation bytes_of := String.list_ascii_of_string.

(** The four big-endian bytes of the block number, an [uint32]. *)
Definition block_bytes (block : Z) : list ascii := word_bytes (word block).

(** The loop over [i]: [t] collects the exclusive or of the successive [u]. *)
Definition pbkdf2_step (password : list ascii) (ut : list ascii * list ascii)
    : list ascii * list ascii :=
  let u := hmac_sha256 password ut.1 in (u, xor_bytes ut.2 u).
Definition pbkdf2_block (password salt : list ascii) (iterations block : Z) : list ascii :=
  let u := hmac_sha256 password (salt ++ block_bytes block) in
  (Nat.iter (Z.to_nat (iterations - 1)) (pbkdf2_step password) (u, u)).2.

(** The loop over [block]; each round adds 32 bytes, so [keyLength] rounds are
    enough ([pbkdf2SHA256_length]). *)
Fixpoint pbkdf2_loop (fuel : nat) (password salt : list ascii) (iterations : Z)
    (keyLength : nat) (block : Z) (result : list ascii) : list ascii :=
  match fuel with
  | O => result
  | S fuel' =>
      if (length result <? keyLength)%nat
      then pbkdf2_loop fuel' password salt iterations keyLength (block + 1)
             (result ++ pbkdf2_block password salt iterations block)
      else result
  end.
Definition pbkdf2SHA256 (password salt : list ascii) (iterations : Z) (keyLength : nat)
    : list ascii :=
  take keyLength (pbkdf2_loop keyLength password salt iterations keyLength 1 []).

(** [fmt.Sprintf("pbkdf2_sha256$%d$%s$%s", ...)]. *)
Definition encoded_password (iterations : Z) (salt hash : list ascii) : string :=
  "pbkdf2_sha256$" +:+ fmt_d iterations +:+ "$" +:+
  Base64.EncodeToString Base64.RawStdEncoding salt +:+ "$" +:+
  Base64.EncodeToString Base64.RawStdEncoding hash.

Definition hashPassword (password : string) : prog (go_result string) :=
  let? salt := env (RandRead 16) in
  let hash := pbkdf2SHA256 (bytes_of password) salt passwordIterations 32 in
  succeed (encoded_password passwordIterations salt hash).

Definition HashPassword (password : string) : prog (go_result string) :=
  if (slen password <? 10) || (128 <? slen password) then fail ErrInvalidOnboarding
  else hashPassword password.

Definition verifyPassword (encoded password : string) : bool :=
  match Split "$" encoded with
  | [algorithm; count; salt; want] =>
      if negb (bool_decide (algorithm = "pbkdf2_sha256")) then false
      else
        match ParseInt count with
        | None => false
        | Some iterations =>
            if iterations <? 1 then false
            else
              match Base64.DecodeString Base64.RawStdEncoding salt with
              | None => false
              | Some salt =>
                  match Base64.DecodeString Base64.RawStdEncoding want with
                  | None => false
                  | Some want =>
                      bool_decide
                        (pbkdf2SHA256 (bytes_of password) salt iterations (length want) = want)
                  end
              end
        end
  | _ => false
  end.

#[global] Arguments pbkdf2SHA256 : simpl never.
#[global] Arguments encoded_password : simpl never.

(** ** Facts *)

Lemma pbkdf2_block_length password salt iterations block :
  length (pbkdf2_block password salt iterations block) = 32%nat.
Proof.
  unfold pbkdf2_block. set (u := hmac_sha256 _ _).
  assert (length u = 32%nat) as Hu by apply hmac_sha256_length. clearbody u.
  induction (Z.to_nat (iterations - 1)) as [|n IH]; [done|]. simpl. unfold pbkdf2_step at 1.
  set (p := Nat.iter n _ _) in *. clearbody p. simpl.
  unfold xor_bytes. rewrite length_zip_with, IH, hmac_sha256_length. done.
Qed.

Lemma pbkdf2_loop_length fuel password salt iterations keyLength block result :
  (keyLength ≤ length result + fuel * 32)%nat →
  (keyLength ≤
    length (pbkdf2_loop fuel password salt iterations keyLength block result))%nat.
Proof.
  revert block result. induction fuel as [|fuel IH]; intros block result Hl; simpl; [lia|].
  destruct (Nat.ltb_spec (length result) keyLength); [|lia].
  apply IH. rewrite length_app, pbkdf2_block_length. lia.
Qed.

Lemma pbkdf2SHA256_length password salt iterations keyLength :
  length (pbkdf2SHA256 password salt iterations keyLength) = keyLength.
Proof.
  unfold pbkdf2SHA256. rewrite length_take.
  pose proof (pbkdf2_loop_length keyLength password salt iterations keyLength 1 []). simpl in *. lia.
Qed.

(** RFC 7914, section 11. *)
Example pbkdf2SHA256_rfc7914 :
  EncodeToString (pbkdf2SHA256 (bytes_of "passwd") (bytes_of "salt") 1 64) =
  "55ac046e56e3089fec1691c22544b605f94185216dde0465e68b9d57c20dacbc49ca9cccf179b645991664b39d77ef317c71b845b1e30bd509112041d3a19783".
Proof. vm_compute. reflexivity. Qed.

Lemma Split_encoded iterations salt hash :
  0 ≤ iterations ≤ MaxInt64 →
  Split "$" (encoded_password iterations salt hash) =
  ["pbkdf2_sha256"; fmt_d iterations; Base64.EncodeToString Base64.RawStdEncoding salt;
   Base64.EncodeToString Base64.RawStdEncoding hash].
Proof.
  intros Hi. unfold encoded_password.
  change ("pbkdf2_sha256$" +:+ ?s) with ("pbkdf2_sha256" +:+ String "$" s).
  rewrite Split_sep by done. unfold fmt_d. destruct (Z.ltb_spec iterations 0); [lia|].
  destruct (fmt_nonneg_spec iterations Hi) as (Hd & _ & _).
  change ("$" +:+ ?s) with (String "$" s).
  assert (∀ bs, lacks "$" (Base64.EncodeToString Base64.RawStdEncoding bs) = true) as He
    by (intros; apply Base64.lacks_EncodeToString; by left).
  rewrite Split_sep by by apply all_digits_lacks. 
  change ("$" +:+ ?s) with (String "$" s). rewrite Split_sep, Split_lacks by done. done.
Qed.

Lemma verify_encoded password salt iterations n :
  1 ≤ iterations ≤ MaxInt64 →
  verifyPassword
    (encoded_password iterations salt (pbkdf2SHA256 (bytes_of password) salt iterations n))
    password = true.
Proof.
  intros Hi. unfold verifyPassword. rewrite Split_encoded by lia. cbv beta iota.
  unfold fmt_d. destruct (Z.ltb_spec iterations 0); [lia|].
  destruct (fmt_nonneg_spec iterations ltac:(lia)) as (Hd & Hne & Hv).
  rewrite (ParseInt_digits _ Hd Hne), Hv. destruct (Z.leb_spec iterations MaxInt64); [|lia].
  rewrite bool_decide_eq_true_2 by done. cbn [negb]. destruct (Z.ltb_spec iterations 1); [lia|].
  rewrite !Base64.Decode_Encode by by left. rewrite pbkdf2SHA256_length.
  by apply bool_decide_eq_true_2.
Qed.

Lemma hashPassword_run {St} `{BankStore St} (E : Env) password (w : World St) :
  ∃ r, interp E (hashPassword password) w =
         (r, mkWorld (w_store w) (S (w_calls w)) (w_bus w) (w_wake w)) ∧
    match r with
    | Ok encoded => verifyPassword encoded password = true
    | Err e => ∃ n, env_rand E n 16 = Err e
    end.
Proof.
  cbn -[encoded_password pbkdf2SHA256]. destruct (env_rand E (w_calls w) 16) as [salt|e] eqn:Hr;
    cbn -[encoded_password pbkdf2SHA256]; eexists; (split; [reflexivity|]); simpl;
    [by apply verify_encoded|by eauto].
Qed.

(** ** Properties *)

(** C36: a password verifies against its own hash, whatever the salt drawn: the
    text [hashPassword] writes is split, decoded and recomputed by
    [verifyPassword] to the same key. *)
Theorem hashPassword_verifies {St} `{BankStore St} (E : Env) password (w : World St) :
  match (interp E (hashPassword password) w).1 with
  | Ok encoded => verifyPassword encoded password = true
  | Err e => ∃ n, env_rand E n 16 = Err e
  end.
Proof. by destruct (hashPassword_run E password w) as (r & -> & Hr). Qed.
