(* ===== verification/Onboarding.v ===== *)
(** * Onboarding of customers: internal/service/onboarding_service.go. *)
From S2P Require Export GoTime Password.

(** ** The patterns *)

Definition is_upper (c : ascii) : bool :=
  (65 <=? byte_val c) && (byte_val c <=? 90).
Definition is_digit (c : ascii) : bool := bool_decide (is_Some (digit_val c)).

(** [^[A-Z]{2}$]. *)
Definition countryCodePattern (s : string) : bool :=
  match s with String a (String b EmptyString) => is_upper a && is_upper b | _ => false end.
(** [^\+[1-9][0-9]{7,14}$]. *)
Definition phonePattern (s : string) : bool :=
  match s with
  | String "+" (String c s') =>
      is_digit c && negb (Ascii.eqb c "0") && all_digits s' && (7 <=? slen s') && (slen s' <=? 14)
  | _ => false
  end.

(** [http.DetectContentType] as far as the service reads it: the image types it
    accepts, recognised by their signatures; None stands for all others. *)
Definition has_prefix (p l : list ascii) : bool := bool_decide (is_Some (strip_prefix p l)).
Definition DetectContentType (image : list ascii) : option string :=
  if has_prefix (bytes_of "RIFF") image && has_prefix (bytes_of "WEBPVP") (drop 8 image)
  then Some "image/webp"
  else if has_prefix (bytes [137; 80; 78; 71; 13; 10; 26; 10])%nat image then Some "image/png"
  else if has_prefix (bytes [255; 216; 255])%nat image then Some "image/jpeg"
  else None.

Definition validationError (field message : string) : error :=
  OnboardingValidationError field (field +:+ " " +:+ message).

Section Text.
Context `{GoText}.

Definition normalizeOnboarding (c : OnboardingCommand) : OnboardingCommand :=
  let a := oc_ResidentialAddress c in
  let d := oc_GovernmentDocument c in {|
  oc_LegalFirstName := TrimSpace (oc_LegalFirstName c);
  oc_LegalLastName := TrimSpace (oc_LegalLastName c);
  oc_DateOfBirth := TrimSpace (oc_DateOfBirth c);
  oc_Nationality := ToUpper (TrimSpace (oc_Nationality c));
  oc_Email := ToLower (TrimSpace (oc_Email c));
  oc_Phone := TrimSpace (oc_Phone c);
  oc_Password := oc_Password c;
  oc_ResidentialAddress := {|
    ra_Line1 := TrimSpace (ra_Line1 a); ra_Line2 := TrimSpace (ra_Line2 a);
    ra_City := TrimSpace (ra_City a); ra_StateOrProvince := TrimSpace (ra_StateOrProvince a);
    ra_PostalCode := TrimSpace (ra_PostalCode a); ra_Country := ToUpper (TrimSpace (ra_Country a)) |};
  oc_GovernmentDocument := {|
    gd_Type := ToLower (TrimSpace (gd_Type d)); gd_Number := ToUpper (TrimSpace (gd_Number d));
    gd_IssuingCountry := ToUpper (TrimSpace (gd_IssuingCountry d)) |};
  oc_PassportImage := oc_PassportImage c;
  oc_InitialDeposit := oc_InitialDeposit c |}.

(** The fields that must be given, in the order they are checked. *)
Definition required (c : OnboardingCommand) : list (string * string) :=
  let a := oc_ResidentialAddress c in
  let d := oc_GovernmentDocument c in
  [("legal_first_name", oc_LegalFirstName c); ("legal_last_name", oc_LegalLastName c);
   ("date_of_birth", oc_DateOfBirth c); ("nationality", oc_Nationality c);
   ("email", oc_Email c); ("phone", oc_Phone c);
   ("residential_address.line1", ra_Line1 a); ("residential_address.city", ra_City a);
   ("residential_address.postal_code", ra_PostalCode a);
   ("residential_address.country", ra_Country a);
   ("government_document.type", gd_Type d); ("government_document.number", gd_Number d);
   ("government_document.issuing_country", gd_IssuingCountry d)].

(** The loop over them. *)
Fixpoint check_required (items : list (string * string)) : go_result unit :=
  match items with
  | [] => Ok tt
  | (field, value) :: items' =>
      if bool_decide (value = "") then Err (validationError field "is required")
      else if 200 <? slen value then Err (validationError field "is too long")
      else check_required items'
  end.

(** The map of the fields that are country codes. *)
Definition country_codes (c : OnboardingCommand) : gmap string string :=
  <["nationality" := oc_Nationality c]>
    (<["residential_address.country" := ra_Country (oc_ResidentialAddress c)]>
       {["government_document.issuing_country" := gd_IssuingCountry (oc_GovernmentDocument c)]}).

Definition validDocument (type : string) : bool :=
  bool_decide (type = "passport") || bool_decide (type = "national_id") ||
  bool_decide (type = "driver_license").

(** [age] after the comparison with the birthday of this year. *)
Definition age (birth : date) (now : Time) : Z :=
  let years := Year now - year birth in
  if now <? Date (Year now) (month birth) (day birth) then years - 1 else years.

(** The checks from the date of birth on. *)
Definition validate_details (c : OnboardingCommand) (now : Time) : go_result Time :=
  match ParseDate (oc_DateOfBirth c) with
  | None => Err (validationError "date_of_birth" "must be a valid past date")
  | Some birth =>
      let birthDate := Date (year birth) (month birth) (day birth) in
      if now <? birthDate then Err (validationError "date_of_birth" "must be a valid past date")
      else if age birth now <? 18
      then Err (validationError "date_of_birth" "customer must be at least 18")
      else if (oc_InitialDeposit c <? 0) ||
              ((0 <? oc_InitialDeposit c) && (oc_InitialDeposit c <? 1000))
      then Err (validationError "initial_deposit" "must be zero or at least 10.00")
      else if Z.of_nat (length (oc_PassportImage c)) =? 0
      then Err (validationError "passport_image" "is required")
      else if Z.of_nat (length (oc_PassportImage c)) >? Z.shiftl 5 20
      then Err (validationError "passport_image" "must not exceed 5 MB")
      else
        match DetectContentType (oc_PassportImage c) with
        | None => Err (validationError "passport_image" "must be a JPEG, PNG, or WebP image")
        | Some _ => Ok birthDate
        end
  end.

Definition validateOnboarding `{GoRuntime} (c : OnboardingCommand) (now : Time) : go_result Time :=
  if (slen (oc_Password c) <? 10) || (slen (oc_Password c) >? 128)
  then Err (validationError "password" "must contain 10 to 128 characters")
  else
    match check_required (required c) with
    | Err e => Err e
    | Ok _ =>
        if negb (ParseAddress (oc_Email c))
        then Err (validationError "email" "must be a valid email address")
        else if negb (phonePattern (oc_Phone c))
        then Err (validationError "phone" "must use E.164 format")
        else
          match range_find (λ value, negb (countryCodePattern value)) (country_codes c) with
          | Some (field, _) => Err (validationError field "must be a two-letter country code")
          | None =>
              if negb (validDocument (gd_Type (oc_GovernmentDocument c)))
              then Err (validationError "government_document.type" "is not supported")
              else validate_details c now
          end
    end.

(** The record of a new customer. *)
Definition new_customer (c : OnboardingCommand) (id passwordHash : string) (birthDate now : Time)
    : Customer := {|
  cus_ID := id; cus_AccountID := ""; cus_LegalFirstName := oc_LegalFirstName c;
  cus_LegalLastName := oc_LegalLastName c; cus_DateOfBirth := birthDate;
  cus_Nationality := oc_Nationality c; cus_Email := oc_Email c; cus_Phone := oc_Phone c;
  cus_PasswordHash := passwordHash; cus_ResidentialAddress := oc_ResidentialAddress c;
  cus_GovernmentDocument := oc_GovernmentDocument c; cus_PassportImage := oc_PassportImage c;
  cus_PassportImageMIME := default "" (DetectContentType (oc_PassportImage c));
  cus_KYCStatus := KYCWaiting; cus_RequestedDeposit := oc_InitialDeposit c;
  cus_ReviewedBy := ""; cus_ReviewedAt := None; cus_RejectionReason := ""; cus_CreatedAt := now |}.

(** [x, err := p; if err != nil { return nil, fmt.Errorf("context: %w", err) }]. *)
Definition wrap_error {A} (context : string) (p : prog (go_result A)) : prog (go_result A) :=
  r ← p; Ret (match r with Ok a => Ok a | Err e => Err (Errorf context e) end).

Definition Onboard `{GoRuntime} (command : OnboardingCommand)
    : prog (go_result OnboardingReceipt) :=
  let c := normalizeOnboarding command in
  now ← env TimeNow;
  match validateOnboarding c now with
  | Err e => fail e
  | Ok birthDate =>
      let? passwordHash := wrap_error "hash password" (hashPassword (oc_Password c)) in
      let? customerID := wrap_error "generate customer id" (randomID "cus_") in
      now ← env TimeNow;
      let? _ := store (cCreateCustomerApplication
        (new_customer c customerID passwordHash birthDate now)) in
      succeed (mkOnboardingReceipt customerID KYCWaiting)
  end.
End Text.
