(* ===== verification/Auth.v ===== *)
(** * Authentication: internal/service/auth_service.go. *)
From S2P Require Export Onboarding.

Definition tokenHash (token : string) : string :=
  EncodeToString (Sha256.Sum256 (bytes_of token)).

(** [24 * time.Hour]. *)
Definition sessionLifetime : Time := 24 * 3600 * 1000000000.

(** The end of [Login]: a session for whoever was recognised. *)
Definition open_session (customerID adminID : string) (principal : Principal)
    : prog (go_result (string * Principal)) :=
  let? raw := env (RandRead 32) in
  let token := Base64.EncodeToString Base64.RawURLEncoding raw in
  now ← env TimeNow;
  let? _ := store (cCreateSession {|
    ses_TokenHash := tokenHash token; ses_CustomerID := customerID; ses_AdminID := adminID;
    ses_ExpiresAt := now + sessionLifetime |}) in
  succeed (token, principal).

Definition admin_principal (a : Admin) : Principal := {|
  pr_CustomerID := ""; pr_AccountID := ""; pr_AdminID := adm_ID a; pr_Email := adm_Email a;
  pr_Role := "admin"; pr_KYCStatus := ""; pr_RejectionReason := "" |}.
Definition customer_principal (c : Customer) : Principal := {|
  pr_CustomerID := cus_ID c; pr_AccountID := cus_AccountID c; pr_AdminID := "";
  pr_Email := cus_Email c; pr_Role := "customer"; pr_KYCStatus := cus_KYCStatus c;
  pr_RejectionReason := cus_RejectionReason c |}.

(** [err == nil && verifyPassword(x.PasswordHash, password)]. *)
Definition recognised {A} (found : go_result A) (passwordHash : A → string) (password : string)
    : option A :=
  match found with
  | Ok a => if verifyPassword (passwordHash a) password then Some a else None
  | Err _ => None
  end.

Definition Login `{GoText} (email password : string) : prog (go_result (string * Principal)) :=
  let email := ToLower (TrimSpace email) in
  admin ← store (cFindAdminByEmail email);
  match recognised admin adm_PasswordHash password with
  | Some a => open_session "" (adm_ID a) (admin_principal a)
  | None =>
      customer ← store (cFindCustomerByEmail email);
      match recognised customer cus_PasswordHash password with
      | None => fail ErrInvalidCredentials
      | Some c => open_session (cus_ID c) "" (customer_principal c)
      end
  end.

Definition Authenticate (token : string) : prog (go_result Principal) :=
  if bool_decide (token = "") then fail ErrUnauthorized
  else
    now ← env TimeNow;
    principal ← store (cFindSession (tokenHash token) now);
    match principal with
    | Err _ => fail ErrUnauthorized
    | Ok p => succeed p
    end.

Definition Logout (token : string) : prog (go_result unit) :=
  if bool_decide (token = "") then succeed tt else store (cDeleteSession (tokenHash token)).

#[global] Arguments tokenHash : simpl never.
#[global] Arguments verifyPassword : simpl never.
