(* ===== verification/Router.v ===== *)
(** * The HTTP transport: internal/httpapi/router.go.

    A handler is a program from a request to a reply.  net/http and the JSON and
    multipart readers turn bytes into the fields of [Request]; gorilla/mux, which
    picks the route of a path, is the class [Mux]. *)
From S2P Require Export Codec TransferService Auth.

(** ** Requests and replies *)

(** A multipart form: the JSON of the value "payload" (none when it does not
    parse), and the file "passport_image" (none when there is none). *)
Record Multipart := mkMultipart {
  mp_payload : option json;
  mp_passport_image : option (go_result (list ascii));
}.

Record Request := mkRequest {
  rq_Method : string;
  rq_Path : string;
  rq_Query : gmap string string;
  rq_Header : gmap string string;
  rq_Cookies : list (string * string);
  rq_Body : option json;              (** the first JSON value, if it parses *)
  rq_Multipart : option Multipart;    (** none when [ParseMultipartForm] fails *)
  rq_Vars : gmap string string;       (** the variables of the route *)
  rq_Principal : option Principal;    (** the value of [principalContextKey] *)
}.

(** [r.WithContext(context.WithValue(...))] and the context mux adds. *)
Definition with_principal (p : Principal) (r : Request) : Request :=
  mkRequest (rq_Method r) (rq_Path r) (rq_Query r) (rq_Header r) (rq_Cookies r) (rq_Body r)
    (rq_Multipart r) (rq_Vars r) (Some p).
Definition with_vars (vars : gmap string string) (r : Request) : Request :=
  mkRequest (rq_Method r) (rq_Path r) (rq_Query r) (rq_Header r) (rq_Cookies r) (rq_Body r)
    (rq_Multipart r) vars (rq_Principal r).

(** [m[key]] on a Go map of strings, and the [Get] methods of url.Values and
    http.Header. *)
Definition get (key : string) (m : gmap string string) : string := default "" (m !! key).
Definition var (name : string) (r : Request) : string := get name (rq_Vars r).

(** [r.Cookie(name)]: the first cookie of that name. *)
Definition Cookie (name : string) (r : Request) : option string :=
  snd ∘ snd <$> list_find (λ c, c.1 = name) (rq_Cookies r).

Record SetCookie := mkSetCookie {
  ck_Name : string; ck_Value : string; ck_Path : string; ck_MaxAge : Z; ck_HttpOnly : bool;
  ck_Secure : bool; ck_SameSite : string;
}.

Inductive Body := NoBody | JSONBody (value : json) | BytesBody (b : list ascii).

Record Response := mkResponse {
  rs_Status : Z;
  rs_Header : list (string * string);
  rs_Cookies : list SetCookie;
  rs_Body : Body;
}.

(** [Panicked]: a method of a nil service, or of a nil principal, was used;
    net/http drops the connection. *)
Inductive Reply := Replied (r : Response) | Panicked.

Definition HandlerFunc : Type := Request → prog Reply.

(** ** Writing replies *)

Definition writeJSON (status : Z) (value : json) : Response := {|
  rs_Status := status; rs_Header := [("Content-Type", "application/json")]; rs_Cookies := [];
  rs_Body := match Marshal value with Some v => JSONBody v | None => NoBody end |}.

Definition writeError (status : Z) (message : string) : Response :=
  writeJSON status (enc_map (field "error" (JString message))).

(** [w.WriteHeader(http.StatusNoContent)]. *)
Definition no_content : Response := mkResponse 204 [] [] NoBody.

Definition reply (r : Response) : prog Reply := Ret (Replied r).

Definition statusForError (err : error) : Z :=
  match err with
  | ErrInvalidTransferAmount | ErrInvalidDepositAmount | ErrInvalidWithdrawAmount => 400
  | ErrOutOfService => 503
  | ErrAccountNotFound => 404
  | ErrConcurrencyConflict => 409
  | ErrCustomerAlreadyExists => 409
  | ErrApplicationNotFound => 404
  | ErrApplicationReviewed => 409
  | ErrInvalidReviewStatus | ErrInvalidRejectionReason => 400
  | ErrIdempotencyKeyRequired | ErrInvalidMoney => 400
  | ErrIdempotencyConflict => 409
  | ErrTransferNotFound => 404
  | ErrForbidden => 403
  | ErrInvalidAdjustment => 400
  | ErrAdjustmentNotFound => 404
  | ErrAdjustmentReviewed | ErrSelfApproval | ErrAlreadyReversed => 409
  | InsufficientFundsError _ _ => 422
  | _ => 500
  end.

Definition error_reply (err : error) : prog Reply :=
  reply (writeError (statusForError err) (Error err)).

(** [if err != nil { writeError(w, statusForError(err), err.Error()); return }]. *)
Definition or_error {A} (p : prog (go_result A)) (k : A → prog Reply) : prog Reply :=
  r ← p; match r with Ok a => k a | Err err => error_reply err end.
(** The same with a fixed status. *)
Definition or_status {A} (status : Z) (p : prog (go_result A)) (k : A → prog Reply) : prog Reply :=
  r ← p; match r with Ok a => k a | Err err => reply (writeError status (Error err)) end.
(** [json.NewDecoder(r.Body).Decode(&req)], and the reply when it fails. *)
Definition decodeBody {A} (d : decoder A) (zero : A) (r : Request) (k : A → prog Reply) : prog Reply :=
  match rq_Body r ≫= λ j, d j zero with
  | Some req => k req
  | None => reply (writeError 400 "invalid request body")
  end.

(** ** Authentication and authorisation *)

Definition sessionCookie : string := "odtbank_session".

Definition principalFromRequest (r : Request) : option Principal := rq_Principal r.

Definition authorizedAccount (r : Request) (accountID : string) : bool :=
  match principalFromRequest r with
  | None => true
  | Some p => bool_decide (pr_AccountID p = accountID)
  end.

Definition requireAuth (next : HandlerFunc) : HandlerFunc := λ r,
  match Cookie sessionCookie r with
  | None => reply (writeError 401 (Error ErrUnauthorized))
  | Some value =>
      principal ← Authenticate value;
      match principal with
      | Err _ => reply (writeError 401 (Error ErrUnauthorized))
      | Ok p => next (with_principal p r)
      end
  end.

Definition requireApprovedCustomer (next : HandlerFunc) : HandlerFunc := λ r,
  let forbidden := reply (writeError 403 (Error ErrForbidden)) in
  match principalFromRequest r with
  | None => forbidden
  | Some p =>
      if negb (bool_decide (pr_Role p = "customer")) ||
         negb (bool_decide (pr_KYCStatus p = KYCApproved)) || bool_decide (pr_AccountID p = "")
      then forbidden else next r
  end.

Definition requireAdmin (next : HandlerFunc) : HandlerFunc := λ r,
  let forbidden := reply (writeError 403 (Error ErrForbidden)) in
  match principalFromRequest r with
  | None => forbidden
  | Some p => if negb (bool_decide (pr_Role p = "admin")) then forbidden else next r
  end.

(** [principalFromRequest(r).AdminID]. *)
Definition with_admin (r : Request) (k : string → prog Reply) : prog Reply :=
  match principalFromRequest r with Some p => k (pr_AdminID p) | None => Ret Panicked end.

(** ** Transfers, deposits and withdrawals *)

Record transferRequest := mkTransferRequest {
  treq_Amount : Money; treq_SourceID : string; treq_DestID : string;
}.
Definition dec_transferRequest : decoder transferRequest := dec_struct (λ kvs x,
  let get {A} := @member A ["amount"; "source_account_id"; "destination_account_id"] kvs in
  a ← get "amount" dec_money (treq_Amount x);
  s ← get "source_account_id" dec_string (treq_SourceID x);
  d ← get "destination_account_id" dec_string (treq_DestID x);
  Some (mkTransferRequest a s d)).

Definition handleTransfer (transferService : TransferService) : HandlerFunc := λ r,
  decodeBody dec_transferRequest (mkTransferRequest 0 "" "") r (λ req,
    if negb (authorizedAccount r (treq_SourceID req))
    then reply (writeError 403 (Error ErrForbidden))
    else
      or_error (Transfer transferService (mkTransferCommand (treq_Amount req) (treq_SourceID req)
                  (treq_DestID req) (get "Idempotency-Key" (rq_Header r)))) (λ receipt,
        let status := if negb (bool_decide (rc_Status receipt = TransferPending)) then 200 else 202 in
        reply (writeJSON status (enc_map (
          field "TransferID" (JString (rc_TransferID receipt)) ++
          field "Status" (JString (rc_Status receipt)) ++
          field "InitialSourceAccount" (enc_pointer enc_account (rc_InitialSourceAccount receipt)) ++
          field "FinalSourceAccount" (enc_pointer enc_account (rc_FinalSourceAccount receipt)) ++
          field "DestinationAccountID" (JString (treq_DestID req)) ++
          field "TransferAmount" (enc_money (rc_TransferAmount receipt)) ++
          field "FeeAmount" (enc_money (rc_FeeAmount receipt)) ++
          field "CurrentStep" (JString (rc_CurrentStep receipt))))))).

Definition handleTransferStatus : HandlerFunc := λ r,
  let source := match principalFromRequest r with Some p => pr_AccountID p | None => "" end in
  or_error (Find (var "id" r) source) (λ record, reply (writeJSON 200 (enc_transfer_record record))).

(** [depositRequest] and [withdrawRequest] have the same fields. *)
Record amountRequest := mkAmountRequest { areq_Amount : Money; areq_AccountID : string }.
Definition dec_amountRequest : decoder amountRequest := dec_struct (λ kvs x,
  let get {A} := @member A ["amount"; "account_id"] kvs in
  a ← get "amount" dec_money (areq_Amount x);
  i ← get "account_id" dec_string (areq_AccountID x);
  Some (mkAmountRequest a i)).

Definition handleDeposit : HandlerFunc := λ r,
  decodeBody dec_amountRequest (mkAmountRequest 0 "") r (λ req,
    if negb (authorizedAccount r (areq_AccountID req))
    then reply (writeError 403 (Error ErrForbidden))
    else or_error (Deposit (areq_Amount req) (areq_AccountID req)) (λ receipt,
      reply (writeJSON 200 (enc_deposit_receipt receipt)))).

Definition handleWithdraw (atomic : bool) : HandlerFunc := λ r,
  decodeBody dec_amountRequest (mkAmountRequest 0 "") r (λ req,
    if negb (authorizedAccount r (areq_AccountID req))
    then reply (writeError 403 (Error ErrForbidden))
    else or_error (Withdraw atomic (areq_Amount req) (areq_AccountID req)) (λ receipt,
      reply (writeJSON 200 (enc_withdrawal_receipt receipt)))).

(** ** Onboarding *)

Definition zero_command : OnboardingCommand :=
  mkOnboardingCommand "" "" "" "" "" "" "" (mkResidentialAddress "" "" "" "" "" "")
    (mkGovernmentDocument "" "" "") [] 0.

(** [onboardingRequest], decoded straight into the command, which has the same
    fields and the passport image. *)
Definition onboarding_names : list string :=
  ["legal_first_name"; "legal_last_name"; "date_of_birth"; "nationality"; "email"; "phone";
   "password"; "initial_deposit"; "residential_address"; "government_document"].
Definition dec_onboardingRequest : decoder OnboardingCommand := dec_struct (λ kvs c,
  let get {A} := @member A onboarding_names kvs in
  fn ← get "legal_first_name" dec_string (oc_LegalFirstName c);
  ln ← get "legal_last_name" dec_string (oc_LegalLastName c);
  bd ← get "date_of_birth" dec_string (oc_DateOfBirth c);
  na ← get "nationality" dec_string (oc_Nationality c);
  em ← get "email" dec_string (oc_Email c);
  ph ← get "phone" dec_string (oc_Phone c);
  pw ← get "password" dec_string (oc_Password c);
  de ← get "initial_deposit" dec_money (oc_InitialDeposit c);
  ad ← get "residential_address" dec_address (oc_ResidentialAddress c);
  gd ← get "government_document" dec_document (oc_GovernmentDocument c);
  Some (mkOnboardingCommand fn ln bd na em ph pw ad gd (oc_PassportImage c) de)).

Definition with_passport (image : list ascii) (c : OnboardingCommand) : OnboardingCommand :=
  mkOnboardingCommand (oc_LegalFirstName c) (oc_LegalLastName c) (oc_DateOfBirth c)
    (oc_Nationality c) (oc_Email c) (oc_Phone c) (oc_Password c) (oc_ResidentialAddress c)
    (oc_GovernmentDocument c) image (oc_InitialDeposit c).

(** The limit of [io.LimitReader]. *)
Definition passport_limit : nat := Z.to_nat (Z.shiftl 5 20 + 1).

Section Onboarding.
Context `{GoText} `{GoRuntime}.

Definition handleOnboarding : HandlerFunc := λ r,
  match rq_Multipart r with
  | None => reply (writeError 400 "invalid multipart request")
  | Some form =>
      match mp_payload form ≫= λ j, dec_onboardingRequest j zero_command with
      | None => reply (writeError 400 "invalid onboarding payload")
      | Some req =>
          match mp_passport_image form with
          | None => reply (writeJSON 400 (enc_map (
              field "error" (JString "passport_image is required") ++
              field "field" (JString "passport_image"))))
          | Some (Err _) => reply (writeError 400 "could not read passport image")
          | Some (Ok image) =>
              receipt ← Onboard (with_passport (firstn passport_limit image) req);
              match receipt with
              | Ok receipt => reply (writeJSON 201 (enc_onboarding_receipt receipt))
              | Err (OnboardingValidationError name message) =>
                  reply (writeJSON 400 (enc_map (
                    field "error" (JString message) ++ field "field" (JString name))))
              | Err err => error_reply err
              end
          end
      end
  end.
End Onboarding.

(** ** Accounts and their events *)

(** [repo]: the snapshot threshold of the repository; none for a nil one. *)
Definition balanceAccount (repo : option Z) (id : string) (events : list Event) : prog Account :=
  match repo with
  | Some threshold =>
      a ← Repository.FindByID threshold id;
      match a with Ok a => Ret a | Err _ => Ret (ReplayAccount id events) end
  | None => Ret (ReplayAccount id events)
  end.

Record accountDTO := mkAccountDTO {
  ad_ID : string; ad_Balance : Money; ad_ReservedBalance : Money; ad_AvailableBalance : Money;
  ad_EventCount : Z;
}.
Definition enc_accountDTO (a : accountDTO) : json := JObject (
  field "id" (JString (ad_ID a)) ++ field "balance" (enc_money (ad_Balance a)) ++
  field "reserved_balance" (enc_money (ad_ReservedBalance a)) ++
  field "available_balance" (enc_money (ad_AvailableBalance a)) ++
  field "event_count" (enc_int (ad_EventCount a))).

Definition account_dto (id : string) (a : Account) (events : list Event) : accountDTO :=
  mkAccountDTO id (acc_Balance a) (acc_ReservedBalance a) (acc_AvailableBalance a) (seq_of events).

(** The loop of [listAccounts]. *)
Fixpoint list_accounts (repo : option Z) (ids : list string) (out : list accountDTO)
    : prog (go_result (list accountDTO)) :=
  match ids with
  | [] => succeed out
  | id :: ids' =>
      let? events := store (cLoad id) in
      a ← balanceAccount repo id events;
      list_accounts repo ids' (out ++ [account_dto id a events])
  end.
Definition listAccounts (repo : option Z) : prog (go_result (list accountDTO)) :=
  let? ids := store cListAggregates in
  list_accounts repo ids [].

Definition enc_accounts (accounts : list accountDTO) : json :=
  enc_map (field "accounts" (JArray (enc_accountDTO <$> accounts))).

Definition handleListAccounts (repo : option Z) : HandlerFunc := λ r,
  match principalFromRequest r with
  | Some principal =>
      or_status 500 (store (cLoad (pr_AccountID principal))) (λ events,
        a ← balanceAccount repo (pr_AccountID principal) events;
        reply (writeJSON 200 (enc_accounts [account_dto (pr_AccountID principal) a events])))
  | None =>
      or_status 500 (listAccounts repo) (λ accounts, reply (writeJSON 200 (enc_accounts accounts)))
  end.

Record eventDTO := mkEventDTO {
  ed_Seq : Z; ed_Type : string; ed_Amount : Money; ed_TransferID : string; ed_Purpose : string;
  ed_CounterpartyAccountID : string; ed_AdjustmentID : string; ed_AdjustmentReason : string;
  ed_CaseReference : string; ed_OriginalReference : string; ed_OccurredAt : string;
}.
Definition enc_eventDTO (d : eventDTO) : json := JObject (
  field "seq" (enc_int (ed_Seq d)) ++ field "type" (JString (ed_Type d)) ++
  omit_money "amount" (ed_Amount d) ++ omit_string "transfer_id" (ed_TransferID d) ++
  omit_string "purpose" (ed_Purpose d) ++
  omit_string "counterparty_account_id" (ed_CounterpartyAccountID d) ++
  omit_string "adjustment_id" (ed_AdjustmentID d) ++
  omit_string "adjustment_reason" (ed_AdjustmentReason d) ++
  omit_string "case_reference" (ed_CaseReference d) ++
  omit_string "original_reference" (ed_OriginalReference d) ++
  field "occurred_at" (JString (ed_OccurredAt d))).

(** The body of the loop of [toEventDTOs]. *)
Definition event_dto (event : Event) : eventDTO :=
  let dto amount transfer purpose counterparty adj reason case_ original :=
    mkEventDTO (Version event) (EventType event) amount transfer purpose counterparty adj reason
      case_ original (Format_RFC3339 (OccurredAt event)) in
  match event with
  | EAccountOpened e => dto (ao_InitialBalance e) "" "" "" "" "" "" ""
  | EMoneyDebited e =>
      dto (md_Amount e) (md_TransferID e) (md_Purpose e) (md_CounterpartyAccountID e)
        (md_AdjustmentID e) (md_AdjustmentReason e) (md_CaseReference e) (md_OriginalReference e)
  | EMoneyCredited e =>
      dto (mc_Amount e) (mc_TransferID e) (mc_Purpose e) (mc_CounterpartyAccountID e)
        (mc_AdjustmentID e) (mc_AdjustmentReason e) (mc_CaseReference e) (mc_OriginalReference e)
  | EFundsReserved e => dto (fr_Amount e) (fr_TransferID e) "reservation" "" "" "" "" ""
  | EReservationCaptured e =>
      dto (rcap_Amount e) (rcap_TransferID e) "reservation_captured" "" "" "" "" ""
  | EReservationReleased e =>
      dto (rrel_Amount e) (rrel_TransferID e) "reservation_released" "" "" "" "" ""
  end.
Definition toEventDTOs (events : list Event) : list eventDTO := event_dto <$> events.

Definition handleAccountEvents : HandlerFunc := λ r,
  let id := var "id" r in
  if negb (authorizedAccount r id) then reply (writeError 403 (Error ErrForbidden))
  else
    or_status 500 (store (cLoad id)) (λ events,
      reply (writeJSON 200 (enc_map (
        field "aggregate_id" (JString id) ++
        field "events" (JArray (enc_eventDTO <$> toEventDTOs events)))))).

Definition handleAdminAccountEvents (repo : option Z) : HandlerFunc := λ r,
  let id := TrimSpace (var "id" r) in
  if bool_decide (id = "") then reply (writeError 400 "account id is required")
  else
    or_status 500 (store (cLoad id)) (λ events,
      if seq_of events =? 0 then reply (writeError 404 (Error ErrAccountNotFound))
      else
        account ← balanceAccount repo id events;
        reply (writeJSON 200 (enc_map (
          field "aggregate_id" (JString id) ++ field "balance" (enc_money (acc_Balance account)) ++
          field "event_count" (enc_int (seq_of events)) ++
          field "events" (JArray (enc_eventDTO <$> toEventDTOs events)))))).

(** ** Application review *)

Definition handleApplications : HandlerFunc := λ r,
  or_error (ReviewService.List (get "status" (rq_Query r))) (λ items,
    reply (writeJSON 200 (enc_map (field "applications" (JArray (enc_summary <$> items)))))).

Definition handleApplication : HandlerFunc := λ r,
  or_error (ReviewService.Get (var "id" r)) (λ item, reply (writeJSON 200 (enc_detail item))).

Definition handlePassport : HandlerFunc := λ r,
  or_error (ReviewService.Passport (var "id" r)) (λ '(body, mime),
    reply (mkResponse 200 [("Content-Type", mime); ("Cache-Control", "no-store")] []
             (BytesBody body))).

Definition handleApprove : HandlerFunc := λ r,
  with_admin r (λ adminID,
    or_error (ReviewService.Approve (var "id" r) adminID) (λ _, reply no_content)).

(** The struct with the one field "reason" of the two reject handlers. *)
Definition dec_reason : decoder string := dec_struct (λ kvs x, member ["reason"] kvs "reason" dec_string x).

Definition handleReject : HandlerFunc := λ r,
  decodeBody dec_reason "" r (λ reason,
    with_admin r (λ adminID,
      or_error (ReviewService.Reject (var "id" r) adminID reason) (λ _, reply no_content))).

(** ** Adjustments *)

Definition handleCreateAdjustment : HandlerFunc := λ r,
  decodeBody dec_adjustment zero_adjustment r (λ request,
    with_admin r (λ adminID,
      or_error (AdjustmentService.Create request adminID) (λ created,
        reply (writeJSON 201 (enc_adjustment created))))).

Definition handleListAdjustments : HandlerFunc := λ r,
  or_error (AdjustmentService.List (get "status" (rq_Query r))) (λ items,
    reply (writeJSON 200 (enc_map (field "adjustments" (JArray (enc_adjustment <$> items)))))).

Definition handleGetAdjustment : HandlerFunc := λ r,
  or_error (AdjustmentService.Get (var "id" r)) (λ item, reply (writeJSON 200 (enc_adjustment item))).

Definition handleApproveAdjustment : HandlerFunc := λ r,
  with_admin r (λ adminID,
    or_error (AdjustmentService.Approve (var "id" r) adminID) (λ _, reply no_content)).

Definition handleRejectAdjustment : HandlerFunc := λ r,
  decodeBody dec_reason "" r (λ reason,
    with_admin r (λ adminID,
      or_error (AdjustmentService.Reject (var "id" r) adminID reason) (λ _, reply no_content))).

(** ** Sessions *)

Record loginRequest := mkLoginRequest { lreq_Email : string; lreq_Password : string }.
Definition dec_loginRequest : decoder loginRequest := dec_struct (λ kvs x,
  let get {A} := @member A ["email"; "password"] kvs in
  e ← get "email" dec_string (lreq_Email x);
  p ← get "password" dec_string (lreq_Password x);
  Some (mkLoginRequest e p)).

Definition set_session (value : string) (maxAge : Z) (secure : bool) (r : Response) : Response :=
  mkResponse (rs_Status r) (rs_Header r)
    (mkSetCookie sessionCookie value "/" maxAge true secure "Lax" :: rs_Cookies r) (rs_Body r).

(** [auth]: the service is not nil. *)
Definition handleLogin `{GoText} (auth secure : bool) : HandlerFunc := λ r,
  decodeBody dec_loginRequest (mkLoginRequest "" "") r (λ req,
    if negb auth then Ret Panicked
    else
      session ← Login (lreq_Email req) (lreq_Password req);
      match session with
      | Err _ => reply (writeError 401 (Error ErrInvalidCredentials))
      | Ok (token, principal) =>
          reply (set_session token 86400 secure (writeJSON 200 (enc_principal principal)))
      end).

Definition handleLogout (auth secure : bool) : HandlerFunc := λ r,
  let done_ := reply (set_session "" (-1) secure no_content) in
  match Cookie sessionCookie r with
  | Some value => if negb auth then Ret Panicked else _ ← Logout value; done_
  | None => done_
  end.

Definition handleMe : HandlerFunc := λ r,
  reply (writeJSON 200 (enc_pointer enc_principal (principalFromRequest r))).

(** ** CORS *)

Definition originAllowed (allowlist origin : string) : bool :=
  existsb (λ allowed, bool_decide (TrimSpace allowed = origin)) (Split "," allowlist).

(** The origin that is allowed, or the empty string. *)
Definition allowed_origin (corsOrigins origin : string) : string :=
  if negb (bool_decide (origin = "")) && negb (bool_decide (corsOrigins = "")) &&
     negb (originAllowed corsOrigins origin)
  then "" else origin.

Definition add_headers (header : list (string * string)) (r : Reply) : Reply :=
  match r with
  | Replied r => Replied (mkResponse (rs_Status r) (header ++ rs_Header r) (rs_Cookies r) (rs_Body r))
  | Panicked => Panicked
  end.

(** The headers set on every reply. *)
Definition cors_headers (corsOrigins : string) (r : Request) : list (string * string) :=
  let origin := allowed_origin corsOrigins (get "Origin" (rq_Header r)) in
  (if bool_decide (origin = "") then [] else [("Access-Control-Allow-Origin", origin)]) ++
  [("Access-Control-Allow-Credentials", "true"); ("Vary", "Origin");
   ("Access-Control-Allow-Methods", "GET, POST, OPTIONS");
   ("Access-Control-Allow-Headers", "Content-Type, Idempotency-Key")].

Definition withCORS (next : HandlerFunc) (corsOrigins : string) : HandlerFunc := λ r,
  let header := cors_headers corsOrigins r in
  if bool_decide (rq_Method r = "OPTIONS") then Ret (add_headers header (Replied no_content))
  else res ← next r; Ret (add_headers header res).

(** ** The route table *)

(** What the router is given.  The stores implement every interface. *)
Record Dependencies := mkDependencies {
  dp_AccountRepository : option Z;         (** the snapshot threshold, if not nil *)
  dp_TransferService : TransferService;
  dp_WithdrawService : bool;               (** the store withdraws atomically *)
  dp_AuthService : bool;                   (** not nil *)
  dp_ReviewService : bool;                 (** not nil *)
  dp_AdjustmentService : bool;             (** not nil *)
  dp_CookieSecure : bool;
  dp_CORSOrigins : string;
}.

Record Route := mkRoute { rt_Method : string; rt_Template : string; rt_Handler : HandlerFunc }.

(** gorilla/mux: the index of the route it picks for a method and a path, with
    its variables, and the reply when there is none (a redirect to the clean path,
    not found, method not allowed). *)
Class Mux := {
  mux_match : list (string * string) → string → string → option (nat * gmap string string);
  mux_unmatched : list (string * string) → string → string → Response;
  mux_match_route : ∀ routes method path i vars,
    mux_match routes method path = Some (i, vars) → ∃ template, routes !! i = Some (method, template);
  mux_unmatched_status : ∀ routes method path,
    rs_Status (mux_unmatched routes method path) ∈ [301; 404; 405];
}.

Section NewRouter.
Context `{GoText} `{GoRuntime} `{Mux} (deps : Dependencies).

Definition protect (h : HandlerFunc) : HandlerFunc :=
  if dp_AuthService deps then requireAuth h else h.
Definition banking (h : HandlerFunc) : HandlerFunc :=
  if dp_AuthService deps then requireAuth (requireApprovedCustomer h) else h.
Definition admin (h : HandlerFunc) : HandlerFunc :=
  if dp_AuthService deps then requireAuth (requireAdmin h) else h.

Definition routes : list Route :=
  let auth := dp_AuthService deps in
  let secure := dp_CookieSecure deps in
  let repo := dp_AccountRepository deps in
  [ mkRoute "POST" "/onboarding" handleOnboarding;
    mkRoute "POST" "/login" (handleLogin auth secure);
    mkRoute "POST" "/logout" (protect (handleLogout auth secure));
    mkRoute "GET" "/me" (protect handleMe);
    mkRoute "POST" "/transfer" (banking (handleTransfer (dp_TransferService deps)));
    mkRoute "GET" "/transfers/{id}" (banking handleTransferStatus);
    mkRoute "POST" "/deposit" (banking handleDeposit);
    mkRoute "POST" "/withdraw" (banking (handleWithdraw (dp_WithdrawService deps)));
    mkRoute "GET" "/accounts" (banking (handleListAccounts repo));
    mkRoute "GET" "/accounts/{id}/events" (banking handleAccountEvents);
    mkRoute "GET" "/admin/accounts/{id}/events" (admin (handleAdminAccountEvents repo)) ] ++
  (if dp_ReviewService deps then
     [ mkRoute "GET" "/admin/applications" (admin handleApplications);
       mkRoute "GET" "/admin/applications/{id}" (admin handleApplication);
       mkRoute "GET" "/admin/applications/{id}/passport" (admin handlePassport);
       mkRoute "POST" "/admin/applications/{id}/approve" (admin handleApprove);
       mkRoute "POST" "/admin/applications/{id}/reject" (admin handleReject) ]
   else []) ++
  (if dp_AdjustmentService deps then
     [ mkRoute "POST" "/admin/adjustments" (admin handleCreateAdjustment);
       mkRoute "GET" "/admin/adjustments" (admin handleListAdjustments);
       mkRoute "GET" "/admin/adjustments/{id}" (admin handleGetAdjustment);
       mkRoute "POST" "/admin/adjustments/{id}/approve" (admin handleApproveAdjustment);
       mkRoute "POST" "/admin/adjustments/{id}/reject" (admin handleRejectAdjustment) ]
   else []).

Definition serve_routes : HandlerFunc := λ r,
  let table := (λ rt, (rt_Method rt, rt_Template rt)) <$> routes in
  match mux_match table (rq_Method r) (rq_Path r) with
  | Some (i, vars) =>
      match routes !! i with
      | Some rt => rt_Handler rt (with_vars vars r)
      | None => Ret Panicked
      end
  | None => reply (mux_unmatched table (rq_Method r) (rq_Path r))
  end.

Definition NewRouter : HandlerFunc := withCORS serve_routes (dp_CORSOrigins deps).
End NewRouter.
