(* ===== verification/StoreFacts.v ===== *)
(** * The in-memory store: well-formedness and append-only streams.

    Every method changes the streams only by appending well-formed events
    ([stream_delta]); from that follow the well-formedness of the whole store
    ([store_wf]) and that nothing recorded is ever lost or altered. *)
From S2P Require Export Effects.

(** ** Definitions *)

(** The account an event names and the name of its Go type. *)
Definition event_id (ev : Event) : string :=
  match ev with
  | EAccountOpened e => ao_ID e
  | EMoneyDebited e => md_ID e
  | EMoneyCredited e => mc_ID e
  | EFundsReserved e => fr_ID e
  | EReservationCaptured e => rcap_ID e
  | EReservationReleased e => rrel_ID e
  end.
Definition type_name (ev : Event) : string :=
  match ev with
  | EAccountOpened _ => "AccountOpened"
  | EMoneyDebited _ => "MoneyDebited"
  | EMoneyCredited _ => "MoneyCredited"
  | EFundsReserved _ => "FundsReserved"
  | EReservationCaptured _ => "ReservationCaptured"
  | EReservationReleased _ => "ReservationReleased"
  end.
Definition is_opening (ev : Event) : bool :=
  match ev with EAccountOpened _ => true | _ => false end.

(** The events of holds, which only the transfer methods write. *)
Definition is_hold (ev : Event) : bool :=
  match ev with
  | EFundsReserved _ | EReservationCaptured _ | EReservationReleased _ => true
  | _ => false
  end.

(** The transfer an event is a ledger leg of: empty for other movements. *)
Definition transfer_of (ev : Event) : string :=
  match ev with
  | EMoneyDebited e => md_TransferID e
  | EMoneyCredited e => mc_TransferID e
  | _ => ""
  end.

(** The event at position [n] of the stream of [id]. *)
Record event_ok (id : string) (n : nat) (ev : Event) : Prop := {
  ok_aggregate : AggregateID ev = id;
  ok_id : event_id ev = id;
  ok_type : EventType ev = type_name ev;
  ok_version : Version ev = Z.of_nat n;
  ok_opening : is_opening ev = true → n = 0%nat;
  ok_amount : int64_ok (event_amount ev);
}.

Definition stream_ok (id : string) (events : list Event) : Prop :=
  events ≠ [] ∧ ∀ i ev, events !! i = Some ev → event_ok id i ev.

(** Appending well-formed events, to any streams, any number of times. *)
Inductive stream_delta : gmap string (list Event) → gmap string (list Event) → Prop :=
| sd_refl s : stream_delta s s
| sd_append s s' id ev :
    stream_delta s s' →
    event_ok id (length (default [] (s' !! id))) ev →
    stream_delta s (<[id := default [] (s' !! id) ++ [ev]]> s').

(** What [TransferService.Transfer] checks before it stores a record. *)
Record transfer_ok (r : TransferRecord) : Prop := {
  to_ID : tr_ID r ≠ "";
  to_parties : tr_SourceAccountID r ≠ tr_DestinationAccountID r;
  to_amount : 100 ≤ tr_Amount r;
  to_fee : 0 ≤ tr_Fee r;
  to_total : tr_Amount r + tr_Fee r ≤ MaxInt64;
}.
Definition adjustment_typed (r : AdjustmentRequest) : Prop :=
  int64_ok (adj_Amount r) ∧ int64_ok (adj_Fee r).

Record store_wf (m : MemoryStore) : Prop := {
  wf_streams : map_Forall stream_ok (ms_streams m);
  wf_transfers : map_Forall (λ k r, tr_ID r = k ∧ transfer_ok r) (ms_transfers m);
  wf_adjustments : map_Forall (λ k r, adj_ID r = k ∧ adjustment_typed r) (ms_adjustments m);
  wf_customers :
    map_Forall (λ k c, cus_ID c = k ∧ int64_ok (cus_RequestedDeposit c)) (ms_customers m);
  wf_reservations : map_Forall (λ _ h, int64_ok (res_Amount h)) (ms_reservations m);
  wf_sessions : map_Forall (λ k s, ses_TokenHash s = k) (ms_sessions m);
  wf_admins : map_Forall (λ k a, adm_ID a = k) (ms_admins m);
  wf_snapshots : map_Forall (λ k s, snap_AggregateID s = k) (ms_snapshots m);
}.

(** What a caller owes the store: 64-bit amounts, and events that carry the
    sequence number they are appended at. *)
Definition call_typed {X} (op : storeE X) : Prop :=
  match op with
  | cAppend ev v => 0 ≤ v ∧ event_ok (AggregateID ev) (Z.to_nat v) ev ∧ is_hold ev = false ∧
      transfer_of ev = ""
  | cSaveSnapshot _ => False
  | cWithdrawAvailable _ amount _ => int64_ok amount
  | cCreateTransfer r =>
      transfer_ok r ∧ tr_Status r = TransferPending ∧ tr_CurrentStep r = SagaCreated
  | cReserveTransferFunds r _ | cPostTransferLedger r _ => transfer_ok r
  | cCreateCustomerApplication c => int64_ok (cus_RequestedDeposit c)
  | cCreateAdjustment r => adjustment_typed r
  | _ => True
  end.

(** What is owed for a snapshot depends on the state (Snapshots.v). *)
Definition owed {X} (op : storeE X) : Prop :=
  match op with cSaveSnapshot _ => True | _ => call_typed op end.

Lemma typed_owed {X} (op : storeE X) : call_typed op → owed op.
Proof. by destruct op. Qed.

(** The identifiers a call brings are not in use: they are 16 random bytes. *)
Definition call_fresh (X : Type) (op : storeE X) (m : MemoryStore) : Prop :=
  match op with
  | cApproveApplication _ _ accountID _ => ms_streams m !! accountID = None
  | cCreateTransfer r => ms_transfers m !! tr_ID r = None
  | cCreateAdjustment r => ms_adjustments m !! adj_ID r = None
  | _ => True
  end.

(** ** Streams *)

Lemma transfer_ok_int64 r : transfer_ok r → int64_ok (tr_Amount r) ∧ int64_ok (tr_Fee r).
Proof. intros []. unfold int64_ok, MinInt64, MaxInt64 in *. lia. Qed.

Lemma event_ok_range id events n :
  stream_ok id events → Forall (λ ev, int64_ok (event_amount ev)) (take n events).
Proof.
  intros [_ H]. apply Forall_lookup. intros i ev Hi. apply lookup_take_Some in Hi as [Hi _].
  by apply (H i ev).
Qed.

Lemma stream_ok_versions id events : stream_ok id events → versions_ok events.
Proof. intros [_ H] i ev Hi. by apply (H i ev). Qed.

Lemma stream_ok_amounts id events :
  stream_ok id events → Forall (λ ev, int64_ok (event_amount ev)) events.
Proof. intros [_ H]. apply Forall_lookup. intros i ev Hi. by apply (H i ev). Qed.

Lemma stream_ok_snoc id events ev :
  (events = [] ∨ stream_ok id events) → event_ok id (length events) ev →
  stream_ok id (events ++ [ev]).
Proof.
  intros Hevs Hev. split; [by destruct events|]. intros i ev' Hi.
  apply lookup_app_Some in Hi as [Hi|[Hl Hi]].
  - destruct Hevs as [->|[_ H]]; [done|by apply H].
  - apply list_lookup_singleton_Some in Hi as [Hi <-].
    by replace i with (length events) by lia.
Qed.

Lemma stream_delta_ok s s' :
  stream_delta s s' → map_Forall stream_ok s → map_Forall stream_ok s'.
Proof.
  induction 1 as [s|s s' id ev _ IH Hev]; intros Hs; [done|].
  specialize (IH Hs). apply map_Forall_insert_2; [|done].
  apply stream_ok_snoc; [|done]. destruct (s' !! id) as [evs|] eqn:E; simpl; [right|by left].
  by apply (IH id evs).
Qed.

Lemma stream_delta_prefix s s' id :
  stream_delta s s' → default [] (s !! id) `prefix_of` default [] (s' !! id).
Proof.
  induction 1 as [s|s s' id' ev _ IH _]; [done|]. etrans; [exact IH|].
  destruct (decide (id' = id)) as [->|Hne].
  - rewrite lookup_insert_eq. simpl. by exists [ev].
  - by rewrite lookup_insert_ne.
Qed.

Lemma stream_delta_trans s1 s2 s3 :
  stream_delta s1 s2 → stream_delta s2 s3 → stream_delta s1 s3.
Proof. intros H1 H2. induction H2; [done|]. by apply sd_append; auto. Qed.

Lemma stream_delta_one s id ev events :
  events = default [] (s !! id) ++ [ev] →
  event_ok id (length (default [] (s !! id))) ev →
  stream_delta s (<[id := events]> s).
Proof. intros -> H. by apply sd_append; [apply sd_refl|]. Qed.

Create HintDb store discriminated.
#[export] Hint Resolve sd_refl : core.

Lemma stream_wf m id : store_wf m → stream m id = [] ∨ stream_ok id (stream m id).
Proof.
  intros Hwf. unfold stream. destruct (ms_streams m !! id) as [evs|] eqn:E; [right|by left].
  by apply (wf_streams m Hwf id evs).
Qed.

Lemma stream_amounts m id :
  store_wf m → Forall (λ ev, int64_ok (event_amount ev)) (stream m id).
Proof. intros [->|H]%(stream_wf m id); [constructor|by apply stream_ok_amounts in H]. Qed.

(** ** Every method appends *)

Lemma wf_transfer m k r : store_wf m → ms_transfers m !! k = Some r → tr_ID r = k ∧ transfer_ok r.
Proof. intros Hwf Hk. exact (wf_transfers m Hwf k r Hk). Qed.
Lemma wf_adjustment m k r :
  store_wf m → ms_adjustments m !! k = Some r → adj_ID r = k ∧ adjustment_typed r.
Proof. intros Hwf Hk. exact (wf_adjustments m Hwf k r Hk). Qed.
Lemma wf_customer m k c :
  store_wf m → ms_customers m !! k = Some c → cus_ID c = k ∧ int64_ok (cus_RequestedDeposit c).
Proof. intros Hwf Hk. exact (wf_customers m Hwf k c Hk). Qed.
Lemma wf_reservation m k h :
  store_wf m → ms_reservations m !! k = Some h → int64_ok (res_Amount h).
Proof. intros Hwf Hk. exact (wf_reservations m Hwf k h Hk). Qed.

(** An event built by the store: every field of [event_ok] but, sometimes, its
    amount, is by computation. *)
Ltac new_event :=
  eapply stream_delta_one; [reflexivity|];
  constructor; simpl; try done; try by auto with int64.

Section Deltas.
Context (G : GoRuntime) (m : MemoryStore).
Hypothesis Hwf : store_wf m.

Lemma Append_delta ev v :
  0 ≤ v → event_ok (AggregateID ev) (Z.to_nat v) ev →
  stream_delta (ms_streams m) (ms_streams (Append ev v m).2).
Proof.
  intros Hv Hev. unfold Append. case_bool_decide as Hlen; simpl; [|done].
  eapply stream_delta_one; [done|]. unfold seq_of, stream in Hlen.
  by rewrite <-Hlen, Nat2Z.id in Hev.
Qed.

Lemma WithdrawAvailable_delta id amount at_ :
  int64_ok amount →
  stream_delta (ms_streams m) (ms_streams (WithdrawAvailable id amount at_ m).2).
Proof. intros Ha. unfold WithdrawAvailable. repeat case_match; simpl; try done. new_event. Qed.

Lemma ApproveApplication_delta id adm acc at_ :
  ms_streams m !! acc = None →
  stream_delta (ms_streams m) (ms_streams (ApproveApplication id adm acc at_ m).2).
Proof.
  intros Hfresh. unfold ApproveApplication. repeat case_match; simpl; try done.
  eapply stream_delta_one; [by rewrite Hfresh|]. rewrite Hfresh.
  constructor; simpl; try done. by eapply wf_customer.
Qed.

Lemma appendCredit_delta r at_ acc amount cp :
  int64_ok amount →
  stream_delta (ms_streams m) (ms_streams (appendCredit r at_ acc amount cp m)).
Proof. intros Ha. unfold appendCredit. simpl. new_event. Qed.

Lemma appendDebit_delta r at_ acc amount cp :
  int64_ok amount →
  stream_delta (ms_streams m) (ms_streams (appendDebit r at_ acc amount cp m).2).
Proof. intros Ha. unfold appendDebit. case_match; simpl; [done|]. new_event. Qed.

Lemma ReserveTransferFunds_delta r at_ :
  stream_delta (ms_streams m) (ms_streams (ReserveTransferFunds r at_ m).2).
Proof. unfold ReserveTransferFunds. repeat case_match; simpl; try done. new_event. Qed.

Lemma finishReservation_delta r at_ state :
  stream_delta (ms_streams m) (ms_streams (finishReservation r at_ state m).2).
Proof.
  unfold finishReservation. destruct (ms_reservations m !! _) as [h|] eqn:E; [|done].
  pose proof (wf_reservation m _ h Hwf E). repeat case_match; simpl; try done; new_event.
Qed.
End Deltas.

#[export] Hint Resolve Append_delta WithdrawAvailable_delta ApproveApplication_delta
  appendCredit_delta appendDebit_delta ReserveTransferFunds_delta finishReservation_delta : store.

(** Two legs on one stream, then one on any stream. *)
Lemma stream_delta_again s id events ev :
  stream_delta s (<[id := events]> s) → event_ok id (length events) ev →
  stream_delta s (<[id := events ++ [ev]]> s).
Proof.
  intros Hs Hev. pose proof (sd_append _ _ id ev Hs) as H.
  rewrite lookup_insert_eq, insert_insert_eq in H. by apply H.
Qed.

Lemma stream_delta_both s id events id' ev :
  stream_delta s (<[id := events]> s) → event_ok id' (length (default [] (s !! id'))) ev →
  stream_delta s (<[id' := default [] (s !! id') ++ [ev]]> (<[id := events]> s)).
Proof.
  intros Hs Hev. destruct (decide (id = id')) as [->|Hne].
  - rewrite insert_insert_eq. by eapply stream_delta_one.
  - pose proof (sd_append _ _ id' ev Hs) as H. rewrite lookup_insert_ne in H by done. by apply H.
Qed.

Section Ledger.
Context (G : GoRuntime) (m : MemoryStore).

(** The legs [PostTransferLedger] and [ExecuteTransfer] write. *)
Definition fee_legs (r : TransferRecord) (at_ : Time) (src : list Event) : list Event :=
  if tr_Fee r >? 0 then src ++ [transfer_debit r at_ (tr_Fee r) "fee" src] else src.
Definition source_legs (r : TransferRecord) (at_ : Time) (src : list Event) : list Event :=
  fee_legs r at_ src ++ [transfer_debit r at_ (tr_Amount r) "transfer" (fee_legs r at_ src)].

Lemma transfer_debit_ok r at_ amount purpose src :
  int64_ok amount →
  event_ok (tr_SourceAccountID r) (length src) (transfer_debit r at_ amount purpose src).
Proof. by constructor. Qed.

Lemma legs_delta r at_ :
  transfer_ok r →
  let src := stream m (tr_SourceAccountID r) in
  let dst := stream m (tr_DestinationAccountID r) in
  stream_delta (ms_streams m)
    (<[tr_DestinationAccountID r := dst ++ [transfer_credit r at_ dst]]>
       (<[tr_SourceAccountID r := source_legs r at_ src]> (ms_streams m))).
Proof.
  intros [Ha Hf]%transfer_ok_int64. cbv zeta. apply stream_delta_both; [|by constructor].
  unfold source_legs, fee_legs. case_match.
  - apply stream_delta_again; [eapply stream_delta_one; [done|]|]; by apply transfer_debit_ok.
  - eapply stream_delta_one; [done|]. by apply transfer_debit_ok.
Qed.

Lemma PostTransferLedger_delta r at_ :
  transfer_ok r →
  stream_delta (ms_streams m) (ms_streams (PostTransferLedger r at_ m).2).
Proof.
  intros Hr. unfold PostTransferLedger. case_match; [done|]. case_match; [done|].
  by apply legs_delta.
Qed.

Lemma ExecuteTransfer_delta r now :
  transfer_ok r →
  stream_delta (ms_streams m) (ms_streams (ExecuteTransfer r now m).2).
Proof.
  intros Hr. unfold ExecuteTransfer. destruct (find_by_key _ _ _) as [[? ?]|].
  { by case_match. }
  case_match; [done|]. case_match; [done|]. by apply legs_delta.
Qed.

Hypothesis Hwf : store_wf m.

Lemma ApproveAdjustment_delta id adm at_ :
  stream_delta (ms_streams m) (ms_streams (ApproveAdjustment id adm at_ m).2).
Proof.
  unfold ApproveAdjustment. destruct (ms_adjustments m !! id) as [r|] eqn:E; [|done].
  destruct (wf_adjustment m id r Hwf E) as [_ [Ha Hf]].
  case_match; [done|]. case_match; [done|].
  pose proof (λ acc cp, appendDebit_delta m r at_ acc (adj_Amount r) cp Ha) as Hd.
  destruct (negb (bool_decide (adj_OriginalTransferID r = "")));
    [|destruct (bool_decide (adj_Direction r = "credit")); [simpl; new_event|]].
  - specialize (Hd (adj_CounterpartyAccountID r) (adj_AccountID r)).
    destruct (appendDebit _ _ _ _ _ _) as [[|] m']; simpl in *; try done.
    eapply stream_delta_trans; [exact Hd|]. new_event.
  - specialize (Hd (adj_AccountID r) "").
    by destruct (appendDebit _ _ _ _ _ _) as [[|] m'].
Qed.
End Ledger.

#[export] Hint Resolve PostTransferLedger_delta ApproveAdjustment_delta : store.

(** ** Every call keeps the store well-formed *)

(** A record differing in one map. *)
Lemma set_streams_wf m x : map_Forall stream_ok x → store_wf m → store_wf (set_streams x m).
Proof. by intros Hx []. Qed.

Lemma retarget_typed r a c amount fee d :
  int64_ok amount → int64_ok fee → adjustment_typed (retarget r a c amount fee d).
Proof. done. Qed.

(** An approval either fails and leaves the store alone, or settles a waiting
    request of another admin and changes some streams. *)
Lemma ApproveAdjustment_cases id adm at_ m :
  (∃ e, ApproveAdjustment id adm at_ m = (Err e, m)) ∨
  (∃ r s, ms_adjustments m !! id = Some r ∧ adj_Status r = AdjustmentWaiting ∧
     adm ≠ adj_CreatedBy r ∧
     ApproveAdjustment id adm at_ m =
       (Ok tt, set_adjustments
          (<[id := settle r AdjustmentApproved adm (adj_RejectionReason r) at_]>
             (ms_adjustments m)) (set_streams s m))).
Proof.
  unfold ApproveAdjustment. destruct (ms_adjustments m !! id) as [r|] eqn:E; [|by eauto].
  destruct (bool_decide (adj_Status r = _)) eqn:Hs; [|by eauto].
  destruct (bool_decide (adj_CreatedBy r = _)) eqn:Hc; [by eauto|]. boolify. simpl.
  unfold appendDebit, appendCredit.
  destruct (bool_decide (adj_OriginalTransferID r = "")); simpl;
    [destruct (bool_decide (adj_Direction r = "credit"))|]; simpl;
    try (destruct (_ <? _); [by eauto|]); right; exists r; eexists; by split_and!.
Qed.

Section Preservation.
Context (G : GoRuntime) (m : MemoryStore).
Hypothesis Hwf : store_wf m.

Lemma reversible_typed id i amount d :
  stream m id !! i ≫= reversible_movement = Some (amount, d) → int64_ok amount.
Proof.
  intros H. apply bind_Some in H as (ev & Hi & Hev).
  pose proof (Forall_lookup_1 _ _ _ _ (stream_amounts m id Hwf) Hi) as Hok.
  destruct ev; simpl in *; try done; case_match; naive_solver.
Qed.

Lemma set_adjustments_wf k r x :
  adj_ID r = k → adjustment_typed r → x = <[k := r]> (ms_adjustments m) →
  store_wf (set_adjustments x m).
Proof. intros <- Hr ->. destruct Hwf. split; simpl; try done. by apply map_Forall_insert_2. Qed.

Lemma set_transfers_wf k r x :
  tr_ID r = k → transfer_ok r → x = <[k := r]> (ms_transfers m) →
  store_wf (set_transfers x m).
Proof. intros <- Hr ->. destruct Hwf. split; simpl; try done. by apply map_Forall_insert_2. Qed.

Lemma set_customers_wf k c x :
  cus_ID c = k → int64_ok (cus_RequestedDeposit c) → x = <[k := c]> (ms_customers m) →
  store_wf (set_customers x m).
Proof. intros <- Hr ->. destruct Hwf. split; simpl; try done. by apply map_Forall_insert_2. Qed.

Lemma set_reservations_wf k h x :
  int64_ok (res_Amount h) → x = <[k := h]> (ms_reservations m) →
  store_wf (set_reservations x m).
Proof. intros Hr ->. destruct Hwf. split; simpl; try done. by apply map_Forall_insert_2. Qed.

Lemma CreateAdjustment_wf r : adjustment_typed r → store_wf (CreateAdjustment r m).2.
Proof.
  intros [Ha Hf]. unfold CreateAdjustment. repeat case_match; simpl; try done;
    (eapply set_adjustments_wf; [| |reflexivity]; [done|]); try by split.
  - destruct (wf_transfer m _ _ Hwf ltac:(eassumption)) as [_ [? ?]%transfer_ok_int64]. by apply retarget_typed.
  - apply retarget_typed; [by eapply reversible_typed|done].
Qed.

Lemma UpdateTransferSaga_wf id u at_ : store_wf (UpdateTransferSaga id u at_ m).2.
Proof.
  unfold UpdateTransferSaga. destruct (ms_transfers m !! id) as [r|] eqn:E; [|done].
  destruct (wf_transfer m id r Hwf E) as [? []].
  case_match; [done|]. simpl. by eapply set_transfers_wf; [| |reflexivity].
Qed.

Lemma UpsertAdmin_wf a : store_wf (UpsertAdmin a m).2.
Proof.
  unfold UpsertAdmin. destruct (range_find _ _) as [[k ?]|]; simpl;
    destruct Hwf; split; simpl; try done; by apply map_Forall_insert_2.
Qed.

Lemma SaveSnapshot_wf snap : store_wf (SaveSnapshot snap m).2.
Proof.
  unfold SaveSnapshot. repeat case_match; simpl; try done;
    destruct Hwf; split; simpl; try done; by apply map_Forall_insert_2.
Qed.
End Preservation.

Lemma set_streams_delta m x :
  stream_delta (ms_streams m) x → store_wf m → store_wf (set_streams x m).
Proof. intros Hx Hwf. apply set_streams_wf; [|done]. eapply stream_delta_ok; [done|apply Hwf]. Qed.

Section Calls.
Context (G : GoRuntime) (m : MemoryStore).
Hypothesis Hwf : store_wf m.

Lemma Append_wf ev v :
  0 ≤ v → event_ok (AggregateID ev) (Z.to_nat v) ev → store_wf (Append ev v m).2.
Proof.
  intros Hv Hev. pose proof (Append_delta m ev v Hv Hev) as Hd. revert Hd.
  unfold Append. case_match; simpl; intros Hd; [by apply (set_streams_delta _ _ Hd)|done].
Qed.

Lemma WithdrawAvailable_wf id amount at_ :
  int64_ok amount → store_wf (WithdrawAvailable id amount at_ m).2.
Proof.
  intros Ha. pose proof (WithdrawAvailable_delta m id amount at_ Ha) as Hd. revert Hd.
  unfold WithdrawAvailable. repeat case_match; simpl; intros Hd; try done.
  by apply (set_streams_delta _ _ Hd).
Qed.

Lemma ReserveTransferFunds_wf r at_ : store_wf (ReserveTransferFunds r at_ m).2.
Proof.
  pose proof (ReserveTransferFunds_delta m r at_) as Hd. revert Hd.
  unfold ReserveTransferFunds. repeat case_match; simpl; intros Hd; try done.
  apply (set_streams_delta (set_reservations _ m)); [done|].
  eapply set_reservations_wf; [done|..|reflexivity]. simpl. by auto with int64.
Qed.

Lemma finishReservation_wf r at_ state : store_wf (finishReservation r at_ state m).2.
Proof.
  pose proof (finishReservation_delta m Hwf r at_ state) as Hd. revert Hd.
  unfold finishReservation. destruct (ms_reservations m !! _) as [h|] eqn:E; [|done].
  repeat case_match; simpl; intros Hd; try done;
    (apply (set_streams_delta (set_reservations _ m)); [done|]);
    (eapply set_reservations_wf; [done|..|reflexivity]); simpl; by eapply wf_reservation.
Qed.

Lemma PostTransferLedger_wf r at_ :
  transfer_ok r → store_wf (PostTransferLedger r at_ m).2.
Proof.
  intros Hr. pose proof (PostTransferLedger_delta m r at_ Hr) as Hd. revert Hd.
  unfold PostTransferLedger. case_match; [done|]. case_match; [done|]. intros Hd.
  by destruct (set_streams_delta _ _ Hd Hwf).
Qed.

Lemma ApproveApplication_wf id adm acc at_ : store_wf (ApproveApplication id adm acc at_ m).2.
Proof.
  unfold ApproveApplication. destruct (ms_customers m !! id) as [c|] eqn:E; [|done].
  destruct (wf_customer m id c Hwf E) as [? Hc]. case_match; [done|]. simpl.
  apply set_streams_wf; simpl.
  - apply map_Forall_insert_2; [|apply Hwf]. split; [done|]. intros [|i] ev; simpl; [|done].
    intros [= <-]. by constructor.
  - eapply set_customers_wf; [done|..|reflexivity]; done.
Qed.

Lemma RejectApplication_wf id adm reason at_ : store_wf (RejectApplication id adm reason at_ m).2.
Proof.
  unfold RejectApplication. destruct (ms_customers m !! id) as [c|] eqn:E; [|done].
  destruct (wf_customer m id c Hwf E). case_match; [done|].
  eapply set_customers_wf; [done|..|reflexivity]; done.
Qed.

Lemma RejectAdjustment_wf id adm reason at_ : store_wf (RejectAdjustment id adm reason at_ m).2.
Proof.
  unfold RejectAdjustment. destruct (ms_adjustments m !! id) as [r|] eqn:E; [|done].
  destruct (wf_adjustment m id r Hwf E). case_match; [done|]. case_match; [done|].
  eapply set_adjustments_wf; [done|..|reflexivity]; done.
Qed.

Lemma settle_streams_wf id r x s :
  ms_adjustments m !! id = Some r → adj_ID x = adj_ID r → adj_Amount x = adj_Amount r →
  adj_Fee x = adj_Fee r → stream_delta (ms_streams m) s →
  store_wf (set_adjustments (<[id := x]> (ms_adjustments m)) (set_streams s m)).
Proof.
  intros E Hid Ha Hf Hs. destruct (wf_adjustment m id r Hwf E) as [? [??]].
  eapply (set_adjustments_wf (set_streams s m)); [by apply set_streams_delta|..|reflexivity].
  - congruence.
  - split; congruence.
Qed.

Lemma ApproveAdjustment_wf id adm at_ : store_wf (ApproveAdjustment id adm at_ m).2.
Proof.
  pose proof (ApproveAdjustment_delta m Hwf id adm at_) as Hd.
  destruct (ApproveAdjustment_cases id adm at_ m) as [[e ->]|(r & s & E & _ & _ & Heq)]; [done|].
  rewrite Heq in Hd |- *. by apply (settle_streams_wf id r).
Qed.

Lemma CreateTransfer_wf r : transfer_ok r → store_wf (CreateTransfer r m).2.
Proof.
  intros Hr. unfold CreateTransfer. repeat case_match; try done. simpl.
  by eapply set_transfers_wf.
Qed.

Lemma CreateCustomerApplication_wf c :
  int64_ok (cus_RequestedDeposit c) → store_wf (CreateCustomerApplication c m).2.
Proof.
  intros Hc. unfold CreateCustomerApplication. repeat case_match; try done. simpl.
  by eapply set_customers_wf.
Qed.

Lemma CreateSession_wf s : store_wf (CreateSession s m).2.
Proof. destruct Hwf. split; simpl; try done. by apply map_Forall_insert_2. Qed.
Lemma DeleteSession_wf h : store_wf (DeleteSession h m).2.
Proof. destruct Hwf. split; simpl; try done. by apply map_Forall_delete. Qed.
Lemma RecordComplianceDecision_wf id d at_ : store_wf (RecordComplianceDecision id d at_ m).2.
Proof. destruct Hwf. unfold RecordComplianceDecision. by repeat case_match. Qed.
End Calls.

(** Any typed call keeps the store well-formed. *)
Lemma call_wf {X} (G : GoRuntime) (op : storeE X) m :
  call_typed op → store_wf m → store_wf (store_call G op m).2.
Proof.
  intros Ht Hwf. destruct op; simpl in *; try done; try exact Hwf.
  - apply Append_wf; tauto.
  - by apply WithdrawAvailable_wf.
  - by apply CreateTransfer_wf, Ht.
  - by apply UpdateTransferSaga_wf.
  - by apply ReserveTransferFunds_wf.
  - by apply RecordComplianceDecision_wf.
  - by apply PostTransferLedger_wf.
  - by apply finishReservation_wf.
  - by apply finishReservation_wf.
  - by apply CreateCustomerApplication_wf.
  - by apply ApproveApplication_wf.
  - by apply RejectApplication_wf.
  - by apply CreateAdjustment_wf.
  - by apply ApproveAdjustment_wf.
  - by apply RejectAdjustment_wf.
  - by apply UpsertAdmin_wf.
  - by apply CreateSession_wf.
  - by apply DeleteSession_wf.
Qed.

(** Methods that leave the streams alone. *)
Lemma call_delta {X} (G : GoRuntime) (op : storeE X) m :
  call_typed op → call_fresh X op m → store_wf m →
  stream_delta (ms_streams m) (ms_streams (store_call G op m).2).
Proof.
  intros Ht Hf Hwf. destruct op; simpl in *; unfold store_call, memory_store; simpl; try done;
    try by (unfold SaveSnapshot, CreateTransfer, UpdateTransferSaga, RecordComplianceDecision,
      CreateCustomerApplication, RejectApplication, CreateAdjustment, RejectAdjustment, UpsertAdmin;
      repeat case_match; simpl).
  - apply Append_delta; tauto.
  - by apply WithdrawAvailable_delta.
  - apply ReserveTransferFunds_delta.
  - by apply PostTransferLedger_delta.
  - by apply finishReservation_delta.
  - by apply finishReservation_delta.
  - by apply ApproveApplication_delta.
  - by apply ApproveAdjustment_delta.
Qed.

Lemma empty_store_wf : store_wf NewMemoryStore.
Proof. split; by apply map_Forall_empty. Qed.
