(* ===== verification/EventCodec.v ===== *)
(** * Events as rows: json.Marshal of an event and [decodeEvent] of
    internal/eventstore/postgres_store.go.

    A row keeps the account, the type and the payload of an event; the payload is
    the JSON object of its struct.  The database may reorder the members of the
    object ([jsonb] does), which decoding does not see. *)
From S2P Require Export Codec StoreFacts.

(** ** Encoding *)

(** The four fields every event type starts with. *)
Definition event_head (aggregate type : string) (seq : Z) (occurred : Time) : list (string * json) :=
  field "Aggregate" (JString aggregate) ++ field "Type" (JString type) ++
  field "Seq" (enc_int seq) ++ field "Occurred" (enc_time occurred).

(** [MoneyDebited] and [MoneyCredited] have the same fields, and so have the three
    events of holds. *)
Definition movement_fields (aggregate type : string) (seq : Z) (occurred : Time) (id : string)
    (amount : Money) (transfer purpose counterparty adjustment reason case_ original : string)
    : list (string * json) :=
  event_head aggregate type seq occurred ++
  field "ID" (JString id) ++ field "Amount" (enc_money amount) ++
  omit_string "transfer_id" transfer ++ omit_string "purpose" purpose ++
  omit_string "counterparty_account_id" counterparty ++ omit_string "adjustment_id" adjustment ++
  omit_string "adjustment_reason" reason ++ omit_string "case_reference" case_ ++
  omit_string "original_reference" original.
Definition hold_fields (aggregate type : string) (seq : Z) (occurred : Time) (id : string)
    (amount : Money) (transfer : string) : list (string * json) :=
  event_head aggregate type seq occurred ++
  field "ID" (JString id) ++ field "Amount" (enc_money amount) ++
  field "transfer_id" (JString transfer).

Definition event_fields (event : Event) : list (string * json) :=
  match event with
  | EAccountOpened e =>
      event_head (ao_Aggregate e) (ao_Type e) (ao_Seq e) (ao_Occurred e) ++
      field "ID" (JString (ao_ID e)) ++ field "InitialBalance" (enc_money (ao_InitialBalance e))
  | EMoneyDebited e =>
      movement_fields (md_Aggregate e) (md_Type e) (md_Seq e) (md_Occurred e) (md_ID e) (md_Amount e)
        (md_TransferID e) (md_Purpose e) (md_CounterpartyAccountID e) (md_AdjustmentID e)
        (md_AdjustmentReason e) (md_CaseReference e) (md_OriginalReference e)
  | EMoneyCredited e =>
      movement_fields (mc_Aggregate e) (mc_Type e) (mc_Seq e) (mc_Occurred e) (mc_ID e) (mc_Amount e)
        (mc_TransferID e) (mc_Purpose e) (mc_CounterpartyAccountID e) (mc_AdjustmentID e)
        (mc_AdjustmentReason e) (mc_CaseReference e) (mc_OriginalReference e)
  | EFundsReserved e =>
      hold_fields (fr_Aggregate e) (fr_Type e) (fr_Seq e) (fr_Occurred e) (fr_ID e) (fr_Amount e)
        (fr_TransferID e)
  | EReservationCaptured e =>
      hold_fields (rcap_Aggregate e) (rcap_Type e) (rcap_Seq e) (rcap_Occurred e) (rcap_ID e)
        (rcap_Amount e) (rcap_TransferID e)
  | EReservationReleased e =>
      hold_fields (rrel_Aggregate e) (rrel_Type e) (rrel_Seq e) (rrel_Occurred e) (rrel_ID e)
        (rrel_Amount e) (rrel_TransferID e)
  end.
Definition enc_event (event : Event) : json := JObject (event_fields event).

(** The texts of errors of encoding/json, and strconv.Quote ([%q]): nothing
    depends on them. *)
Class JsonErrors := {
  marshal_error : json → string;
  unmarshal_error : json → string;
  quoted : string → string;
}.

(** ** Decoding *)

Definition opened_names : list string := ["Aggregate"; "Type"; "Seq"; "Occurred"; "ID"; "InitialBalance"].
Definition movement_names : list string :=
  ["Aggregate"; "Type"; "Seq"; "Occurred"; "ID"; "Amount"; "transfer_id"; "purpose";
   "counterparty_account_id"; "adjustment_id"; "adjustment_reason"; "case_reference";
   "original_reference"].
Definition hold_names : list string :=
  ["Aggregate"; "Type"; "Seq"; "Occurred"; "ID"; "Amount"; "transfer_id"].

Definition dec_AccountOpened : decoder AccountOpened := dec_struct (λ kvs e,
  let get {A} := @member A opened_names kvs in
  a ← get "Aggregate" dec_string (ao_Aggregate e);
  t ← get "Type" dec_string (ao_Type e);
  s ← get "Seq" dec_int (ao_Seq e);
  o ← get "Occurred" dec_time (ao_Occurred e);
  i ← get "ID" dec_string (ao_ID e);
  b ← get "InitialBalance" dec_money (ao_InitialBalance e);
  Some (mkAccountOpened a t s o i b)).

(** [MoneyDebited] and [MoneyCredited] have the same fields. *)
Definition dec_movement {T} (make : string → string → Z → Time → string → Money → string → string →
    string → string → string → string → string → T) : decoder T := dec_struct (λ kvs _,
  let get {A} := @member A movement_names kvs in
  a ← get "Aggregate" dec_string "";
  t ← get "Type" dec_string "";
  s ← get "Seq" dec_int 0;
  o ← get "Occurred" dec_time zero_time;
  i ← get "ID" dec_string "";
  m ← get "Amount" dec_money 0;
  ti ← get "transfer_id" dec_string "";
  pu ← get "purpose" dec_string "";
  co ← get "counterparty_account_id" dec_string "";
  ad ← get "adjustment_id" dec_string "";
  re ← get "adjustment_reason" dec_string "";
  ca ← get "case_reference" dec_string "";
  orig ← get "original_reference" dec_string "";
  Some (make a t s o i m ti pu co ad re ca orig)).

(** The three events of holds have the same fields. *)
Definition dec_hold {T} (make : string → string → Z → Time → string → Money → string → T) : decoder T :=
  dec_struct (λ kvs _,
  let get {A} := @member A hold_names kvs in
  a ← get "Aggregate" dec_string "";
  t ← get "Type" dec_string "";
  s ← get "Seq" dec_int 0;
  o ← get "Occurred" dec_time zero_time;
  i ← get "ID" dec_string "";
  m ← get "Amount" dec_money 0;
  ti ← get "transfer_id" dec_string "";
  Some (make a t s o i m ti)).

Section Decode.
Context `{JsonErrors}.

Definition decodeEvent (aggregateID eventType : string) (payload : json) : go_result Event :=
  let decoded {T} (d : decoder T) (zero : T) (event : T → Event) :=
    match d payload zero with
    | Some e => Ok (event e)
    | None => Err (Errorf ("eventstore: decode " +:+ eventType) (OtherError (unmarshal_error payload)))
    end in
  if bool_decide (eventType = "AccountOpened") then
    decoded dec_AccountOpened (mkAccountOpened "" "" 0 zero_time "" 0)
      (λ e, EAccountOpened (mkAccountOpened aggregateID (ao_Type e) (ao_Seq e) (ao_Occurred e)
              (ao_ID e) (ao_InitialBalance e)))
  else if bool_decide (eventType = "MoneyDebited") then
    decoded (dec_movement mkMoneyDebited) (mkMoneyDebited "" "" 0 zero_time "" 0 "" "" "" "" "" "" "")
      (λ e, EMoneyDebited (mkMoneyDebited aggregateID (md_Type e) (md_Seq e) (md_Occurred e)
              (md_ID e) (md_Amount e) (md_TransferID e) (md_Purpose e) (md_CounterpartyAccountID e)
              (md_AdjustmentID e) (md_AdjustmentReason e) (md_CaseReference e)
              (md_OriginalReference e)))
  else if bool_decide (eventType = "MoneyCredited") then
    decoded (dec_movement mkMoneyCredited) (mkMoneyCredited "" "" 0 zero_time "" 0 "" "" "" "" "" "" "")
      (λ e, EMoneyCredited (mkMoneyCredited aggregateID (mc_Type e) (mc_Seq e) (mc_Occurred e)
              (mc_ID e) (mc_Amount e) (mc_TransferID e) (mc_Purpose e) (mc_CounterpartyAccountID e)
              (mc_AdjustmentID e) (mc_AdjustmentReason e) (mc_CaseReference e)
              (mc_OriginalReference e)))
  else if bool_decide (eventType = "FundsReserved") then
    decoded (dec_hold mkFundsReserved) (mkFundsReserved "" "" 0 zero_time "" 0 "")
      (λ e, EFundsReserved (mkFundsReserved aggregateID (fr_Type e) (fr_Seq e) (fr_Occurred e)
              (fr_ID e) (fr_Amount e) (fr_TransferID e)))
  else if bool_decide (eventType = "ReservationCaptured") then
    decoded (dec_hold mkReservationCaptured) (mkReservationCaptured "" "" 0 zero_time "" 0 "")
      (λ e, EReservationCaptured (mkReservationCaptured aggregateID (rcap_Type e) (rcap_Seq e)
              (rcap_Occurred e) (rcap_ID e) (rcap_Amount e) (rcap_TransferID e)))
  else if bool_decide (eventType = "ReservationReleased") then
    decoded (dec_hold mkReservationReleased) (mkReservationReleased "" "" 0 zero_time "" 0 "")
      (λ e, EReservationReleased (mkReservationReleased aggregateID (rrel_Type e) (rrel_Seq e)
              (rrel_Occurred e) (rrel_ID e) (rrel_Amount e) (rrel_TransferID e)))
  else Err (OtherError ("eventstore: unknown event type " +:+ quoted eventType)).
End Decode.

(** ** Facts *)

Lemma omit_string_keys name s : (omit_string name s).*1 `sublist_of` [name].
Proof. unfold omit_string. case_bool_decide; [apply sublist_nil_l|done]. Qed.

Lemma movement_fields_keys a t s o i m ti pu co ad re ca orig :
  (movement_fields a t s o i m ti pu co ad re ca orig).*1 `sublist_of` movement_names.
Proof.
  unfold movement_fields, event_head, field. rewrite !fmap_app. cbn [fmap list_fmap fst app].
  do 6 apply sublist_skip.
  change (["transfer_id"; "purpose"; "counterparty_account_id"; "adjustment_id"; "adjustment_reason";
    "case_reference"; "original_reference"]) with
    (["transfer_id"] ++ ["purpose"] ++ ["counterparty_account_id"] ++ ["adjustment_id"] ++
     ["adjustment_reason"] ++ ["case_reference"] ++ ["original_reference"]).
  repeat (apply sublist_app; [apply omit_string_keys|]). apply omit_string_keys.
Qed.

(** A field of an object whose members may stand in any order. *)
Lemma member_perm {A} names fields kvs name (d : decoder A) x :
  NoDup names → fields.*1 `sublist_of` names → fields ≡ₚ kvs →
  member names kvs name d x =
  match lookup_key name fields with Some j => d j x | None => Some x end.
Proof.
  intros Hn Hk Hp. assert (NoDup fields.*1) as Hnd by (eapply sublist_NoDup; done).
  rewrite member_lookup; [by rewrite <-(lookup_key_perm name _ _ Hnd Hp)|by rewrite <-Hp|].
  intros k. rewrite <-Hp. intros Hin. by eapply elem_of_submseteq, sublist_submseteq.
Qed.

(** A member that is left out when it is empty. *)
Lemma omit_then name s key kvs :
  lookup_key key (omit_string name s ++ kvs) =
  if bool_decide (name = key) && negb (bool_decide (s = "")) then Some (JString s)
  else lookup_key key kvs.
Proof.
  rewrite lookup_key_app. unfold omit_string. destruct (bool_decide (s = "")); simpl.
  - by rewrite andb_false_r.
  - by destruct (bool_decide (name = key)).
Qed.

Lemma dec_omitted (s : string) :
  match (if negb (bool_decide (s = "")) then Some (JString s) else None) with
  | Some j => dec_string j "" | None => Some "" end = Some s.
Proof. case_bool_decide; by subst. Qed.

(** Reads the fields of a struct one after the other. *)
Ltac read_fields :=
  repeat first
    [ progress cbn [dec_string mbind option_bind andb]
    | rewrite bool_decide_eq_true_2 by done | rewrite bool_decide_eq_false_2 by done
    | rewrite omit_then | rewrite dec_omitted
    | rewrite dec_enc_int by done | rewrite dec_enc_time by done | rewrite dec_enc_money by done ].

Section Fields.
Context (a t i : string) (s : Z) (o : Time) (m : Money).
Hypothesis s_ok : 0 ≤ s ≤ MaxInt64.
Hypothesis o_ok : 0 ≤ Year o ≤ 9999.
Hypothesis m_ok : int64_ok m.
Hypothesis m_min : m ≠ MinInt64.

Lemma dec_opened_fields kvs z :
  event_head a t s o ++ field "ID" (JString i) ++ field "InitialBalance" (enc_money m) ≡ₚ kvs →
  dec_AccountOpened (JObject kvs) z = Some (mkAccountOpened a t s o i m).
Proof.
  intros Hp. unfold dec_AccountOpened, dec_struct. cbv zeta.
  assert (∀ A name (d : decoder A) x, member opened_names kvs name d x =
    match lookup_key name (event_head a t s o ++ field "ID" (JString i) ++
      field "InitialBalance" (enc_money m)) with Some j => d j x | None => Some x end) as Hm.
  { intros A name d x. apply member_perm; [|done|done]. apply (bool_decide_unpack _); by vm_compute. }
  rewrite !Hm. unfold event_head, field. cbn [app lookup_key].
  read_fields. done.
Qed.

Lemma dec_hold_fields {T} (make : string → string → Z → Time → string → Money → string → T) ti kvs z :
  hold_fields a t s o i m ti ≡ₚ kvs →
  dec_hold make (JObject kvs) z = Some (make a t s o i m ti).
Proof.
  intros Hp. unfold dec_hold, dec_struct. cbv zeta.
  assert (∀ A name (d : decoder A) x, member hold_names kvs name d x =
    match lookup_key name (hold_fields a t s o i m ti) with Some j => d j x | None => Some x end) as Hm.
  { intros A name d x. apply member_perm; [|done|done]. apply (bool_decide_unpack _); by vm_compute. }
  rewrite !Hm. unfold hold_fields, event_head, field. cbn [app lookup_key].
  read_fields. done.
Qed.

Lemma dec_movement_fields {T} (make : string → string → Z → Time → string → Money → string → string →
    string → string → string → string → string → T) ti pu co ad re ca orig kvs z :
  movement_fields a t s o i m ti pu co ad re ca orig ≡ₚ kvs →
  dec_movement make (JObject kvs) z = Some (make a t s o i m ti pu co ad re ca orig).
Proof.
  intros Hp. unfold dec_movement, dec_struct. cbv zeta.
  assert (∀ A name (d : decoder A) x, member movement_names kvs name d x =
    match lookup_key name (movement_fields a t s o i m ti pu co ad re ca orig) with
    | Some j => d j x | None => Some x end) as Hm.
  { intros A name d x. apply member_perm; [|apply movement_fields_keys|done].
    apply (bool_decide_unpack _); by vm_compute. }
  rewrite !Hm. unfold movement_fields, event_head, field. cbn [app lookup_key].
  rewrite <-(app_nil_r (omit_string "original_reference" orig)). read_fields. done.
Qed.
End Fields.

(** What an event needs to be kept as a row: its type's name, and values that
    encoding/json can write. *)
Record storable (ev : Event) : Prop := {
  st_type : EventType ev = type_name ev;
  st_version : 0 ≤ Version ev ≤ MaxInt64;
  st_amount : int64_ok (event_amount ev);
  st_smallest : event_amount ev ≠ MinInt64;
  st_year : 0 ≤ Year (OccurredAt ev) ≤ 9999;
}.

(** The payload of an event, in any order, gives the event back. *)
Lemma decode_payload `{JsonErrors} ev kvs :
  storable ev → event_fields ev ≡ₚ kvs →
  decodeEvent (AggregateID ev) (EventType ev) (JObject kvs) = Ok ev.
Proof.
  intros [Ht Hv Ha Hs Hy] Hp. unfold decodeEvent. rewrite Ht.
  destruct ev as [[]|[]|[]|[]|[]|[]]; cbn [type_name event_fields] in *;
    repeat first [rewrite bool_decide_eq_true_2 by done|rewrite bool_decide_eq_false_2 by done];
    first [rewrite (dec_opened_fields _ _ _ _ _ _ Hv Hy Ha Hs _ _ Hp)
          |rewrite (dec_movement_fields _ _ _ _ _ _ Hv Hy Ha Hs _ _ _ _ _ _ _ _ _ _ Hp)
          |rewrite (dec_hold_fields _ _ _ _ _ _ Hv Hy Ha Hs _ _ _ _ Hp)]; reflexivity.
Qed.

(** Every such event can be encoded. *)
Lemma enc_event_encodable ev : storable ev → Marshal (enc_event ev) = Some (enc_event ev).
Proof.
  intros [_ _ Ha Hs Hy]. unfold Marshal, enc_event. cbn [encodable].
  assert (encodable (enc_money (event_amount ev)) = true) as Hm by (by rewrite enc_money_number).
  assert (encodable (enc_time (OccurredAt ev)) = true) as Ht.
  { unfold enc_time, time_text. destruct Hy as [H1%Z.leb_le H2%Z.leb_le]. by rewrite H1, H2. }
  destruct ev as [[]|[]|[]|[]|[]|[]]; simpl in *; rewrite Hm, Ht; try done;
    unfold omit_string; repeat case_bool_decide; done.
Qed.
