(* ===== verification/SagaState.v ===== *)
(** * What the steps of a transfer's saga say about the store.

    [record_ok m id r] is the contract of the steps: from "funds_reserved" on
    there is a hold; from "compliance_approved" on the decision was "approved"
    and the transfer cannot fail any more; from "ledger_posted" on the ledger is
    posted; at "reservation_captured" the hold is captured; only there can the
    transfer be completed.  A worker may hold an old copy of a record, so
    everything it relies on is permanent. *)
From S2P Require Export StoreFacts.

(** ** Definitions *)

Definition posted (m : MemoryStore) (t : string) : bool := default false (ms_ledgerPostings m !! t).

(** The steps in the order a saga takes them. *)
Definition step_rank (step : string) : option nat :=
  if bool_decide (step = SagaCreated) then Some 0%nat
  else if bool_decide (step = SagaFundsReserved) then Some 1%nat
  else if bool_decide (step = SagaComplianceApproved) then Some 2%nat
  else if bool_decide (step = SagaLedgerPosted) then Some 3%nat
  else if bool_decide (step = SagaReservationCaptured) then Some 4%nat
  else None.
Definition at_least (n : nat) (step : string) : Prop :=
  match step_rank step with Some k => (n ≤ k)%nat | None => False end.

Record record_ok (m : MemoryStore) (id : string) (r : TransferRecord) : Prop := {
  rk_status : tr_Status r = TransferPending ∨ tr_Status r = TransferCompleted ∨
              tr_Status r = TransferFailed;
  rk_step : at_least 0 (tr_CurrentStep r);
  rk_completed : tr_Status r = TransferCompleted → at_least 4 (tr_CurrentStep r);
  rk_failed : tr_Status r = TransferFailed → ¬ at_least 2 (tr_CurrentStep r);
  rk_hold : at_least 1 (tr_CurrentStep r) → is_Some (ms_reservations m !! id);
  rk_decision : at_least 2 (tr_CurrentStep r) → ms_complianceDecisions m !! id = Some "approved";
  rk_posted : at_least 3 (tr_CurrentStep r) → posted m id = true;
  rk_captured : at_least 4 (tr_CurrentStep r) →
    ∃ h, ms_reservations m !! id = Some h ∧ res_State h = "captured";
}.

(** A hold is that of its transfer, between accounts that are open. *)
Record hold_ok (m : MemoryStore) (h : memoryReservation) (r : TransferRecord) : Prop := {
  hk_account : res_AccountID h = tr_SourceAccountID r;
  hk_amount : res_Amount h = tr_Amount r + tr_Fee r;
  hk_source : stream m (tr_SourceAccountID r) ≠ [];
  hk_destination : stream m (tr_DestinationAccountID r) ≠ [];
}.

Record saga_ok (m : MemoryStore) : Prop := {
  sk_records : map_Forall (record_ok m) (ms_transfers m);
  sk_holds : ∀ id h, ms_reservations m !! id = Some h →
    ∃ r, ms_transfers m !! id = Some r ∧ hold_ok m h r;
  sk_posted : ∀ id, posted m id = true →
    ∃ r, ms_transfers m !! id = Some r ∧ at_least 2 (tr_CurrentStep r);
}.

(** A transfer keeps its parties, amount, fee and key; its step only moves
    forward; once it has left "pending" it keeps everything. *)
Record transfer_step (r r' : TransferRecord) : Prop := {
  ts_ID : tr_ID r' = tr_ID r;
  ts_Source : tr_SourceAccountID r' = tr_SourceAccountID r;
  ts_Destination : tr_DestinationAccountID r' = tr_DestinationAccountID r;
  ts_Key : tr_IdempotencyKey r' = tr_IdempotencyKey r;
  ts_Amount : tr_Amount r' = tr_Amount r;
  ts_Fee : tr_Fee r' = tr_Fee r;
  ts_CreatedAt : tr_CreatedAt r' = tr_CreatedAt r;
  ts_rank : ∀ n, at_least n (tr_CurrentStep r) → at_least n (tr_CurrentStep r');
  ts_final : tr_Status r ≠ TransferPending → r' = r;
}.

(** What a worker knows of the copy [r] it was given: the stored record has only
    moved on from it. *)
Definition known (m : MemoryStore) (r : TransferRecord) : Prop :=
  transfer_ok r ∧ record_ok m (tr_ID r) r ∧
  ∃ r0, ms_transfers m !! tr_ID r = Some r0 ∧ transfer_step r r0.

(** An update that the record it will find can take. *)
Definition update_ok (m : MemoryStore) (id : string) (u : TransferSagaUpdate) (at_ : Time) : Prop :=
  ∀ r, ms_transfers m !! id = Some r → tr_Status r = TransferPending →
    tr_CurrentStep r = su_ExpectedStep u →
    record_ok m id (apply_update r u at_) ∧
    ∀ n, at_least n (tr_CurrentStep r) → at_least n (su_CurrentStep u).

(** What the saga's calls require of the state they find. *)
Definition saga_pre {X} (op : storeE X) (m : MemoryStore) : Prop :=
  match op with
  | cUpdateTransferSaga id u at_ => update_ok m id u at_
  | cReserveTransferFunds r _ => known m r
  | cPostTransferLedger r _ => known m r ∧ at_least 2 (tr_CurrentStep r)
  | _ => True
  end.
