(* ===== verification/Evolution.v ===== *)
(** * How a store evolves.

    [evolves m m'] says what no call can undo: streams only grow, snapshots only
    get newer, reviewed applications and adjustments and finished transfers stay
    as they are, holds are finished once, ledger postings and compliance
    decisions are permanent.  Every call with fresh identifiers evolves the
    store, so this holds between any two moments of any interleaving. *)
From S2P Require Export SagaState.

(** ** Definitions *)

(** Entries of a map may be added and move along [R], never removed. *)
Definition map_evolves {V} (R : relation V) (m m' : gmap string V) : Prop :=
  ∀ k v, m !! k = Some v → ∃ v', m' !! k = Some v' ∧ R v v'.

Definition snapshot_step (s s' : AccountSnapshot) : Prop :=
  s' = s ∨ snap_AsOfSequence s < snap_AsOfSequence s'.

(** An application is reviewed at most once, by a decision that leaves its
    other fields alone. *)
Definition review_step (c c' : Customer) : Prop :=
  c' = c ∨
  cus_KYCStatus c = KYCWaiting ∧ ∃ adm at_,
    (∃ acc, c' = reviewed c KYCApproved acc adm (cus_RejectionReason c) at_) ∨
    (∃ reason, c' = reviewed c KYCRejected (cus_AccountID c) adm reason at_).

(** An adjustment is settled at most once, by an admin who did not make it. *)
Definition adjustment_step (r r' : AdjustmentRequest) : Prop :=
  r' = r ∨
  adj_Status r = AdjustmentWaiting ∧ ∃ adm reason at_,
    adm ≠ adj_CreatedBy r ∧
    (r' = settle r AdjustmentApproved adm reason at_ ∨
     r' = settle r AdjustmentRejected adm reason at_).

(** A hold keeps its account and amount, and is finished at most once. *)
Record hold_step (h h' : memoryReservation) : Prop := {
  hs_Account : res_AccountID h' = res_AccountID h;
  hs_Amount : res_Amount h' = res_Amount h;
  hs_final : res_State h ≠ "reserved" → res_State h' = res_State h;
}.

Record evolves (m m' : MemoryStore) : Prop := {
  ev_streams : stream_delta (ms_streams m) (ms_streams m');
  ev_snapshots : map_evolves snapshot_step (ms_snapshots m) (ms_snapshots m');
  ev_customers : map_evolves review_step (ms_customers m) (ms_customers m');
  ev_adjustments : map_evolves adjustment_step (ms_adjustments m) (ms_adjustments m');
  ev_transfers : map_evolves transfer_step (ms_transfers m) (ms_transfers m');
  ev_reservations : map_evolves hold_step (ms_reservations m) (ms_reservations m');
  ev_postings : map_evolves (λ b b', b = true → b' = true)
                  (ms_ledgerPostings m) (ms_ledgerPostings m');
  ev_decisions : map_evolves eq (ms_complianceDecisions m) (ms_complianceDecisions m');
}.

(** ** Preorders *)

#[export] Instance map_evolves_preorder {V} (R : relation V) `{!PreOrder R} :
  PreOrder (map_evolves R).
Proof.
  split.
  - intros m k v Hk. by exists v.
  - intros m1 m2 m3 H12 H23 k v Hk. destruct (H12 k v Hk) as (v' & Hk' & Hv').
    destruct (H23 k v' Hk') as (v'' & ? & ?). exists v''. split; [done|by etrans].
Qed.

#[export] Instance snapshot_step_preorder : PreOrder snapshot_step.
Proof. split; [by left|]. intros s1 s2 s3 [->|?] [->|?]; unfold snapshot_step; auto with lia. Qed.

#[export] Instance review_step_preorder : PreOrder review_step.
Proof.
  split; [by left|]. intros c1 c2 c3 [->|H1] H2; [done|].
  destruct H2 as [->|[Hw _]]; [by right|].
  destruct H1 as (_ & adm & at_ & [[acc ->]|[reason ->]]); by simpl in Hw.
Qed.

#[export] Instance adjustment_step_preorder : PreOrder adjustment_step.
Proof.
  split; [by left|]. intros r1 r2 r3 [->|H1] H2; [done|].
  destruct H2 as [->|[Hw _]]; [by right|].
  destruct H1 as (_ & adm & reason & at_ & _ & [->| ->]); by simpl in Hw.
Qed.

#[export] Instance transfer_step_preorder : PreOrder transfer_step.
Proof.
  split; [by split|]. intros r1 r2 r3 H1 H2. split.
  1-7: by destruct H1, H2; congruence.
  { destruct H1, H2. auto. }
  intros Hs. assert (r2 = r1) as -> by by apply (ts_final _ _ H1). by apply (ts_final _ _ H2).
Qed.

#[export] Instance hold_step_preorder : PreOrder hold_step.
Proof.
  split; [by split|]. intros h1 h2 h3 [] []. split; [congruence..|].
  intros Hs. assert (res_State h2 = res_State h1) by auto. rewrite <-H. apply hs_final1. congruence.
Qed.

#[export] Instance posting_preorder : PreOrder (λ b b' : bool, b = true → b' = true).
Proof. split; [by intros b|]. intros b1 b2 b3; auto. Qed.

#[export] Instance evolves_preorder : PreOrder evolves.
Proof.
  split; [by split|]. intros m1 m2 m3 [] []. split; try by etrans.
  by eapply stream_delta_trans.
Qed.

(** ** Every call evolves the store *)

Lemma map_evolves_insert {V} (R : relation V) `{!Reflexive R} (m : gmap string V) k v' :
  (∀ v, m !! k = Some v → R v v') → map_evolves R m (<[k := v']> m).
Proof.
  intros Hv j v Hj. destruct (decide (k = j)) as [<-|Hne].
  - exists v'. by rewrite lookup_insert_eq; auto.
  - exists v. by rewrite lookup_insert_ne.
Qed.

Lemma map_evolves_fresh {V} (R : relation V) `{!Reflexive R} (m : gmap string V) k v' :
  m !! k = None → map_evolves R m (<[k := v']> m).
Proof. intros Hk. apply map_evolves_insert; [done|]. intros v. by rewrite Hk. Qed.

Ltac evolve_fields :=
  split; simpl; try reflexivity; try done.

Section Evolves.
Context (G : GoRuntime) (m : MemoryStore).

Lemma SaveSnapshot_evolves snap : evolves m (SaveSnapshot snap m).2.
Proof.
  unfold SaveSnapshot. destruct (ms_snapshots m !! _) as [old|] eqn:E.
  - destruct (Z.leb_spec (snap_AsOfSequence snap) (snap_AsOfSequence old)); [done|].
    evolve_fields. apply map_evolves_insert; [apply _|]. intros s Hs. right. by simplify_eq.
  - evolve_fields. by apply map_evolves_fresh; [apply _|].
Qed.

Lemma CreateTransfer_evolves r :
  ms_transfers m !! tr_ID r = None → evolves m (CreateTransfer r m).2.
Proof.
  intros Hf. unfold CreateTransfer. repeat case_match; try done. evolve_fields.
  by apply map_evolves_fresh; [apply _|].
Qed.

Lemma UpdateTransferSaga_evolves id u at_ :
  update_ok m id u at_ → evolves m (UpdateTransferSaga id u at_ m).2.
Proof.
  intros Hu. unfold UpdateTransferSaga. destruct (ms_transfers m !! id) as [r|] eqn:E; [|done].
  case_match eqn:Hg; [done|]. boolify. evolve_fields.
  apply map_evolves_insert; [apply _|]. intros r' Hr'. simplify_eq. split; try done.
  by apply Hu.
Qed.

Lemma RecordComplianceDecision_evolves id d at_ :
  evolves m (RecordComplianceDecision id d at_ m).2.
Proof.
  unfold RecordComplianceDecision. destruct (ms_complianceDecisions m !! id) as [old|] eqn:E.
  - case_match eqn:Hg; [boolify; subst|done]. evolve_fields.
    apply map_evolves_insert; [apply _|]. intros v ?. by simplify_eq.
  - evolve_fields. by apply map_evolves_fresh; [apply _|].
Qed.

Lemma ReserveTransferFunds_evolves r at_ : evolves m (ReserveTransferFunds r at_ m).2.
Proof.
  pose proof (ReserveTransferFunds_delta m r at_) as Hd. revert Hd.
  unfold ReserveTransferFunds. destruct (ms_reservations m !! tr_ID r) eqn:E; [done|].
  repeat case_match; simpl; intros Hd; try done.
  evolve_fields. by apply map_evolves_fresh; [apply _|].
Qed.

Lemma PostTransferLedger_evolves r at_ :
  transfer_ok r → evolves m (PostTransferLedger r at_ m).2.
Proof.
  intros Hr. pose proof (PostTransferLedger_delta m r at_ Hr) as Hd. revert Hd.
  unfold PostTransferLedger. case_match; [done|]. case_match; [done|]. intros Hd.
  evolve_fields. apply map_evolves_insert; [by intros b|]. done.
Qed.

Lemma CreateCustomerApplication_evolves c : evolves m (CreateCustomerApplication c m).2.
Proof.
  unfold CreateCustomerApplication. repeat case_match; try done. evolve_fields.
  by apply map_evolves_fresh; [apply _|].
Qed.

Lemma ApproveApplication_evolves id adm acc at_ :
  store_wf m → ms_streams m !! acc = None → evolves m (ApproveApplication id adm acc at_ m).2.
Proof.
  intros Hwf Hf. pose proof (ApproveApplication_delta m Hwf id adm acc at_ Hf) as Hd. revert Hd.
  unfold ApproveApplication. destruct (ms_customers m !! id) as [c|] eqn:E; [|done].
  case_match eqn:Hg; [done|]. boolify. simpl. intros Hd. evolve_fields.
  apply map_evolves_insert; [apply _|]. intros c' Hc'. simplify_eq. right. split; [done|].
  exists adm, at_. left. by exists acc.
Qed.

Lemma RejectApplication_evolves id adm reason at_ :
  evolves m (RejectApplication id adm reason at_ m).2.
Proof.
  unfold RejectApplication. destruct (ms_customers m !! id) as [c|] eqn:E; [|done].
  case_match eqn:Hg; [done|]. boolify. evolve_fields.
  apply map_evolves_insert; [apply _|]. intros c' Hc'. simplify_eq. right. split; [done|].
  exists adm, at_. right. by exists reason.
Qed.

Lemma CreateAdjustment_evolves r :
  ms_adjustments m !! adj_ID r = None → evolves m (CreateAdjustment r m).2.
Proof.
  intros Hf. unfold CreateAdjustment. repeat case_match; try done;
    evolve_fields; by apply map_evolves_fresh; [apply _|].
Qed.

Lemma RejectAdjustment_evolves id adm reason at_ :
  evolves m (RejectAdjustment id adm reason at_ m).2.
Proof.
  unfold RejectAdjustment. destruct (ms_adjustments m !! id) as [r|] eqn:E; [|done].
  case_match eqn:Hg; [done|]. case_match eqn:Hs; [done|]. boolify. evolve_fields.
  apply map_evolves_insert; [apply _|]. intros r' Hr'. simplify_eq. right. split; [done|].
  exists adm, reason, at_. split; [done|]. by right.
Qed.

Lemma ApproveAdjustment_evolves id adm at_ :
  store_wf m → evolves m (ApproveAdjustment id adm at_ m).2.
Proof.
  intros Hwf. pose proof (ApproveAdjustment_delta m Hwf id adm at_) as Hd.
  destruct (ApproveAdjustment_cases id adm at_ m)
    as [[e ->]|(r & s & E & Hw & Hne & Heq)]; [done|].
  rewrite Heq in Hd |- *. evolve_fields. apply map_evolves_insert; [apply _|]. intros r' Hr'. simplify_eq. right.
  split; [done|]. exists adm, (adj_RejectionReason r), at_. split; [done|by left].
Qed.

Lemma finishReservation_evolves r at_ state :
  store_wf m → evolves m (finishReservation r at_ state m).2.
Proof.
  intros Hwf. pose proof (finishReservation_delta m Hwf r at_ state) as Hd. revert Hd.
  unfold finishReservation. destruct (ms_reservations m !! _) as [h|] eqn:E; [|done].
  case_match; [done|]. case_match eqn:Hs; [done|]. boolify. simpl. intros Hd.
  evolve_fields. apply map_evolves_insert; [apply _|]. intros h' Hh'. simplify_eq. by split.
Qed.

Lemma WithdrawAvailable_evolves id amount at_ :
  int64_ok amount → evolves m (WithdrawAvailable id amount at_ m).2.
Proof.
  intros Ha. pose proof (WithdrawAvailable_delta m id amount at_ Ha) as Hd. revert Hd.
  unfold WithdrawAvailable. repeat case_match; simpl; by intros Hd.
Qed.

Lemma Append_evolves ev v :
  0 ≤ v → event_ok (AggregateID ev) (Z.to_nat v) ev → evolves m (Append ev v m).2.
Proof.
  intros Hv Hev. pose proof (Append_delta m ev v Hv Hev) as Hd. revert Hd.
  unfold Append. case_match; simpl; by intros Hd.
Qed.

Lemma call_evolves {X} (op : storeE X) :
  call_typed op → call_fresh X op m → saga_pre op m → store_wf m →
  evolves m (store_call G op m).2.
Proof.
  intros Ht Hf Hs Hwf. destruct op; simpl in *; try done; try reflexivity.
  - apply Append_evolves; tauto.
  - by apply WithdrawAvailable_evolves.
  - by apply CreateTransfer_evolves.
  - by apply UpdateTransferSaga_evolves.
  - apply ReserveTransferFunds_evolves.
  - apply RecordComplianceDecision_evolves.
  - by apply PostTransferLedger_evolves.
  - by apply finishReservation_evolves.
  - by apply finishReservation_evolves.
  - apply CreateCustomerApplication_evolves.
  - by apply ApproveApplication_evolves.
  - apply RejectApplication_evolves.
  - by apply CreateAdjustment_evolves.
  - by apply ApproveAdjustment_evolves.
  - apply RejectAdjustment_evolves.
  - unfold store_call, memory_store, UpsertAdmin. destruct (range_find _ _) as [[??]|]; evolve_fields.
Qed.
End Evolves.
