(* ===== verification/SagaFacts.v ===== *)
(** * The saga contract is kept by every call, and what a worker knows stays true. *)
From S2P Require Export Evolution.

(** ** What is known stays known *)

Lemma at_least_le n k step : (k ≤ n)%nat → at_least n step → at_least k step.
Proof. unfold at_least. destruct (step_rank step); [lia|done]. Qed.

Lemma posted_evolves m m' t : evolves m m' → posted m t = true → posted m' t = true.
Proof.
  intros He. unfold posted. destruct (ms_ledgerPostings m !! t) as [b|] eqn:E; [|done].
  destruct (ev_postings _ _ He t b E) as (b' & -> & Hb). simpl. auto.
Qed.

Lemma hold_evolves m m' id h :
  evolves m m' → ms_reservations m !! id = Some h →
  ∃ h', ms_reservations m' !! id = Some h' ∧ hold_step h h'.
Proof. intros He. apply (ev_reservations _ _ He). Qed.

Lemma record_ok_evolves m m' id r : evolves m m' → record_ok m id r → record_ok m' id r.
Proof.
  intros He []. split; try done.
  - intros Hr. destruct (rk_hold Hr) as [h Hh].
    destruct (hold_evolves m m' id h He Hh) as (h' & -> & _). by eexists.
  - intros Hr. destruct (ev_decisions _ _ He id _ (rk_decision Hr)) as (d & ? & ->). done.
  - intros Hr. eapply posted_evolves; eauto.
  - intros Hr. destruct (rk_captured Hr) as (h & Hh & Hs).
    destruct (hold_evolves m m' id h He Hh) as (h' & Hh' & Hstep). exists h'. split; [done|].
    rewrite <-Hs. apply (hs_final _ _ Hstep). by rewrite Hs.
Qed.

Lemma stream_open m m' id : evolves m m' → stream m id ≠ [] → stream m' id ≠ [].
Proof.
  intros He Hne Hnil. destruct (stream_delta_prefix _ _ id (ev_streams _ _ He)) as [k Hk].
  apply Hne. fold (stream m id) (stream m' id) in Hk. rewrite Hnil in Hk.
  by destruct (stream m id).
Qed.

Lemma hold_ok_evolves m m' h h' r r' :
  evolves m m' → res_AccountID h' = res_AccountID h → res_Amount h' = res_Amount h →
  transfer_step r r' → hold_ok m h r → hold_ok m' h' r'.
Proof.
  intros He Ha Hm Hr []. destruct Hr. split; [congruence..| |];
    rewrite ?ts_Source, ?ts_Destination; by eapply stream_open.
Qed.

Lemma known_evolves m m' r : evolves m m' → known m r → known m' r.
Proof.
  intros He (Hok & Hrec & r0 & Hr0 & Hstep). split_and!; [done|by eapply record_ok_evolves|].
  destruct (ev_transfers _ _ He _ _ Hr0) as (r1 & Hr1 & Hstep1). exists r1.
  split; [done|]. by etrans.
Qed.

(** ** Every call keeps the contract *)

(** Calls that leave the transfers and the postings alone and at most move holds. *)
Lemma saga_frame m m' :
  evolves m m' → ms_transfers m' = ms_transfers m →
  (∀ id h', ms_reservations m' !! id = Some h' → ∃ h, ms_reservations m !! id = Some h ∧
     res_AccountID h' = res_AccountID h ∧ res_Amount h' = res_Amount h) →
  ms_ledgerPostings m' = ms_ledgerPostings m → saga_ok m → saga_ok m'.
Proof.
  intros He Ht Hh Hp []. split.
  - rewrite Ht. eapply map_Forall_impl; [exact sk_records|]. intros id r. by apply record_ok_evolves.
  - intros id h' Hh'. destruct (Hh id h' Hh') as (h & Hh0 & Ha & Hm).
    destruct (sk_holds id h Hh0) as (r & Hr & Hok). exists r. rewrite Ht. split; [done|].
    by eapply hold_ok_evolves.
  - intros id. unfold posted. rewrite Hp, Ht. apply sk_posted.
Qed.

Section Saga.
Context (G : GoRuntime) (m : MemoryStore).
Hypothesis Hok : saga_ok m.

Lemma CreateTransfer_saga r :
  transfer_ok r → tr_Status r = TransferPending → tr_CurrentStep r = SagaCreated →
  ms_transfers m !! tr_ID r = None → evolves m (CreateTransfer r m).2 →
  saga_ok (CreateTransfer r m).2.
Proof.
  intros Hr Hst Hstep Hfresh. unfold CreateTransfer. case_match; [by repeat case_match|].
  simpl. intros He. destruct Hok. split; simpl.
  - apply map_Forall_insert_2.
    + split; rewrite ?Hst, ?Hstep; simpl; auto; unfold at_least; simpl; try done; try lia.
    + eapply map_Forall_impl; [exact sk_records|]. intros id r'. by apply record_ok_evolves.
  - intros id h Hh. destruct (sk_holds id h Hh) as (r' & Hr' & Hhold). exists r'.
    split; [|by eapply hold_ok_evolves]. rewrite lookup_insert_ne; [done|congruence].
  - intros id Hp. destruct (sk_posted id Hp) as (r' & Hr' & Hl). exists r'.
    split; [|done]. rewrite lookup_insert_ne; [done|congruence].
Qed.

Lemma UpdateTransferSaga_saga id u at_ :
  update_ok m id u at_ → evolves m (UpdateTransferSaga id u at_ m).2 →
  saga_ok (UpdateTransferSaga id u at_ m).2.
Proof.
  intros Hu. unfold UpdateTransferSaga. destruct (ms_transfers m !! id) as [r|] eqn:E; [|done].
  case_match eqn:Hg; [done|]. boolify. simpl. intros He.
  destruct (Hu r E) as [Hrec Hrank]; [done..|].
  assert (transfer_step r (apply_update r u at_)) as Hstep by by split.
  destruct Hok. split; simpl.
  - apply map_Forall_insert_2; [by eapply record_ok_evolves|].
    eapply map_Forall_impl; [exact sk_records|]. intros id' r'. by apply record_ok_evolves.
  - intros id' h Hh. destruct (sk_holds id' h Hh) as (r' & Hr' & Hhold).
    destruct (decide (id = id')) as [<-|Hne].
    + exists (apply_update r u at_). rewrite lookup_insert_eq. split; [done|]. simplify_eq.
      by eapply hold_ok_evolves.
    + exists r'. rewrite lookup_insert_ne by done. split; [done|]. by eapply hold_ok_evolves.
  - intros id' Hp. destruct (sk_posted id' Hp) as (r' & Hr' & Hl).
    destruct (decide (id = id')) as [<-|Hne].
    + exists (apply_update r u at_). rewrite lookup_insert_eq. simplify_eq. auto.
    + exists r'. by rewrite lookup_insert_ne.
Qed.

Lemma known_total r : transfer_ok r → tr_Amount r +! tr_Fee r = tr_Amount r + tr_Fee r.
Proof. intros []. wrap_exact. done. Qed.

Lemma ReserveTransferFunds_saga r at_ :
  known m r → evolves m (ReserveTransferFunds r at_ m).2 →
  saga_ok (ReserveTransferFunds r at_ m).2.
Proof.
  intros (Hr & _ & r0 & Hr0 & Hstep). unfold ReserveTransferFunds.
  destruct (ms_reservations m !! tr_ID r) eqn:E; [done|].
  case_match eqn:Hopen; [done|]. case_match; [done|]. simpl. intros He. boolify.
  destruct Hok. split; simpl.
  - eapply map_Forall_impl; [exact sk_records|]. intros id r'. by apply record_ok_evolves.
  - intros id h. rewrite lookup_insert_Some. intros [[<- <-]|[Hne Hh]].
    + exists r0. split; [done|]. eapply hold_ok_evolves; [exact He|reflexivity|reflexivity|exact Hstep|].
      apply Z.eqb_neq in H0, H1. unfold seq_of in *.
      split; simpl; [done|by apply known_total|..]; by intros Hnil; rewrite Hnil in *.
    + destruct (sk_holds id h Hh) as (r' & Hr' & Hhold). exists r'. split; [done|].
      by eapply hold_ok_evolves.
  - apply sk_posted.
Qed.

Lemma PostTransferLedger_saga r at_ :
  known m r → at_least 2 (tr_CurrentStep r) → evolves m (PostTransferLedger r at_ m).2 →
  saga_ok (PostTransferLedger r at_ m).2.
Proof.
  intros (Hr & _ & r0 & Hr0 & Hstep) Hl. unfold PostTransferLedger.
  case_match; [done|]. case_match; [done|]. intros He. destruct Hok. split.
  - simpl. eapply map_Forall_impl; [exact sk_records|]. intros id r'. by apply record_ok_evolves.
  - simpl. intros id h Hh. destruct (sk_holds id h Hh) as (r' & Hr' & Hhold). exists r'.
    split; [done|]. by eapply hold_ok_evolves.
  - intros id. unfold posted. simpl. destruct (decide (tr_ID r = id)) as [<-|Hne].
    + intros _. exists r0. split; [done|]. by apply (ts_rank _ _ Hstep).
    + rewrite lookup_insert_ne by done. apply sk_posted.
Qed.

Lemma finishReservation_saga r at_ state :
  evolves m (finishReservation r at_ state m).2 → saga_ok (finishReservation r at_ state m).2.
Proof.
  unfold finishReservation. destruct (ms_reservations m !! tr_ID r) as [h|] eqn:E; [|done].
  case_match; [done|]. case_match; [done|]. simpl. intros He.
  eapply saga_frame; [exact He|done| |done|done]. simpl. intros id h'.
  rewrite lookup_insert_Some. intros [[<- <-]|[Hne Hh]]; [by exists h|by exists h'].
Qed.
End Saga.

Lemma call_saga {X} (G : GoRuntime) (op : storeE X) m :
  call_typed op → call_fresh X op m → saga_pre op m → evolves m (store_call G op m).2 →
  saga_ok m → saga_ok (store_call G op m).2.
Proof.
  intros Ht Hf Hs He Hok.
  assert (∀ m', evolves m m' → ms_transfers m' = ms_transfers m →
    ms_reservations m' = ms_reservations m → ms_ledgerPostings m' = ms_ledgerPostings m →
    saga_ok m') as Hsame.
  { intros m' He' Htr Hr Hp. apply (saga_frame m); [done..| |done|done].
    rewrite Hr. intros id h' Hh'. by exists h'. }
  destruct op; simpl in Ht, Hf, Hs; revert He; store_cbv; intros He; try done;
    try (by apply UpdateTransferSaga_saga); try (by apply ReserveTransferFunds_saga);
    try (by apply CreateTransfer_saga; tauto); try (by apply PostTransferLedger_saga; tauto);
    try (by apply finishReservation_saga);
    apply (Hsame _ He); clear;
    unfold Append, SaveSnapshot, WithdrawAvailable, RecordComplianceDecision,
      CreateCustomerApplication, ApproveApplication, RejectApplication, CreateAdjustment,
      RejectAdjustment, UpsertAdmin, CreateSession, DeleteSession;
    try (by repeat case_match);
    by destruct (ApproveAdjustment_cases id adminID at_ m) as [[e ->]|(r & s & _ & _ & _ & ->)].
Qed.

Lemma SaveSnapshot_saga snap m : saga_ok m → saga_ok (SaveSnapshot snap m).2.
Proof.
  intros Hok. pose proof (SaveSnapshot_evolves m snap) as He. revert He.
  unfold SaveSnapshot. repeat case_match; simpl; intros He; try done;
    (apply (saga_frame m); [done..| |done|done]); intros id h' Hh'; by exists h'.
Qed.

Lemma empty_store_saga : saga_ok NewMemoryStore.
Proof. split; [by apply map_Forall_empty|done|]. intros id. by vm_compute. Qed.
