(* ===== verification/Holds.v ===== *)
(** * Holds: the reserved balance is what the open reservations add up to.

    A hold is kept twice, as an entry of the reservations table and as events of
    the stream; [holds_ok] is the agreement of the two. *)
From S2P Require Export StoreFacts.

(** ** Definitions *)

(** What the hold [h] takes from the available balance of [id]. *)
Definition hold_on (id : string) (h : memoryReservation) : Z :=
  if bool_decide (res_AccountID h = id) && bool_decide (res_State h = "reserved")
  then res_Amount h else 0.
Definition held (m : MemoryStore) (id : string) : Z := sum_map (hold_on id) (ms_reservations m).

Definition holds_ok (m : MemoryStore) : Prop :=
  ∀ id, exact_reserved (stream m id) = held m id.

(** ** Facts *)

(** The reserved balance of a stream in a map of streams. *)
Definition reserved_in (s : gmap string (list Event)) (id : string) : Z :=
  exact_reserved (default [] (s !! id)).

Lemma reserved_put s id events id' :
  reserved_in (<[id := events]> s) id' =
  if decide (id = id') then exact_reserved events else reserved_in s id'.
Proof.
  unfold reserved_in. destruct (decide _) as [<-|Hne].
  - by rewrite lookup_insert_eq.
  - by rewrite lookup_insert_ne.
Qed.

Lemma exact_reserved_plain events ev :
  is_hold ev = false → exact_reserved (events ++ [ev]) = exact_reserved events.
Proof. intros Hev. rewrite exact_reserved_snoc. by destruct ev. Qed.

Lemma reserved_put_same s id events id' :
  exact_reserved events = exact_reserved (default [] (s !! id)) →
  reserved_in (<[id := events]> s) id' = reserved_in s id'.
Proof. intros He. rewrite reserved_put. by destruct (decide _) as [<-|]. Qed.

Lemma source_legs_reserved r at_ src : exact_reserved (source_legs r at_ src) = exact_reserved src.
Proof.
  unfold source_legs, fee_legs. rewrite exact_reserved_plain by done.
  case_match; [by rewrite exact_reserved_plain|done].
Qed.

(** Streams and reservations after a call, against those before it. *)
Lemma holds_unchanged m m' :
  (∀ id, reserved_in (ms_streams m') id = reserved_in (ms_streams m) id) →
  ms_reservations m' = ms_reservations m → holds_ok m → holds_ok m'.
Proof.
  intros Hs Hr Hok id. etrans; [exact (Hs id)|]. etrans; [exact (Hok id)|].
  unfold held. by rewrite Hr.
Qed.

Lemma holds_put m m' id ev d :
  holds_ok m → ms_streams m' = <[id := stream m id ++ [ev]]> (ms_streams m) →
  (∀ r, reserved_step r ev = r + d) →
  (∀ id', held m' id' = held m id' + if decide (id = id') then d else 0) →
  holds_ok m'.
Proof.
  intros Hok Hs Hd Hh id'. unfold stream. fold (reserved_in (ms_streams m') id').
  rewrite Hs, reserved_put, Hh, <-(Hok id'). destruct (decide _) as [<-|_]; [|unfold stream, reserved_in; lia].
  by rewrite exact_reserved_snoc, Hd.
Qed.

Lemma reserved_appended m id ev id' :
  is_hold ev = false →
  reserved_in (<[id := stream m id ++ [ev]]> (ms_streams m)) id' = reserved_in (ms_streams m) id'.
Proof. intros Hev. by apply reserved_put_same, exact_reserved_plain. Qed.

Section Holds.
Context (G : GoRuntime) (m : MemoryStore).
Hypothesis Hok : holds_ok m.

Lemma ReserveTransferFunds_holds r at_ : holds_ok (ReserveTransferFunds r at_ m).2.
Proof.
  unfold ReserveTransferFunds. destruct (ms_reservations m !! tr_ID r) eqn:E; [done|].
  repeat case_match; simpl; try done.
  eapply (holds_put m _ _ _ (tr_Amount r +! tr_Fee r)); [done|reflexivity|done|].
  intros id. unfold held. simpl. rewrite sum_map_insert by done. unfold hold_on at 1. simpl.
  rewrite andb_true_r. destruct (decide _).
  - rewrite bool_decide_eq_true_2 by done. lia.
  - rewrite bool_decide_eq_false_2 by done. lia.
Qed.

Lemma finishReservation_holds r at_ state :
  state ≠ "reserved" → holds_ok (finishReservation r at_ state m).2.
Proof.
  intros Hstate. unfold finishReservation.
  destruct (ms_reservations m !! tr_ID r) as [h|] eqn:E; [|done].
  case_match; [done|]. case_match eqn:Hr; [done|]. boolify. simpl.
  eapply (holds_put m _ _ _ (- res_Amount h)); [done|reflexivity|by case_match|].
  intros id. unfold held. simpl. rewrite (sum_map_update _ _ _ _ _ E). unfold hold_on at 2 3. simpl.
  rewrite Hr, (bool_decide_eq_false_2 (state = _)), andb_false_r by done. simpl.
  destruct (decide _).
  - rewrite bool_decide_eq_true_2 by done. simpl. lia.
  - rewrite bool_decide_eq_false_2 by done. simpl. lia.
Qed.

Lemma PostTransferLedger_holds r at_ : holds_ok (PostTransferLedger r at_ m).2.
Proof.
  unfold PostTransferLedger. case_match; [done|]. case_match; [done|].
  eapply (holds_unchanged m); [|reflexivity|done]. intros id. simpl.
  fold (fee_legs r at_ (stream m (tr_SourceAccountID r))).
  fold (source_legs r at_ (stream m (tr_SourceAccountID r))).
  rewrite reserved_put. destruct (decide _) as [<-|].
  - by rewrite exact_reserved_plain.
  - apply reserved_put_same, source_legs_reserved.
Qed.

Lemma ApproveAdjustment_holds id adm at_ : holds_ok (ApproveAdjustment id adm at_ m).2.
Proof.
  unfold ApproveAdjustment, appendDebit, appendCredit.
  destruct (ms_adjustments m !! id) as [r|]; [|done].
  do 2 (case_match; [done|]).
  destruct (bool_decide (adj_OriginalTransferID r = "")); simpl;
    [destruct (bool_decide (adj_Direction r = "credit"))|]; simpl.
  - eapply (holds_unchanged m); [|reflexivity|done]. intros i. by apply reserved_appended.
  - destruct (_ <? _); [done|]. eapply (holds_unchanged m); [|reflexivity|done]. intros i. by apply reserved_appended.
  - destruct (_ <? _); [done|]. eapply (holds_unchanged m); [|reflexivity|done]. intros i.
    etrans; [by apply (reserved_appended (put_stream _ _ m))|]. by apply reserved_appended.
Qed.

Lemma call_holds {X} (op : storeE X) :
  call_typed op → call_fresh X op m → holds_ok (store_call G op m).2.
Proof.
  intros Ht Hf. destruct op; simpl in Ht, Hf; store_cbv; try done.
  - unfold Append. case_match; [|done]. eapply (holds_unchanged m); [|reflexivity|done]. intros i.
    apply reserved_appended, Ht.
  - unfold WithdrawAvailable. repeat case_match; try done.
    eapply (holds_unchanged m); [|reflexivity|done]. intros i. by apply reserved_appended.
  - unfold CreateTransfer. by repeat case_match.
  - unfold UpdateTransferSaga. by repeat case_match.
  - apply ReserveTransferFunds_holds.
  - unfold RecordComplianceDecision. by repeat case_match.
  - apply PostTransferLedger_holds.
  - by apply finishReservation_holds.
  - by apply finishReservation_holds.
  - unfold CreateCustomerApplication. by repeat case_match.
  - unfold ApproveApplication. repeat case_match; try done.
    eapply (holds_unchanged m); [|reflexivity|done]. intros i. apply reserved_put_same. by rewrite Hf.
  - unfold RejectApplication. by repeat case_match.
  - unfold CreateAdjustment. by repeat case_match.
  - apply ApproveAdjustment_holds.
  - unfold RejectAdjustment. by repeat case_match.
  - unfold UpsertAdmin. by repeat case_match.
Qed.
End Holds.

Lemma empty_store_holds : holds_ok NewMemoryStore.
Proof. intros id. unfold held, stream. simpl. by rewrite sum_map_empty. Qed.
