(* ===== verification/Uniqueness.v ===== *)
(** * What exists at most once: a transfer per source account and idempotency
    key, a customer per email address and per document, an admin per email
    address, and an open or approved reversal per original movement. *)
From S2P Require Export StoreFacts.

(** ** Definitions *)

(** No two entries of the table are the same in the sense of [same]. *)
Definition unique {V} (same : V → V → Prop) (t : gmap string V) : Prop :=
  ∀ k1 k2 v1 v2, t !! k1 = Some v1 → t !! k2 = Some v2 → same v1 v2 → k1 = k2.

Definition same_key (r1 r2 : TransferRecord) : Prop :=
  tr_SourceAccountID r1 = tr_SourceAccountID r2 ∧ tr_IdempotencyKey r1 = tr_IdempotencyKey r2.
Definition keys_ok (m : MemoryStore) : Prop := unique same_key (ms_transfers m).

Definition same_person (c1 c2 : Customer) : Prop :=
  cus_Email c1 = cus_Email c2 ∨ cus_GovernmentDocument c1 = cus_GovernmentDocument c2.
Definition same_email (a1 a2 : Admin) : Prop := adm_Email a1 = adm_Email a2.
Definition people_ok (m : MemoryStore) : Prop :=
  unique same_person (ms_customers m) ∧ unique same_email (ms_admins m).

(** What a reversal that is not rejected reverses: a transfer, or an event of an
    account. *)
Definition reversal_of (r : AdjustmentRequest) : option (string + string * Z) :=
  if bool_decide (adj_Type r = AdjustmentManual) || bool_decide (adj_Status r = AdjustmentRejected)
  then None
  else if negb (bool_decide (adj_OriginalTransferID r = ""))
  then Some (inl (adj_OriginalTransferID r))
  else match adj_OriginalEventSequence r with
       | Some seq => Some (inr (adj_OriginalAccountID r, seq))
       | None => None
       end.

Definition reversals_ok (m : MemoryStore) : Prop :=
  ∀ k1 k2 r1 r2 o, ms_adjustments m !! k1 = Some r1 → ms_adjustments m !! k2 = Some r2 →
    reversal_of r1 = Some o → reversal_of r2 = Some o → k1 = k2.

(** ** Facts *)

Section Unique.
Context {V : Type} (same : V → V → Prop) `{!Symmetric same} (t : gmap string V).
Hypothesis Hok : unique same t.

(** A new or changed entry that is the same as no other entry. *)
Lemma unique_insert k v :
  (∀ k' v', k' ≠ k → t !! k' = Some v' → ¬ same v' v) → unique same (<[k := v]> t).
Proof.
  intros Hnew k1 k2 v1 v2. rewrite !lookup_insert_Some.
  intros [[<- <-]|[Hne1 H1]] [[<- <-]|[Hne2 H2]] Hs; [done|..|by eapply Hok];
    exfalso; eapply Hnew; eauto.
Qed.

(** An entry that stays the same in the sense of [same]. *)
Lemma unique_update k v v' :
  t !! k = Some v → (∀ w, same w v' → same w v) → unique same (<[k := v']> t).
Proof.
  intros Hk Hv. apply unique_insert. intros k' w Hne Hk' Hs. apply Hne.
  by eapply (Hok k' k w v); auto.
Qed.
End Unique.

#[export] Instance same_key_sym : Symmetric same_key.
Proof. intros r1 r2 []. by split. Qed.
#[export] Instance same_person_sym : Symmetric same_person.
Proof. intros c1 c2 [H|H]; [by left|by right]. Qed.
#[export] Instance same_email_sym : Symmetric same_email.
Proof. intros a1 a2 H. by symmetry. Qed.

Section Keys.
Context (m : MemoryStore).
Hypothesis Hok : keys_ok m.

Lemma CreateTransfer_keys (G : GoRuntime) r : keys_ok (CreateTransfer r m).2.
Proof.
  unfold CreateTransfer, find_by_key. case_match eqn:Hf; [by repeat case_match|].
  rewrite range_find_None in Hf. apply unique_insert; [apply _|done|].
  intros k' r' _ Hk [Hs Hkey]. specialize (Hf k' r' Hk). by rewrite !bool_decide_eq_true_2 in Hf.
Qed.

Lemma UpdateTransferSaga_keys id u at_ : keys_ok (UpdateTransferSaga id u at_ m).2.
Proof.
  unfold UpdateTransferSaga. destruct (ms_transfers m !! id) as [r|] eqn:E; [|done].
  case_match; [done|]. by eapply unique_update; [apply _|done..|].
Qed.
End Keys.

Lemma call_keys {X} (G : GoRuntime) (op : storeE X) m :
  keys_ok m → keys_ok (store_call G op m).2.
Proof.
  intros Hok. assert (∀ m', ms_transfers m' = ms_transfers m → keys_ok m') as Hsame.
  { intros m' Hm. unfold keys_ok. by rewrite Hm. }
  destruct op; store_cbv; try done; try (by apply CreateTransfer_keys);
    try (by apply UpdateTransferSaga_keys); apply Hsame;
    unfold Append, SaveSnapshot, WithdrawAvailable, ReserveTransferFunds,
      RecordComplianceDecision, PostTransferLedger, CaptureTransferReservation,
      ReleaseTransferReservation, finishReservation, CreateCustomerApplication,
      ApproveApplication, RejectApplication, CreateAdjustment, RejectAdjustment, UpsertAdmin;
    try by repeat case_match.
  by destruct (ApproveAdjustment_cases id adminID at_ m) as [[e ->]|(r & s & _ & _ & _ & ->)].
Qed.

Section People.
Context (m : MemoryStore).
Hypothesis Hok : people_ok m.

Lemma CreateCustomerApplication_people (G : GoRuntime) c :
  people_ok (CreateCustomerApplication c m).2.
Proof.
  destruct Hok as [Hc Ha]. unfold CreateCustomerApplication. case_match eqn:Hf; [done|].
  case_match; [done|]. split; [|done]. rewrite range_find_None in Hf.
  apply unique_insert; [apply _|done|]. intros k' c' _ Hk Hs. specialize (Hf k' c' Hk).
  apply orb_false_iff in Hf as [He Hd]. destruct Hs as [Hs|Hs]; [by boolify|].
  by rewrite Hs, !bool_decide_eq_true_2 in Hd.
Qed.

(** A review keeps who the customer is. *)
Lemma reviewed_people id c status acc by_ reason at_ m' :
  ms_customers m !! id = Some c → ms_admins m' = ms_admins m →
  ms_customers m' = <[id := reviewed c status acc by_ reason at_]> (ms_customers m) →
  people_ok m'.
Proof.
  intros Hc Ha Hm. destruct Hok. unfold people_ok. rewrite Ha, Hm. split; [|done].
  by eapply unique_update; [apply _|done..|].
Qed.

Lemma UpsertAdmin_people (G : GoRuntime) a : people_ok (UpsertAdmin a m).2.
Proof.
  destruct Hok as [Hc Ha]. unfold UpsertAdmin.
  destruct (range_find _ _) as [[k a']|] eqn:Hf; (split; [done|]).
  - apply range_find_Some in Hf as [Hk He]. boolify.
    eapply unique_update; [apply _|done..|]. unfold same_email. simpl. congruence.
  - rewrite range_find_None in Hf. apply unique_insert; [apply _|done|].
    intros k' a' _ Hk Hs. specialize (Hf k' a' Hk). by boolify.
Qed.
End People.

Lemma call_people {X} (G : GoRuntime) (op : storeE X) m :
  people_ok m → people_ok (store_call G op m).2.
Proof.
  intros Hok. assert (∀ m', ms_customers m' = ms_customers m → ms_admins m' = ms_admins m →
    people_ok m') as Hsame.
  { intros m' Hc Ha. unfold people_ok. by rewrite Hc, Ha. }
  destruct op; store_cbv; try done; try (by apply CreateCustomerApplication_people);
    try (by apply UpsertAdmin_people).
  all: try (apply Hsame; unfold Append, SaveSnapshot, WithdrawAvailable, CreateTransfer,
      UpdateTransferSaga, ReserveTransferFunds, RecordComplianceDecision, PostTransferLedger,
      CaptureTransferReservation, ReleaseTransferReservation, finishReservation,
      CreateAdjustment, RejectAdjustment; by repeat case_match).
  - unfold ApproveApplication. case_match; [|done]. case_match; [done|].
    by eapply reviewed_people.
  - unfold RejectApplication. case_match; [|done]. case_match; [done|].
    by eapply reviewed_people.
  - by destruct (ApproveAdjustment_cases id adminID at_ m) as [[e ->]|(r & s & _ & _ & _ & ->)];
      [|apply Hsame].
Qed.

Lemma reversal_of_Some r o :
  reversal_of r = Some o →
  adj_Type r ≠ AdjustmentManual ∧ adj_Status r ≠ AdjustmentRejected ∧
  (adj_OriginalTransferID r ≠ "" ∧ o = inl (adj_OriginalTransferID r) ∨
   adj_OriginalTransferID r = "" ∧ ∃ seq, adj_OriginalEventSequence r = Some seq ∧
     o = inr (adj_OriginalAccountID r, seq)).
Proof.
  unfold reversal_of. repeat case_bool_decide; simpl; try done.
  - destruct (adj_OriginalEventSequence r); [|done]. intros [= <-]. eauto 10.
  - intros [= <-]. eauto.
Qed.

(** An adjustment that only changes its status keeps what it reverses, or gives
    it up. *)
Lemma reversal_of_settle r status by_ reason at_ o :
  reversal_of (settle r status by_ reason at_) = Some o → adj_Status r = AdjustmentWaiting →
  reversal_of r = Some o.
Proof.
  unfold reversal_of. simpl. intros Ho Hw. rewrite Hw.
  destruct (bool_decide (adj_Type r = AdjustmentManual)); [done|].
  by destruct (bool_decide (status = AdjustmentRejected)).
Qed.

Section Reversals.
Context (m : MemoryStore).
Hypothesis Hok : reversals_ok m.

Lemma settle_reversals m' id r status by_ reason at_ :
  ms_adjustments m !! id = Some r → adj_Status r = AdjustmentWaiting →
  ms_adjustments m' = <[id := settle r status by_ reason at_]> (ms_adjustments m) →
  reversals_ok m'.
Proof.
  intros E Hw Hm k1 k2 r1 r2 o. rewrite Hm, !lookup_insert_Some.
  intros [[<- <-]|[Hne1 H1]] [[<- <-]|[Hne2 H2]] Ho1 Ho2; [done|..|by eapply Hok].
  - apply reversal_of_settle in Ho1; [|done]. by eapply (Hok id k2 r r2).
  - apply reversal_of_settle in Ho2; [|done]. by eapply (Hok k1 id r1 r).
Qed.

(** A new adjustment whose reversal is claimed by nobody. *)
Lemma insert_reversals m' k r :
  (∀ k' r' o, ms_adjustments m !! k' = Some r' → reversal_of r' = Some o →
     reversal_of r = Some o → False) →
  ms_adjustments m' = <[k := r]> (ms_adjustments m) → reversals_ok m'.
Proof.
  intros Hnew Hm k1 k2 r1 r2 o. rewrite Hm, !lookup_insert_Some.
  intros [[<- <-]|[Hne1 H1]] [[<- <-]|[Hne2 H2]] Ho1 Ho2; [done|..|by eapply Hok];
    exfalso; by eapply Hnew.
Qed.

Lemma CreateAdjustment_reversals (G : GoRuntime) r : reversals_ok (CreateAdjustment r m).2.
Proof.
  unfold CreateAdjustment. case_bool_decide as Ht.
  { case_match; [done|]. eapply insert_reversals; [|reflexivity]. intros k' r' o _ _.
    unfold reversal_of. by rewrite bool_decide_eq_true_2. }
  case_bool_decide as Ho; simpl.
  - destruct (adj_OriginalEventSequence r) as [seq|] eqn:Hseq; [|done].
    case_match; [done|]. destruct (range_find _ _) as [[??]|] eqn:Hf; [done|].
    destruct (_ ≫= _) as [[amount d]|]; [|done]. eapply insert_reversals; [|reflexivity].
    rewrite range_find_None in Hf. intros k' r' o Hk Hr' Hr. specialize (Hf k' r' Hk).
    apply reversal_of_Some in Hr as (_ & _ & [[? _]|(_ & seq' & Hs & ->)]); [done|].
    apply reversal_of_Some in Hr' as (_ & Hrej & [[_ [=]]|(_ & seq'' & Hs' & Heq)]).
    simpl in *. simplify_eq. rewrite Hs' in Hf.
    by rewrite !bool_decide_eq_true_2, bool_decide_eq_false_2 in Hf by congruence.
  - destruct (ms_transfers m !! _) as [t|]; [|done]. case_match; [done|].
    destruct (range_find _ _) as [[??]|] eqn:Hf; [done|].
    eapply insert_reversals; [|reflexivity].
    rewrite range_find_None in Hf. intros k' r' o Hk Hr' Hr. specialize (Hf k' r' Hk).
    apply reversal_of_Some in Hr as (_ & _ & [[_ ->]|[? _]]); [|done].
    apply reversal_of_Some in Hr' as (_ & Hrej & [[_ Heq]|(_ & seq'' & _ & [=])]).
    simpl in *. simplify_eq.
    by rewrite bool_decide_eq_true_2, bool_decide_eq_false_2 in Hf by congruence.
Qed.
End Reversals.

Lemma call_reversals {X} (G : GoRuntime) (op : storeE X) m :
  reversals_ok m → reversals_ok (store_call G op m).2.
Proof.
  intros Hok. assert (∀ m', ms_adjustments m' = ms_adjustments m → reversals_ok m') as Hsame.
  { intros m' Hm. unfold reversals_ok. by rewrite Hm. }
  destruct op; store_cbv; try done; try (by apply CreateAdjustment_reversals).
  all: try (apply Hsame;
    unfold Append, SaveSnapshot, WithdrawAvailable, CreateTransfer, UpdateTransferSaga,
      ReserveTransferFunds, RecordComplianceDecision, PostTransferLedger,
      CaptureTransferReservation, ReleaseTransferReservation, finishReservation,
      CreateCustomerApplication, ApproveApplication, RejectApplication, UpsertAdmin;
    by repeat case_match).
  - destruct (ApproveAdjustment_cases id adminID at_ m) as [(e & ->)|(r & s & E & Hw & _ & ->)]; [done|].
    by eapply settle_reversals.
  - unfold RejectAdjustment. destruct (ms_adjustments m !! id) as [r|] eqn:E; [|done].
    case_match eqn:Hs; [done|]. case_match; [done|]. boolify. by eapply settle_reversals.
Qed.
