(* ===== verification/Postings.v ===== *)
(** * Ledger postings: a transfer moves its money once.

    [postings_ok] is an equation between the streams and the tables: of the
    debits and credits that carry a transfer's identifier, the source's stream
    holds amount plus fee and the destination's the amount when the transfer is
    marked posted, and no stream holds any otherwise. *)
From S2P Require Export SagaFacts.

(** ** Definitions *)

Definition sum_events (f : Event → Z) (events : list Event) : Z :=
  foldr (λ ev acc, f ev + acc) 0 events.

(** What an event debits or credits for the transfer [t]. *)
Definition debited (t : string) (ev : Event) : Z :=
  match ev with
  | EMoneyDebited e => if bool_decide (md_TransferID e = t) then md_Amount e else 0
  | _ => 0
  end.
Definition credited (t : string) (ev : Event) : Z :=
  match ev with
  | EMoneyCredited e => if bool_decide (mc_TransferID e = t) then mc_Amount e else 0
  | _ => 0
  end.

(** What the transfer [t] has moved out of, or into, the account [id]. *)
Definition debit_due (m : MemoryStore) (t id : string) : Z :=
  match ms_transfers m !! t with
  | Some r =>
      if posted m t && bool_decide (tr_SourceAccountID r = id) then tr_Amount r + tr_Fee r else 0
  | None => 0
  end.
Definition credit_due (m : MemoryStore) (t id : string) : Z :=
  match ms_transfers m !! t with
  | Some r =>
      if posted m t && bool_decide (tr_DestinationAccountID r = id) then tr_Amount r else 0
  | None => 0
  end.

Definition postings_ok (m : MemoryStore) : Prop :=
  ∀ t id, t ≠ "" →
    sum_events (debited t) (stream m id) = debit_due m t id ∧
    sum_events (credited t) (stream m id) = credit_due m t id.

(** ** Facts *)

Lemma sum_events_app f l k : sum_events f (l ++ k) = sum_events f l + sum_events f k.
Proof. induction l as [|ev l IH]; simpl; [done|]. rewrite IH. lia. Qed.

Lemma stream_put m id events id' :
  stream (put_stream id events m) id' = if decide (id = id') then events else stream m id'.
Proof.
  unfold stream, put_stream. simpl. destruct (decide _) as [<-|Hne].
  - by rewrite lookup_insert_eq.
  - by rewrite lookup_insert_ne.
Qed.

Lemma stream_streams m m' id : ms_streams m' = ms_streams m → stream m' id = stream m id.
Proof. unfold stream. by intros ->. Qed.

(** The streams after a posting. *)
Lemma PostTransferLedger_streams r at_ m :
  tr_SourceAccountID r ≠ tr_DestinationAccountID r →
  (PostTransferLedger r at_ m).2 = m ∨
  posted m (tr_ID r) = false ∧
  let m' := (PostTransferLedger r at_ m).2 in
  let src := stream m (tr_SourceAccountID r) in
  let dst := stream m (tr_DestinationAccountID r) in
  ms_ledgerPostings m' = <[tr_ID r := true]> (ms_ledgerPostings m) ∧
  ms_transfers m' = ms_transfers m ∧
  ∀ id, stream m' id =
    if decide (tr_SourceAccountID r = id) then source_legs r at_ src
    else if decide (tr_DestinationAccountID r = id) then dst ++ [transfer_credit r at_ dst]
    else stream m id.
Proof.
  intros Hne. unfold PostTransferLedger. fold (posted m (tr_ID r)).
  destruct (posted m (tr_ID r)); [by left|]. case_match; [by left|]. right.
  split_and!; [done..|]. intros id. cbv zeta.
  rewrite (stream_streams (put_stream (tr_DestinationAccountID r) _ _)) by done.
  rewrite !stream_put. by repeat destruct (decide _); try congruence.
Qed.

Lemma source_legs_sum f r at_ src :
  sum_events f (source_legs r at_ src) = sum_events f src +
    (if tr_Fee r >? 0 then f (transfer_debit r at_ (tr_Fee r) "fee" src) else 0) +
    f (transfer_debit r at_ (tr_Amount r) "transfer" (fee_legs r at_ src)).
Proof.
  unfold source_legs. rewrite sum_events_app. unfold fee_legs at 1.
  case_match; rewrite ?sum_events_app; simpl; lia.
Qed.

Lemma seq_of_open l : l ≠ [] → (seq_of l =? 0) = false.
Proof. intros Hl. apply Z.eqb_neq. unfold seq_of. destruct l; [done|simpl; lia]. Qed.

Lemma source_legs_balance r at_ src :
  0 ≤ tr_Fee r →
  exact_balance (source_legs r at_ src) = exact_balance src - tr_Amount r - tr_Fee r.
Proof.
  intros Hf. unfold source_legs. rewrite exact_balance_snoc. unfold fee_legs. simpl.
  destruct (Z.gtb_spec (tr_Fee r) 0); [rewrite exact_balance_snoc; simpl|]; lia.
Qed.

(** The other calls write no legs of transfers. *)
Section Others.
Context (G : GoRuntime) (f : Event → Z).
Hypothesis Hf : ∀ ev, transfer_of ev = "" → f ev = 0.

Lemma sum_appended m m' id ev id' :
  ms_streams m' = <[id := stream m id ++ [ev]]> (ms_streams m) → transfer_of ev = "" →
  sum_events f (stream m' id') = sum_events f (stream m id').
Proof.
  intros Hs Hev. rewrite (stream_streams (put_stream id (stream m id ++ [ev]) m)) by done.
  rewrite stream_put. destruct (decide _) as [<-|]; [|done].
  rewrite sum_events_app. simpl. rewrite Hf by done. lia.
Qed.

Lemma ApproveAdjustment_sum id adm at_ m id' :
  sum_events f (stream (ApproveAdjustment id adm at_ m).2 id') = sum_events f (stream m id').
Proof.
  unfold ApproveAdjustment, appendDebit, appendCredit.
  destruct (ms_adjustments m !! id) as [r|]; [|done].
  do 2 (case_match; [done|]).
  destruct (bool_decide (adj_OriginalTransferID r = "")); simpl;
    [destruct (bool_decide (adj_Direction r = "credit"))|]; simpl;
    try (destruct (_ <? _); [done|]); simpl.
  - by eapply (sum_appended m); [reflexivity|].
  - by eapply (sum_appended m); [reflexivity|].
  - etrans; [by eapply (sum_appended (put_stream _ _ m)); [reflexivity|]|].
    by eapply (sum_appended m); [reflexivity|].
Qed.

Lemma call_sum {X} (op : storeE X) m id' :
  call_typed op → call_fresh X op m →
  match op with cPostTransferLedger _ _ => False | _ => True end →
  sum_events f (stream (store_call G op m).2 id') = sum_events f (stream m id') ∧
  ms_ledgerPostings (store_call G op m).2 = ms_ledgerPostings m.
Proof.
  intros Ht Hfr Hop.
  destruct op; simpl in Ht, Hfr, Hop; store_cbv; try done; try (unfold
      RejectApplication, CreateTransfer, UpdateTransferSaga, RecordComplianceDecision,
      CreateCustomerApplication, CreateAdjustment, RejectAdjustment, UpsertAdmin;
      by repeat case_match).
  - unfold Append. case_match; [|done]. split; [|done].
    eapply (sum_appended m); [reflexivity|apply Ht].
  - unfold WithdrawAvailable. repeat case_match; try done. split; [|done].
    by eapply (sum_appended m); [reflexivity|].
  - unfold ReserveTransferFunds. repeat case_match; try done. split; [|done].
    by eapply (sum_appended m); [reflexivity|].
  - unfold CaptureTransferReservation, finishReservation. repeat case_match; try done.
    split; [|done]. by eapply (sum_appended m); [reflexivity|].
  - unfold ReleaseTransferReservation, finishReservation. repeat case_match; try done.
    split; [|done]. by eapply (sum_appended m); [reflexivity|].
  - unfold ApproveApplication. repeat case_match; try done. split; [|done].
    eapply (sum_appended m); [simpl; unfold stream; by rewrite Hfr|done].
  - split; [apply ApproveAdjustment_sum|].
    by destruct (ApproveAdjustment_cases id adminID at_ m) as [[e ->]|(r & s & _ & _ & _ & ->)].
Qed.
End Others.

Lemma due_unchanged m m' t id :
  evolves m m' → ms_ledgerPostings m' = ms_ledgerPostings m → saga_ok m →
  debit_due m' t id = debit_due m t id ∧ credit_due m' t id = credit_due m t id.
Proof.
  intros He Hp Hok. unfold debit_due, credit_due. assert (posted m' t = posted m t) as ->.
  { unfold posted. by rewrite Hp. }
  destruct (ms_transfers m !! t) as [r|] eqn:E.
  - destruct (ev_transfers _ _ He t r E) as (r' & -> & []). by rewrite ts_Source, ts_Destination, ts_Amount, ts_Fee.
  - destruct (posted m t) eqn:Hpt; [|by case_match].
    destruct (sk_posted _ Hok t Hpt) as (r & Hr & _). congruence.
Qed.

Lemma leg_free t ev : t ≠ "" → transfer_of ev = "" → debited t ev = 0 ∧ credited t ev = 0.
Proof. intros Hne Hev. by destruct ev; simpl in *; rewrite ?Hev, ?bool_decide_eq_false_2. Qed.

(** A posting of a known record. *)
Lemma PostTransferLedger_postings r at_ m :
  known m r → postings_ok m → postings_ok (PostTransferLedger r at_ m).2.
Proof.
  intros (Hr & _ & r0 & Hr0 & []) Hok.
  destruct (PostTransferLedger_streams r at_ m (to_parties _ Hr)) as [->|(Hnp & Hp & Htr & Hs)]; [done|].
  intros t id Hne. rewrite Hs. destruct (Hok t id Hne) as [Hd Hc].
  unfold debit_due, credit_due, posted in *. rewrite Htr, Hp.
  destruct (decide (tr_ID r = t)) as [<-|Hid].
  - rewrite Hr0, Hnp in *. rewrite lookup_insert_eq, ts_Source, ts_Destination, ts_Amount, ts_Fee. simpl in *.
    pose proof (to_parties _ Hr). pose proof (to_fee _ Hr).
    destruct (decide (tr_SourceAccountID r = id)) as [<-|];
      [|destruct (decide (tr_DestinationAccountID r = id)) as [<-|]];
      rewrite ?source_legs_sum, ?sum_events_app, ?Hd, ?Hc; simpl;
      repeat case_bool_decide; try done; try (destruct (Z.gtb_spec (tr_Fee r) 0)); lia.
  - rewrite lookup_insert_ne by done. rewrite <-Hd, <-Hc.
    destruct (decide (tr_SourceAccountID r = id)) as [<-|];
      [|destruct (decide (tr_DestinationAccountID r = id)) as [<-|]; [|done]];
      rewrite ?source_legs_sum, ?sum_events_app; simpl;
      rewrite ?(bool_decide_eq_false_2 (tr_ID r = t)) by done; [destruct (_ >? _)|]; lia.
Qed.

Lemma call_postings {X} (G : GoRuntime) (op : storeE X) m :
  call_typed op → call_fresh X op m → saga_pre op m → evolves m (store_call G op m).2 →
  saga_ok m → postings_ok m → postings_ok (store_call G op m).2.
Proof.
  intros Ht Hfr Hpre He Hsk Hok.
  assert (∀ Hop : match op with cPostTransferLedger _ _ => False | _ => True end,
    postings_ok (store_call G op m).2) as Hother.
  { intros Hop t id Hne.
    destruct (call_sum G (debited t) (λ ev Hev, proj1 (leg_free t ev Hne Hev)) op m id Ht Hfr Hop) as [-> Hp].
    destruct (call_sum G (credited t) (λ ev Hev, proj2 (leg_free t ev Hne Hev)) op m id Ht Hfr Hop) as [-> _].
    destruct (due_unchanged m _ t id He Hp Hsk) as [-> ->]. by apply Hok. }
  destruct op; try by apply Hother. by apply PostTransferLedger_postings; [apply Hpre|].
Qed.
