(* ===== verification/Snapshots.v ===== *)
(** * Snapshots, and the invariant of the bank.

    Every stored snapshot is the replay of a prefix of its stream, so an account
    found through a snapshot is an account replayed in full.  [bank_inv] joins
    this with the invariants of the other files; every call keeps it. *)
From S2P Require Export Services Holds Uniqueness Postings.

(** ** Definitions *)

(** [snap] is what the first [n] events of the stream of [id] give. *)
Definition snapshot_at (m : MemoryStore) (id : string) (n : nat) (snap : AccountSnapshot) : Prop :=
  (n ≤ length (stream m id))%nat ∧
  ∃ at_, snap = snapshot_of (ReplayAccount id (take n (stream m id))) (Z.of_nat n - 1) at_.
Definition snapshots_ok (m : MemoryStore) : Prop :=
  map_Forall (λ id snap, ∃ n, snapshot_at m id n snap) (ms_snapshots m).

(** The invariant of the bank's store. *)
Record bank_inv (m : MemoryStore) : Prop := {
  inv_wf : store_wf m;
  inv_snapshots : snapshots_ok m;
  inv_holds : holds_ok m;
  inv_keys : keys_ok m;
  inv_people : people_ok m;
  inv_reversals : reversals_ok m;
  inv_saga : saga_ok m;
  inv_postings : postings_ok m;
}.

(** [a] is the account [id] as it was at some moment between [m] and [m']. *)
Definition account_between (m m' : MemoryStore) (id : string) (a : Account) : Prop :=
  ∃ n, (length (stream m id) ≤ n ≤ length (stream m' id))%nat ∧
    a = ReplayAccount id (take n (stream m' id)).

(** ** Facts *)

Lemma stream_prefix m m' id : evolves m m' → stream m id `prefix_of` stream m' id.
Proof. intros He. apply stream_delta_prefix, He. Qed.

Lemma stream_length m m' id : evolves m m' → (length (stream m id) ≤ length (stream m' id))%nat.
Proof. intros He. by apply prefix_length, stream_prefix. Qed.

Lemma stream_take m m' id n :
  evolves m m' → (n ≤ length (stream m id))%nat → take n (stream m' id) = take n (stream m id).
Proof.
  intros He Hn. destruct (stream_prefix m m' id He) as [k ->]. by apply take_app_le.
Qed.

Lemma stream_versions m id : store_wf m → versions_ok (stream m id).
Proof.
  intros [->|H]%(stream_wf m id); [by intros i ev|by apply stream_ok_versions in H].
Qed.

Lemma snapshot_at_evolves m m' id n snap :
  evolves m m' → snapshot_at m id n snap → snapshot_at m' id n snap.
Proof.
  intros He [Hn [at_ ->]]. split.
  - pose proof (stream_length m m' id He). lia.
  - exists at_. by rewrite (stream_take m m').
Qed.

Lemma snapshots_evolve m m' :
  evolves m m' → ms_snapshots m' = ms_snapshots m → snapshots_ok m → snapshots_ok m'.
Proof.
  intros He Hs Hok. unfold snapshots_ok. rewrite Hs. eapply map_Forall_impl; [exact Hok|].
  intros id snap [n Hn]. exists n. by eapply snapshot_at_evolves.
Qed.

Lemma call_snapshots {X} (G : GoRuntime) (op : storeE X) m :
  call_typed op → ms_snapshots (store_call G op m).2 = ms_snapshots m.
Proof.
  intros Ht. destruct op; unfold store_call, memory_store, reads; simpl; try done;
    unfold Append, WithdrawAvailable, CreateTransfer, UpdateTransferSaga, ReserveTransferFunds,
      RecordComplianceDecision, PostTransferLedger, CaptureTransferReservation,
      ReleaseTransferReservation, finishReservation, CreateCustomerApplication,
      ApproveApplication, RejectApplication, CreateAdjustment, RejectAdjustment, UpsertAdmin;
    try by repeat case_match.
  by destruct (ApproveAdjustment_cases id adminID at_ m) as [[e ->]|(r & s & _ & _ & _ & ->)].
Qed.

Lemma call_bank_inv {X} (G : GoRuntime) (op : storeE X) m :
  call_typed op → call_fresh X op m → saga_pre op m → bank_inv m →
  bank_inv (store_call G op m).2 ∧ evolves m (store_call G op m).2.
Proof.
  intros Ht Hf Hp Hinv. pose proof (call_evolves G m op Ht Hf Hp (inv_wf _ Hinv)) as He.
  destruct Hinv. split; [split|done].
  - by apply call_wf.
  - eapply snapshots_evolve; [done| |done]. by apply call_snapshots.
  - by apply call_holds.
  - by apply call_keys.
  - by apply call_people.
  - by apply call_reversals.
  - by apply call_saga.
  - by apply call_postings.
Qed.

(** A snapshot may be saved when it is sound or the stored one is newer. *)
Lemma SaveSnapshot_ok m snap :
  (∃ n, snapshot_at m (snap_AggregateID snap) n snap) ∨
  (∃ old, ms_snapshots m !! snap_AggregateID snap = Some old ∧
     snap_AsOfSequence snap ≤ snap_AsOfSequence old) →
  snapshots_ok m → snapshots_ok (SaveSnapshot snap m).2.
Proof.
  intros Hsnap Hs.
  assert (∀ n, snapshot_at m (snap_AggregateID snap) n snap →
    snapshots_ok (set_snapshots (<[snap_AggregateID snap := snap]> (ms_snapshots m)) m)) as Hnew.
  { intros n Hn. unfold snapshots_ok. simpl. apply map_Forall_insert_2; [by exists n|done]. }
  unfold SaveSnapshot. destruct Hsnap as [[n Hn]|(old & -> & Hle)].
  - repeat case_match; simpl; eauto.
  - by rewrite (proj2 (Z.leb_le _ _)).
Qed.

Lemma SaveSnapshot_bank_inv m snap :
  (∃ n, snapshot_at m (snap_AggregateID snap) n snap) ∨
  (∃ old, ms_snapshots m !! snap_AggregateID snap = Some old ∧
     snap_AsOfSequence snap ≤ snap_AsOfSequence old) →
  bank_inv m → bank_inv (SaveSnapshot snap m).2 ∧ evolves m (SaveSnapshot snap m).2.
Proof.
  intros Hsnap []. split; [split|apply SaveSnapshot_evolves].
  - by apply SaveSnapshot_wf.
  - by apply SaveSnapshot_ok.
  - unfold SaveSnapshot. by repeat case_match.
  - by apply (call_keys reference_runtime (cSaveSnapshot snap)).
  - by apply (call_people reference_runtime (cSaveSnapshot snap)).
  - by apply (call_reversals reference_runtime (cSaveSnapshot snap)).
  - by apply SaveSnapshot_saga.
  - unfold SaveSnapshot. by repeat case_match.
Qed.

Lemma empty_store_inv : bank_inv NewMemoryStore.
Proof.
  split; [apply empty_store_wf|by apply map_Forall_empty|apply empty_store_holds|done|done|done
    |apply empty_store_saga|]. intros t id _. unfold debit_due, credit_due, stream. simpl.
  by rewrite !lookup_empty.
Qed.

(** The contract of a call: what is owed for it, and what the saga's calls require. *)
Definition call_contract (X : Type) (op : storeE X) (m : MemoryStore) : Prop := owed op ∧ saga_pre op m.

Abbreviation bank_safe := (safe (St := MemoryStore) bank_inv evolves call_fresh call_contract).

Lemma account_between_evolves m m1 m2 id a :
  evolves m1 m2 → account_between m m1 id a → account_between m m2 id a.
Proof.
  intros He (n & Hn & ->). exists n. pose proof (stream_length m1 m2 id He).
  split; [lia|]. by rewrite (stream_take m1 m2) by (done || lia).
Qed.

(** What the replay of a loaded stream and a later snapshot yields. *)
Definition replayed (m1 m2 : MemoryStore) (id : string) (a : Account) : Prop :=
  ∃ j, (length (stream m1 id) ≤ j ≤ length (stream m2 id))%nat ∧
    a = ReplayAccount id (take j (stream m2 id)) ∧
    (j = length (stream m1 id) ∨
     ∃ old, ms_snapshots m2 !! id = Some old ∧ snap_AsOfSequence old = Z.of_nat j - 1).

Lemma replay_loaded m1 m2 id :
  evolves m1 m2 → bank_inv m2 →
  let snap := ms_snapshots m2 !! id in
  replayed m1 m2 id (ReplayAccountFrom id snap (stream m1 id)).
Proof.
  intros He [Hwf Hs _ _ _ _ _ _]. cbv zeta. pose proof (stream_length m1 m2 id He) as Hl.
  assert (stream m1 id = take (length (stream m1 id)) (stream m2 id)) as Hload.
  { by rewrite (stream_take m1 m2), firstn_all by done. }
  destruct (ms_snapshots m2 !! id) as [snap|] eqn:E.
  - destruct (Hs id snap E) as (k & Hk & at_ & ->).
    exists (k `max` length (stream m1 id))%nat. split_and!; [lia|lia|..].
    + rewrite Hload at 1. by rewrite replay_from_snapshot by (done || by apply stream_versions).
    + destruct (decide (k ≤ length (stream m1 id))%nat); [left; lia|right].
      eexists. split; [exact E|]. simpl. lia.
  - exists (length (stream m1 id)). split_and!; [lia|lia| |by left]. by rewrite <-Hload.
Qed.

(** The snapshot a request saves. *)
Lemma saved_snapshot m1 m2 m3 id a ev :
  evolves m2 m3 → replayed m1 m2 id a → last (stream m1 id) = Some ev →
  store_wf m1 → bank_inv m3 →
  let snap := mkAccountSnapshot id (acc_Balance a) (acc_ReservedBalance a)
                (acc_AvailableBalance a) (Version ev) (OccurredAt ev) in
  bank_inv (SaveSnapshot snap m3).2 ∧ evolves m3 (SaveSnapshot snap m3).2.
Proof.
  intros He (j & Hj & -> & Hjn) Hev Hwf1 Hinv. cbv zeta. apply SaveSnapshot_bank_inv; [|done].
  pose proof (stream_length m2 m3 id He) as Hl. rewrite last_lookup in Hev.
  pose proof (lookup_lt_Some _ _ _ Hev) as Hlt.
  pose proof (stream_versions m1 id Hwf1 _ _ Hev) as Hv. simpl.
  destruct Hjn as [->|(old & Hold & Hseq)].
  - left. exists (length (stream m1 id)). split; [simpl; lia|]. simpl. exists (OccurredAt ev).
    unfold snapshot_of. rewrite ReplayAccount_ID, (stream_take m2 m3), Hv by (done || lia).
    f_equal. lia.
  - right. destruct (ev_snapshots _ _ He id old Hold) as (new & Hnew & Hstep).
    exists new. split; [done|]. rewrite Hv. destruct Hstep as [->|]; lia.
Qed.

(** The second half of [FindByID], from the snapshot on. *)
Definition account_found (m m' : MemoryStore) (id : string) (r : go_result Account) : Prop :=
  match r with
  | Ok a => account_between m m' id a
  | Err e => e = ErrAccountNotFound ∧ stream m id = []
  end.

Lemma maybeSnapshot_safe threshold id a m m1 m2 :
  evolves m m1 → evolves m1 m2 → store_wf m1 → replayed m1 m2 id a →
  bank_safe (λ r m', account_found m m' id r)
    (_ ← Repository.maybeSnapshot threshold id (stream m1 id) a; succeed a) m2.
Proof.
  intros H1 H2 Hwf1 Hr.
  assert (account_between m m2 id a) as Ha.
  { destruct Hr as (j & Hj & -> & _). exists j. pose proof (stream_length m m1 id H1).
    split; [lia|done]. }
  assert (∀ m3, evolves m2 m3 → bank_safe (λ r m', account_found m m' id r) (succeed a) m3) as Hret.
  { intros m3 H3. apply safe_ret. intros m4 H4 _. eapply account_between_evolves; [|done].
    by etrans. }
  unfold Repository.maybeSnapshot. case_match; [by apply Hret|].
  case_match eqn:Hev; [|by apply Hret].
  safe_bind. apply safe_store. intros m3 H3 Hi3 G _.
  destruct (saved_snapshot m1 m2 m3 id a e H3 Hr Hev Hwf1 Hi3) as [Hinv He].
  unfold store_call, memory_store. destruct (SaveSnapshot _ m3) as [x m4].
  simpl in Hinv, He. split_and!; [done..|]. apply safe_ret. intros m5 H5 _. apply Hret.
  by do 2 (etrans; [done|]).
Qed.

Lemma FindByID_safe threshold id m :
  bank_safe (λ r m', account_found m m' id r) (Repository.FindByID threshold id) m.
Proof.
  unfold Repository.FindByID, Repository.snapshot, try_bind.
  apply safe_store. intros m1 H1 Hi1 G _. store_cbv. split_and!; [done..|].
  unfold Load.
  case_match eqn:Hz.
  { intros m2 _ _. split; [done|]. apply Z.eqb_eq in Hz. unfold seq_of in Hz.
    pose proof (stream_length m m1 id H1). apply nil_length_inv. lia. }
  safe_bind. safe_bind. apply safe_store. intros m2 H2 Hi2 G' _.
  store_cbv. split_and!; [done..|].
  pose proof (replay_loaded m1 m2 id H2 Hi2) as Hr. cbv zeta in Hr. unfold LoadSnapshot.
  destruct (ms_snapshots m2 !! id) as [snap|]; apply safe_ret; intros m3 H3 _;
    apply safe_ret; intros m4 H4 _; (eapply safe_evo with (s := m2); [apply _|by (etrans; [exact H3|exact H4])|]);
    (eapply maybeSnapshot_safe; [done|done|apply inv_wf, Hi1|exact Hr]).
Qed.
