(* ===== verification/Requests.v ===== *)
(** * The services keep the obligations of the store. *)
From S2P Require Export Router Snapshots.

(** ** Programs whose calls need nothing of the state *)

Definition stateless {X} (op : storeE X) : Prop :=
  match op with
  | cSaveSnapshot _ | cUpdateTransferSaga _ _ _ | cReserveTransferFunds _ _
  | cPostTransferLedger _ _ => False
  | _ => True
  end.
Definition svc_plain (X : Type) (op : svcE X) : Prop :=
  match op with onStore op => call_typed op ∧ stateless op | onEnv _ => True end.
Abbreviation plain := (calls_only svc_plain).

Lemma plain_safe {A} (p : prog A) m : plain p → bank_safe (λ _ _, True) p m.
Proof.
  apply calls_only_safe. intros X op G s [Ht Hs] Hf Hinv.
  assert (saga_pre op s) by by destruct op. split; [by destruct op|]. by apply call_bank_inv.
Qed.

Lemma seq_of_nonneg events : 0 ≤ seq_of events.
Proof. unfold seq_of. lia. Qed.

Ltac plain_step :=
  match goal with
  | |- True => exact I
  | |- _ ∧ _ => split
  | |- calls_only _ (Ret _) => exact I
  | |- calls_only _ (fail _) => exact I
  | |- calls_only _ (succeed _) => exact I
  | |- calls_only _ (store _) => split; [simpl|intros ?; exact I]
  | |- calls_only _ (env _) => split; [exact I|intros ?; exact I]
  | |- calls_only _ (try_bind _ _) => apply calls_only_try; [|intros ?]
  | |- calls_only _ (_ ≫= _) => apply calls_only_bind; [|intros ?]
  | |- calls_only _ (match ?x with _ => _ end) => destruct x
  end.
Ltac plain_solve := repeat (cbv zeta; plain_step).

Section Plain.
Context (s : TransferService).

Lemma Deposit_plain amount id : int64_ok amount → plain (Deposit amount id).
Proof.
  intros Ha. unfold Deposit. plain_solve; simpl; try done; [apply seq_of_nonneg|].
  constructor; simpl; try done. unfold seq_of. lia.
Qed.

Lemma Withdraw_plain b amount id : int64_ok amount → plain (Withdraw b amount id).
Proof.
  intros Ha. unfold Withdraw. plain_solve; simpl; try done; [apply seq_of_nonneg|].
  constructor; simpl; try done. unfold seq_of. lia.
Qed.

(** The fee policy returns a [Money]. *)
Hypothesis fee_ok : ∀ a, int64_ok (ts_feePolicy s a).

Lemma Transfer_plain command : int64_ok (tc_Amount command) → plain (Transfer s command).
Proof.
  intros Ha. unfold Transfer. case_match eqn:Hg; [done|]. apply orb_false_elim in Hg as [Hmin Hne].
  cbv zeta. plain_step; [done|]. plain_step; [plain_step|]. plain_step; [done|].
  plain_step; [plain_step|]. plain_step; [plain_step|].
  destruct (_ || _) eqn:Hg; [done|]. apply orb_false_elim in Hg as [Hf Hmax].
  plain_step; [plain_step|plain_solve].
  apply Z.ltb_ge in Hmin, Hf, Hmax. boolify. pose proof (fee_ok (tc_Amount command)) as Hfee.
  rewrite int64_wrap_id in Hmax by (unfold int64_ok, MinInt64, MaxInt64 in *; lia).
  split_and!; try done. split; simpl; try done; lia.
Qed.
End Plain.

(** What [Onboard] stores is what it was given: an [int64] deposit. *)
Lemma Onboard_plain `{GoText} `{GoRuntime} command :
  int64_ok (oc_InitialDeposit command) → plain (Onboard command).
Proof.
  intros Hd. unfold Onboard, wrap_error, hashPassword, randomID. plain_step; [plain_step|].
  destruct (validateOnboarding _ _) as [birth|e]; [|exact I]. plain_solve; done.
Qed.

Lemma Login_plain `{GoText} email password : plain (Login email password).
Proof.
  unfold Login, open_session. plain_step; [plain_step; done|].
  destruct (recognised _ _ _); [plain_solve; done|]. plain_step; [plain_step; done|].
  destruct (recognised _ _ _); plain_solve; done.
Qed.
