(* ===== verification/SagaRun.v ===== *)
(** * The saga worker keeps the invariant, whatever runs beside it.

    A worker's copy of a record may be old and its hold may have been released by
    another worker; the calls it makes are still ones the invariant allows. *)
From S2P Require Export Requests.

Abbreviation worker_safe p m := (bank_safe (λ _ _, True) p m).

(** ** Calls *)

(** A call that the invariant allows, then the rest. *)
Lemma bank_call {X A} (Q : A → MemoryStore → Prop) (op : storeE X) (k : X → prog A) m :
  call_typed op → (∀ m1, evolves m m1 → bank_inv m1 → saga_pre op m1) →
  (∀ G m1, evolves m m1 → bank_inv m1 → evolves m1 (store_call G op m1).2 →
     bank_inv (store_call G op m1).2 →
     bank_safe Q (k (store_call G op m1).1) (store_call G op m1).2) →
  bank_safe Q (store op ≫= k) m.
Proof.
  intros Ht Hpre Hk. apply safe_store. intros m1 H1 Hi1 G Hf.
  destruct (call_bank_inv G op m1 Ht Hf (Hpre m1 H1 Hi1) Hi1) as [Hi2 H2].
  specialize (Hk G m1 H1 Hi1 H2 Hi2). split; [split; [by apply typed_owed|by apply Hpre]|].
  by destruct (store_call G op m1).
Qed.

Lemma bank_now {A} (Q : A → MemoryStore → Prop) (k : Time → prog A) m :
  (∀ now, bank_safe Q (k now) m) → bank_safe Q (env TimeNow ≫= k) m.
Proof. apply safe_env. apply _. Qed.

(** The result does not matter. *)
Lemma bank_call_any {X A} (op : storeE X) (k : X → prog A) m :
  call_typed op → (∀ m1, evolves m m1 → bank_inv m1 → saga_pre op m1) →
  (∀ x m2, evolves m m2 → bank_inv m2 → worker_safe (k x) m2) →
  worker_safe (store op ≫= k) m.
Proof.
  intros Ht Hpre Hk. apply bank_call; [done..|]. intros G m1 H1 Hi1 H2 Hi2. apply Hk; [by etrans|done].
Qed.

(** ** Updates *)

Lemma record_ok_step m id r r' :
  record_ok m id r → tr_CurrentStep r' = tr_CurrentStep r →
  (tr_Status r' = TransferPending ∨
   tr_Status r' = TransferFailed ∧ ¬ at_least 2 (tr_CurrentStep r)) →
  record_ok m id r'.
Proof.
  intros [] Hs Hst. destruct Hst as [Hst|[Hst Hne]]; split; rewrite ?Hs, ?Hst; auto; done.
Qed.

Lemma same_step_ok m r u at_ :
  known m r → su_ExpectedStep u = tr_CurrentStep r → su_CurrentStep u = tr_CurrentStep r →
  (su_Status u = TransferPending ∨ su_Status u = TransferFailed ∧ ¬ at_least 2 (tr_CurrentStep r)) →
  update_ok m (tr_ID r) u at_.
Proof.
  intros (_ & Hrec & _) He Hc Hst r0 _ _ Hstep. split.
  - by eapply record_ok_step.
  - intros n. by rewrite Hstep, He, Hc.
Qed.

Lemma advance_safe r u m :
  (∀ m1 at_, evolves m m1 → bank_inv m1 → update_ok m1 (tr_ID r) u at_) →
  worker_safe (advance r u) m.
Proof.
  intros Hu. unfold advance, try_bind. apply bank_now. intros now.
  apply bank_call_any; [done|intros; by apply Hu|]. intros x m2 _ _. by destruct x.
Qed.

Lemma advance_same r u m :
  known m r → su_ExpectedStep u = tr_CurrentStep r → su_CurrentStep u = tr_CurrentStep r →
  (su_Status u = TransferPending ∨ su_Status u = TransferFailed ∧ ¬ at_least 2 (tr_CurrentStep r)) →
  worker_safe (advance r u) m.
Proof.
  intros Hk He Hc Hst. apply advance_safe. intros m1 at_ H1 _.
  apply same_step_ok; [by eapply known_evolves|done..].
Qed.

(** The release in front of an update, when there is one. *)
Lemma release_first (b : bool) r m (k : prog (go_result unit)) :
  (∀ m2, evolves m m2 → bank_inv m2 → worker_safe k m2) →
  worker_safe (_ ← (if b then now ← env TimeNow; store (cReleaseTransferReservation r now)
                    else succeed tt); k) m.
Proof.
  intros Hk. safe_bind. destruct b.
  - apply bank_now. intros now. apply safe_store. intros m1 H1 Hi1 G Hf.
    destruct (call_bank_inv G (cReleaseTransferReservation r now) m1 I Hf I Hi1) as [Hi2 H2].
    split; [done|]. destruct (store_call _ _ _) as [x m2]. simpl in *. split_and!; [done..|].
    apply safe_ret. intros m3 H3 Hi3. apply Hk; [|done]. by do 2 (etrans; [done|]).
  - apply safe_ret. intros m1 H1 Hi1. by apply Hk.
Qed.

Lemma retry_safe r e after m :
  known m r → (after = false → ¬ at_least 2 (tr_CurrentStep r)) → worker_safe (retry r e after) m.
Proof.
  intros Hk Hafter. unfold retry. cbv zeta. destruct (negb after && _) eqn:Hg.
  - boolify. apply release_first. intros m2 H2 _. apply bank_now. intros now.
    apply advance_same; [by eapply known_evolves|done..|]. right. split; [done|]. by apply Hafter.
  - apply bank_now. intros now. apply advance_same; [done..|]. by left.
Qed.

Lemma handleStepError_safe r e reserved m :
  known m r → ¬ at_least 2 (tr_CurrentStep r) → worker_safe (handleStepError r e reserved) m.
Proof.
  intros Hk Hl. unfold handleStepError. cbv zeta. case_match; [|by apply retry_safe].
  apply release_first. intros m2 H2 _. apply bank_now. intros now.
  apply advance_same; [by eapply known_evolves|done..|]. by right.
Qed.

(** An update to the next step, whose own fact has just been established. *)
Lemma next_step_ok m r u at_ :
  su_ExpectedStep u = tr_CurrentStep r → su_Status u = TransferPending →
  at_least 0 (su_CurrentStep u) →
  (∀ n, at_least n (tr_CurrentStep r) → at_least n (su_CurrentStep u)) →
  (at_least 1 (su_CurrentStep u) → is_Some (ms_reservations m !! tr_ID r)) →
  (at_least 2 (su_CurrentStep u) → ms_complianceDecisions m !! tr_ID r = Some "approved") →
  (at_least 3 (su_CurrentStep u) → posted m (tr_ID r) = true) →
  (at_least 4 (su_CurrentStep u) →
     ∃ h, ms_reservations m !! tr_ID r = Some h ∧ res_State h = "captured") →
  update_ok m (tr_ID r) u at_.
Proof.
  intros He Hst H0 Hmono Hh Hd Hp Hc r0 _ _ Hstep. split.
  - split; simpl; rewrite ?Hst; auto; done.
  - intros n. rewrite Hstep, He. apply Hmono.
Qed.

Lemma completed_ok m r u at_ :
  known m r → tr_CurrentStep r = SagaReservationCaptured →
  su_ExpectedStep u = tr_CurrentStep r → su_CurrentStep u = tr_CurrentStep r →
  su_Status u = TransferCompleted → update_ok m (tr_ID r) u at_.
Proof.
  intros (_ & [] & _) Hr He Hc Hst r0 _ _ Hstep. split.
  - split; simpl; rewrite ?Hst, ?Hc; auto; try done. intros _. rewrite Hr. unfold at_least. simpl. lia.
  - intros n. by rewrite Hstep, He, Hc.
Qed.

(** ** What the calls of a step establish *)

Lemma ReserveTransferFunds_hold r at_ m b m' :
  ReserveTransferFunds r at_ m = (Ok b, m') → is_Some (ms_reservations m' !! tr_ID r).
Proof.
  unfold ReserveTransferFunds. destruct (ms_reservations m !! tr_ID r) as [h|] eqn:E.
  - intros [= <- <-]. by rewrite E.
  - repeat case_match; try done. intros [= <- <-]. simpl. by rewrite lookup_insert_eq.
Qed.

Lemma RecordComplianceDecision_recorded id d at_ m x m' :
  RecordComplianceDecision id d at_ m = (Ok x, m') → ms_complianceDecisions m' !! id = Some d.
Proof.
  unfold RecordComplianceDecision. repeat case_match; try done; intros [= _ <-]; simpl;
    by rewrite lookup_insert_eq.
Qed.

Lemma PostTransferLedger_posted r at_ m b m' :
  PostTransferLedger r at_ m = (Ok b, m') → posted m' (tr_ID r) = true.
Proof.
  unfold PostTransferLedger, posted. case_match eqn:Hp; [by intros [= _ <-]|].
  case_match; [done|]. intros [= _ <-]. simpl. by rewrite lookup_insert_eq.
Qed.

(** The accounts of a hold are open, so the posting cannot fail. *)
Lemma PostTransferLedger_Ok r at_ m :
  known m r → at_least 1 (tr_CurrentStep r) → saga_ok m →
  ∃ b, (PostTransferLedger r at_ m).1 = Ok b.
Proof.
  intros (_ & Hrec & r0 & Hr0 & Hstep) Hl Hok.
  destruct (rk_hold _ _ _ Hrec Hl) as [h Hh].
  destruct (sk_holds _ Hok _ _ Hh) as (r1 & Hr1 & Hhold). simplify_eq.
  destruct Hhold as [_ _ Hs Hd]. rewrite (ts_Source _ _ Hstep) in Hs.
  rewrite (ts_Destination _ _ Hstep) in Hd.
  unfold PostTransferLedger. case_match; [by eexists|].
  rewrite !seq_of_open by done. by eexists.
Qed.

Lemma CaptureTransferReservation_captured r at_ m x m' h :
  ms_reservations m !! tr_ID r = Some h → CaptureTransferReservation r at_ m = (Ok x, m') →
  ∃ h', ms_reservations m' !! tr_ID r = Some h' ∧ res_State h' = "captured".
Proof.
  intros Hh. unfold CaptureTransferReservation, finishReservation. rewrite Hh.
  case_match eqn:Hs; boolify; [intros [= _ <-]; by exists h|]. case_match; [done|].
  intros [= _ <-]. simpl. rewrite lookup_insert_eq. by eexists.
Qed.

(** ** The steps *)

Section Steps.
Context (s : TransferService) (r : TransferRecord).
Implicit Types (m : MemoryStore) (now : Time).

Lemma known_ok m : known m r → transfer_ok r.
Proof. by intros []. Qed.

(** Decides [at_least] at the concrete steps. *)
Ltac rank := unfold at_least in *; simpl in *; auto; try lia.

Lemma created_safe now m :
  known m r → tr_CurrentStep r = SagaCreated →
  worker_safe (on_error (store (cReserveTransferFunds r now)) (λ e, handleStepError r e false)
    (λ balance, advance r
       (saga_update r SagaFundsReserved TransferPending "" "" "" 0 now balance 0))) m.
Proof.
  intros Hk Hstep. unfold on_error.
  apply bank_call; [by eapply known_ok|intros; by eapply known_evolves|].
  intros G m1 H1 Hi1 H2 Hi2. unfold store_call, memory_store in *.
  destruct (ReserveTransferFunds r now m1) as [[b|e] m2] eqn:E; simpl in *.
  - apply ReserveTransferFunds_hold in E as [h Hh]. apply advance_safe. intros m3 at_ H3 Hi3.
    destruct (hold_evolves m2 m3 _ h H3 Hh) as (h' & Hh' & _).
    apply next_step_ok; simpl; rewrite ?Hstep; [done|done|rank..].
  - apply handleStepError_safe; [|rewrite Hstep; rank]. eapply known_evolves; [|done]. by etrans.
Qed.

Lemma funds_reserved_safe now m :
  known m r → tr_CurrentStep r = SagaFundsReserved →
  worker_safe (on_error (env (CheckTransfer r)) (λ e, handleStepError r e true) (λ approved : bool,
    let decision := if approved then "approved" else "rejected" in
    on_error (store (cRecordComplianceDecision (tr_ID r) decision now))
      (λ e, handleStepError r e true) (λ _,
    if negb approved then
      on_error (store (cReleaseTransferReservation r now)) (λ e, handleStepError r e true) (λ _,
      advance r (saga_update r (tr_CurrentStep r) TransferFailed "compliance_rejected" decision ""
                   0 now 0 0))
    else
      advance r (saga_update r SagaComplianceApproved TransferPending "" decision "" 0 now 0 0)))) m.
Proof.
  intros Hk Hstep.
  assert (¬ at_least 2 (tr_CurrentStep r)) as Hl by (rewrite Hstep; rank).
  unfold on_error. apply safe_env; [apply _|]. intros [approved|e]; [|by apply handleStepError_safe].
  apply bank_call; [done..|]. intros G m1 H1 Hi1 H2 Hi2. unfold store_call, memory_store in *.
  assert (known (RecordComplianceDecision (tr_ID r) (if approved then "approved" else "rejected")
    now m1).2 r) as Hk2 by (eapply known_evolves; [|done]; by etrans).
  destruct (RecordComplianceDecision _ _ _ m1) as [[x|e] m2] eqn:E; simpl in *;
    [|by apply handleStepError_safe].
  apply RecordComplianceDecision_recorded in E. destruct approved; simpl.
  - apply advance_safe. intros m3 at_ H3 Hi3.
    destruct (ev_decisions _ _ H3 _ _ E) as (d & Hd & <-).
    pose proof (known_evolves m2 m3 r H3 Hk2) as (_ & [] & _). rewrite Hstep in rk_hold.
    apply next_step_ok; simpl; rewrite ?Hstep; [done|done|rank..].
  - apply bank_call_any; [done..|]. intros [y|e] m3 H3 _.
    + apply advance_same; [by eapply known_evolves|done..|by right].
    + apply handleStepError_safe; [by eapply known_evolves|done].
Qed.

Lemma compliance_approved_safe now m :
  known m r → tr_CurrentStep r = SagaComplianceApproved →
  worker_safe (on_error (store (cPostTransferLedger r now)) (λ e, handleStepError r e true)
    (λ final, advance r (saga_update r SagaLedgerPosted TransferPending "" "" "" 0 now 0 final))) m.
Proof.
  intros Hk Hstep. unfold on_error.
  apply bank_call; [by eapply known_ok|intros; split; [by eapply known_evolves|rewrite Hstep; rank]|].
  intros G m1 H1 Hi1 H2 Hi2. unfold store_call, memory_store in *.
  pose proof (known_evolves m m1 r H1 Hk) as Hk1.
  destruct (PostTransferLedger_Ok r now m1) as [b Hb]; [done|rewrite Hstep; rank|apply inv_saga, Hi1|].
  destruct (PostTransferLedger r now m1) as [[b'|e] m2] eqn:E; simpl in *; [|done].
  apply PostTransferLedger_posted in E. apply advance_safe. intros m3 at_ H3 Hi3.
  pose proof (posted_evolves _ _ _ H3 E).
  pose proof (known_evolves m1 m3 r ltac:(by etrans) Hk1) as (_ & [] & _).
  rewrite Hstep in rk_hold, rk_decision.
  apply next_step_ok; simpl; rewrite ?Hstep; [done|done|rank..].
Qed.

Lemma ledger_posted_safe now m :
  known m r → tr_CurrentStep r = SagaLedgerPosted →
  worker_safe (on_error (store (cCaptureTransferReservation r now)) (λ e, retry r e true)
    (λ _, advance r (saga_update r SagaReservationCaptured TransferPending "" "" "" 0 now 0 0))) m.
Proof.
  intros Hk Hstep. unfold on_error. apply bank_call; [done..|].
  intros G m1 H1 Hi1 H2 Hi2. unfold store_call, memory_store in *.
  pose proof (known_evolves m m1 r H1 Hk) as Hk1.
  destruct Hk1 as (_ & Hrec & _). destruct (rk_hold _ _ _ Hrec) as [h Hh]; [rewrite Hstep; rank|].
  destruct (CaptureTransferReservation r now m1) as [[x|e] m2] eqn:E; simpl in *.
  - destruct (CaptureTransferReservation_captured r now m1 x m2 h Hh E) as (h' & Hh' & Hc).
    apply advance_safe. intros m3 at_ H3 Hi3.
    destruct (hold_evolves m2 m3 _ h' H3 Hh') as (h3 & Hh3 & Hs3).
    assert (res_State h3 = "captured") as Hc3 by (rewrite <-Hc; apply (hs_final _ _ Hs3); by rewrite Hc).
    pose proof (record_ok_evolves m1 m3 _ r ltac:(by etrans) Hrec) as [].
    rewrite Hstep in rk_hold, rk_decision, rk_posted.
    apply next_step_ok; simpl; rewrite ?Hstep; [done|done|rank..]. by exists h3.
  - apply retry_safe; [|done]. eapply known_evolves; [|done]. by etrans.
Qed.

Lemma captured_safe now m :
  known m r → tr_CurrentStep r = SagaReservationCaptured →
  worker_safe (let? ok := store (cUpdateTransferSaga (tr_ID r)
                 (saga_update r (tr_CurrentStep r) TransferCompleted "" "" "" 0 now 0 0) now) in
    if ok && ts_eventBus s then
      _ ← env (PublishCompleted {|
            tce_Timestamp := now; tce_TransferID := tr_ID r; tce_Amount := tr_Amount r;
            tce_SourceAccountID := tr_SourceAccountID r;
            tce_DestinationAccountID := tr_DestinationAccountID r; tce_Fee := tr_Fee r |});
      succeed tt
    else succeed tt) m.
Proof.
  intros Hk Hstep. unfold try_bind. apply bank_call_any; [done| |].
  - intros m1 H1 _. simpl. apply completed_ok; [by eapply known_evolves|done..].
  - intros [ok|e] m2 _ _; [|done]. case_match; [|done]. by apply safe_env; [apply _|].
Qed.

Lemma Process_safe m : known m r → worker_safe (Process s r) m.
Proof.
  intros Hk. unfold Process. apply bank_now. intros now. cbv zeta.
  repeat case_bool_decide;
    [by apply created_safe|by apply funds_reserved_safe|by apply compliance_approved_safe
    |by apply ledger_posted_safe|by apply captured_safe|done].
Qed.
End Steps.

(** ** The worker *)

Section Worker.
Context (s : TransferService).

Lemma process_items_safe items m : Forall (known m) items → worker_safe (process_items s items) m.
Proof.
  revert m. induction items as [|r items IH]; intros m Hk; [done|]. cbn [process_items].
  apply Forall_cons in Hk as [Hr Hk]. apply safe_env; [apply _|]. intros [e|]; [done|].
  safe_bind. eapply safe_mono; [apply _| |by apply Process_safe].
  intros _ m1 H1 _ _. apply IH. eapply Forall_impl; [exact Hk|]. intros r'. by apply known_evolves.
Qed.

(** The due records are records of the table. *)
Lemma ListDueTransfers_known (G : GoRuntime) now limit m l :
  bank_inv m → ListDueTransfers now limit m = Ok l → Forall (known m) l.
Proof.
  intros Hinv [= <-]. rewrite sort_slice_perm.
  assert (∀ entries out, Forall (known m) out → (∀ kv, kv ∈ entries → known m kv.2) →
    Forall (known m) (collect_due now limit out entries)) as H.
  { induction entries as [|[k r] entries IH]; intros out Hout Hin; simpl; [done|].
    assert (known m r) by (apply (Hin (k, r)); left).
    assert (∀ kv, kv ∈ entries → known m kv.2) by (intros; apply Hin; by right).
    assert (Forall (known m) (out ++ [r])) by (apply Forall_app; auto).
    repeat case_match; auto. }
  apply H; [constructor|]. intros [k r] Hk%elem_of_range_map. simpl.
  destruct (wf_transfer m k r (inv_wf _ Hinv) Hk) as [<- Hok]. split_and!; [done| |by exists r].
  by apply (sk_records _ (inv_saga _ Hinv) (tr_ID r) r).
Qed.

Lemma ProcessDue_safe m : worker_safe (ProcessDue s) m.
Proof.
  unfold ProcessDue, try_bind. apply bank_now. intros now. apply bank_call; [done..|].
  intros G m1 H1 Hi1 H2 Hi2. unfold store_call, memory_store, reads in *. simpl in *.
  apply process_items_safe. by eapply (ListDueTransfers_known G now 100).
Qed.

Lemma Run_safe rounds m : worker_safe (Run s rounds) m.
Proof.
  revert m. induction rounds as [|rounds IH]; intros m; [done|]. cbn [Run].
  apply safe_env; [apply _|]. intros c. destruct c; [done|..];
    (safe_bind; eapply safe_mono; [apply _| |apply ProcessDue_safe]; intros; apply IH).
Qed.
End Worker.
