(* ===== verification/Pools.v ===== *)
(** * Pools of requests: the server at run time.

    A thread is a request of some client or the saga worker; a run of the server
    interleaves the calls of a pool of threads, and a thread that takes no
    further step has crashed.  The obligations of the store's callers are met by
    every service, so any run keeps the invariant and evolves the store. *)
From S2P Require Export SagaRun.

(** ** Requests *)

(** Any program of the services, with [int64] arguments. *)
Inductive request (s : TransferService) : ∀ {A}, prog A → Prop :=
| req_Deposit amount id : int64_ok amount → request s (Deposit amount id)
| req_Withdraw b amount id : int64_ok amount → request s (Withdraw b amount id)
| req_FindByID threshold id : request s (Repository.FindByID threshold id)
| req_ReviewList status : request s (ReviewService.List status)
| req_ReviewGet id : request s (ReviewService.Get id)
| req_ReviewPassport id : request s (ReviewService.Passport id)
| req_ReviewApprove id adm : request s (ReviewService.Approve id adm)
| req_ReviewReject id adm reason : request s (ReviewService.Reject id adm reason)
| req_AdjustmentCreate r adm :
    adjustment_typed r → request s (AdjustmentService.Create r adm)
| req_AdjustmentList status : request s (AdjustmentService.List status)
| req_AdjustmentGet id : request s (AdjustmentService.Get id)
| req_AdjustmentApprove id adm : request s (AdjustmentService.Approve id adm)
| req_AdjustmentReject id adm reason : request s (AdjustmentService.Reject id adm reason)
| req_Transfer command : int64_ok (tc_Amount command) → request s (Transfer s command)
| req_FindTransfer id src : request s (Find id src)
| req_Onboard {T : GoText} {G : GoRuntime} command :
    int64_ok (oc_InitialDeposit command) → request s (Onboard command)
| req_Login {T : GoText} email password : request s (Login email password)
| req_Authenticate token : request s (Authenticate token)
| req_Logout token : request s (Logout token)
| req_Load id : request s (store (cLoad id))
| req_ListAggregates : request s (store cListAggregates)
| req_Run rounds : request s (Run s rounds).

(** What is put together from requests, as the handlers of the router are. *)
Inductive composed (s : TransferService) : ∀ {A}, prog A → Prop :=
| composed_ret {A} (a : A) : composed s (Ret a)
| composed_request {A} (p : prog A) : request s p → composed s p
| composed_bind {A B} (p : prog A) (k : A → prog B) :
    composed s p → (∀ a, composed s (k a)) → composed s (p ≫= k).

(** ** Facts *)

Lemma request_safe s {A} (p : prog A) m :
  (∀ a, int64_ok (ts_feePolicy s a)) → request s p → bank_safe (λ _ _, True) p m.
Proof.
  intros Hfee. destruct 1; try (by apply Run_safe);
    try (apply plain_safe; first
      [by apply Deposit_plain|by apply Withdraw_plain|by apply Transfer_plain
      |by apply Onboard_plain|by apply Login_plain]);
    [by eapply safe_mono; [apply _| |apply FindByID_safe]|..]; apply plain_safe;
    unfold ReviewService.List, ReviewService.Get, ReviewService.Passport, ReviewService.Approve,
      ReviewService.Reject, AdjustmentService.Create, AdjustmentService.List,
      AdjustmentService.Get, AdjustmentService.Approve, AdjustmentService.Reject, randomID,
      Find, Authenticate, Logout; plain_solve; done.
Qed.

Lemma composed_safe s {A} (p : prog A) m :
  (∀ a, int64_ok (ts_feePolicy s a)) → composed s p → bank_safe (λ _ _, True) p m.
Proof.
  intros Hfee Hp. revert m. induction Hp as [A a|A p Hp|A B p k _ IHp _ IHk]; intros m.
  - by apply safe_ret.
  - by eapply request_safe.
  - safe_bind. eapply safe_mono; [apply _| |apply IHp]. intros a s' _ _ _. apply IHk.
Qed.

(** ** Interleavings *)

(** The threads of the server: requests, and the saga worker; [f] is what
    becomes of their results in a pool of requests of several types. *)
Inductive thread (s : TransferService) {A} : prog A → Prop :=
| thread_request p : request s p → thread s p
| thread_map {B} (p : prog B) (f : B → A) : request s p → thread s (x ← p; mret (f x))
| thread_composed p : composed s p → thread s p.

(** The steps of a pool whose drawn identifiers are not in use. *)
Abbreviation fresh_step := (allowed_step (St := MemoryStore) call_fresh).

Lemma thread_safe s {A} (q : prog A) m :
  (∀ a, int64_ok (ts_feePolicy s a)) → thread s q → bank_safe (λ _ _, True) q m.
Proof.
  intros Hfee [p Hp|B p f Hp|p Hp]; [by eapply request_safe| |by eapply composed_safe]. safe_bind.
  eapply safe_mono; [apply _| |by eapply request_safe].
  intros a s' _ _ _. by apply safe_ret.
Qed.

(** What one thread of a pool of requests promises holds of its result, whatever
    the others do. *)
Lemma thread_outcome E s {A} (c c' : World MemoryStore * list (prog A)) i q r
    (Q : A → MemoryStore → Prop) :
  (∀ a, int64_ok (ts_feePolicy s a)) → Forall (thread s) c.2 → bank_inv (w_store c.1) →
  rtc (fresh_step E) c c' → c.2 !! i = Some q → c'.2 !! i = Some (Ret r) →
  bank_safe Q q (w_store c.1) → Q r (w_store c'.1).
Proof.
  intros Hfee Hps Hinv Hrun Hi Hi' Hq.
  destruct (pool_safe_steps bank_inv evolves call_fresh call_contract E
    (λ j, if decide (j = i) then Q else λ _ _, True) c c' Hrun Hinv) as (Hinv' & _ & Hps').
  - intros j p Hj. destruct (decide (j = i)) as [->|_]; [by simplify_eq|].
    eapply thread_safe; [done|]. by eapply Forall_lookup_1.
  - pose proof (pool_safe_result _ _ _ _ _ _ _ i r Hinv' Hps' Hi') as H.
    cbv beta in H. by rewrite decide_True in H by done.
Qed.

(** A loaded stream is what [Append] checks: nothing was appended since. *)
Lemma stream_unchanged m m' id :
  evolves m m' → length (stream m' id) = length (stream m id) → stream m' id = stream m id.
Proof.
  intros He Hl. destruct (stream_delta_prefix _ _ id (ev_streams _ _ He)) as [k Hk].
  unfold stream in *. rewrite Hk in *. rewrite length_app in Hl.
  destruct k; [by rewrite app_nil_r|simpl in Hl; lia].
Qed.

(** The invariant and the evolution of a pool of requests. *)
Lemma pool_run E s {A} (c c' : World MemoryStore * list (prog A)) :
  (∀ a, int64_ok (ts_feePolicy s a)) → Forall (thread s) c.2 → bank_inv (w_store c.1) →
  rtc (fresh_step E) c c' → bank_inv (w_store c'.1) ∧ evolves (w_store c.1) (w_store c'.1).
Proof.
  intros Hfee Hps Hinv Hrun.
  destruct (pool_safe_steps bank_inv evolves call_fresh call_contract E (λ _ _ _, True) c c' Hrun Hinv)
    as (? & ? & _); [|done].
  intros i p Hi. eapply thread_safe; [done|]. by eapply Forall_lookup_1.
Qed.
