(* ===== verification/Serving.v ===== *)
(** * The router's handlers are put together from requests of the services. *)
From S2P Require Export Pools.

(** ** Decoded amounts are [int64]s *)

Lemma ParseMoney_int64 s m : ParseMoney s = Ok m → int64_ok m.
Proof.
  unfold ParseMoney. repeat case_match; try done; intros [= <-]; apply int64_wrap_ok.
Qed.

Lemma dec_money_int64 j x m : dec_money j x = Some m → int64_ok m.
Proof.
  destruct j; simpl; try done; destruct (ParseMoney _) eqn:Hp; try done; intros [= <-];
    by eapply ParseMoney_int64.
Qed.

(** What holds of the values before and of every decoded value holds after. *)
Lemma member_ok {A} (P : A → Prop) names kvs name (d : decoder A) x y :
  (∀ j a b, P a → d j a = Some b → P b) → P x → member names kvs name d x = Some y → P y.
Proof.
  intros Hd. revert x. induction kvs as [|[k j] kvs IH]; intros x Hx; simpl.
  { by intros [= <-]. }
  case_bool_decide; [|by apply IH]. destruct (d j x) as [z|] eqn:Hz; [|done]. simpl. eauto.
Qed.

Lemma member_money names kvs name x y :
  int64_ok x → member names kvs name dec_money x = Some y → int64_ok y.
Proof. apply member_ok. intros j a b _. apply dec_money_int64. Qed.

Lemma int64_ok_0 : int64_ok 0.
Proof. by vm_compute. Qed.

(** Takes a struct decoder apart, field by field. *)
Ltac decoded H :=
  cbv zeta beta in H;
  repeat match type of H with
  | mbind _ ?m = Some _ => let E := fresh "Hdec" in destruct m eqn:E; [cbn [mbind option_bind] in H|done]
  end; injection H as <-.

Lemma dec_struct_inv {T} (P : T → Prop) fields j (x y : T) :
  P x → (∀ kvs, fields kvs x = Some y → P y) → dec_struct fields j x = Some y → P y.
Proof. intros Hx Hf. destruct j; simpl; try done; [by intros [= <-]|apply Hf]. Qed.

Lemma dec_transferRequest_int64 j req :
  dec_transferRequest j (mkTransferRequest 0 "" "") = Some req → int64_ok (treq_Amount req).
Proof.
  apply (dec_struct_inv (λ req, int64_ok (treq_Amount req))); [apply int64_ok_0|].
  intros kvs H. decoded H. by eapply member_money; [apply int64_ok_0|].
Qed.

Lemma dec_amountRequest_int64 j req :
  dec_amountRequest j (mkAmountRequest 0 "") = Some req → int64_ok (areq_Amount req).
Proof.
  apply (dec_struct_inv (λ req, int64_ok (areq_Amount req))); [apply int64_ok_0|].
  intros kvs H. decoded H. by eapply member_money; [apply int64_ok_0|].
Qed.

Lemma dec_onboardingRequest_int64 j c :
  dec_onboardingRequest j zero_command = Some c → int64_ok (oc_InitialDeposit c).
Proof.
  apply (dec_struct_inv (λ c, int64_ok (oc_InitialDeposit c))); [apply int64_ok_0|].
  intros kvs H. decoded H. by eapply member_money; [apply int64_ok_0|].
Qed.

Lemma payload_int64 form c :
  mp_payload form ≫= (λ j, dec_onboardingRequest j zero_command) = Some c →
  int64_ok (oc_InitialDeposit c).
Proof. destruct (mp_payload form); [apply dec_onboardingRequest_int64|done]. Qed.

Lemma dec_adjustment_typed j r :
  dec_adjustment j zero_adjustment = Some r → adjustment_typed r.
Proof.
  apply (dec_struct_inv adjustment_typed); [by split; vm_compute|].
  intros kvs H. decoded H. split; simpl; (eapply member_money; [|done]; apply int64_ok_0).
Qed.

(** ** Handlers *)

Section Handlers.
Context `{GoText} `{GoRuntime} `{Mux} (deps : Dependencies).
Abbreviation s := (dp_TransferService deps).

Lemma composed_or_error {A} (p : prog (go_result A)) k :
  request s p → (∀ a, composed s (k a)) → composed s (or_error p k).
Proof.
  intros Hp Hk. apply composed_bind; [by apply composed_request|].
  intros [a|e]; [done|]. apply composed_ret.
Qed.

Lemma composed_or_status {A} status (p : prog (go_result A)) k :
  composed s p → (∀ a, composed s (k a)) → composed s (or_status status p k).
Proof. intros Hp Hk. apply composed_bind; [done|]. intros [a|e]; [done|]. apply composed_ret. Qed.

Lemma composed_decode {A} (d : decoder A) zero r k :
  (∀ j req, d j zero = Some req → composed s (k req)) → composed s (decodeBody d zero r k).
Proof.
  intros Hk. unfold decodeBody. destruct (rq_Body r) as [j|]; simpl; [|apply composed_ret].
  destruct (d j zero) eqn:Hd; [by eapply Hk|apply composed_ret].
Qed.

Lemma composed_balance repo id events : composed s (balanceAccount repo id events).
Proof.
  destruct repo as [threshold|]; [|apply composed_ret].
  apply composed_bind; [apply composed_request, req_FindByID|].
  intros [a|e]; apply composed_ret.
Qed.

Lemma composed_listAccounts repo : composed s (listAccounts repo).
Proof.
  apply composed_bind; [apply composed_request, req_ListAggregates|]. intros [ids|e]; [|apply composed_ret].
  generalize (@nil accountDTO). induction ids as [|id ids IH]; intros out; [apply composed_ret|].
  apply composed_bind; [apply composed_request, req_Load|]. intros [events|e]; [|apply composed_ret].
  apply composed_bind; [apply composed_balance|]. intros a. apply IH.
Qed.

(** Splits a handler at its calls of services. *)
Ltac composed_step :=
  match goal with
  | |- composed _ (Ret _) => apply composed_ret
  | |- composed _ (reply _) => apply composed_ret
  | |- composed _ (or_error _ _) => apply composed_or_error; [constructor|intros ?]
  | |- composed _ (or_status _ (store (cLoad _)) _) =>
      apply composed_or_status; [apply composed_request, req_Load|intros ?]
  | |- composed _ (or_status _ (listAccounts _) _) =>
      apply composed_or_status; [apply composed_listAccounts|intros ?]
  | |- composed _ (decodeBody _ _ _ _) => apply composed_decode; intros ? ? ?Hreq
  | |- composed _ (balanceAccount _ _ _ ≫= _) => apply composed_bind; [apply composed_balance|intros ?]
  | |- composed _ (_ ≫= _) => apply composed_bind; [apply composed_request; constructor|intros ?]
  | |- composed _ (with_admin _ _) => unfold with_admin
  | |- composed _ (if ?b then _ else _) => destruct b
  | |- composed _ (match ?x with _ => _ end) => destruct x eqn:?
  end.
Ltac composed_solve := repeat (cbv zeta; composed_step).

Lemma handlers_composed : Forall (λ rt, ∀ r, composed s (rt_Handler rt r)) (routes deps).
Proof.
  assert (∀ h : HandlerFunc, (∀ r, composed s (h r)) → ∀ r, composed s (requireAuth h r)) as Hauth.
  { intros h Hh r'. unfold requireAuth. composed_step; [|composed_step].
    apply composed_bind; [apply composed_request, req_Authenticate|]. intros [p|e]; [done|composed_step]. }
  assert (∀ h : HandlerFunc, (∀ r, composed s (h r)) → ∀ r, composed s (protect deps h r)) as Hprotect.
  { intros h Hh r'. unfold protect. destruct (dp_AuthService deps); [by apply Hauth|done]. }
  assert (∀ h : HandlerFunc, (∀ r, composed s (h r)) → ∀ r, composed s (banking deps h r)) as Hbanking.
  { intros h Hh r'. unfold banking. destruct (dp_AuthService deps); [apply Hauth|done].
    intros r''. unfold requireApprovedCustomer. composed_solve; try done. }
  assert (∀ h : HandlerFunc, (∀ r, composed s (h r)) → ∀ r, composed s (admin deps h r)) as Hadmin.
  { intros h Hh r'. unfold admin. destruct (dp_AuthService deps); [apply Hauth|done].
    intros r''. unfold requireAdmin. composed_solve; try done. }
  unfold routes. cbv zeta.
  repeat match goal with
  | |- Forall _ (if ?b then _ else _) => destruct b
  | |- Forall _ (_ ++ _) => apply Forall_app_2
  | |- Forall _ (_ :: _) => apply Forall_cons_2; cbn [rt_Handler]
  | |- Forall _ [] => by apply Forall_nil_2
  end;
  first [apply Hbanking|apply Hadmin|apply Hprotect|idtac]; intros r;
  unfold handleOnboarding, handleLogin, handleLogout, handleMe, handleTransfer,
    handleTransferStatus, handleDeposit, handleWithdraw, handleListAccounts, handleAccountEvents,
    handleAdminAccountEvents, handleApplications, handleApplication, handlePassport, handleApprove,
    handleReject, handleCreateAdjustment, handleListAdjustments, handleGetAdjustment,
    handleApproveAdjustment, handleRejectAdjustment, error_reply; composed_solve;
    simpl; eauto using dec_transferRequest_int64, dec_amountRequest_int64, dec_adjustment_typed,
      payload_int64.
Qed.

(** Whatever the request, serving it is put together from requests of services. *)
Lemma NewRouter_composed r : composed s (NewRouter deps r).
Proof.
  unfold NewRouter, withCORS. cbv zeta. case_bool_decide; [apply composed_ret|].
  apply composed_bind; [|intros ?; apply composed_ret].
  unfold serve_routes. cbv zeta. destruct (mux_match _ _ _) as [[i vars]|]; [|apply composed_ret].
  destruct (routes deps !! i) as [rt|] eqn:Hi; [|apply composed_ret].
  pose proof handlers_composed as Hall. by eapply Forall_lookup_1 in Hall.
Qed.
End Handlers.
