(* ===== verification/Access.v ===== *)
(** * Who may do what: authentication and authorisation of the HTTP server.

    [may_call] lists the store calls each caller may make; the programs the
    router runs make no others, whatever the store answers, and know a caller only
    from the session of the request's cookie.  The consequence for the ledger
    holds for every interleaving with other requests. *)
From S2P Require Export Serving.

(** ** The access policy *)

Definition approved_customer (p : Principal) (id : string) : Prop :=
  pr_Role p = "customer" ∧ pr_KYCStatus p = KYCApproved ∧ pr_AccountID p = id ∧ id ≠ "".
Definition administrator (p : Principal) (adm : string) : Prop :=
  pr_Role p = "admin" ∧ pr_AdminID p = adm.

(** The caller is the approved customer of the account [id]; an administrator;
    the administrator [adm]. *)
Definition owns (who : option Principal) (id : string) : Prop :=
  match who with Some p => approved_customer p id | None => False end.
Definition is_admin (who : option Principal) : Prop :=
  match who with Some p => pr_Role p = "admin" | None => False end.
Definition acts_as (who : option Principal) (adm : string) : Prop :=
  match who with Some p => administrator p adm | None => False end.

(** What a caller may ask of the store; [hash] is that of the session cookie. *)
Definition may_call (hash : option string) (who : option Principal) {X} (op : storeE X) : Prop :=
  match op with
  | cAppend ev _ => owns who (AggregateID ev)
  | cWithdrawAvailable id _ _ => owns who id
  | cCreateTransfer r => owns who (tr_SourceAccountID r)
  | cFindTransfer _ => ∃ id, owns who id
  | cLoad id | cLoadSnapshot id => owns who id ∨ is_admin who
  | cSaveSnapshot snap => owns who (snap_AggregateID snap) ∨ is_admin who
  | cListApplications _ | cGetApplication _ | cGetPassportImage _ | cListAdjustments _
  | cGetAdjustment _ => is_admin who
  | cApproveApplication _ adm _ _ | cRejectApplication _ adm _ _ | cApproveAdjustment _ adm _
  | cRejectAdjustment _ adm _ _ => acts_as who adm
  | cCreateAdjustment r => acts_as who (adj_CreatedBy r)
  | cCreateCustomerApplication c => cus_KYCStatus c = KYCWaiting ∧ cus_AccountID c = ""
  | cFindCustomerByEmail _ | cFindAdminByEmail _ | cCreateSession _ => True
  | cFindSession h _ => hash = Some h
  | cDeleteSession h => hash = Some h ∧ is_Some who
  | cListAggregates | cListDueTransfers _ _ | cUpdateTransferSaga _ _ _
  | cReserveTransferFunds _ _ | cRecordComplianceDecision _ _ _ | cPostTransferLedger _ _
  | cCaptureTransferReservation _ _ | cReleaseTransferReservation _ _ | cUpsertAdmin _ => False
  end.

(** The caller after a call: whom a found session names. *)
Definition learn {X} (op : storeE X) : X → option Principal → option Principal :=
  match op in storeE X return X → option Principal → option Principal with
  | cFindSession _ _ => λ x who, match x with Ok p => Some p | Err _ => who end
  | _ => λ _ who, who
  end.

Fixpoint authorised {A} (hash : option string) (who : option Principal) (p : prog A) : Prop :=
  match p with
  | Ret _ => True
  | Vis op k =>
      match op in svcE X return (X → option Principal → Prop) → Prop with
      | onStore op => λ rest, may_call hash who op ∧ ∀ x, rest x (learn op x who)
      | onEnv op => λ rest, ∀ x, rest x who
      end (λ x who', authorised hash who' (k x))
  end.

(** ** Rules *)

(** Calls of a caller who is known, none of which looks for a session. *)
Definition permitted (hash : option string) (who : option Principal) (X : Type) (op : svcE X) : Prop :=
  match op with
  | onStore op => may_call hash who op ∧ match op with cFindSession _ _ => False | _ => True end
  | onEnv _ => True
  end.

Lemma permitted_authorised {A} hash who (p : prog A) :
  calls_only (permitted hash who) p → authorised hash who p.
Proof.
  induction p as [a|X op k IH]; simpl; [done|]. intros [Hop Hk]. destruct op as [X op|X op].
  - destruct Hop as [Hm Hl]. split; [done|]. intros x. destruct op; try done; by apply IH.
  - intros x. by apply IH.
Qed.

Lemma authorised_bind {A B} hash who (p : prog A) (k : A → prog B) :
  calls_only (permitted hash who) p → (∀ a, authorised hash who (k a)) →
  authorised hash who (p ≫= k).
Proof.
  intros Hp Hk. induction p as [a|X op k' IH]; simpl in *; [auto|]. destruct Hp as [Hop Hp].
  destruct op as [X op|X op]; [|by eauto]. destruct Hop as [Hm Hl]. split; [done|].
  intros x. destruct op; try done; by apply IH.
Qed.

Lemma authorised_last {A B} hash who (p : prog A) (f : A → B) :
  authorised hash who p → authorised hash who (a ← p; Ret (f a)).
Proof.
  revert who. induction p as [a|X op k IH]; intros who; simpl; [done|].
  destruct op as [X op|X op]; [intros [Hm Hk]|intros Hk]; [split; [done|]|]; intros x; by apply IH.
Qed.

(** Splits a handler into its calls. *)
Ltac access_step :=
  match goal with
  | |- calls_only _ (Ret _) => exact I
  | |- calls_only _ (reply _) => exact I
  | |- calls_only _ (error_reply _) => exact I
  | |- calls_only _ (fail _) => exact I
  | |- calls_only _ (succeed _) => exact I
  | |- calls_only _ (store _) => split; [split; [simpl|exact I]|intros ?; exact I]
  | |- calls_only _ (env _) => split; [exact I|intros ?; exact I]
  | |- calls_only _ (try_bind _ _) => apply calls_only_try; [|intros ?]
  | |- calls_only _ (or_error _ _) => unfold or_error
  | |- calls_only _ (or_status _ _ _) => unfold or_status
  | |- calls_only _ (decodeBody _ _ _ _) => unfold decodeBody
  | |- calls_only _ (with_admin _ _) => unfold with_admin
  | |- calls_only _ (_ ≫= _) => apply calls_only_bind; [|intros ?]
  | |- calls_only _ (match ?x with _ => _ end) => destruct x eqn:?
  end.
Ltac access_solve := repeat (cbv zeta; access_step).

(** ** The services *)

Section Services.
Context (hash : option string) (who : option Principal).
Abbreviation allowed := (calls_only (permitted hash who)).

Lemma Deposit_allowed amount id : owns who id → allowed (Deposit amount id).
Proof. intros Ho. unfold Deposit. access_solve; auto. Qed.

Lemma Withdraw_allowed b amount id : owns who id → allowed (Withdraw b amount id).
Proof. intros Ho. unfold Withdraw. access_solve; auto. Qed.

Lemma Transfer_allowed s command : owns who (tc_SourceAccountID command) → allowed (Transfer s command).
Proof. intros Ho. unfold Transfer. access_solve; auto. Qed.

Lemma Find_allowed id source own : owns who own → allowed (Find id source).
Proof. intros Ho. unfold Find. access_solve; eauto. Qed.

Lemma balance_allowed repo id events :
  owns who id ∨ is_admin who → allowed (balanceAccount repo id events).
Proof.
  intros Ho. unfold balanceAccount, Repository.FindByID, Repository.snapshot, Repository.maybeSnapshot.
  access_solve; auto.
Qed.

Lemma Onboard_allowed `{GoText} `{GoRuntime} command : allowed (Onboard command).
Proof.
  unfold Onboard, wrap_error, hashPassword, randomID. cbv zeta. access_step; [access_step|].
  destruct (validateOnboarding _ _); [|exact I]. access_solve; done.
Qed.

Lemma Login_allowed `{GoText} email password : allowed (Login email password).
Proof.
  unfold Login, open_session. cbv zeta. access_step; [access_step; done|].
  destruct (recognised _ _ _); [access_solve; done|]. access_step; [access_step; done|].
  destruct (recognised _ _ _); access_solve; done.
Qed.
End Services.

(** ** The handlers *)

Section Handlers.
Context `{GoText} `{GoRuntime} `{Mux} (deps : Dependencies).

Definition hash_of (r : Request) : option string := tokenHash <$> Cookie sessionCookie r.

(** A handler that makes only permitted calls for the caller in the request's
    context. *)
Definition respects (h : HandlerFunc) (r : Request) : Prop :=
  calls_only (permitted (hash_of r) (rq_Principal r)) (h r).

Lemma requireAuth_authorised h r :
  (∀ p, respects h (with_principal p r)) → authorised (hash_of r) None (requireAuth h r).
Proof.
  intros Hh. unfold requireAuth, hash_of, Authenticate. destruct (Cookie sessionCookie r) as [v|] eqn:Hc;
    [|done]. case_bool_decide; [done|]. simpl. intros now. split; [done|].
  intros [p|e]; simpl; [|done]. apply permitted_authorised. specialize (Hh p).
  unfold respects, hash_of in Hh. simpl in Hh. change (Cookie _ (with_principal p r)) with (Cookie sessionCookie r) in Hh.
  by rewrite Hc in Hh.
Qed.

Lemma requireAdmin_respects h r :
  (∀ p, rq_Principal r = Some p → pr_Role p = "admin" → respects h r) →
  respects (requireAdmin h) r.
Proof.
  intros Hh. unfold respects, requireAdmin, principalFromRequest.
  destruct (rq_Principal r) as [p|] eqn:Hp; [|exact I].
  case_bool_decide as Hr; [|exact I]. simpl. rewrite <-Hp. by apply (Hh p).
Qed.

Lemma requireApprovedCustomer_respects h r :
  (∀ p, rq_Principal r = Some p → approved_customer p (pr_AccountID p) → respects h r) →
  respects (requireApprovedCustomer h) r.
Proof.
  intros Hh. unfold respects, requireApprovedCustomer, principalFromRequest.
  destruct (rq_Principal r) as [p|] eqn:Hp; [|exact I].
  destruct (_ || _ || _) eqn:Hg; [exact I|]. rewrite <-Hp. apply (Hh p eq_refl).
  boolify. by split_and!.
Qed.

(** *** Each handler, once its guard has passed *)

Ltac caller := unfold authorizedAccount, principalFromRequest.

Lemma handleTransfer_respects s r p :
  rq_Principal r = Some p → approved_customer p (pr_AccountID p) → respects (handleTransfer s) r.
Proof.
  intros Hp Ha. unfold respects, handleTransfer, decodeBody, or_error. caller. rewrite Hp.
  access_step; [|exact I]. case_bool_decide as Heq; [|exact I]. simpl negb. cbv iota.
  apply calls_only_bind; [|intros [?|?]; exact I]. apply Transfer_allowed. simpl. by rewrite <-Heq.
Qed.

Lemma handleDeposit_respects r p :
  rq_Principal r = Some p → approved_customer p (pr_AccountID p) → respects handleDeposit r.
Proof.
  intros Hp Ha. unfold respects, handleDeposit, decodeBody, or_error. caller. rewrite Hp.
  access_step; [|exact I]. case_bool_decide as Heq; [|exact I]. simpl negb. cbv iota.
  apply calls_only_bind; [|intros [?|?]; exact I]. apply Deposit_allowed. simpl. by rewrite <-Heq.
Qed.

Lemma handleWithdraw_respects b r p :
  rq_Principal r = Some p → approved_customer p (pr_AccountID p) → respects (handleWithdraw b) r.
Proof.
  intros Hp Ha. unfold respects, handleWithdraw, decodeBody, or_error. caller. rewrite Hp.
  access_step; [|exact I]. case_bool_decide as Heq; [|exact I]. simpl negb. cbv iota.
  apply calls_only_bind; [|intros [?|?]; exact I]. apply Withdraw_allowed. simpl. by rewrite <-Heq.
Qed.

Lemma handleTransferStatus_respects r p :
  rq_Principal r = Some p → approved_customer p (pr_AccountID p) → respects handleTransferStatus r.
Proof.
  intros Hp Ha. unfold respects, handleTransferStatus, or_error. caller. rewrite Hp.
  apply calls_only_bind; [|intros [?|?]; exact I]. by eapply Find_allowed.
Qed.

Lemma handleListAccounts_respects repo r p :
  rq_Principal r = Some p → approved_customer p (pr_AccountID p) → respects (handleListAccounts repo) r.
Proof.
  intros Hp Ha. unfold respects, handleListAccounts, or_status. caller. rewrite Hp.
  assert (owns (Some p) (pr_AccountID p) ∨ is_admin (Some p)) as Ho by by left.
  apply calls_only_bind; [access_step; by left|]. intros [events|e]; [|exact I].
  apply calls_only_bind; [by apply balance_allowed|done].
Qed.

Lemma handleAccountEvents_respects r p :
  rq_Principal r = Some p → approved_customer p (pr_AccountID p) → respects handleAccountEvents r.
Proof.
  intros Hp Ha. unfold respects, handleAccountEvents, or_status. cbv zeta. caller. rewrite Hp.
  case_bool_decide as Heq; [|exact I]. simpl negb. cbv iota. rewrite <-Heq.
  apply calls_only_bind; [access_step; by left|]. by intros [events|e].
Qed.

Lemma handleAdminAccountEvents_respects repo r p :
  rq_Principal r = Some p → pr_Role p = "admin" → respects (handleAdminAccountEvents repo) r.
Proof.
  intros Hp Ha. unfold respects, handleAdminAccountEvents, or_status. cbv zeta. rewrite Hp.
  assert (∀ id, owns (Some p) id ∨ is_admin (Some p)) as Ho by by right.
  case_bool_decide; [exact I|]. apply calls_only_bind; [access_step; by right|]. intros [events|e]; [|exact I].
  case_match; [exact I|]. apply calls_only_bind; [by apply balance_allowed|done].
Qed.

(** The remaining handlers make calls that their guard alone permits. *)
Ltac admin_handler Hp :=
  unfold respects, handleApplications, handleApplication, handlePassport, handleApprove, handleReject,
    handleCreateAdjustment, handleListAdjustments, handleGetAdjustment, handleApproveAdjustment,
    handleRejectAdjustment, ReviewService.List, ReviewService.Get, ReviewService.Passport,
    ReviewService.Approve, ReviewService.Reject, AdjustmentService.Create, AdjustmentService.List,
    AdjustmentService.Get, AdjustmentService.Approve, AdjustmentService.Reject, randomID, with_admin,
    principalFromRequest; rewrite Hp; access_solve; (done || by split).

Lemma admin_respects h r p :
  h ∈ [handleApplications; handleApplication; handlePassport; handleApprove; handleReject;
       handleCreateAdjustment; handleListAdjustments; handleGetAdjustment; handleApproveAdjustment;
       handleRejectAdjustment] →
  rq_Principal r = Some p → pr_Role p = "admin" → respects h r.
Proof.
  intros Hh Hp Ha. revert Hh. rewrite !elem_of_cons. intros Hh.
  destruct_or! Hh; [subst h; admin_handler Hp..|by apply not_elem_of_nil in Hh].
Qed.

Lemma handleLogout_respects secure r p :
  rq_Principal r = Some p → respects (handleLogout true secure) r.
Proof.
  intros Hp. unfold respects, handleLogout, hash_of, Logout. cbv zeta. rewrite Hp.
  destruct (Cookie sessionCookie r) as [v|]; [|exact I]. simpl negb. cbv iota.
  case_bool_decide; [exact I|]. split; [|done]. simpl. split; [|done]. by eexists.
Qed.

(** *** The route table *)

Lemma public_authorised h r :
  rq_Principal r = None → respects h r → authorised (hash_of r) None (h r).
Proof. intros Hp Hr. apply permitted_authorised. unfold respects in Hr. by rewrite Hp in Hr. Qed.

Lemma handleOnboarding_respects r : respects handleOnboarding r.
Proof.
  unfold respects, handleOnboarding.
  repeat (access_step; try exact I); try (by apply Onboard_allowed).
Qed.

Lemma handleLogin_respects secure r : respects (handleLogin true secure) r.
Proof.
  unfold respects, handleLogin. access_step. access_step; [|exact I]. simpl negb. cbv iota.
  apply calls_only_bind; [apply Login_allowed|]. intros [[]|e]; exact I.
Qed.

Lemma routes_authorised :
  dp_AuthService deps = true →
  Forall (λ rt, ∀ r, rq_Principal r = None → authorised (hash_of r) None (rt_Handler rt r)) (routes deps).
Proof.
  intros Hauth.
  assert (∀ h, (∀ r p, rq_Principal r = Some p → approved_customer p (pr_AccountID p) → respects h r) →
    ∀ r, rq_Principal r = None → authorised (hash_of r) None (banking deps h r)) as Hbanking.
  { intros h Hh r _. unfold banking. rewrite Hauth. apply requireAuth_authorised. intros p.
    apply requireApprovedCustomer_respects. intros p' Hp. by apply Hh. }
  assert (∀ h, (∀ r p, rq_Principal r = Some p → pr_Role p = "admin" → respects h r) →
    ∀ r, rq_Principal r = None → authorised (hash_of r) None (admin deps h r)) as Hadmin.
  { intros h Hh r _. unfold admin. rewrite Hauth. apply requireAuth_authorised. intros p.
    apply requireAdmin_respects. intros p' Hp. by apply Hh. }
  assert (∀ h, (∀ r p, rq_Principal r = Some p → respects h r) →
    ∀ r, rq_Principal r = None → authorised (hash_of r) None (protect deps h r)) as Hprotect.
  { intros h Hh r _. unfold protect. rewrite Hauth. apply requireAuth_authorised. intros p. by eapply Hh. }
  assert (∀ h, h ∈ [handleApplications; handleApplication; handlePassport; handleApprove; handleReject;
       handleCreateAdjustment; handleListAdjustments; handleGetAdjustment; handleApproveAdjustment;
       handleRejectAdjustment] →
    ∀ r, rq_Principal r = None → authorised (hash_of r) None (admin deps h r)) as Hadmins.
  { intros h Hh. apply Hadmin. intros r p. by apply admin_respects. }
  unfold routes. cbv zeta. rewrite Hauth.
  repeat match goal with
  | |- Forall _ (if ?b then _ else _) => destruct b
  | |- Forall _ (_ ++ _) => apply Forall_app_2
  | |- Forall _ (_ :: _) => apply Forall_cons_2; cbn [rt_Handler]
  | |- Forall _ [] => by apply Forall_nil_2
  end; try (apply Hadmins; by in_list).
  - intros r Hp. apply public_authorised; [done|]. apply handleOnboarding_respects.
  - intros r Hp. apply public_authorised; [done|]. apply handleLogin_respects.
  - apply Hprotect. intros r p. apply handleLogout_respects.
  - by apply Hprotect.
  - apply Hbanking. intros r p. apply handleTransfer_respects.
  - apply Hbanking. intros r p. apply handleTransferStatus_respects.
  - apply Hbanking. intros r p. apply handleDeposit_respects.
  - apply Hbanking. intros r p. apply handleWithdraw_respects.
  - apply Hbanking. intros r p. apply handleListAccounts_respects.
  - apply Hbanking. intros r p. apply handleAccountEvents_respects.
  - apply Hadmin. intros r p. apply handleAdminAccountEvents_respects.
Qed.

Lemma NewRouter_authorised r :
  dp_AuthService deps = true → rq_Principal r = None →
  authorised (hash_of r) None (NewRouter deps r).
Proof.
  intros Hauth Hp. unfold NewRouter, withCORS. cbv zeta. case_bool_decide; [done|].
  apply authorised_last. unfold serve_routes. cbv zeta.
  destruct (mux_match _ _ _) as [[i vars]|]; [|done]. destruct (routes deps !! i) as [rt|] eqn:Hi; [|done].
  pose proof (routes_authorised Hauth) as Hall. eapply Forall_lookup_1 in Hall; [|done].
  apply (Hall (with_vars vars r)). done.
Qed.
End Handlers.

(** ** Runs *)

(** Whoever the calls of thread [i] are made for was found, at some moment of the
    run, as the holder of the session [hash]. *)
Section Runs.
Context (Allowed : ∀ X, storeE X → MemoryStore → Prop) (E : Env).
Context {A : Type} (hash : option string) (i : nat).
Abbreviation config := (World MemoryStore * list (prog A))%type.
Abbreviation step := (allowed_step (St := MemoryStore) Allowed (A := A) E).

Definition session_holder (p : Principal) (m : MemoryStore) : Prop :=
  ∃ h now, hash = Some h ∧ FindSession h now m = Ok p.

Definition caller_known (c0 : config) (who : option Principal) (c : config) : Prop :=
  ∀ p, who = Some p → ∃ c1, rtc step c0 c1 ∧ rtc step c1 c ∧ session_holder p (w_store c1.1).

Lemma run_authorised c0 c (q : prog A) :
  rtc step c0 c → c0.2 !! i = Some q → authorised hash None q →
  ∃ who q', c.2 !! i = Some q' ∧ authorised hash who q' ∧ caller_known c0 who c.
Proof.
  intros Hrun Hi Hq.
  refine (rtc_ind_r (λ c, ∃ who q', c.2 !! i = Some q' ∧ authorised hash who q' ∧ caller_known c0 who c)
            c0 _ _ c Hrun); [by exists None, q|].
  clear c Hrun. intros c1 c2 Hrun Hstep IH. destruct IH as (who & q' & Hi' & Hq' & Hk).
  assert (∀ who, caller_known c0 who c1 → caller_known c0 who c2) as Hlater.
  { intros who' Hk' p Hp. destruct (Hk' p Hp) as (c' & ? & ? & ?). exists c'. split_and!; [done| |done].
    by eapply rtc_r. }
  pose proof Hstep as Hst. destruct Hstep as [w ps j X op k Hj HA]. simpl in *. destruct (decide (j = i)) as [->|Hne].
  - simplify_eq. rewrite list_lookup_insert_eq by by eapply lookup_lt_Some.
    destruct op as [X op|X op]; simpl in Hq'.
    + destruct Hq' as [Hm Hq']. exists (learn op (call E (onStore op) w).1 who), (k (call E (onStore op) w).1).
      split_and!; [done|by apply Hq'|]. destruct op; simpl; try (by apply Hlater).
      intros p Hp. assert (FindSession tokenHash now (w_store w) = Ok p ∨ who = Some p) as [Hf|Hw].
      { destruct (FindSession tokenHash now (w_store w)); simpl in Hp; [left; congruence|by right]. }
      * exists (w, ps). split_and!; [done|by apply rtc_once|by eexists _, _].
      * exact (Hlater who Hk p Hw).
    + exists who, (k (call E (onEnv op) w).1). split_and!; [done|by apply Hq'|by apply Hlater].
  - exists who, q'. rewrite list_lookup_insert_ne by done. split_and!; [done..|by apply Hlater].
Qed.
End Runs.

(** A call that changes the events of an account is one for its owner, or for an
    administrator. *)
Lemma may_call_stream (G : GoRuntime) hash who {X} (op : storeE X) (m : MemoryStore) id :
  may_call hash who op → stream (store_call G op m).2 id ≠ stream m id →
  owns who id ∨ is_admin who.
Proof.
  assert (∀ who adm, acts_as who adm → is_admin who) as Hact by by intros [p|] adm; [intros []|].
  assert (∀ k evs, stream (put_stream k evs m) id ≠ stream m id → k = id) as Hput.
  { intros k evs Hne. destruct (decide (k = id)); [done|]. destruct Hne. unfold stream, put_stream. simpl.
    by rewrite lookup_insert_ne. }
  intros Hm. destruct op; simpl in Hm; try done; store_cbv; cbn [snd]; try (intros Hne; by eauto).
  - unfold Append. case_match; [|done]. cbn [snd]. intros Hne. left. by rewrite <-(Hput _ _ Hne).
  - unfold SaveSnapshot. by repeat case_match.
  - unfold WithdrawAvailable. repeat case_match; try done. cbn [snd]. intros Hne. left.
    by rewrite <-(Hput _ _ Hne).
  - unfold CreateTransfer. by repeat case_match.
  - unfold CreateCustomerApplication. cbv zeta. by repeat case_match.
Qed.
