(* ===== verification/Statuses.v ===== *)
(** * What the server answers: the status of every reply.

    [may_return] follows a program through every answer its collaborators may
    give; the in-memory store only fails with errors the router has a status for. *)
From S2P Require Export Access.

(** ** Results of a program *)

Section Results.
Context (Good : ∀ X, svcE X → X → Prop).

(** Every result of [p] satisfies [Q] when the answers it gets are [Good]. *)
Fixpoint may_return {A} (Q : A → Prop) (p : prog A) : Prop :=
  match p with
  | Ret a => Q a
  | Vis op k => ∀ x, Good _ op x → may_return Q (k x)
  end.

Lemma may_return_bind {A B} (P : A → Prop) (Q : B → Prop) (p : prog A) (k : A → prog B) :
  may_return P p → (∀ a, P a → may_return Q (k a)) → may_return Q (p ≫= k).
Proof. intros Hp Hk. induction p as [a|X op k' IH]; simpl in *; eauto. Qed.

Lemma may_return_mono {A} (P Q : A → Prop) (p : prog A) :
  (∀ a, P a → Q a) → may_return P p → may_return Q p.
Proof. intros HPQ. induction p as [a|X op k' IH]; simpl in *; eauto. Qed.

(** A thread of a pool returns what its program may return. *)
Lemma run_may_return {St A} `{BankStore St} Allowed (E : Env) (Q : A → Prop) c c' i (p : prog A) a :
  (∀ w X (op : svcE X), Good _ op (call (St := St) E op w).1) →
  rtc (allowed_step (St := St) Allowed E) c c' → c.2 !! i = Some p → may_return Q p →
  c'.2 !! i = Some (Ret a) → Q a.
Proof.
  intros Hgood Hrun. revert p. induction Hrun as [c|c1 c2 c3 Hstep _ IH]; intros p Hi Hp Ha.
  { by simplify_eq. }
  destruct Hstep as [w ps j X op k Hj HA]. simpl in *. destruct (decide (j = i)) as [->|Hne].
  - simplify_eq. apply (IH (k (call E op w).1)); [|apply Hp, Hgood|done].
    apply list_lookup_insert_eq. by eapply lookup_lt_Some.
  - apply (IH p); [by rewrite list_lookup_insert_ne|done..].
Qed.
End Results.

(** ** Errors that have a status *)

Definition has_status (e : error) : Prop := statusForError e ≠ 500.
Definition decent {A} (r : go_result A) : Prop :=
  match r with Ok _ => True | Err e => has_status e end.

#[export] Instance has_status_dec e : Decision (has_status e).
Proof. unfold has_status. apply _. Defined.

(** The answers of the in-memory store, apart from those whose error the caller
    replaces. *)
Definition store_decent {X} (op : storeE X) : X → Prop :=
  match op in storeE X return X → Prop with
  | cLoadSnapshot _ | cFindSession _ _ | cFindCustomerByEmail _ | cFindAdminByEmail _ => λ _, True
  | cLoad _ | cListAggregates => λ r, is_Ok r = true
  | cAppend _ _ | cSaveSnapshot _ | cWithdrawAvailable _ _ _
  | cCreateTransfer _ | cFindTransfer _ | cListDueTransfers _ _ | cUpdateTransferSaga _ _ _
  | cReserveTransferFunds _ _ | cRecordComplianceDecision _ _ _ | cPostTransferLedger _ _
  | cCaptureTransferReservation _ _ | cReleaseTransferReservation _ _
  | cCreateCustomerApplication _ | cListApplications _ | cGetApplication _ | cGetPassportImage _
  | cApproveApplication _ _ _ _ | cRejectApplication _ _ _ _ | cCreateAdjustment _
  | cListAdjustments _ | cGetAdjustment _ | cApproveAdjustment _ _ _ | cRejectAdjustment _ _ _ _
  | cUpsertAdmin _ | cCreateSession _ | cDeleteSession _ => decent
  end.

(** The random source works. *)
Definition good_answer (X : Type) (op : svcE X) : X → Prop :=
  match op in svcE X return X → Prop with
  | onStore op => store_decent op
  | onEnv op => match op in envE X return X → Prop with RandRead _ => λ r, is_Ok r = true | _ => λ _, True end
  end.

Lemma store_answers (G : GoRuntime) {X} (op : storeE X) m : store_decent op (store_call G op m).1.
Proof.
  destruct op; simpl; try done; store_cbv; cbn [fst]; try (unfold decent; exact I).
  all: unfold Append, SaveSnapshot, WithdrawAvailable, CreateTransfer, FindTransfer,
    UpdateTransferSaga, ReserveTransferFunds, RecordComplianceDecision, PostTransferLedger,
    CaptureTransferReservation, ReleaseTransferReservation, finishReservation,
    CreateCustomerApplication, GetApplication, GetPassportImage, ApproveApplication,
    RejectApplication, CreateAdjustment, GetAdjustment, ApproveAdjustment, appendDebit,
    RejectAdjustment, UpsertAdmin;
    cbv zeta; repeat case_match; simplify_eq; simpl; done.
Qed.

Lemma env_answers (E : Env) {X} (op : svcE X) (w : World MemoryStore) :
  (∀ n k, is_Ok (env_rand E n k) = true) → good_answer X op (call E op w).1.
Proof.
  intros Hrand. destruct op as [X op|X op]; simpl.
  - pose proof (store_answers (env_runtime E (w_calls w)) op (w_store w)) as H.
    by destruct (store_call _ op (w_store w)).
  - destruct op; simpl; auto.
Qed.

(** ** The services fail only with such errors *)

Abbreviation returns := (may_return good_answer).

Lemma returns_any {A} (p : prog A) : returns (λ _, True) p.
Proof. induction p; simpl; auto. Qed.

Lemma returns_bind_any {A B} (Q : B → Prop) (p : prog A) (k : A → prog B) :
  (∀ a, returns Q (k a)) → returns Q (p ≫= k).
Proof. intros Hk. eapply may_return_bind; [apply returns_any|auto]. Qed.

Lemma returns_try {A B} (p : prog (go_result A)) (k : A → prog (go_result B)) :
  returns decent p → (∀ a, returns decent (k a)) → returns decent (try_bind p k).
Proof. intros Hp Hk. eapply may_return_bind; [exact Hp|]. intros [a|e]; [auto|done]. Qed.

Lemma returns_rand n : returns decent (env (RandRead n)).
Proof. intros r Hr. by destruct r. Qed.

Ltac returns_step :=
  match goal with
  | |- returns _ (Ret _) => simpl; done
  | |- returns _ (fail _) => simpl; done
  | |- returns _ (succeed _) => simpl; done
  | |- returns _ (env (RandRead _)) => apply returns_rand
  | |- returns _ (store _) => let r := fresh in intros r ?; destruct r; simpl in *; done
  | |- returns _ (try_bind _ _) => apply returns_try; [|intros ?]
  | |- returns _ (env TimeNow ≫= _) => apply returns_bind_any; intros ?
  | |- returns _ (env SendWake ≫= _) => apply returns_bind_any; intros ?
  | |- returns _ (match ?x with _ => _ end) => destruct x eqn:?
  end.
Ltac returns_solve := repeat (cbv zeta; returns_step).

Lemma Deposit_returns amount id : returns decent (Deposit amount id).
Proof. unfold Deposit. returns_solve. Qed.
Lemma Withdraw_returns b amount id : returns decent (Withdraw b amount id).
Proof. unfold Withdraw. returns_solve. Qed.
Lemma Transfer_returns s command : returns decent (Transfer s command).
Proof. unfold Transfer. returns_solve. Qed.
Lemma Find_returns id source : returns decent (Find id source).
Proof. unfold Find. returns_solve. Qed.

Lemma validation_error `{GoText} `{GoRuntime} c now e :
  validateOnboarding c now = Err e → ∃ name message, e = OnboardingValidationError name message.
Proof.
  unfold validateOnboarding, validate_details, validationError.
  assert (∀ items e, check_required items = Err e → ∃ n m, e = OnboardingValidationError n m) as Hreq.
  { intros items. induction items as [|[n v] items IH]; intros e'; simpl; [done|].
    repeat case_match; intros; simplify_eq; eauto. }
  repeat case_match; intros; simplify_eq; eauto.
Qed.

(** What [handleOnboarding] turns into a reply of its own. *)
Definition decent_or_invalid {A} (r : go_result A) : Prop :=
  decent r ∨ ∃ name message, r = Err (OnboardingValidationError name message).

Lemma Onboard_returns `{GoText} `{GoRuntime} command : returns decent_or_invalid (Onboard command).
Proof.
  unfold Onboard. cbv zeta. apply returns_bind_any. intros now.
  destruct (validateOnboarding _ now) as [birth|e] eqn:Hv.
  - eapply may_return_mono; [by left|]. unfold wrap_error, hashPassword, randomID.
    assert (∀ A ctx (p : prog (go_result A)), returns (λ r, is_Ok r = true) p →
      returns decent (r ← p; Ret (match r with Ok a => Ok a | Err e => Err (Errorf ctx e) end))) as Hwrap.
    { intros A ctx p Hp. eapply may_return_bind; [exact Hp|]. by intros [a|e] Hr. }
    assert (∀ A n (f : list ascii → A),
      returns (λ r : go_result A, is_Ok r = true) (let? raw := env (RandRead n) in succeed (f raw))) as Hrand.
    { intros A n f [raw|e] Hr; [done|]. simpl in Hr. done. }
    apply returns_try; [apply Hwrap; apply (Hrand _ 16%nat)|intros hash].
    apply returns_try; [apply Hwrap, Hrand|intros id]. returns_solve.
  - simpl. right. destruct (validation_error _ _ _ Hv) as (name & message & ->). by eexists _, _.
Qed.

Lemma ReviewList_returns status : returns decent (ReviewService.List status).
Proof. unfold ReviewService.List. returns_solve. Qed.
Lemma ReviewGet_returns id : returns decent (ReviewService.Get id).
Proof. unfold ReviewService.Get. returns_solve. Qed.
Lemma ReviewPassport_returns id : returns decent (ReviewService.Passport id).
Proof. unfold ReviewService.Passport. returns_solve. Qed.
Lemma ReviewApprove_returns id adm : returns decent (ReviewService.Approve id adm).
Proof. unfold ReviewService.Approve, randomID. returns_solve. Qed.
Lemma ReviewReject_returns id adm reason : returns decent (ReviewService.Reject id adm reason).
Proof. unfold ReviewService.Reject. returns_solve. Qed.
Lemma AdjustmentCreate_returns r adm : returns decent (AdjustmentService.Create r adm).
Proof. unfold AdjustmentService.Create, randomID. returns_solve. Qed.
Lemma AdjustmentList_returns status : returns decent (AdjustmentService.List status).
Proof. unfold AdjustmentService.List. returns_solve. Qed.
Lemma AdjustmentGet_returns id : returns decent (AdjustmentService.Get id).
Proof. unfold AdjustmentService.Get. returns_solve. Qed.
Lemma AdjustmentApprove_returns id adm : returns decent (AdjustmentService.Approve id adm).
Proof. unfold AdjustmentService.Approve. returns_solve. Qed.
Lemma AdjustmentReject_returns id adm reason : returns decent (AdjustmentService.Reject id adm reason).
Proof. unfold AdjustmentService.Reject. returns_solve. Qed.

Create HintDb returns_db.
#[export] Hint Resolve Deposit_returns Withdraw_returns Transfer_returns Find_returns
  ReviewList_returns ReviewGet_returns ReviewPassport_returns ReviewApprove_returns
  ReviewReject_returns AdjustmentCreate_returns AdjustmentList_returns AdjustmentGet_returns
  AdjustmentApprove_returns AdjustmentReject_returns : returns_db.

(** ** The handlers *)

(** The statuses the server documents. *)
Definition documented_statuses : list Z :=
  [200; 201; 202; 204; 301; 400; 401; 403; 404; 405; 409; 422; 503].
Definition documented (rep : Reply) : Prop :=
  match rep with Replied r => rs_Status r ∈ documented_statuses | Panicked => False end.

Lemma documented_literal r : bool_decide (rs_Status r ∈ documented_statuses) = true → documented (Replied r).
Proof. by intros ?%bool_decide_eq_true_1. Qed.

Lemma error_documented e : has_status e → documented (Replied (writeError (statusForError e) (Error e))).
Proof. intros He. apply documented_literal. destruct e; vm_compute in *; congruence. Qed.

Section Handlers.
Context `{GoText} `{GoRuntime} `{Mux} (deps : Dependencies).

Definition answers (h : HandlerFunc) (r : Request) : Prop := returns documented (h r).

Lemma or_error_documented {A} (p : prog (go_result A)) k :
  returns decent p → (∀ a, returns documented (k a)) → returns documented (or_error p k).
Proof.
  intros Hp Hk. eapply may_return_bind; [exact Hp|]. intros [a|e] Hr; [done|by apply error_documented].
Qed.

Lemma or_status_documented {A} status (p : prog (go_result A)) k :
  returns (λ r, is_Ok r = true) p → (∀ a, returns documented (k a)) →
  returns documented (or_status status p k).
Proof. intros Hp Hk. eapply may_return_bind; [exact Hp|]. by intros [a|e] Hr. Qed.
Lemma decodeBody_documented {A} (d : decoder A) zero r k :
  (∀ req, returns documented (k req)) → returns documented (decodeBody d zero r k).
Proof. intros Hk. unfold decodeBody. destruct (rq_Body r ≫= _); [apply Hk|by apply documented_literal]. Qed.

Lemma balance_documented {Q : Reply → Prop} repo id events k :
  (∀ a, returns Q (k a)) → returns Q (balanceAccount repo id events ≫= k).
Proof. intros Hk. by apply returns_bind_any. Qed.

Lemma listAccounts_returns repo : returns (λ r, is_Ok r = true) (listAccounts repo).
Proof.
  unfold listAccounts, try_bind. eapply (may_return_bind _ (λ r, is_Ok r = true)); [by intros r Hr|].
  intros [ids|e]; [intros _|done]. generalize (@nil accountDTO).
  induction ids as [|id ids IH]; intros out; [done|]. cbn [list_accounts]. unfold try_bind.
  eapply (may_return_bind _ (λ r, is_Ok r = true)); [by intros r Hr|].
  intros [events|e]; [intros _|done]. apply returns_bind_any. intros a. apply IH.
Qed.

Lemma with_admin_documented r p k :
  rq_Principal r = Some p → (∀ adm, returns documented (k adm)) → returns documented (with_admin r k).
Proof. intros Hp Hk. unfold with_admin, principalFromRequest. by rewrite Hp. Qed.

Ltac answers_step Hp :=
  match goal with
  | |- returns _ (reply _) => by apply documented_literal
  | |- returns _ (or_error _ _) => apply or_error_documented; [by auto with returns_db|intros ?]
  | |- returns _ (or_status _ (store _) _) => apply or_status_documented; [by intros ? ?|intros ?]
  | |- returns _ (or_status _ (listAccounts _) _) => apply or_status_documented; [apply listAccounts_returns|intros ?]
  | |- returns _ (decodeBody _ _ _ _) => apply decodeBody_documented; intros ?
  | |- returns _ (balanceAccount _ _ _ ≫= _) => apply balance_documented; intros ?
  | |- returns _ (with_admin _ _) => eapply with_admin_documented; [exact Hp|intros ?]
  | |- returns _ (match ?x with _ => _ end) => destruct x
  end.
Ltac answers_solve Hp := unfold answers; repeat (cbv zeta; answers_step Hp).

Lemma public_answers h r :
  h ∈ [handleOnboarding; handleLogin true (dp_CookieSecure deps)] → answers h r.
Proof.
  rewrite !elem_of_cons. intros [->|[->|Hh%not_elem_of_nil]]; [..|done].
  - unfold answers, handleOnboarding. repeat answers_step I.
    eapply may_return_bind; [apply Onboard_returns|].
    intros [receipt|e] [Hr|(name & message & He)]; try done; [by apply documented_literal| |].
    + destruct e; first [exact (error_documented _ Hr)|by apply documented_literal].
    + injection He as ->. by apply documented_literal.
  - unfold answers, handleLogin. answers_step I. simpl negb. cbv iota. apply returns_bind_any.
    intros [[token principal]|e]; by apply documented_literal.
Qed.

(** A handler behind [requireAuth] finds its principal in the context. *)
Lemma guarded_answers h r p :
  h ∈ [handleMe; handleTransfer (dp_TransferService deps);
       handleTransferStatus; handleDeposit; handleWithdraw (dp_WithdrawService deps);
       handleListAccounts (dp_AccountRepository deps); handleAccountEvents;
       handleAdminAccountEvents (dp_AccountRepository deps); handleApplications; handleApplication;
       handlePassport; handleApprove; handleReject; handleCreateAdjustment; handleListAdjustments;
       handleGetAdjustment; handleApproveAdjustment; handleRejectAdjustment] →
  rq_Principal r = Some p → answers h r.
Proof.
  rewrite !elem_of_cons. intros Hh Hp. destruct_or! Hh; subst; [..|by apply not_elem_of_nil in Hh].
  all: unfold handleMe, handleTransfer, handleTransferStatus, handleDeposit, handleWithdraw, handleListAccounts, handleAccountEvents, handleAdminAccountEvents,
    handleApplications, handleApplication, handlePassport, handleApprove, handleReject,
    handleCreateAdjustment, handleListAdjustments, handleGetAdjustment, handleApproveAdjustment,
    handleRejectAdjustment; answers_solve Hp; try done.
  case_bool_decide; by apply documented_literal.
Qed.

Lemma handleLogout_answers r : answers (handleLogout true (dp_CookieSecure deps)) r.
Proof.
  unfold answers, handleLogout. cbv zeta. answers_step I; [|answers_step I].
  simpl negb. cbv iota. apply returns_bind_any. intros _. answers_step I.
Qed.

(** *** The route table *)

Lemma requireAuth_answers h r :
  (∀ r p, rq_Principal r = Some p → answers h r) → answers (requireAuth h) r.
Proof.
  intros Hh. unfold answers, requireAuth. destruct (Cookie sessionCookie r); [|by apply documented_literal].
  apply returns_bind_any. intros [p|e]; [by eapply Hh|by apply documented_literal].
Qed.

Lemma routes_answer :
  dp_AuthService deps = true → Forall (λ rt, ∀ r, answers (rt_Handler rt) r) (routes deps).
Proof.
  intros Hauth.
  assert (∀ h, (∀ r p, rq_Principal r = Some p → answers h r) →
    (∀ r, answers (protect deps h) r) ∧ (∀ r, answers (banking deps h) r) ∧ (∀ r, answers (admin deps h) r))
    as Hwrap.
  { intros h Hh. unfold protect, banking, admin. rewrite Hauth. split_and!; intros r;
      apply requireAuth_answers; [exact Hh|..]; intros r' p Hp;
      unfold answers, requireApprovedCustomer, requireAdmin, principalFromRequest; cbv zeta; rewrite Hp;
      case_match; first [by eapply Hh|by apply documented_literal]. }
  unfold routes. cbv zeta. rewrite Hauth.
  repeat match goal with
  | |- Forall _ (if ?b then _ else _) => destruct b
  | |- Forall _ (_ ++ _) => apply Forall_app_2
  | |- Forall _ (_ :: _) => apply Forall_cons_2; cbn [rt_Handler]
  | |- Forall _ [] => by apply Forall_nil_2
  end; try (apply Hwrap; intros r p; apply guarded_answers; by in_list).
  - intros r. apply public_answers. by in_list.
  - intros r. apply public_answers. by in_list.
  - apply Hwrap. intros r p _. apply handleLogout_answers.
Qed.

Lemma add_headers_documented header rep : documented rep → documented (add_headers header rep).
Proof. by destruct rep. Qed.

Lemma NewRouter_answers r : dp_AuthService deps = true → answers (NewRouter deps) r.
Proof.
  intros Hauth. unfold answers, NewRouter, withCORS. cbv zeta.
  case_bool_decide; [by apply documented_literal|].
  apply (may_return_bind _ documented); [|intros rep; apply add_headers_documented].
  unfold serve_routes. cbv zeta. destruct (mux_match _ _ _) as [[i vars]|] eqn:Hm.
  - destruct (mux_match_route _ _ _ _ _ Hm) as [template Ht]. apply list_lookup_fmap_Some in Ht as (rt & Hrt & Hi).
    rewrite Hi. pose proof (routes_answer Hauth) as Hall. eapply Forall_lookup_1 in Hall; [|done]. apply Hall.
  - simpl. unfold documented. pose proof (mux_unmatched_status
      ((λ rt, (rt_Method rt, rt_Template rt)) <$> routes deps) (rq_Method r) (rq_Path r)) as Hs.
    revert Hs. unfold documented_statuses. rewrite !elem_of_cons. tauto.
Qed.
End Handlers.
