(* ===== verification/Sample.v ===== *)
(** * A concrete bank, and runs of it: what the witnesses evaluate. *)
From S2P Require Export Pools.

(** ** A store with two open accounts *)

Definition opened (id : string) (amount : Money) : Event :=
  EAccountOpened {| ao_Aggregate := id; ao_Type := "AccountOpened"; ao_Seq := 0;
    ao_Occurred := 0; ao_ID := id; ao_InitialBalance := amount |}.

Definition sample_store : MemoryStore :=
  (Append (opened "acc2" 5000) 0 (Append (opened "acc1" 10000) 0 NewMemoryStore).2).2.

(** The clock ticks once per call; random bytes differ from call to call. *)
Definition sample_env : Env := {|
  env_runtime := λ _, reference_runtime;
  env_now := Z.of_nat;
  env_rand := λ n k, Ok (repeat (Ascii.ascii_of_nat n) k);
  env_check := λ _, approveAll;
  env_ctx := λ _, None;
  env_select := λ _, TickerFired;
|}.

Definition sample_world (m : MemoryStore) : World MemoryStore := mkWorld m 0 [] false.

(** A transfer service with a flat fee. *)
Definition sample_service : TransferService :=
  mkTransferService (CalculateFee (FlatFeePolicy 50))
    (IsServiceAvailable (mkDefaultTimeService true)) true.

(** ** Schedules *)

#[export] Instance call_fresh_dec X (op : storeE X) m : Decision (call_fresh X op m).
Proof. destruct op; simpl; apply _. Defined.

(** Runs a pool: [schedule] names the thread of each call; a call that fails the
    check ends the run. *)
Section Schedules.
Context (check : ∀ X, storeE X → MemoryStore → bool).

Fixpoint run_pool {A} (E : Env) (schedule : list nat) (c : World MemoryStore * list (prog A))
    : option (World MemoryStore * list (prog A)) :=
  match schedule with
  | [] => Some c
  | i :: schedule' =>
      match c.2 !! i with
      | Some (Vis op k) =>
          if match op with onStore op => check _ op (w_store c.1) | onEnv _ => true end
          then let '(x, w) := call E op c.1 in run_pool E schedule' (w, <[i := k x]> c.2)
          else None
      | _ => None
      end
  end.

(** The final state of a schedule that can be run. *)
Definition checked_result {A} (E : Env) (schedule : list nat)
    (c : World MemoryStore * list (prog A)) : World MemoryStore * list (prog A) :=
  default c (run_pool E schedule c).

Context (Allowed : ∀ X, storeE X → MemoryStore → Prop).
Hypothesis check_ok : ∀ X (op : storeE X) m, check X op m = true → Allowed X op m.

Lemma checked_result_steps {A} E schedule (c : World MemoryStore * list (prog A)) :
  rtc (allowed_step Allowed E) c (checked_result E schedule c).
Proof.
  assert (∀ c', run_pool E schedule c = Some c' → rtc (allowed_step Allowed E) c c') as Hrun.
  { revert c. induction schedule as [|i schedule IH]; intros [w ps] c'; simpl; [by intros [= ->]|].
    destruct (ps !! i) as [[a|X op k]|] eqn:Hi; try done.
    case_match eqn:Ha; [|done]. destruct (call E op w) as [x w'] eqn:Ec. intros Hrun.
    eapply rtc_l; [|by apply IH].
    pose proof (allowed_call Allowed E w ps i X op k Hi) as Hstep. rewrite Ec in Hstep.
    apply Hstep. destruct op; [by apply check_ok|done]. }
  unfold checked_result. destruct (run_pool E schedule c) as [c'|]; [by apply Hrun|done].
Qed.
End Schedules.

Definition fresh_check X (op : storeE X) (m : MemoryStore) : bool := bool_decide (call_fresh X op m).
Definition pool_result {A} (E : Env) (schedule : list nat)
    (c : World MemoryStore * list (prog A)) : World MemoryStore * list (prog A) :=
  checked_result fresh_check E schedule c.

Lemma pool_result_steps {A} E schedule (c : World MemoryStore * list (prog A)) :
  rtc (fresh_step E) c (pool_result E schedule c).
Proof. apply checked_result_steps. intros X op m. by apply bool_decide_eq_true_1. Qed.

(** ** The sample is well-formed *)

Lemma append_opened_inv id amount m :
  int64_ok amount → bank_inv m → bank_inv (Append (opened id amount) 0 m).2.
Proof.
  intros Ha Hinv. apply (call_bank_inv reference_runtime (cAppend (opened id amount) 0)); [|done..].
  by split_and!; [|constructor|..].
Qed.

Lemma sample_inv : bank_inv sample_store.
Proof.
  apply append_opened_inv; [|apply append_opened_inv, empty_store_inv];
    split; vm_compute; by intros.
Qed.

Lemma sample_fee a : int64_ok (ts_feePolicy sample_service a).
Proof. split; vm_compute; by intros. Qed.

(** ** A transfer and its worker *)

Definition sample_command : TransferCommand := mkTransferCommand 1000 "acc1" "acc2" "key-1".

(** One client transfers, the worker makes six rounds. *)
Definition transfer_pool : World MemoryStore * list (prog unit) :=
  (sample_world sample_store,
   [(r ← Transfer sample_service sample_command; mret tt); Run sample_service 6]).

Lemma transfer_pool_threads : Forall (thread sample_service) transfer_pool.2.
Proof.
  apply Forall_cons_2; [|apply Forall_singleton, thread_request, req_Run].
  apply (thread_map _ (Transfer sample_service sample_command) (λ _, tt)), req_Transfer.
  split; vm_compute; by intros.
Qed.

Definition settled_pool : World MemoryStore * list (prog unit) :=
  pool_result sample_env (repeat 0%nat 5 ++ repeat 1%nat 43) transfer_pool.
Definition settled_store : MemoryStore := w_store settled_pool.1.
Definition sample_transfer_id : string := "trf_01010101010101010101010101010101".

Lemma settled_steps : rtc (fresh_step sample_env) transfer_pool settled_pool.
Proof. apply pool_result_steps. Qed.

(** Two admins ask for the reversal of the settled transfer at once. *)
Definition sample_reversal (reason : string) : AdjustmentRequest :=
  mkAdjustmentRequest "" "reversal" "" "" "" 0 0 "" sample_transfer_id "" None reason "case-1"
    "" "" "" 0 None.
Definition reversal_pool : World MemoryStore * list (prog (go_result AdjustmentRequest)) :=
  (mkWorld settled_store 100 [] false,
   [AdjustmentService.Create (sample_reversal "sent by mistake") "adm1";
    AdjustmentService.Create (sample_reversal "customer complaint") "adm2"]).
Definition reversed_pool : World MemoryStore * list (prog (go_result AdjustmentRequest)) :=
  pool_result sample_env [0; 0; 1; 1; 0; 1]%nat reversal_pool.
Definition sample_adjustment_id : string := "adj_64646464646464646464646464646464".

Lemma reversal_pool_threads : Forall (thread sample_service) reversal_pool.2.
Proof.
  apply Forall_cons_2; [|apply Forall_singleton]; apply thread_request, req_AdjustmentCreate;
    vm_compute; repeat split; by intros.
Qed.

Lemma settled_inv : bank_inv settled_store.
Proof.
  apply (pool_run sample_env sample_service transfer_pool settled_pool sample_fee
    transfer_pool_threads sample_inv settled_steps).
Qed.

Lemma reversed_inv : bank_inv (w_store reversed_pool.1).
Proof.
  apply (pool_run sample_env sample_service reversal_pool reversed_pool sample_fee
    reversal_pool_threads settled_inv (pool_result_steps _ _ _)).
Qed.

(** The maker of the reversal tries to approve it, then another admin does. *)
Definition approval_pool : World MemoryStore * list (prog (go_result unit)) :=
  (reversed_pool.1, [AdjustmentService.Approve sample_adjustment_id "adm1";
                     AdjustmentService.Approve sample_adjustment_id "adm2"]).
Definition approved_pool : World MemoryStore * list (prog (go_result unit)) :=
  pool_result sample_env [0; 0; 1; 1]%nat approval_pool.

Lemma approval_pool_threads : Forall (thread sample_service) approval_pool.2.
Proof.
  apply Forall_cons_2; [|apply Forall_singleton]; apply thread_request, req_AdjustmentApprove.
Qed.
