(* ===== verification/Publishing.v ===== *)
(** * Integration events: a completed transfer is announced at most once.

    A thread may publish the completion of a transfer only after its own update
    has completed it; the permission to do so is a token that the update hands
    out.  Tokens and published events of a transfer are counted together. *)
From S2P Require Export Sample.

(** ** Tokens *)

(** The transfer a call completes when it answers [Ok true]. *)
Definition completes {X} (op : svcE X) : option string :=
  match op with
  | onStore (cUpdateTransferSaga id u _) =>
      if bool_decide (su_Status u = TransferCompleted) then Some id else None
  | _ => None
  end.
(** The answer was [Ok true]. *)
Definition granted {X} (op : svcE X) : X → bool :=
  match op in svcE X return X → bool with
  | onStore op =>
      match op in storeE X return X → bool with
      | cUpdateTransferSaga _ _ _ => λ x, match x with Ok b => b | Err _ => false end
      | _ => λ _, false
      end
  | onEnv _ => λ _, false
  end.
Definition token_after {X} (tok : option string) (op : svcE X) (x : X) : option string :=
  match completes op with
  | Some id => if granted op x then Some id else tok
  | None => tok
  end.

(** The program publishes only with the token of the transfer, and uses it up. *)
Definition publishes {X} (op : svcE X) : option string :=
  match op with onEnv (PublishCompleted ev) => Some (tce_TransferID ev) | _ => None end.
Fixpoint licensed {A} (tok : option string) (p : prog A) : Prop :=
  match p with
  | Ret _ => True
  | Vis op k =>
      match publishes op with
      | Some id => tok = Some id ∧ ∀ x, licensed None (k x)
      | None => ∀ x, licensed (token_after tok op x) (k x)
      end
  end.

Lemma licensed_bind {A B} tok (p : prog A) (f : A → prog B) :
  licensed tok p → (∀ tok a, licensed tok (f a)) → licensed tok (p ≫= f).
Proof.
  revert tok. induction p as [a|X op k IH]; intros tok; simpl; [auto|].
  destruct (publishes op); [intros [-> Hk]; split|intros Hk]; eauto.
Qed.

Lemma licensed_try {A B} tok (p : prog (go_result A)) (k : A → prog (go_result B)) :
  licensed tok p → (∀ tok a, licensed tok (k a)) → licensed tok (try_bind p k).
Proof. intros Hp Hk. apply licensed_bind; [done|]. by intros tok' [a|e]. Qed.

(** Programs that publish nothing. *)
Definition silent (X : Type) (op : svcE X) : Prop := publishes op = None.
Lemma silent_licensed {A} tok (p : prog A) : calls_only silent p → licensed tok p.
Proof.
  revert tok. induction p as [a|X op k IH]; intros tok; simpl; [done|].
  intros [-> Hk] x. by apply IH.
Qed.

Lemma licensed_on_error {A} tok (p : prog (go_result A)) h k :
  licensed tok p → (∀ tok e, licensed tok (h e)) → (∀ tok a, licensed tok (k a)) →
  licensed tok (on_error p h k).
Proof. intros Hp Hh Hk. apply licensed_bind; [done|]. by intros tok' [a|e]. Qed.

Ltac silent_solve := apply silent_licensed; repeat (cbv zeta; first [done|plain_step]).

Lemma advance_licensed tok r u : licensed tok (advance r u).
Proof. unfold advance. silent_solve. Qed.

Lemma retry_licensed tok r e b : licensed tok (retry r e b).
Proof. unfold retry, advance. silent_solve. Qed.

Lemma handleStepError_licensed tok r e b : licensed tok (handleStepError r e b).
Proof.
  unfold handleStepError. destruct e, b; try apply retry_licensed; unfold advance; silent_solve.
Qed.

Lemma Process_licensed s tok r : licensed tok (Process s r).
Proof.
  unfold Process. apply licensed_bind; [by silent_solve|]. clear tok. intros tok now. cbv zeta.
  repeat case_bool_decide; [..|by silent_solve].
  - apply licensed_on_error; [by silent_solve|intros ??; apply handleStepError_licensed|].
    intros ??. apply advance_licensed.
  - apply licensed_on_error; [by silent_solve|intros ??; apply handleStepError_licensed|].
    intros tok1 approved. apply licensed_on_error; [by silent_solve|intros ??; apply handleStepError_licensed|].
    intros tok2 _. destruct approved; cbn [negb]; [apply advance_licensed|].
    apply licensed_on_error; [by silent_solve|intros ??; apply handleStepError_licensed|].
    intros ??. apply advance_licensed.
  - apply licensed_on_error; [by silent_solve|intros ??; apply handleStepError_licensed|].
    intros ??. apply advance_licensed.
  - apply licensed_on_error; [by silent_solve|intros ??; apply retry_licensed|].
    intros ??. apply advance_licensed.
  - simpl. intros [[]|e]; simpl; [|done|done]. destruct (ts_eventBus s); simpl; [|done].
    split; [done|]. done.
Qed.

Lemma Run_licensed s rounds tok : licensed tok (Run s rounds).
Proof.
  revert tok. induction rounds as [|rounds IH]; intros tok; [done|].
  cbn [Run]. apply licensed_bind; [by silent_solve|]. clear tok. intros tok c.
  assert (∀ items tok, licensed tok (process_items s items)) as Hitems.
  { intros items. induction items as [|r items IHi]; intros tok'; [by silent_solve|].
    cbn [process_items]. apply licensed_bind; [by silent_solve|]. intros tok2 [e|]; [by silent_solve|].
    apply licensed_bind; [apply Process_licensed|]. intros; apply IHi. }
  destruct c; [done| |]; (apply licensed_bind; [|intros; apply IH]); unfold ProcessDue;
    (apply licensed_bind; [by silent_solve|]); intros; (apply licensed_try; [by silent_solve|]);
    intros; apply Hitems.
Qed.

Lemma request_licensed s {A} (p : prog A) tok : request s p → licensed tok p.
Proof.
  destruct 1; try apply Run_licensed;
    unfold Deposit, Withdraw, Transfer, Repository.FindByID, Repository.snapshot,
      Repository.maybeSnapshot, ReviewService.List, ReviewService.Get, ReviewService.Passport,
      ReviewService.Approve, ReviewService.Reject, AdjustmentService.Create,
      AdjustmentService.List, AdjustmentService.Get, AdjustmentService.Approve,
      AdjustmentService.Reject, Find, Onboard, wrap_error, hashPassword, randomID, Login,
      open_session, Authenticate, Logout; silent_solve.
Qed.

Lemma composed_licensed s {A} (p : prog A) tok : composed s p → licensed tok p.
Proof.
  intros Hp. revert tok. induction Hp as [A a|A p Hp|A B p k _ IHp _ IHk]; intros tok.
  - done.
  - by eapply request_licensed.
  - by apply licensed_bind.
Qed.

Lemma thread_licensed s {A} (p : prog A) tok : thread s p → licensed tok p.
Proof.
  destruct 1 as [p Hp|B p f Hp|p Hp]; [by eapply request_licensed| |by eapply composed_licensed].
  apply licensed_bind; [by eapply request_licensed|done].
Qed.

(** ** Counting *)

Definition events_of (t : string) (bus : list TransferCompletedEvent) : nat :=
  length (filter (λ ev, tce_TransferID ev = t) bus).
Definition tokens_of (t : string) (toks : list (option string)) : nat :=
  length (filter (λ tok, tok = Some t) toks).
Definition completed (m : MemoryStore) (t : string) : nat :=
  match ms_transfers m !! t with
  | Some r => if bool_decide (tr_Status r = TransferCompleted) then 1 else 0
  | None => 0
  end.

Definition tokens_ok (w : World MemoryStore) (toks : list (option string)) : Prop :=
  ∀ t, (events_of t (w_bus w) + tokens_of t toks ≤ completed (w_store w) t)%nat.

Lemma tokens_of_insert t toks i old new :
  toks !! i = Some old →
  (tokens_of t (<[i := new]> toks) + (if bool_decide (old = Some t) then 1 else 0) =
   tokens_of t toks + (if bool_decide (new = Some t) then 1 else 0))%nat.
Proof.
  intros Hi. unfold tokens_of. rewrite <-(take_drop_middle toks i old Hi) at 2.
  rewrite insert_take_drop by by eapply lookup_lt_Some.
  rewrite !filter_app, !filter_cons, !length_app. repeat case_bool_decide; repeat case_decide;
    simpl; try done; lia.
Qed.

Lemma completed_evolves m m' t : evolves m m' → (completed m t ≤ completed m' t)%nat.
Proof.
  intros He. unfold completed. destruct (ms_transfers m !! t) as [r|] eqn:Hr; [|lia].
  case_bool_decide as Hs; [|lia]. destruct (ev_transfers _ _ He t r Hr) as (r' & Hr' & Hstep).
  rewrite Hr'. rewrite (ts_final _ _ Hstep) by by rewrite Hs. by rewrite bool_decide_eq_true_2.
Qed.

Lemma update_completes id u at_ m :
  su_Status u = TransferCompleted →
  granted (onStore (cUpdateTransferSaga id u at_)) (UpdateTransferSaga id u at_ m).1 = true →
  completed m id = 0%nat ∧ completed (UpdateTransferSaga id u at_ m).2 id = 1%nat.
Proof.
  intros Hs. unfold UpdateTransferSaga, completed. destruct (ms_transfers m !! id) as [r|]; [|done].
  case_match eqn:Hg; simpl; [done|]. intros _. apply orb_false_iff in Hg as [Hp _].
  apply negb_false_iff, bool_decide_eq_true_1 in Hp. rewrite Hp, lookup_insert_eq. simpl.
  by rewrite Hs.
Qed.

Lemma call_bus (E : Env) {X} (op : svcE X) (w : World MemoryStore) :
  publishes op = None → w_bus (call E op w).2 = w_bus w.
Proof.
  destruct op as [X op|X op]; simpl; [by destruct (store_call _ _ _)|].
  destruct op; simpl; try done. by repeat case_match.
Qed.

Section Step.
Context (E : Env) (w : World MemoryStore) {X : Type} (op : svcE X).
Context (toks : list (option string)) (i : nat) (tok : option string).
Hypothesis Hi : toks !! i = Some tok.
Hypothesis Hok : tokens_ok w toks.
Hypothesis He : evolves (w_store w) (w_store (call E op w).2).

(** Publishing trades the token for the event. *)
Lemma publish_tokens id :
  publishes op = Some id → tok = Some id → tokens_ok (call E op w).2 (<[i := None]> toks).
Proof.
  intros Hp Htok t. pose proof (tokens_of_insert t toks i tok None Hi) as Hc.
  specialize (Hok t). destruct op as [Y o|Y o]; [done|]. destruct o; try done.
  simpl in Hp. injection Hp as <-. simpl. unfold events_of. rewrite filter_app, filter_cons, length_app.
  rewrite Htok in Hc. repeat case_bool_decide; case_decide; simplify_eq; simpl in *;
    unfold events_of in Hok; try done; lia.
Qed.

Lemma other_tokens :
  publishes op = None →
  tokens_ok (call E op w).2 (<[i := token_after tok op (call E op w).1]> toks).
Proof.
  intros Hp t. rewrite (call_bus E op w Hp). pose proof (completed_evolves _ _ t He) as Hm.
  pose proof (Hok t) as Ht. unfold token_after.
  destruct (completes op) as [id|] eqn:Hc; [|by rewrite list_insert_id; [lia|]].
  destruct (granted op (call E op w).1) eqn:Hg; [|by rewrite list_insert_id; [lia|]].
  pose proof (tokens_of_insert t toks i tok (Some id) Hi) as Hcount.
  destruct op as [Y o|Y o]; [|by simpl in Hc]. destruct o; try (by simpl in Hc). simpl in Hc.
  destruct (decide (su_Status u = TransferCompleted)) as [Hs|Hs];
    [rewrite bool_decide_eq_true_2 in Hc by done|by rewrite bool_decide_eq_false_2 in Hc].
  injection Hc as ->. simpl in *. revert Hg Hm. store_cbv. intros Hg Hm.
  pose proof (update_completes id u at_ (w_store w) Hs) as Hu.
  destruct (UpdateTransferSaga id u at_ (w_store w)) as [x m']. simpl in *.
  destruct (Hu Hg) as [H0 H1].
  destruct (decide (id = t)) as [->|Hne]; [|rewrite (bool_decide_eq_false_2 (Some id = Some t)) in Hcount by congruence; lia].
  rewrite (bool_decide_eq_true_2 (Some t = Some t)) in Hcount by done. lia.
Qed.
End Step.

(** ** The pool *)

Lemma pool_tokens (E : Env) (s : TransferService) {A} (c c' : World MemoryStore * list (prog A)) :
  rtc (fresh_step E) c c' → bank_inv (w_store c.1) → pool_safe bank_inv evolves call_fresh call_contract (λ _ _ _, True) c.2 (w_store c.1) →
  (∃ toks, Forall2 licensed toks c.2 ∧ tokens_ok c.1 toks) →
  ∃ toks, Forall2 licensed toks c'.2 ∧ tokens_ok c'.1 toks.
Proof.
  induction 1 as [c|c1 c2 c3 Hstep _ IH]; intros Hinv Hps Htoks; [done|].
  destruct (pool_safe_steps bank_inv evolves call_fresh call_contract E _ c1 c2 (rtc_once _ _ Hstep) Hinv Hps)
    as (Hinv' & He & Hps'). apply IH; [done|done|]. clear IH Hps Hps' Hinv Hinv'.
  destruct Hstep as [w ps i X op k Hi HA]. simpl in *. destruct Htoks as (toks & Hl & Hok).
  destruct (Forall2_lookup_r _ _ _ _ _ Hl Hi) as (tok & Htok & Hp). simpl in Hp.
  destruct (publishes op) as [id|] eqn:Hpub.
  - destruct Hp as [Ht Hk]. exists (<[i := None]> toks). split; [by apply Forall2_insert|].
    by eapply publish_tokens.
  - exists (<[i := token_after tok op (call E op w).1]> toks).
    split; [by apply Forall2_insert|]. by eapply other_tokens.
Qed.

Lemma published_nodup w toks : tokens_ok w toks → NoDup (tce_TransferID <$> w_bus w).
Proof.
  intros Hok. assert (∀ t, (events_of t (w_bus w) ≤ 1)%nat) as Hle.
  { intros t. specialize (Hok t). unfold completed in Hok. repeat case_match; lia. }
  clear Hok. induction (w_bus w) as [|ev bus IH]; [constructor|]. rewrite fmap_cons. constructor.
  - intros (ev' & Hid & Hin)%list_elem_of_fmap. specialize (Hle (tce_TransferID ev)).
    unfold events_of in Hle. rewrite filter_cons_True in Hle by done. simpl in Hle.
    assert (filter (λ e, tce_TransferID e = tce_TransferID ev) bus = []) as Hnil
      by (apply nil_length_inv; lia).
    apply (not_elem_of_nil ev'). rewrite <-Hnil. apply list_elem_of_filter. done.
  - apply IH. intros t. specialize (Hle t). unfold events_of in *. rewrite filter_cons in Hle.
    case_decide; simpl in *; lia.
Qed.

Lemma published_completed w toks ev :
  tokens_ok w toks → ev ∈ w_bus w →
  ∃ r, ms_transfers (w_store w) !! tce_TransferID ev = Some r ∧ tr_Status r = TransferCompleted.
Proof.
  intros Hok Hev. specialize (Hok (tce_TransferID ev)).
  assert (0 < events_of (tce_TransferID ev) (w_bus w))%nat as Hpos.
  { unfold events_of. destruct (filter _ _) eqn:Hf; [|simpl; lia].
    destruct (not_elem_of_nil ev). rewrite <-Hf. by apply list_elem_of_filter. }
  unfold completed in Hok. destruct (ms_transfers _ !! _) as [r|]; [|lia].
  exists r. split; [done|]. case_bool_decide; [done|lia].
Qed.

(** The announcements of a run. *)
Lemma announced_once (E : Env) (s : TransferService) {A} (c c' : World MemoryStore * list (prog A)) :
  (∀ a, int64_ok (ts_feePolicy s a)) → Forall (thread s) c.2 → bank_inv (w_store c.1) →
  w_bus c.1 = [] → rtc (fresh_step E) c c' →
  NoDup (tce_TransferID <$> w_bus c'.1) ∧
  ∀ ev, ev ∈ w_bus c'.1 →
    ∃ r, ms_transfers (w_store c'.1) !! tce_TransferID ev = Some r ∧ tr_Status r = TransferCompleted.
Proof.
  intros Hfee Hps Hinv Hbus Hrun.
  destruct (pool_tokens E s c c' Hrun Hinv) as (toks & _ & Hok).
  - intros i p Hi. eapply thread_safe; [done|]. by eapply Forall_lookup_1.
  - exists (replicate (length c.2) None). split.
    + apply Forall2_replicate_l; [reflexivity|]. eapply Forall_impl; [exact Hps|]. intros p. apply thread_licensed.
    + intros t. rewrite Hbus. unfold events_of, tokens_of.
      assert (filter (λ tok, tok = Some t) (replicate (length c.2) None) = []) as ->; [|simpl; lia].
      induction (length c.2) as [|n IH]; [done|]. cbn [replicate]. by rewrite filter_cons_False.
  - split; [by eapply published_nodup|]. intros ev Hev. by eapply published_completed.
Qed.

(** ** Properties *)

(** The completion of a transfer is announced at most once, and only when it
    is complete: however many workers race over its saga, retry, or crash between
    the update and the announcement, the event bus receives at most one event for
    a transfer, and the transfer it names is completed. *)
Theorem completion_published_once (E : Env) (s : TransferService) {A}
    (c c' : World MemoryStore * list (prog A)) :
  (∀ a, int64_ok (ts_feePolicy s a)) → Forall (thread s) c.2 → bank_inv (w_store c.1) →
  w_bus c.1 = [] → rtc (fresh_step E) c c' →
  NoDup (tce_TransferID <$> w_bus c'.1) ∧
  ∀ ev, ev ∈ w_bus c'.1 →
    ∃ r, ms_transfers (w_store c'.1) !! tce_TransferID ev = Some r ∧ tr_Status r = TransferCompleted.
Proof. apply announced_once. Qed.

Lemma completion_published_once_witness :
  (tce_TransferID <$> w_bus settled_pool.1) = [sample_transfer_id] ∧
  NoDup (tce_TransferID <$> w_bus settled_pool.1).
Proof.
  split; [vm_compute; reflexivity|].
  exact (proj1 (completion_published_once sample_env sample_service transfer_pool settled_pool
    sample_fee transfer_pool_threads sample_inv eq_refl settled_steps)).
Defined.
