(* ===== verification/EventBus.v ===== *)
(** * The event bus: internal/eventbus/event_bus.go.

    [Subscribe] and [Publish] hold the mutex of the bus, so each is one step.
    [Publish] starts a goroutine for each subscriber and does not wait for it: the
    goroutines run later, in any order.  A handler is a value of [H]: the bus only
    calls it. *)
From S2P Require Export Publishing.

Section EventBus.
Context {H : Type}.

Record EventBus := mkEventBus { eb_subscribers : list H }.

Definition NewEventBus : EventBus := mkEventBus [].

Definition Subscribe (handler : H) (eb : EventBus) : EventBus :=
  mkEventBus (eb_subscribers eb ++ [handler]).

(** The goroutines [go handler(event)] of the loop. *)
Definition Publish (event : TransferCompletedEvent) (eb : EventBus) : list (H * TransferCompletedEvent) :=
  (λ handler, (handler, event)) <$> eb_subscribers eb.

(** ** Runs *)

(** The bus, the goroutines that wait to run, and the calls made of handlers. *)
Record Bus := mkBus {
  bus_state : EventBus;
  bus_goroutines : list (H * TransferCompletedEvent);
  bus_handled : list (H * TransferCompletedEvent);
}.
Definition quiet_bus : Bus := mkBus NewEventBus [] [].

Inductive bus_action :=
| Subscribes (handler : H)
| Publishes (event : TransferCompletedEvent)
| Handles (goroutine : nat).

Definition bus_step (a : bus_action) (b : Bus) : option Bus :=
  match a with
  | Subscribes handler => Some (mkBus (Subscribe handler (bus_state b)) (bus_goroutines b) (bus_handled b))
  | Publishes event =>
      Some (mkBus (bus_state b) (bus_goroutines b ++ Publish event (bus_state b)) (bus_handled b))
  | Handles i =>
      call ← bus_goroutines b !! i;
      Some (mkBus (bus_state b) (delete i (bus_goroutines b)) (bus_handled b ++ [call]))
  end.
Fixpoint bus_steps (actions : list bus_action) (b : Bus) : option Bus :=
  match actions with
  | [] => Some b
  | a :: actions' => b' ← bus_step a b; bus_steps actions' b'
  end.

(** What was published, and who subscribed. *)
Definition published : list bus_action → list TransferCompletedEvent :=
  omap (λ a, match a with Publishes event => Some event | _ => None end).
Definition subscribed : list bus_action → list H :=
  omap (λ a, match a with Subscribes handler => Some handler | _ => None end).

(** The calls the actions owe, from the subscribers [hs]. *)
Fixpoint notices (hs : list H) (actions : list bus_action) : list (H * TransferCompletedEvent) :=
  match actions with
  | [] => []
  | Subscribes handler :: actions' => notices (hs ++ [handler]) actions'
  | Publishes event :: actions' => ((λ handler, (handler, event)) <$> hs) ++ notices hs actions'
  | Handles _ :: actions' => notices hs actions'
  end.

(** Nothing is lost and nothing invented: what was handled and what waits is what
    is owed. *)
Lemma bus_steps_notices actions b b' :
  bus_steps actions b = Some b' →
  bus_handled b' ++ bus_goroutines b' ≡ₚ
  bus_handled b ++ bus_goroutines b ++ notices (eb_subscribers (bus_state b)) actions.
Proof.
  revert b. induction actions as [|[handler|event|i] actions IH]; intros b; simpl.
  - intros [= ->]. by rewrite app_nil_r.
  - intros Hb. by rewrite (IH _ Hb).
  - intros Hb. rewrite (IH _ Hb). simpl. by rewrite <-!app_assoc.
  - destruct (bus_goroutines b !! i) as [call|] eqn:Hi; simpl; [|done]. intros Hb. rewrite (IH _ Hb). simpl.
    rewrite (delete_Permutation (bus_goroutines b) i call Hi) at 2. by rewrite <-!app_assoc.
Qed.

Lemma elem_of_notices hs actions handler event :
  (handler, event) ∈ notices hs actions →
  handler ∈ hs ++ subscribed actions ∧ event ∈ published actions.
Proof.
  revert hs. induction actions as [|[h|e|i] actions IH]; intros hs; simpl; [by intros ?%elem_of_nil|..].
  - intros Hin%IH. by rewrite <-app_assoc in Hin.
  - rewrite elem_of_app, list_elem_of_fmap. intros [(h & [= -> ->] & Hh)|[Hh He]%IH];
      split; try done; [by apply elem_of_app; left|by left|by right].
  - apply IH.
Qed.

(** A subscriber is owed every event published after it subscribed. *)
Lemma notices_later hs before handler after event rest :
  (handler, event) ∈ notices hs (before ++ Subscribes handler :: after ++ Publishes event :: rest).
Proof.
  assert (∀ hs acts, handler ∈ hs →
    (handler, event) ∈ notices hs (acts ++ Publishes event :: rest)) as Hlater.
  { intros hs' acts. revert hs'. induction acts as [|[h|e|i] acts IH]; intros hs' Hin; simpl.
    - apply elem_of_app. left. apply list_elem_of_fmap. by exists handler.
    - apply IH. set_solver.
    - apply elem_of_app. right. by apply IH.
    - by apply IH. }
  revert hs. induction before as [|[h|e|i] before IH]; intros hs; simpl; [|try apply IH..].
  - apply Hlater. set_solver.
  - apply elem_of_app. right. apply IH.
Qed.

Lemma notices_NoDup {K} (key : TransferCompletedEvent → K) hs actions :
  NoDup (hs ++ subscribed actions) → NoDup (key <$> published actions) →
  NoDup ((λ call, (call.1, key call.2)) <$> notices hs actions).
Proof.
  revert hs. induction actions as [|[h|e|i] actions IH]; intros hs; simpl; [constructor|..].
  - intros Hh He. apply IH; [|done]. by rewrite <-app_assoc.
  - intros Hh [Hnew He]%NoDup_cons. rewrite fmap_app, <-list_fmap_compose. apply NoDup_app. split_and!.
    + apply NoDup_fmap_2_strong; [by intros x y _ _ [= ->]|]. by apply NoDup_app in Hh as [? _].
    + intros [h k] Hin1 Hin2. apply list_elem_of_fmap in Hin1 as (h1 & [= -> ->] & _).
      apply list_elem_of_fmap in Hin2 as ([h2 e2] & [= -> Hk] & Hin2). apply Hnew.
      apply elem_of_notices in Hin2 as [_ Hin2]. apply list_elem_of_fmap. by exists e2.
    + by apply IH.
  - apply IH.
Qed.
End EventBus.
Arguments Bus : clear implicits.
Arguments bus_action : clear implicits.

(** C10: The announcement of a completed transfer reaches every subscriber exactly
    once.  Whatever the workers of the sagas do, retry or crash in, and however the
    event bus interleaves subscriptions, publications and the goroutines of its
    handlers: no handler is ever called twice for a transfer, it is only called for
    completed ones, and once no goroutine waits it has been called for every
    announcement made after it subscribed. *)
Theorem subscribers_notified_once {H} (E : Env) (s : TransferService) {A}
    (c c' : World MemoryStore * list (prog A)) (actions : list (bus_action H)) (b : Bus H) :
  (∀ a, int64_ok (ts_feePolicy s a)) → Forall (thread s) c.2 → bank_inv (w_store c.1) →
  w_bus c.1 = [] → rtc (fresh_step E) c c' →
  published actions = w_bus c'.1 → NoDup (subscribed actions) → bus_steps actions quiet_bus = Some b →
  NoDup ((λ call, (call.1, tce_TransferID call.2)) <$> bus_handled b) ∧
  (∀ handler ev, (handler, ev) ∈ bus_handled b →
     handler ∈ subscribed actions ∧
     ∃ r, ms_transfers (w_store c'.1) !! tce_TransferID ev = Some r ∧ tr_Status r = TransferCompleted) ∧
  (bus_goroutines b = [] → ∀ before handler between ev rest,
     actions = before ++ Subscribes handler :: between ++ Publishes ev :: rest →
     (handler, ev) ∈ bus_handled b).
Proof.
  intros Hfee Hps Hinv Hbus Hrun Hpub Hsub Hb.
  destruct (announced_once E s c c' Hfee Hps Hinv Hbus Hrun) as [Hnd Hdone].
  apply bus_steps_notices in Hb as Hcalls. simpl in Hcalls. rewrite <-Hpub in Hnd, Hdone. split_and!.
  - pose proof (notices_NoDup tce_TransferID [] actions Hsub Hnd) as Hkeys.
    rewrite <-Hcalls, fmap_app in Hkeys. by apply NoDup_app in Hkeys as [? _].
  - intros handler ev Hin. assert ((handler, ev) ∈ notices [] actions) as [Hh He]%elem_of_notices
      by (rewrite <-Hcalls; set_solver). split; [done|by apply Hdone].
  - intros Hnone before handler between ev rest ->. rewrite Hnone, app_nil_r in Hcalls.
    rewrite Hcalls. apply notices_later.
Qed.

(** The settled transfer, announced to a subscriber. *)
Lemma subscribers_notified_once_witness :
  ∃ ev, w_bus settled_pool.1 = [ev] ∧
    ∀ b, bus_steps [Subscribes 7%nat; Publishes ev; Handles 0] quiet_bus = Some b →
      (7%nat, ev) ∈ bus_handled b.
Proof.
  destruct (w_bus settled_pool.1) as [|ev [|]] eqn:Hbus; [by vm_compute in Hbus| |by vm_compute in Hbus].
  exists ev. split; [done|]. intros b Hb.
  destruct (subscribers_notified_once sample_env sample_service transfer_pool settled_pool
    [Subscribes 7%nat; Publishes ev; Handles 0] b sample_fee transfer_pool_threads sample_inv eq_refl
    settled_steps (eq_sym Hbus) (NoDup_singleton _) Hb) as (_ & _ & Hall).
  apply (Hall ltac:(simpl in Hb; by injection Hb as <-) [] 7%nat [] ev [Handles 0] eq_refl).
Defined.
