(* ===== verification/Ledger.v ===== *)
(** * The bank's contract: what holds of every run of the server. *)
From S2P Require Export Sample.

(** ** Facts *)

Lemma at_least_steps step :
  at_least 0 step → step ∈ [SagaCreated; SagaFundsReserved; SagaComplianceApproved; SagaLedgerPosted;
                             SagaReservationCaptured].
Proof. unfold at_least, step_rank. repeat case_bool_decide; subst; intros ?; try done; in_list. Qed.

Lemma at_least_last step : at_least 4 step → step = SagaReservationCaptured.
Proof. unfold at_least, step_rank. repeat case_bool_decide; intros ?; try done; lia. Qed.

(** ** Properties *)

(** C2: whatever requests the server runs, however the calls of their handlers
    and of the saga worker interleave, and wherever some of them stop (a crash
    is a thread that takes no further step), the store stays well-formed (every
    event of a stream carries the account and the position it is stored at, an
    account is opened only by its first event, amounts are 64-bit), every
    stored snapshot is the replay of a prefix of its stream, and the store evolves
    only as [evolves] allows: streams grow at their end, reviewed applications
    and adjustments, finished transfers and holds, ledger postings and
    compliance decisions never change again.  Identifiers drawn at random are
    taken not to collide. *)
Theorem requests_evolve (E : Env) (s : TransferService) {A} (c c' : World MemoryStore * list (prog A)) :
  (∀ a, int64_ok (ts_feePolicy s a)) →
  Forall (thread s) c.2 →
  bank_inv (w_store c.1) →
  rtc (fresh_step E) c c' →
  bank_inv (w_store c'.1) ∧ evolves (w_store c.1) (w_store c'.1).
Proof.
  apply pool_run.
Qed.

(** A client's transfer, carried through by the worker. *)
Lemma requests_evolve_witness :
  bank_inv settled_store ∧ evolves sample_store settled_store.
Proof.
  exact (requests_evolve sample_env sample_service transfer_pool settled_pool sample_fee
    transfer_pool_threads sample_inv settled_steps).
Defined.

(** C6: the stored data is typed: in every run, every event carries its type's name,
    the account and the position of the stream it is in, and a 64-bit amount, and
    only a first event opens an account; every transfer is filed under its
    identifier, between two different accounts, for at least 1.00 and a fee that
    is not negative with a sum that fits 64 bits, its status is one of pending,
    completed and failed, and completed only after the last step of its saga. *)
Theorem stored_values_typed (E : Env) (s : TransferService) {A} (c c' : World MemoryStore * list (prog A)) :
  (∀ a, int64_ok (ts_feePolicy s a)) → Forall (thread s) c.2 → bank_inv (w_store c.1) →
  rtc (fresh_step E) c c' →
  let m := w_store c'.1 in
  (∀ id i ev, stream m id !! i = Some ev →
     EventType ev = type_name ev ∧ AggregateID ev = id ∧ Version ev = Z.of_nat i ∧
     int64_ok (event_amount ev) ∧ (is_opening ev = true → i = 0%nat)) ∧
  (∀ k r, ms_transfers m !! k = Some r →
     tr_ID r = k ∧ k ≠ "" ∧ tr_SourceAccountID r ≠ tr_DestinationAccountID r ∧
     100 ≤ tr_Amount r ∧ 0 ≤ tr_Fee r ∧ tr_Amount r + tr_Fee r ≤ MaxInt64 ∧
     tr_Status r ∈ [TransferPending; TransferCompleted; TransferFailed] ∧
     tr_CurrentStep r ∈ [SagaCreated; SagaFundsReserved; SagaComplianceApproved; SagaLedgerPosted;
                         SagaReservationCaptured] ∧
     (tr_Status r = TransferCompleted → tr_CurrentStep r = SagaReservationCaptured)).
Proof.
  intros Hfee Hps Hinv Hrun m. destruct (pool_run E s c c' Hfee Hps Hinv Hrun) as [Hinv' _]. fold m in Hinv'.
  pose proof (inv_wf _ Hinv') as Hwf. split.
  - intros id i ev Hi. destruct (stream_wf m id Hwf) as [Hnil|[_ Hok]]; [by rewrite Hnil in Hi|].
    destruct (Hok i ev Hi). by split_and!.
  - intros k r Hr. destruct (wf_transfer m k r Hwf Hr) as [<- []].
    destruct (sk_records _ (inv_saga _ Hinv') _ r Hr) as [Hst Hstep Hdone _ _ _ _ _].
    split_and!; [done..| | |].
    + destruct Hst as [->|[->| ->]]; in_list.
    + by apply at_least_steps.
    + intros Hc. by apply at_least_last, Hdone.
Qed.

Lemma stored_values_typed_witness :
  stream settled_store "acc1" ≠ [] ∧
  ∀ k r, ms_transfers settled_store !! k = Some r → tr_Status r = TransferCompleted →
    tr_CurrentStep r = SagaReservationCaptured.
Proof.
  split; [apply (bool_decide_eq_true_1 _); vm_compute; reflexivity|]. intros k r Hr.
  apply (proj2 (stored_values_typed sample_env sample_service transfer_pool settled_pool sample_fee
    transfer_pool_threads sample_inv settled_steps) k r Hr).
Defined.

(** Optimistic concurrency: an event appended at the version its writer
    loaded is accepted exactly when nobody else has appended to that stream in
    between, however the rest of the store evolved; otherwise the writer gets
    ErrConcurrencyConflict and the store is untouched. *)
Theorem Append_detects_interference m m' ev :
  let id := AggregateID ev in
  evolves m m' →
  let '(r, m'') := Append ev (seq_of (stream m id)) m' in
  (stream m' id = stream m id ∧ r = Ok tt ∧ stream m'' id = stream m id ++ [ev] ∧
     ∀ id', id' ≠ id → stream m'' id' = stream m' id') ∨
  (stream m' id ≠ stream m id ∧ r = Err ErrConcurrencyConflict ∧ m'' = m').
Proof.
  cbv zeta. intros He. unfold Append. case_bool_decide as Hl.
  - left. unfold seq_of in Hl. apply Nat2Z.inj in Hl.
    pose proof (stream_unchanged _ _ _ He Hl) as Heq. rewrite stream_put, decide_True by done.
    split_and!; [done..|by rewrite Heq|]. intros id' Hne. by rewrite stream_put, decide_False.
  - right. split_and!; [|done..]. intros Heq. by rewrite Heq in Hl.
Qed.

(** The transfer got in between. *)
Lemma Append_detects_interference_witness :
  let ev := EMoneyCredited (mkMoneyCredited "acc1" "MoneyCredited" 1 0 "acc1" 2500 "" "" "" "" "" "" "") in
  Append ev (seq_of (stream sample_store "acc1")) settled_store =
    (Err ErrConcurrencyConflict, settled_store).
Proof.
  intros ev.
  assert (evolves sample_store settled_store) as He by apply (pool_run sample_env sample_service
    transfer_pool settled_pool sample_fee transfer_pool_threads sample_inv settled_steps).
  pose proof (Append_detects_interference sample_store settled_store ev He) as H.
  destruct (Append ev _ settled_store) as [r m'']. destruct H as [[Heq _]|(_ & -> & ->)].
  - exfalso. revert Heq. vm_compute. intros [=].
  - reflexivity.
Defined.

(** [ListAggregates] returns the accounts that have events, each once, in
    ascending order, whatever the iteration order of the map. *)
Theorem ListAggregates_sorted (G : GoRuntime) m ids :
  store_wf m → ListAggregates m = Ok ids →
  StronglySorted (λ x y, String.ltb y x = false) ids ∧ NoDup ids ∧
  ∀ id, id ∈ ids ↔ stream m id ≠ [].
Proof.
  intros Hwf [= <-]. split_and!.
  - apply sort_slice_sorted, ltb_weak_order.
  - rewrite sort_slice_perm, range_map_perm. apply NoDup_fst_map_to_list.
  - intros id. rewrite sort_slice_perm, list_elem_of_fmap. unfold stream. split.
    + intros ([k evs] & -> & Hk%elem_of_range_map). simpl. rewrite Hk.
      by apply (wf_streams m Hwf k).
    + destruct (ms_streams m !! id) as [evs|] eqn:E; [|done]. intros _.
      exists (id, evs). split; [done|]. by apply elem_of_range_map.
Qed.

Lemma ListAggregates_sorted_witness :
  StronglySorted (λ x y, String.ltb y x = false) ["acc1"; "acc2"] ∧ NoDup ["acc1"; "acc2"] ∧
  ∀ id, id ∈ ["acc1"; "acc2"] ↔ stream sample_store id ≠ [].
Proof.
  apply (ListAggregates_sorted reference_runtime); [apply inv_wf, sample_inv|].
  vm_compute. reflexivity.
Defined.

(** C8: the reserved balance of an account is always the sum of its open
    reservations, and its available balance what is left: after any run of
    requests, a replay gives, in 64-bit arithmetic, the exact balance of the
    stream, the amounts of the holds in state "reserved", and their difference. *)
Theorem holds_accounted (E : Env) (s : TransferService) {A}
    (c c' : World MemoryStore * list (prog A)) id :
  (∀ a, int64_ok (ts_feePolicy s a)) → Forall (thread s) c.2 → bank_inv (w_store c.1) →
  rtc (fresh_step E) c c' →
  let m := w_store c'.1 in
  ReplayAccount id (stream m id) =
  mkAccount id (int64_wrap (exact_balance (stream m id))) (int64_wrap (held m id))
    (int64_wrap (exact_balance (stream m id) - held m id)).
Proof.
  intros Hfee Hps Hinv Hrun m. destruct (pool_run E s c c' Hfee Hps Hinv Hrun) as [Hinv' _].
  fold m in Hinv'. rewrite ReplayAccount_exact by apply stream_amounts, Hinv'.
  by rewrite (inv_holds _ Hinv' id).
Qed.

(** The worker has reserved the funds, and not posted them yet. *)
Lemma holds_accounted_witness :
  let m := w_store (pool_result sample_env (repeat 0%nat 5 ++ repeat 1%nat 7) transfer_pool).1 in
  held m "acc1" = 1050 ∧
  ReplayAccount "acc1" (stream m "acc1") =
  mkAccount "acc1" (int64_wrap (exact_balance (stream m "acc1"))) (int64_wrap (held m "acc1"))
    (int64_wrap (exact_balance (stream m "acc1") - held m "acc1")).
Proof.
  intros m. split; [vm_compute; reflexivity|].
  exact (holds_accounted sample_env sample_service transfer_pool
    (pool_result sample_env (repeat 0%nat 5 ++ repeat 1%nat 7) transfer_pool) "acc1"
    sample_fee transfer_pool_threads sample_inv (pool_result_steps _ _ _)).
Defined.

(** C1: a transfer moves its money exactly once or not at all, through any number
    of workers, retries, duplicates and crashes: once it is completed, exactly
    its amount and fee have been debited under its identifier from its source
    account and its amount credited to its destination, nothing anywhere else,
    its hold of that total is captured and compliance has approved it; once it
    has failed, no account has a debit or a credit of it. *)
Theorem transfers_settle (E : Env) (s : TransferService) {A}
    (c c' : World MemoryStore * list (prog A)) t r :
  (∀ a, int64_ok (ts_feePolicy s a)) → Forall (thread s) c.2 → bank_inv (w_store c.1) →
  rtc (fresh_step E) c c' →
  let m := w_store c'.1 in
  ms_transfers m !! t = Some r →
  (tr_Status r = TransferCompleted →
     (∀ id, sum_events (debited t) (stream m id) =
              (if bool_decide (tr_SourceAccountID r = id) then tr_Amount r + tr_Fee r else 0) ∧
            sum_events (credited t) (stream m id) =
              (if bool_decide (tr_DestinationAccountID r = id) then tr_Amount r else 0)) ∧
     ms_reservations m !! t =
       Some (mkMemoryReservation (tr_SourceAccountID r) (tr_Amount r + tr_Fee r) "captured") ∧
     ms_complianceDecisions m !! t = Some "approved") ∧
  (tr_Status r = TransferFailed →
     ∀ id, sum_events (debited t) (stream m id) = 0 ∧ sum_events (credited t) (stream m id) = 0).
Proof.
  intros Hfee Hps Hinv Hrun m Ht. destruct (pool_run E s c c' Hfee Hps Hinv Hrun) as [Hinv' _].
  fold m in Hinv'. destruct (wf_transfer m t r (inv_wf _ Hinv') Ht) as [<- Hok].
  destruct (inv_saga _ Hinv') as [Hrec Hhold Hposted]. specialize (Hrec _ r Ht).
  pose proof (λ id, inv_postings _ Hinv' (tr_ID r) id (to_ID _ Hok)) as Hp.
  unfold debit_due, credit_due in Hp. rewrite Ht in Hp. split.
  - intros Hst. pose proof (rk_completed _ _ _ Hrec Hst) as H4.
    rewrite (rk_posted _ _ _ Hrec (at_least_le 4 3 _ ltac:(lia) H4)) in Hp. split_and!; [exact Hp| |].
    + destruct (rk_captured _ _ _ Hrec H4) as (h & Hh & Hc).
      destruct (Hhold _ h Hh) as (r' & Hr' & []). simplify_eq. rewrite Hh. by destruct h; simpl in *; subst.
    + apply (rk_decision _ _ _ Hrec), (at_least_le 4); [lia|done].
  - intros Hst. pose proof (rk_failed _ _ _ Hrec Hst) as H2.
    destruct (posted m (tr_ID r)) eqn:Hpt; [|exact Hp].
    destruct (Hposted _ Hpt) as (r' & Hr' & Hl). by simplify_eq.
Qed.

Lemma transfers_settle_witness :
  ∃ r, ms_transfers settled_store !! sample_transfer_id = Some r ∧
    tr_Status r = TransferCompleted ∧
    ms_reservations settled_store !! sample_transfer_id =
      Some (mkMemoryReservation (tr_SourceAccountID r) (tr_Amount r + tr_Fee r) "captured").
Proof.
  destruct (ms_transfers settled_store !! sample_transfer_id) as [r|] eqn:E.
  - exists r. assert (tr_Status r = TransferCompleted) as Hst
      by (revert E; vm_compute; intros [= <-]; reflexivity).
    split; [reflexivity|]. split; [exact Hst|].
    apply (transfers_settle sample_env sample_service transfer_pool settled_pool sample_transfer_id r
      sample_fee transfer_pool_threads sample_inv settled_steps E), Hst.
  - exfalso. revert E. vm_compute. intros [=].
Defined.

(** An idempotency key names one transfer: however many requests with one key
    race, at most one record exists for a source account and key. *)
Theorem idempotency_keys_unique (E : Env) (s : TransferService) {A}
    (c c' : World MemoryStore * list (prog A)) t1 t2 r1 r2 :
  (∀ a, int64_ok (ts_feePolicy s a)) → Forall (thread s) c.2 → bank_inv (w_store c.1) →
  rtc (fresh_step E) c c' →
  ms_transfers (w_store c'.1) !! t1 = Some r1 → ms_transfers (w_store c'.1) !! t2 = Some r2 →
  tr_SourceAccountID r1 = tr_SourceAccountID r2 → tr_IdempotencyKey r1 = tr_IdempotencyKey r2 →
  t1 = t2 ∧ r1 = r2.
Proof.
  intros Hfee Hps Hinv Hrun H1 H2 Hs Hk. destruct (pool_run E s c c' Hfee Hps Hinv Hrun) as [Hinv' _].
  assert (t1 = t2) as -> by by eapply (inv_keys _ Hinv' t1 t2 r1 r2). by simplify_eq.
Qed.

Lemma idempotency_keys_unique_witness :
  ∃ r, ms_transfers settled_store !! sample_transfer_id = Some r ∧
    sample_transfer_id = sample_transfer_id ∧ r = r.
Proof.
  destruct (ms_transfers settled_store !! sample_transfer_id) as [r|] eqn:E.
  - exists r. split; [reflexivity|].
    exact (idempotency_keys_unique sample_env sample_service transfer_pool settled_pool
      sample_transfer_id sample_transfer_id r r sample_fee transfer_pool_threads sample_inv
      settled_steps E E eq_refl eq_refl).
  - exfalso. revert E. vm_compute. intros [=].
Defined.

(** C19: a movement is reversed at most once: of the reversal requests for one
    transfer, or for one event of an account, at most one is not rejected, in
    any run. *)
Theorem reversed_at_most_once (E : Env) (s : TransferService) {A}
    (c c' : World MemoryStore * list (prog A)) k1 k2 r1 r2 o :
  (∀ a, int64_ok (ts_feePolicy s a)) → Forall (thread s) c.2 → bank_inv (w_store c.1) →
  rtc (fresh_step E) c c' →
  ms_adjustments (w_store c'.1) !! k1 = Some r1 → ms_adjustments (w_store c'.1) !! k2 = Some r2 →
  reversal_of r1 = Some o → reversal_of r2 = Some o → k1 = k2.
Proof.
  intros Hfee Hps Hinv Hrun. destruct (pool_run E s c c' Hfee Hps Hinv Hrun) as [Hinv' _].
  apply Hinv'.
Qed.

Lemma reversed_at_most_once_witness :
  reversed_pool.2 !! 1%nat = Some (Ret (Err ErrAlreadyReversed)) ∧
  ∃ r, ms_adjustments (w_store reversed_pool.1) !! sample_adjustment_id = Some r ∧
    reversal_of r = Some (inl sample_transfer_id) ∧ sample_adjustment_id = sample_adjustment_id.
Proof.
  split; [vm_compute; reflexivity|].
  destruct (ms_adjustments (w_store reversed_pool.1) !! sample_adjustment_id) as [r|] eqn:E.
  - exists r. assert (reversal_of r = Some (inl sample_transfer_id)) as Ho
      by (revert E; vm_compute; intros [= <-]; reflexivity).
    split; [reflexivity|]. split; [exact Ho|].
    exact (reversed_at_most_once sample_env sample_service reversal_pool reversed_pool
      sample_adjustment_id sample_adjustment_id r r _ sample_fee reversal_pool_threads settled_inv
      (pool_result_steps _ _ _) E E Ho Ho).
  - exfalso. revert E. vm_compute. intros [=].
Defined.
