(* ===== verification/Banking.v ===== *)
(** * Deposits, withdrawals and account queries.

    Each request is linearizable: whatever runs beside it, a receipt describes
    the balance just before and just after one event of the account's stream,
    which this request appended. *)
From S2P Require Export Ledger.

(** ** Definitions *)

(** The [n]-th event of the stream of [id] is [ev], and the accounts before and
    after it are [a] and [b]. *)
Definition movement (m : MemoryStore) (id : string) (n : nat) (ev : Event) (a b : Account) : Prop :=
  stream m id !! n = Some ev ∧
  a = ReplayAccount id (take n (stream m id)) ∧
  b = ReplayAccount id (take (S n) (stream m id)).

Definition deposit_event (id : string) (n : nat) (amount : Money) (now : Time) : Event :=
  EMoneyCredited {|
    mc_Aggregate := id; mc_Type := "MoneyCredited"; mc_Seq := Z.of_nat n;
    mc_Occurred := now; mc_ID := id; mc_Amount := amount; mc_TransferID := "";
    mc_Purpose := ""; mc_CounterpartyAccountID := ""; mc_AdjustmentID := "";
    mc_AdjustmentReason := ""; mc_CaseReference := ""; mc_OriginalReference := "" |}.
Definition withdrawal_event (id : string) (n : nat) (amount : Money) (now : Time) : Event :=
  EMoneyDebited {|
    md_Aggregate := id; md_Type := "MoneyDebited"; md_Seq := Z.of_nat n;
    md_Occurred := now; md_ID := id; md_Amount := amount; md_TransferID := "";
    md_Purpose := ""; md_CounterpartyAccountID := ""; md_AdjustmentID := "";
    md_AdjustmentReason := ""; md_CaseReference := ""; md_OriginalReference := "" |}.

(** The outcomes of a deposit that starts in [m] and has ended by [m']. *)
Definition deposit_outcome (m : MemoryStore) (id : string) (amount : Money)
    (r : go_result DepositReceipt) (m' : MemoryStore) : Prop :=
  match r with
  | Ok receipt =>
      minimumDepositAmount ≤ amount ∧ dr_DepositAmount receipt = amount ∧
      ∃ n now, (length (stream m id) ≤ n)%nat ∧ (0 < n)%nat ∧
        movement m' id n (deposit_event id n amount now)
          (dr_InitialAccount receipt) (dr_FinalAccount receipt)
  | Err e =>
      (e = ErrInvalidDepositAmount ∧ amount < minimumDepositAmount) ∨
      (e = ErrAccountNotFound ∧ stream m id = []) ∨
      (e = ErrConcurrencyConflict ∧ (length (stream m id) < length (stream m' id))%nat)
  end.

Definition withdrawal_outcome (m : MemoryStore) (id : string) (amount : Money)
    (r : go_result WithdrawalReceipt) (m' : MemoryStore) : Prop :=
  match r with
  | Ok receipt =>
      minimumWithdrawAmount ≤ amount ∧ wr_WithdrawalAmount receipt = amount ∧
      amount ≤ acc_AvailableBalance (wr_InitialAccount receipt) ∧
      ∃ n now, (length (stream m id) ≤ n)%nat ∧ (0 < n)%nat ∧
        movement m' id n (withdrawal_event id n amount now)
          (wr_InitialAccount receipt) (wr_FinalAccount receipt)
  | Err e =>
      (e = ErrInvalidWithdrawAmount ∧ amount < minimumWithdrawAmount) ∨
      (e = ErrAccountNotFound ∧ stream m id = []) ∨
      (e = ErrConcurrencyConflict ∧ (length (stream m id) < length (stream m' id))%nat) ∨
      (∃ a, e = InsufficientFundsError a amount ∧ acc_AvailableBalance a < amount ∧
         account_between m m' id a)
  end.

(** ** Facts *)

Lemma movement_evolves m m' id n ev a b :
  evolves m m' → movement m id n ev a b → movement m' id n ev a b.
Proof.
  intros He (Hn & -> & ->). pose proof (lookup_lt_Some _ _ _ Hn).
  split_and!; [|by rewrite (stream_take m m') by (done || lia)..].
  destruct (stream_prefix m m' id He) as [k ->]. by apply lookup_app_l_Some.
Qed.

(** The movement an append is. *)
Lemma put_movement m id ev n :
  n = length (stream m id) →
  movement (put_stream id (stream m id ++ [ev]) m) id n ev
    (ReplayAccount id (stream m id)) (ReplayAccount id (stream m id ++ [ev])).
Proof.
  intros ->. unfold movement. rewrite stream_put, decide_True by done. split_and!.
  - by rewrite lookup_app_r, Nat.sub_diag by lia.
  - by rewrite take_app_length.
  - by rewrite firstn_all2 by (rewrite length_app; simpl; lia).
Qed.

Lemma loaded_empty m m1 id :
  evolves m m1 → (seq_of (stream m1 id) =? 0) = true → stream m id = [].
Proof.
  intros He Hz. apply Z.eqb_eq in Hz. unfold seq_of in Hz.
  pose proof (stream_length m m1 id He). apply nil_length_inv. lia.
Qed.

(** A loaded stream is what the account was then. *)
Lemma loaded_between m m1 id :
  evolves m m1 → account_between m m1 id (ReplayAccount id (stream m1 id)).
Proof.
  intros He. exists (length (stream m1 id)). rewrite firstn_all.
  pose proof (stream_length m m1 id He). split; [lia|done].
Qed.

(** Appending at the loaded version, after others may have run. *)
Lemma append_loaded m m1 m2 ev id :
  AggregateID ev = id → Version ev = seq_of (stream m1 id) → is_hold ev = false → transfer_of ev = "" →
  event_ok id (length (stream m1 id)) ev →
  evolves m m1 → evolves m1 m2 → bank_inv m2 →
  call_contract _ (cAppend ev (Version ev)) m2 ∧
  let '(r, m3) := Append ev (Version ev) m2 in
  bank_inv m3 ∧ evolves m2 m3 ∧
  match r with
  | Ok _ => movement m3 id (length (stream m1 id)) ev
              (ReplayAccount id (stream m1 id)) (ReplayAccount id (stream m1 id ++ [ev]))
  | Err e => e = ErrConcurrencyConflict ∧ (length (stream m id) < length (stream m3 id))%nat
  end.
Proof.
  intros Hid Hv Hh Ht Hok H1 H2 Hinv. subst id.
  assert (call_typed (cAppend ev (Version ev))) as Htyped.
  { simpl. rewrite Hv. split_and!; [apply seq_of_nonneg| |done|done]. unfold seq_of. by rewrite Nat2Z.id. }
  split; [done|].
  destruct (call_bank_inv reference_runtime (cAppend ev (Version ev)) m2 Htyped I I Hinv) as [Hi He].
  unfold store_call, memory_store in Hi, He. unfold Append in *. case_bool_decide as Hl; simpl in *.
  - split_and!; [done..|]. rewrite Hv in Hl. unfold seq_of in Hl. apply Nat2Z.inj in Hl.
    pose proof (stream_unchanged m1 m2 _ H2 Hl) as Heq. rewrite <-Heq. by apply put_movement.
  - split_and!; [done..|]. pose proof (stream_length m m1 (AggregateID ev) H1).
    pose proof (stream_length m1 m2 (AggregateID ev) H2). rewrite Hv in Hl. unfold seq_of in Hl. lia.
Qed.

Lemma deposit_ok_evolves m m1 m2 id amount n now a b :
  (length (stream m id) ≤ n)%nat → (0 < n)%nat → minimumDepositAmount ≤ amount →
  evolves m1 m2 → movement m1 id n (deposit_event id n amount now) a b →
  deposit_outcome m id amount (Ok (mkDepositReceipt a b amount)) m2.
Proof.
  intros Hn H0 Ha He Hm. split_and!; [done..|]. exists n, now. split_and!; [done..|].
  by eapply movement_evolves.
Qed.

Lemma Deposit_safe amount id m :
  int64_ok amount → bank_safe (deposit_outcome m id amount) (Deposit amount id) m.
Proof.
  intros Hamt. unfold Deposit, try_bind. case_match eqn:Hmin.
  { apply safe_ret. intros m' _ _. left. by apply Z.ltb_lt in Hmin. }
  apply safe_store. intros m1 H1 Hi1 G _. store_cbv. split_and!; [done..|]. unfold Load.
  case_match eqn:Hz.
  { apply safe_ret. intros m2 _ _. right. left. split; [done|]. by eapply loaded_empty. }
  cbv zeta. apply safe_env; [apply _|]. intros now.
  apply safe_store. intros m2 H2 Hi2 G' _. store_cbv.
  pose proof (append_loaded m m1 m2 (deposit_event id (length (stream m1 id)) amount now) id)
    as Happ. unfold deposit_event in Happ. fold (seq_of (stream m1 id)) in Happ.
  destruct (Append _ _ m2) as [r m3].
  destruct Happ as (HO & Hi3 & H3 & Hr); [done|done|done|done|by constructor|done..|].
  split; [exact HO|]. split_and!; [done..|]. destruct r as [[]|e]; apply safe_ret; intros m4 H4 _.
  - eapply (deposit_ok_evolves m m3 m4 _ _ (length (stream m1 id))); [|..|exact Hr]; [|..|done].
    + by apply stream_length.
    + apply Z.eqb_neq in Hz. unfold seq_of in Hz. lia.
    + by apply Z.ltb_ge in Hmin.
  - destruct Hr as [-> Hl]. right. right. split; [done|].
    pose proof (stream_length m3 m4 id H4). lia.
Qed.

Lemma Withdraw_safe atomic amount id m :
  int64_ok amount → bank_safe (withdrawal_outcome m id amount) (Withdraw atomic amount id) m.
Proof.
  intros Hamt. unfold Withdraw, try_bind. case_match eqn:Hmin.
  { apply safe_ret. intros m' _ _. left. by apply Z.ltb_lt in Hmin. }
  apply Z.ltb_ge in Hmin. destruct atomic.
  - apply safe_env; [apply _|]. intros now. apply safe_store. intros m1 H1 Hi1 G _.
    destruct (call_bank_inv G (cWithdrawAvailable id amount now) m1 Hamt I I Hi1) as [Hi2 H2].
    split; [by split|]. revert Hi2 H2. store_cbv. unfold WithdrawAvailable. case_match eqn:Hz; simpl.
    { intros _ _. split_and!; [done..|]. apply safe_ret. intros m2 _ _. right. left.
      split; [done|]. by eapply loaded_empty. }
    case_match eqn:Ha; simpl; intros Hi2 H2; (split_and!; [done..|]); apply safe_ret; intros m2 H3 _.
    + do 3 right. exists (ReplayAccount id (stream m1 id)). split_and!; [done|by apply Z.ltb_lt in Ha|].
      eapply account_between_evolves; [exact H3|]. by apply loaded_between.
    + apply Z.ltb_ge in Ha. split_and!; [done..|]. exists (length (stream m1 id)), now.
      apply Z.eqb_neq in Hz. unfold seq_of in Hz. split_and!; [by apply stream_length|lia|].
      eapply movement_evolves; [exact H3|]. by apply put_movement.
  - apply safe_store. intros m1 H1 Hi1 G _. store_cbv. split_and!; [done..|]. unfold Load.
    case_match eqn:Hz.
    { apply safe_ret. intros m2 _ _. right. left. split; [done|]. by eapply loaded_empty. }
    cbv zeta. case_match eqn:Ha.
    { apply safe_ret. intros m2 H2 _. do 3 right. exists (ReplayAccount id (stream m1 id)).
      split_and!; [done|by apply Z.ltb_lt in Ha|].
      eapply account_between_evolves; [exact H2|]. by apply loaded_between. }
    apply safe_env; [apply _|]. intros now.
    apply safe_store. intros m2 H2 Hi2 G' _. store_cbv.
    pose proof (append_loaded m m1 m2 (withdrawal_event id (length (stream m1 id)) amount now) id)
      as Happ. unfold withdrawal_event in Happ. fold (seq_of (stream m1 id)) in Happ.
    destruct (Append _ _ m2) as [r m3].
    destruct Happ as (HO & Hi3 & H3 & Hr); [done|done|done|done|by constructor|done..|].
    split; [exact HO|]. split_and!; [done..|]. destruct r as [[]|e]; apply safe_ret; intros m4 H4 _.
    + apply Z.ltb_ge in Ha. apply Z.eqb_neq in Hz. unfold seq_of in Hz.
      split_and!; [done..|]. exists (length (stream m1 id)), now.
      split_and!; [by apply stream_length|lia|]. by eapply movement_evolves.
    + destruct Hr as [-> Hl]. do 2 right. left. split; [done|].
      pose proof (stream_length m3 m4 id H4). lia.
Qed.

(** ** Balances *)

Lemma replay_snoc id events ev :
  ReplayAccount id (events ++ [ev]) =
  set_available (fold_event (ReplayAccount id events) ev).
Proof.
  unfold ReplayAccount, ReplayAccountFrom. rewrite foldl_app. simpl.
  destruct (foldl fold_event _ events) as [id' b r v]. by destruct ev.
Qed.

Lemma movement_step m id n ev a b :
  movement m id n ev a b → b = set_available (fold_event a ev).
Proof. intros (Hn & -> & ->). rewrite (take_S_r _ _ _ Hn). apply replay_snoc. Qed.

(** A deposit that runs alone. *)
Lemma deposit_runs (E : Env) amount id (w : World MemoryStore) :
  let m := w_store w in
  let a := ReplayAccount id (stream m id) in
  let '(r, w') := interp E (Deposit amount id) w in
  if amount <? minimumDepositAmount then r = Err ErrInvalidDepositAmount ∧ w_store w' = m
  else if bool_decide (stream m id = []) then r = Err ErrAccountNotFound ∧ w_store w' = m
  else ∃ now,
    let ev := deposit_event id (length (stream m id)) amount now in
    w_store w' = put_stream id (stream m id ++ [ev]) m ∧
    r = Ok (mkDepositReceipt a
      (mkAccount id (acc_Balance a +! amount) (acc_ReservedBalance a)
         (acc_Balance a +! amount -! acc_ReservedBalance a)) amount).
Proof.
  intros m a. assert (ReplayAccount id (stream m id) = a) as Ha by done. clearbody a.
  unfold Deposit. destruct (amount <? _); [done|]. unfold try_bind. simpl. fold m.
  rewrite (bool_decide_ext _ (seq_of (stream m id) = 0)).
  2: { unfold seq_of. destruct (stream m id); simpl; [done|]. split; [done|lia]. }
  destruct (Z.eqb_spec (seq_of (stream m id)) 0) as [Hz|Hz]; simpl.
  { by rewrite bool_decide_eq_true_2. }
  rewrite bool_decide_eq_false_2 by done.
  unfold store_call, memory_store, reads, Append. simpl. fold m.
  rewrite bool_decide_eq_true_2 by done. simpl. eexists. split; [reflexivity|].
  pose proof (ReplayAccount_ID id (stream m id)) as Hid. rewrite replay_snoc.
  rewrite Ha in Hid |- *. clear Ha. destruct a. simpl in *. by subst.
Qed.

(** ** Properties *)

(** A deposit is linearizable and loses no update: whatever runs beside it, a
    receipt describes the account just before and just after one credit of the
    deposited amount, which the request appended to the stream at a moment
    between its start and its end; a deposit that is refused was too small, named
    an unknown account, or found that another writer had appended first
    (ErrConcurrencyConflict), and then appended nothing. *)
Theorem Deposit_linearizable (E : Env) (s : TransferService)
    (c c' : World MemoryStore * list (prog (go_result DepositReceipt))) i amount id r :
  (∀ a, int64_ok (ts_feePolicy s a)) → Forall (thread s) c.2 → bank_inv (w_store c.1) →
  int64_ok amount → c.2 !! i = Some (Deposit amount id) →
  rtc (fresh_step E) c c' → c'.2 !! i = Some (Ret r) →
  deposit_outcome (w_store c.1) id amount r (w_store c'.1).
Proof.
  intros Hfee Hps Hinv Ha Hi Hrun Hr.
  eapply (thread_outcome E s c c' i); try done. by apply Deposit_safe.
Qed.

(** Two deposits that both load the stream before either appends. *)
Lemma Deposit_linearizable_witness :
  let c := (sample_world sample_store, [Deposit 2500 "acc1"; Deposit 1000 "acc1"]) in
  let c' := pool_result sample_env [0; 1; 1; 1; 0; 0]%nat c in
  c'.2 !! 0%nat = Some (Ret (Err ErrConcurrencyConflict)) ∧
  deposit_outcome sample_store "acc1" 2500 (Err ErrConcurrencyConflict) (w_store c'.1).
Proof.
  intros c c'. assert (c'.2 !! 0%nat = Some (Ret (Err ErrConcurrencyConflict))) as Hr
    by (vm_compute; reflexivity).
  split; [exact Hr|].
  refine (Deposit_linearizable sample_env sample_service c c' 0 2500 "acc1" _ _ _ _ _ _ _ Hr).
  - exact sample_fee.
  - repeat constructor; vm_compute; by intros.
  - exact sample_inv.
  - split; vm_compute; by intros.
  - reflexivity.
  - apply pool_result_steps.
Defined.

(** C15: a withdrawal is linearizable and never takes more than is available:
    with or without the store's atomic check, a receipt describes the account
    just before and just after one debit of the amount, and the available balance
    just before covered it; a refusal for insufficient funds reports an account
    state of a moment of the request whose available balance was too small. *)
Theorem Withdraw_linearizable (E : Env) (s : TransferService)
    (c c' : World MemoryStore * list (prog (go_result WithdrawalReceipt))) i atomic amount id r :
  (∀ a, int64_ok (ts_feePolicy s a)) → Forall (thread s) c.2 → bank_inv (w_store c.1) →
  int64_ok amount → c.2 !! i = Some (Withdraw atomic amount id) →
  rtc (fresh_step E) c c' → c'.2 !! i = Some (Ret r) →
  withdrawal_outcome (w_store c.1) id amount r (w_store c'.1).
Proof.
  intros Hfee Hps Hinv Ha Hi Hrun Hr.
  eapply (thread_outcome E s c c' i); try done. by apply Withdraw_safe.
Qed.

Lemma Withdraw_linearizable_witness :
  let c := (sample_world sample_store, [Withdraw true 9000 "acc1"; Withdraw true 2000 "acc1"]) in
  let c' := pool_result sample_env [0; 1; 0; 1]%nat c in
  let r := Err (InsufficientFundsError (mkAccount "acc1" 1000 0 1000) 2000) in
  c'.2 !! 1%nat = Some (Ret r) ∧ withdrawal_outcome sample_store "acc1" 2000 r (w_store c'.1).
Proof.
  intros c c' r. assert (c'.2 !! 1%nat = Some (Ret r)) as Hr by (vm_compute; reflexivity).
  split; [exact Hr|].
  refine (Withdraw_linearizable sample_env sample_service c c' 1 true 2000 "acc1" _ _ _ _ _ _ _ Hr).
  - exact sample_fee.
  - repeat constructor; vm_compute; by intros.
  - exact sample_inv.
  - split; vm_compute; by intros.
  - reflexivity.
  - apply pool_result_steps.
Defined.

(** C20: a snapshot is only a cache: whatever runs beside it (requests that append
    events or save newer snapshots between its two loads included), [FindByID]
    returns the full replay of the account's stream as it was at some moment
    between its start and its end, and fails only for an account that had no
    events at its start. *)
Theorem FindByID_linearizable (E : Env) (s : TransferService)
    (c c' : World MemoryStore * list (prog (go_result Account))) i threshold id r :
  (∀ a, int64_ok (ts_feePolicy s a)) → Forall (thread s) c.2 → bank_inv (w_store c.1) →
  c.2 !! i = Some (Repository.FindByID threshold id) →
  rtc (fresh_step E) c c' → c'.2 !! i = Some (Ret r) →
  account_found (w_store c.1) (w_store c'.1) id r.
Proof.
  intros Hfee Hps Hinv Hi Hrun Hr.
  apply (thread_outcome E s c c' i _ r (λ r m', account_found (w_store c.1) m' id r)
    Hfee Hps Hinv Hrun Hi Hr). apply FindByID_safe.
Qed.

(** One reader loads the stream; a deposit and a second reader, which saves a
    newer snapshot, overtake it. *)
Lemma FindByID_linearizable_witness :
  let threads := [Repository.FindByID 1 "acc1"; Repository.FindByID 1 "acc1";
                  (r ← Deposit 2500 "acc1"; mret (Err ErrForbidden))] in
  let c := (sample_world sample_store, threads) in
  let c' := pool_result sample_env [0; 2; 2; 2; 1; 1; 1; 0; 0]%nat c in
  let r := Ok (mkAccount "acc1" 12500 0 12500) in
  c'.2 !! 0%nat = Some (Ret r) ∧ account_found sample_store (w_store c'.1) "acc1" r.
Proof.
  intros threads c c' r. assert (c'.2 !! 0%nat = Some (Ret r)) as Hr by (vm_compute; reflexivity).
  split; [exact Hr|].
  refine (FindByID_linearizable sample_env sample_service c c' 0 1 "acc1" _ _ _ _ _ _ Hr).
  - exact sample_fee.
  - apply Forall_cons_2; [repeat constructor|]. apply Forall_cons_2; [repeat constructor|].
    apply Forall_singleton. apply (thread_map _ (Deposit 2500 "acc1") (λ _, Err ErrForbidden)).
    constructor. vm_compute; split; by intros.
  - exact sample_inv.
  - reflexivity.
  - apply pool_result_steps.
Defined.

(** A deposit that runs alone always answers: amounts below the minimum and
    unknown accounts are refused and change nothing; any other deposit succeeds,
    appends one credit, and raises the balance and the available balance by the
    amount, in 64-bit arithmetic. *)
Theorem Deposit_alone (E : Env) amount id (w : World MemoryStore) :
  let m := w_store w in
  let a := ReplayAccount id (stream m id) in
  let '(r, w') := interp E (Deposit amount id) w in
  if amount <? minimumDepositAmount then r = Err ErrInvalidDepositAmount ∧ w_store w' = m
  else if bool_decide (stream m id = []) then r = Err ErrAccountNotFound ∧ w_store w' = m
  else ∃ now,
    let ev := deposit_event id (length (stream m id)) amount now in
    w_store w' = put_stream id (stream m id ++ [ev]) m ∧
    r = Ok (mkDepositReceipt a
      (mkAccount id (acc_Balance a +! amount) (acc_ReservedBalance a)
         (acc_Balance a +! amount -! acc_ReservedBalance a)) amount).
Proof. apply deposit_runs. Qed.

(** Nothing bounds a deposit from above: one that carries the balance past
    [MaxInt64] is accepted and leaves the account with a negative balance. *)
Theorem Deposit_wraps (E : Env) amount id (w : World MemoryStore) :
  let b := acc_Balance (ReplayAccount id (stream (w_store w) id)) in
  stream (w_store w) id ≠ [] → minimumDepositAmount ≤ amount ≤ MaxInt64 →
  MaxInt64 < b + amount → b ≤ MaxInt64 →
  ∃ receipt, (interp E (Deposit amount id) w).1 = Ok receipt ∧
    acc_Balance (dr_FinalAccount receipt) = b + amount - 2 ^ 64 ∧
    acc_Balance (dr_FinalAccount receipt) < 0.
Proof.
  cbv zeta. intros Hs Ha Hover Hb. pose proof (deposit_runs E amount id w) as Hrun.
  cbv zeta in Hrun. destruct (interp E _ w) as [r w']. rewrite (proj2 (Z.ltb_ge _ _)) in Hrun by lia.
  rewrite bool_decide_eq_false_2 in Hrun by done. destruct Hrun as (now & _ & ->).
  eexists. split; [reflexivity|]. cbn [dr_FinalAccount acc_Balance].
  generalize dependent (acc_Balance (ReplayAccount id (stream (w_store w) id))). intros b Hover Hb.
  replace (b +! amount) with (b + amount - 2 ^ 64); [unfold MaxInt64 in *; lia|].
  rewrite <-(int64_wrap_id (b + amount - 2 ^ 64)) by (unfold int64_ok, MinInt64, MaxInt64 in *; lia).
  apply int64_wrap_congr. rewrite <-(Z.mod_add (b + amount - 2 ^ 64) 1) by lia. f_equal. lia.
Qed.

Lemma Deposit_wraps_witness :
  let w := sample_world (put_stream "acc1" [opened "acc1" MaxInt64] NewMemoryStore) in
  ∃ receipt, (interp sample_env (Deposit 1000 "acc1") w).1 = Ok receipt ∧
    acc_Balance (dr_FinalAccount receipt) = MaxInt64 + 1000 - 2 ^ 64 ∧
    acc_Balance (dr_FinalAccount receipt) < 0.
Proof.
  apply (Deposit_wraps sample_env 1000 "acc1"
    (sample_world (put_stream "acc1" [opened "acc1" MaxInt64] NewMemoryStore)));
    vm_compute; try split; by intros.
Defined.

(** ** The demo accounts *)

Definition opening (id : string) (amount : Money) (now : Time) : Event :=
  EAccountOpened {| ao_Aggregate := id; ao_Type := "AccountOpened"; ao_Seq := 0;
    ao_Occurred := now; ao_ID := id; ao_InitialBalance := amount |}.

Lemma seed_accounts_open (E : Env) accounts : ∀ (w : World MemoryStore),
  NoDup accounts.*1 →
  let '(r, w') := interp E (seed_accounts accounts) w in
  r = Ok tt ∧
  (∀ id, stream (w_store w) id ≠ [] ∨ id ∉ accounts.*1 →
     stream (w_store w') id = stream (w_store w) id) ∧
  (∀ id amount, (id, amount) ∈ accounts → stream (w_store w) id = [] →
     ∃ now, stream (w_store w') id = [opening id amount now]).
Proof.
  induction accounts as [|[id amount] accounts IH]; intros w Hnd.
  { simpl. split_and!; [done..|]. by intros id amount []%elem_of_nil. }
  rewrite fmap_cons in Hnd |- *. apply NoDup_cons in Hnd as [Hid Hnd]. cbn [fst] in *.
  simpl. store_cbv. unfold Load, seq_of. rewrite Z.gtb_ltb.
  destruct (Z.ltb_spec 0 (Z.of_nat (length (stream (w_store w) id)))) as [Hl|Hl].
  - set (w1 := mkWorld _ _ _ _). specialize (IH w1 Hnd). destruct (interp E _ w1) as [r w'].
    destruct IH as (-> & Hkeep & Hopen). split_and!; [done|..].
    + intros id' Hs. apply Hkeep. rewrite not_elem_of_cons in Hs. tauto.
    + intros id' amount' [[= -> ->]|Hin]%elem_of_cons Hs; [by rewrite Hs in Hl|by apply Hopen].
  - assert (stream (w_store w) id = []) as Hnil by (apply nil_length_inv; lia).
    simpl. store_cbv. unfold Append, seq_of. simpl. rewrite Hnil. simpl.
    set (ev := EAccountOpened _). set (w1 := mkWorld _ _ _ _). specialize (IH w1 Hnd).
    destruct (interp E _ w1) as [r w']. destruct IH as (-> & Hkeep & Hopen). cbn [w_store w1] in *.
    assert (∀ id', id' ≠ id → stream (put_stream id [ev] (w_store w)) id' = stream (w_store w) id')
      as Hother by (intros id' Hne; by rewrite stream_put, decide_False).
    assert (stream (w_store w') id = [ev]) as Hev.
    { rewrite Hkeep by by right. by rewrite stream_put, decide_True. }
    split_and!; [done|..].
    + intros id' Hs. rewrite not_elem_of_cons in Hs.
      assert (id' ≠ id) as Hne by (intros ->; tauto). rewrite Hkeep; rewrite Hother by done; tauto.
    + intros id' amount' [[= -> ->]|Hin]%elem_of_cons Hs; [by exists (env_now E (S (w_calls w)))|].
      apply Hopen; [done|]. rewrite Hother; [done|]. intros ->.
      apply Hid. apply list_elem_of_fmap. by exists (id, amount').
Qed.

Lemma seed_accounts_again (E : Env) accounts : ∀ (w : World MemoryStore),
  (∀ id, id ∈ accounts.*1 → stream (w_store w) id ≠ []) →
  ∃ w', interp E (seed_accounts accounts) w = (Ok tt, w') ∧ w_store w' = w_store w.
Proof.
  induction accounts as [|[id amount] accounts IH]; intros w Hs; [by exists w|].
  rewrite fmap_cons in Hs. simpl. store_cbv. unfold Load, seq_of. rewrite Z.gtb_ltb.
  destruct (Z.ltb_spec 0 (Z.of_nat (length (stream (w_store w) id)))) as [Hl|Hl].
  - apply (IH (mkWorld _ _ _ _)). intros id' Hid. apply Hs. by right.
  - destruct (Hs id); [by left|]. apply nil_length_inv. lia.
Qed.

(** The demo accounts are opened once: at start-up acc1 and acc2 get one opening
    event each if they have no events, with 100.00 and 50.00, and no other account
    changes; at any later start, whatever has happened in between, nothing
    changes. *)
Theorem seedIfEmpty_once (E E2 : Env) (w w2 : World MemoryStore) :
  evolves (w_store (interp E seedIfEmpty w).2) (w_store w2) →
  let '(r, w1) := interp E seedIfEmpty w in
  let '(r2, w3) := interp E2 seedIfEmpty w2 in
  r = Ok tt ∧
  (∀ id, stream (w_store w) id ≠ [] ∨ id ∉ ["acc1"; "acc2"] →
     stream (w_store w1) id = stream (w_store w) id) ∧
  (∀ id amount, (id, amount) ∈ [("acc1", 10000); ("acc2", 5000)] → stream (w_store w) id = [] →
     ReplayAccount id (stream (w_store w1) id) = mkAccount id amount 0 amount) ∧
  r2 = Ok tt ∧ w_store w3 = w_store w2.
Proof.
  intros He. pose proof (seed_accounts_open E [("acc1", 10000); ("acc2", 5000)] w) as Hopen.
  change (seed_accounts _) with seedIfEmpty in Hopen.
  destruct (interp E seedIfEmpty w) as [r w1]. destruct Hopen as (-> & Hkeep & Hopen).
  { apply (bool_decide_eq_true_1 _). by vm_compute. }
  assert (∀ id amount, (id, amount) ∈ [("acc1", 10000); ("acc2", 5000)] →
    stream (w_store w1) id ≠ []) as Hne.
  { intros id amount Hin. destruct (decide (stream (w_store w) id = [])) as [Hnil|Hs].
    - destruct (Hopen id amount Hin Hnil) as [now ->]. done.
    - by rewrite Hkeep by by left. }
  destruct (seed_accounts_again E2 [("acc1", 10000); ("acc2", 5000)] w2) as (w3 & Hrun & Hw3).
  { intros id Hid. apply list_elem_of_fmap in Hid as ([id' amount] & -> & Hin). simpl.
    specialize (Hne id' amount Hin). pose proof (stream_length _ _ id' He) as Hl. intros Hnil.
    cbn [snd] in Hl. rewrite Hnil in Hl. destruct (stream (w_store w1) id'); simpl in Hl; [done|lia]. }
  change (seed_accounts _) with seedIfEmpty in Hrun. rewrite Hrun. split_and!; try done.
  intros id amount Hin Hnil. destruct (Hopen id amount Hin Hnil) as [now ->].
  rewrite !elem_of_cons, elem_of_nil in Hin. destruct_or! Hin; try done; injection Hin as -> ->; vm_compute; reflexivity.
Qed.

Lemma seedIfEmpty_once_witness :
  let '(_, w1) := interp sample_env seedIfEmpty (sample_world NewMemoryStore) in
  ReplayAccount "acc2" (stream (w_store w1) "acc2") = mkAccount "acc2" 5000 0 5000 ∧
  w_store (interp sample_env seedIfEmpty w1).2 = w_store w1.
Proof.
  pose proof (seedIfEmpty_once sample_env sample_env (sample_world NewMemoryStore)
    (interp sample_env seedIfEmpty (sample_world NewMemoryStore)).2 (reflexivity _)) as H.
  destruct (interp sample_env seedIfEmpty (sample_world NewMemoryStore)) as [r w1]. cbn [snd] in H.
  destruct (interp sample_env seedIfEmpty w1) as [r2 w3]. destruct H as (_ & _ & Ha & _ & Hw).
  split; [|exact Hw]. apply Ha; [|vm_compute; reflexivity]. right. left.
Defined.
