(* ===== verification/Solvency.v ===== *)
(** * Solvency: no account is overdrawn.

    [solvent] says that every balance covers the holds of the transfers that are
    not posted yet.  Every call keeps it, under two conditions on the run
    ([sound]): the numbers fit in 64 bits, and the calls that could spend money
    twice are not made (a posting without its hold, a manual adjustment that names
    a transfer). *)
From S2P Require Export Banking.

(** ** Definitions *)

(** The holds of the transfers that are not posted, and what they take from [id]. *)
Definition unposted (m : MemoryStore) : gmap string memoryReservation :=
  filter (λ kv, posted m kv.1 = false) (ms_reservations m).
Definition claimed (m : MemoryStore) (id : string) : Z := sum_map (hold_on id) (unposted m).

Definition adjustment_sound (r : AdjustmentRequest) : Prop :=
  0 ≤ adj_Amount r ∧
  (adj_OriginalTransferID r ≠ "" → 0 ≤ adj_Fee r ∧ adj_Amount r + adj_Fee r ≤ MaxInt64).

Record solvent (m : MemoryStore) : Prop := {
  so_funds : ∀ id, claimed m id ≤ exact_balance (stream m id);
  so_events : ∀ id, Forall (λ ev, 0 ≤ event_amount ev) (stream m id);
  so_deposits : map_Forall (λ _ c, 0 ≤ cus_RequestedDeposit c) (ms_customers m);
  so_adjustments : map_Forall (λ _ r, adjustment_sound r) (ms_adjustments m);
}.

(** No balance and no sum of holds leaves the 64-bit numbers. *)
Definition fits (m : MemoryStore) : Prop :=
  ∀ id, exact_balance (stream m id) ≤ MaxInt64 ∧ held m id ≤ MaxInt64.

(** The transfer [t] is posted, or its hold is open. *)
Definition hold_open (m : MemoryStore) (t : string) : Prop :=
  posted m t = true ∨ ∃ h, ms_reservations m !! t = Some h ∧ res_State h = "reserved".

(** The runs considered. *)
Definition sound (X : Type) (op : storeE X) (m : MemoryStore) : Prop :=
  call_fresh X op m ∧ fits m ∧
  match op with
  | cPostTransferLedger r _ => hold_open m (tr_ID r)
  | cCreateAdjustment r => adj_Type r = AdjustmentManual → adj_OriginalTransferID r = ""
  | _ => True
  end.

(** What the services see to themselves, whatever the state. *)
Definition tame (X : Type) (op : svcE X) : Prop :=
  match op with
  | onStore (cAppend ev _) => ∃ e, ev = EMoneyCredited e ∧ 0 ≤ mc_Amount e
  | onStore (cWithdrawAvailable _ amount _) => 0 ≤ amount
  | onStore (cCreateCustomerApplication c) => 0 ≤ cus_RequestedDeposit c
  | onStore (cCreateAdjustment r) => adj_Type r = AdjustmentManual → 0 ≤ adj_Amount r
  | _ => True
  end.

(** ** Facts: claims *)

Lemma unposted_lookup m t h :
  unposted m !! t = Some h ↔ ms_reservations m !! t = Some h ∧ posted m t = false.
Proof. unfold unposted. by rewrite map_lookup_filter_Some. Qed.

Lemma claimed_same m m' id :
  ms_reservations m' = ms_reservations m → ms_ledgerPostings m' = ms_ledgerPostings m →
  claimed m' id = claimed m id.
Proof. intros Hr Hp. unfold claimed, unposted, posted. by rewrite Hr, Hp. Qed.

Lemma sum_filter_le {V} (f : V → Z) (P : string * V → Prop) `{∀ x, Decision (P x)} m :
  map_Forall (λ _ v, 0 ≤ f v) m → sum_map f (filter P m) ≤ sum_map f m.
Proof.
  induction m as [|k v m Hk IH] using map_ind; intros Hm; [by rewrite map_filter_empty|].
  apply map_Forall_insert in Hm as [Hv Hm]; [|done]. specialize (IH Hm). rewrite sum_map_insert by done.
  destruct (decide (P (k, v))).
  - rewrite map_filter_insert_True, sum_map_insert by (done || by rewrite map_lookup_filter, Hk). lia.
  - rewrite map_filter_insert_not' by (done || by rewrite Hk). lia.
Qed.

Section Claims.
Context (m : MemoryStore).
Hypothesis Hinv : bank_inv m.

Lemma hold_nonneg t h id : ms_reservations m !! t = Some h → 0 ≤ hold_on id h.
Proof.
  intros Hh. destruct (sk_holds _ (inv_saga _ Hinv) t h Hh) as (r & Hr & Hok).
  destruct (wf_transfer m t r (inv_wf _ Hinv) Hr) as [_ [_ _ Ha Hf _]].
  unfold hold_on. rewrite (hk_amount _ _ _ Hok). case_match; lia.
Qed.

Lemma claimed_nonneg id : 0 ≤ claimed m id.
Proof. apply sum_map_nonneg. intros t h [Hh _]%unposted_lookup. by eapply hold_nonneg. Qed.

Lemma claimed_le_held id : claimed m id ≤ held m id.
Proof. apply sum_filter_le. intros t h Hh. by eapply hold_nonneg. Qed.

(** A new hold. *)
Lemma claimed_reserve m' t h id :
  ms_reservations m !! t = None → ms_reservations m' = <[t := h]> (ms_reservations m) →
  ms_ledgerPostings m' = ms_ledgerPostings m → 0 ≤ hold_on id h →
  claimed m' id ≤ claimed m id + hold_on id h.
Proof.
  intros Hnew Hr Hp Hh. unfold claimed, unposted, posted. rewrite Hr, Hp.
  destruct (decide (posted m t = false)) as [Ht|Ht].
  - rewrite map_filter_insert_True, sum_map_insert by (done || by rewrite map_lookup_filter, Hnew). lia.
  - rewrite map_filter_insert_not' by (done || by rewrite Hnew). lia.
Qed.

(** A hold that is settled. *)
Lemma claimed_settle m' t h h' id :
  ms_reservations m !! t = Some h → ms_reservations m' = <[t := h']> (ms_reservations m) →
  ms_ledgerPostings m' = ms_ledgerPostings m → hold_on id h' = 0 →
  claimed m' id ≤ claimed m id.
Proof.
  intros Hold Hr Hp Hh. unfold claimed, unposted, posted. rewrite Hr, Hp.
  pose proof (hold_nonneg t h id Hold). destruct (decide (posted m t = false)) as [Ht|Ht].
  - rewrite map_filter_insert_True by done.
    rewrite (sum_map_update _ _ _ h) by (apply unposted_lookup; by split). lia.
  - rewrite map_filter_insert_not'; [done|done|]. intros y Hy. simplify_eq. exact Ht.
Qed.

(** The hold of a transfer that is posted. *)
Lemma claimed_post m' t h id :
  ms_reservations m !! t = Some h → posted m t = false → ms_reservations m' = ms_reservations m →
  ms_ledgerPostings m' = <[t := true]> (ms_ledgerPostings m) →
  claimed m' id = claimed m id - hold_on id h.
Proof.
  intros Hold Ht Hr Hp.
  assert (unposted m' = delete t (unposted m)) as Hdel.
  { apply map_eq. intros k. apply option_eq. intros h'.
    rewrite lookup_delete_Some, !unposted_lookup, Hr. unfold posted. rewrite Hp.
    destruct (decide (t = k)) as [<-|Hne].
    - rewrite lookup_insert_eq. simpl. split; [by intros [_ ?]|by intros [? _]].
    - rewrite lookup_insert_ne by done. split; [by intros ?|by intros [_ ?]]. }
  unfold claimed. rewrite Hdel. assert (unposted m !! t = Some h) as Hu by by apply unposted_lookup.
  rewrite <-(insert_delete_id (unposted m) t h Hu) at 2.
  rewrite sum_map_insert by apply lookup_delete_eq. lia.
Qed.

(** What the code computes as available is what the balance leaves over all holds. *)
Lemma available_exact id :
  solvent m → fits m →
  acc_AvailableBalance (ReplayAccount id (stream m id)) = exact_balance (stream m id) - held m id.
Proof.
  intros Hs Hf. rewrite ReplayAccount_exact; simpl.
  - rewrite (inv_holds _ Hinv id). apply int64_wrap_id.
    pose proof (so_funds _ Hs id). pose proof (claimed_nonneg id). pose proof (claimed_le_held id).
    destruct (Hf id). unfold int64_ok, MinInt64, MaxInt64 in *. lia.
  - destruct (stream_wf m id (inv_wf _ Hinv)) as [->|Hok]; [done|]. by eapply stream_ok_amounts.
Qed.

Lemma available_claims id amount :
  solvent m → fits m → (acc_AvailableBalance (ReplayAccount id (stream m id)) <? amount) = false →
  amount ≤ exact_balance (stream m id) - claimed m id.
Proof.
  intros Hs Hf Ha%Z.ltb_ge. rewrite available_exact in Ha by done.
  pose proof (claimed_le_held id). lia.
Qed.
End Claims.

(** ** Facts: calls *)

(** One more event, and claims that change with it. *)
Lemma solvent_appended m m' id ev :
  solvent m → ms_streams m' = <[id := stream m id ++ [ev]]> (ms_streams m) →
  0 ≤ event_amount ev →
  claimed m' id ≤ balance_step (exact_balance (stream m id)) ev →
  (∀ id', id' ≠ id → claimed m' id' ≤ claimed m id') →
  ms_customers m' = ms_customers m → ms_adjustments m' = ms_adjustments m → solvent m'.
Proof.
  intros [Hf He Hd Ha] Hst Hev Hc Hother Hcus Hadj.
  assert (∀ id', stream m' id' = if decide (id = id') then stream m id ++ [ev] else stream m id') as Hput.
  { intros id'. rewrite (stream_streams (put_stream id (stream m id ++ [ev]) m)) by done. apply stream_put. }
  split; [| |by rewrite Hcus|by rewrite Hadj]; intros id'; rewrite Hput;
    destruct (decide (id = id')) as [<-|Hne].
  - by rewrite exact_balance_snoc.
  - etrans; [by apply Hother|apply Hf].
  - apply Forall_app. split; [apply He|by apply Forall_singleton].
  - apply He.
Qed.

(** The same, where no hold and no posting changes. *)
Lemma solvent_movement m id ev :
  solvent m → 0 ≤ event_amount ev → claimed m id ≤ balance_step (exact_balance (stream m id)) ev →
  solvent (put_stream id (stream m id ++ [ev]) m).
Proof. intros Hs Hev Hc. by eapply (solvent_appended m). Qed.

Lemma solvent_credit m id e :
  solvent m → 0 ≤ mc_Amount e → solvent (put_stream id (stream m id ++ [EMoneyCredited e]) m).
Proof. intros Hs He. apply solvent_movement; [done|done|]. simpl. pose proof (so_funds _ Hs id). lia. Qed.

Lemma solvent_debit m id e :
  solvent m → 0 ≤ md_Amount e ≤ exact_balance (stream m id) - claimed m id →
  solvent (put_stream id (stream m id ++ [EMoneyDebited e]) m).
Proof. intros Hs He. apply solvent_movement; [done|apply He|]. simpl. lia. Qed.

(** Tables that change alone. *)
Lemma solvent_customers m customers :
  solvent m → map_Forall (λ _ c, 0 ≤ cus_RequestedDeposit c) customers →
  solvent (set_customers customers m).
Proof. intros [Hf He _ Ha] Hc. by split. Qed.

Lemma solvent_adjustment m k r :
  solvent m → adjustment_sound r → solvent (set_adjustments (<[k := r]> (ms_adjustments m)) m).
Proof. intros [Hf He Hc Ha] Hr. split; [done..|]. by apply map_Forall_insert_2. Qed.

Section Calls.
Context (m : MemoryStore).
Hypothesis Hinv : bank_inv m.
Hypothesis Hfits : fits m.
Hypothesis Hs : solvent m.

Lemma WithdrawAvailable_solvent id amount at_ :
  0 ≤ amount → solvent (WithdrawAvailable id amount at_ m).2.
Proof.
  intros Ha. unfold WithdrawAvailable. case_match; [done|]. case_match eqn:Hb; [done|].
  apply solvent_debit; [done|]. split; [done|]. by eapply available_claims.
Qed.

Lemma ReserveTransferFunds_solvent r at_ :
  transfer_ok r → solvent (ReserveTransferFunds r at_ m).2.
Proof.
  intros Hok. unfold ReserveTransferFunds. destruct (ms_reservations m !! tr_ID r) eqn:Hnew; [done|].
  case_match; [done|]. case_match eqn:Hb; [done|]. simpl. destruct Hok as [_ _ Ha Hf Ht].
  assert (tr_Amount r +! tr_Fee r = tr_Amount r + tr_Fee r) as Hsum
    by (apply int64_wrap_id; unfold int64_ok, MinInt64, MaxInt64 in *; lia).
  eapply available_claims in Hb; [|done..]. rewrite Hsum in *.
  assert (∀ id, let h := mkMemoryReservation (tr_SourceAccountID r) (tr_Amount r + tr_Fee r) "reserved" in
    claimed (put_stream (tr_SourceAccountID r) (stream m (tr_SourceAccountID r) ++ [EFundsReserved
      (mkFundsReserved (tr_SourceAccountID r) "FundsReserved" (seq_of (stream m (tr_SourceAccountID r)))
        at_ (tr_SourceAccountID r) (tr_Amount r + tr_Fee r) (tr_ID r))])
      (set_reservations (<[tr_ID r := h]> (ms_reservations m)) m)) id ≤ claimed m id + hold_on id h) as Hc.
  { intros id. eapply claimed_reserve; [done|done..|]. unfold hold_on. case_match; simpl; lia. }
  eapply solvent_appended; [done|reflexivity|simpl; lia| | |done|done]; simpl.
  - etrans; [apply Hc|]. unfold hold_on. simpl. rewrite bool_decide_eq_true_2 by done. simpl. lia.
  - intros id Hne. etrans; [apply Hc|]. unfold hold_on. simpl. rewrite bool_decide_eq_false_2 by done.
    simpl. lia.
Qed.

Lemma finishReservation_solvent r at_ state :
  state ≠ "reserved" → solvent (finishReservation r at_ state m).2.
Proof.
  intros Hstate. unfold finishReservation.
  destruct (ms_reservations m !! tr_ID r) as [h|] eqn:Hh; [|done].
  case_match; [done|]. case_match; [done|]. simpl. set (h' := mkMemoryReservation _ _ state).
  assert (∀ id, hold_on id h' = 0) as Hzero.
  { intros id. unfold hold_on. simpl. by rewrite (bool_decide_eq_false_2 (state = _)), andb_false_r by done. }
  assert (0 ≤ res_Amount h) as Hpos.
  { destruct (sk_holds _ (inv_saga _ Hinv) _ h Hh) as (t & Ht & Hok).
    destruct (wf_transfer m _ t (inv_wf _ Hinv) Ht) as [_ [_ _ ? ? _]]. rewrite (hk_amount _ _ _ Hok). lia. }
  eapply (solvent_appended m); [done|reflexivity|by case_match| | |done|done].
  - etrans; [by eapply (claimed_settle m Hinv _ (tr_ID r) h h')|].
    etrans; [apply Hs|]. by case_match.
  - intros id _. by eapply (claimed_settle m Hinv _ (tr_ID r) h h').
Qed.

Lemma PostTransferLedger_solvent r at_ :
  known m r → hold_open m (tr_ID r) → solvent (PostTransferLedger r at_ m).2.
Proof.
  intros (Hok & _ & r0 & Hr0 & Hstep) Hopen.
  destruct (PostTransferLedger_streams r at_ m) as [->|(Hnew & Hp & _ & Hst)]; [by apply Hok|done|].
  destruct Hopen as [Hopen|(h & Hh & Hstate)]; [congruence|].
  destruct (sk_holds _ (inv_saga _ Hinv) _ h Hh) as (r1 & Hr1 & Hhold). simplify_eq.
  destruct Hok as [_ Hne Ha Hf _].
  assert (∀ id, hold_on id h =
    if decide (tr_SourceAccountID r = id) then tr_Amount r + tr_Fee r else 0) as Hon.
  { intros id. unfold hold_on. rewrite (hk_account _ _ _ Hhold), (hk_amount _ _ _ Hhold), Hstate.
    rewrite (ts_Source _ _ Hstep), (ts_Amount _ _ Hstep), (ts_Fee _ _ Hstep), andb_true_r.
    destruct (decide _); [by rewrite bool_decide_eq_true_2|by rewrite bool_decide_eq_false_2]. }
  cbv zeta in Hp, Hst. set (m' := (PostTransferLedger r at_ m).2) in *.
  assert (ms_reservations m' = ms_reservations m ∧ ms_customers m' = ms_customers m ∧
    ms_adjustments m' = ms_adjustments m) as (Hres & Hcus & Hadj).
  { unfold m', PostTransferLedger. by repeat case_match. }
  split; [| |rewrite Hcus; apply Hs|rewrite Hadj; apply Hs]; intros id; rewrite Hst.
  - rewrite (claimed_post m m' (tr_ID r) h id), Hon by done.
    pose proof (so_funds _ Hs id). repeat destruct (decide _) as [<-|_]; try congruence.
    + rewrite source_legs_balance by done. lia.
    + rewrite exact_balance_snoc. simpl. lia.
    + lia.
  - repeat destruct (decide _);
      [|apply Forall_app; split; [apply Hs|apply Forall_singleton; simpl; lia]|apply Hs].
    unfold source_legs, fee_legs. case_match; rewrite ?Forall_app, ?Forall_singleton; simpl;
      (split_and!; [apply Hs|lia..]).
Qed.

Lemma CreateCustomerApplication_solvent (G : GoRuntime) c :
  0 ≤ cus_RequestedDeposit c → solvent (CreateCustomerApplication c m).2.
Proof.
  intros Hc. unfold CreateCustomerApplication. repeat case_match; try done.
  apply solvent_customers; [done|]. apply map_Forall_insert_2; [done|apply Hs].
Qed.

Lemma ApproveApplication_solvent id adm acc at_ :
  ms_streams m !! acc = None → solvent (ApproveApplication id adm acc at_ m).2.
Proof.
  intros Hnew. unfold ApproveApplication. destruct (ms_customers m !! id) as [c|] eqn:Hc; [|done].
  case_match; [done|]. pose proof (so_deposits _ Hs _ _ Hc) as Hpos. simpl in Hpos.
  set (m1 := set_customers _ m).
  assert (solvent m1) as Hs1
    by (apply solvent_customers; [done|]; apply map_Forall_insert_2; [done|apply Hs]).
  assert (stream m1 acc = []) as Hempty by (unfold stream; simpl; by rewrite Hnew).
  cbv zeta. cbn [snd]. set (ev := EAccountOpened _).
  pose proof (solvent_movement m1 acc ev Hs1 Hpos) as Happ. pose proof (so_funds _ Hs1 acc) as Hz.
  rewrite Hempty in Happ, Hz. apply Happ. simpl. change (exact_balance []) with 0 in Hz. lia.
Qed.

Lemma RejectApplication_solvent id adm reason at_ : solvent (RejectApplication id adm reason at_ m).2.
Proof.
  unfold RejectApplication. destruct (ms_customers m !! id) as [c|] eqn:Hc; [|done]. case_match; [done|].
  apply solvent_customers; [done|]. apply map_Forall_insert_2; [|apply Hs]. exact (so_deposits _ Hs _ _ Hc).
Qed.

(** The amount of an event that may be reversed is its own. *)
Lemma reversible_nonneg id seq amount direction :
  stream m id !! seq ≫= reversible_movement = Some (amount, direction) → 0 ≤ amount.
Proof.
  destruct (stream m id !! seq) as [ev|] eqn:Hev; [|done]. simpl.
  pose proof (Forall_lookup_1 _ _ _ _ (so_events _ Hs id) Hev) as Hpos.
  destruct ev; simpl in *; try done; case_match; try done; by intros [= <- _].
Qed.

Lemma CreateAdjustment_solvent (G : GoRuntime) r :
  (adj_Type r = AdjustmentManual → 0 ≤ adj_Amount r ∧ adj_OriginalTransferID r = "") →
  solvent (CreateAdjustment r m).2.
Proof.
  intros Hmanual. unfold CreateAdjustment. case_bool_decide as Htype.
  { destruct (Hmanual Htype) as [Ha Hnone]. case_match; [done|]. apply solvent_adjustment; [done|].
    split; [done|]. by rewrite Hnone. }
  destruct (negb _) eqn:Horig; boolify.
  - destruct (ms_transfers m !! _) as [t|] eqn:Ht; [|done]. repeat case_match; try done.
    apply solvent_adjustment; [done|]. destruct (wf_transfer m _ t (inv_wf _ Hinv) Ht) as [_ [_ _ ? ? ?]].
    split; simpl; [lia|]. by intros _.
  - destruct (adj_OriginalEventSequence r) as [seq|]; [|done]. repeat case_match; try done.
    apply solvent_adjustment; [done|]. split; simpl; [by eapply reversible_nonneg|]. by rewrite Horig.
Qed.

Lemma appendCredit_solvent m' r at_ account amount counterparty :
  solvent m' → 0 ≤ amount → solvent (appendCredit r at_ account amount counterparty m').
Proof. intros. by apply solvent_credit. Qed.

Lemma appendDebit_solvent r at_ account amount counterparty :
  0 ≤ amount → solvent (appendDebit r at_ account amount counterparty m).2.
Proof.
  intros Ha. unfold appendDebit. case_match eqn:Hb; [done|]. apply solvent_debit; [done|].
  split; [done|]. by eapply available_claims.
Qed.

Lemma ApproveAdjustment_solvent id adm at_ : solvent (ApproveAdjustment id adm at_ m).2.
Proof.
  unfold ApproveAdjustment. destruct (ms_adjustments m !! id) as [r|] eqn:Hr; [|done].
  pose proof (so_adjustments _ Hs _ _ Hr) as Hsound. destruct (Hsound) as [Ha Htotal].
  do 2 (case_match; [done|]).
  pose proof (appendDebit_solvent r at_ (adj_CounterpartyAccountID r) (adj_Amount r)
    (adj_AccountID r) Ha) as Hd1.
  pose proof (appendDebit_solvent r at_ (adj_AccountID r) (adj_Amount r) "" Ha) as Hd2.
  destruct (negb (bool_decide (adj_OriginalTransferID r = ""))) eqn:Horig;
    [|destruct (bool_decide (adj_Direction r = "credit"))].
  - boolify. destruct (Htotal Horig) as [Hf Hmax].
    destruct (appendDebit _ _ (adj_CounterpartyAccountID r) _ _ m) as [[[]|e] m1]; [|exact Hd1].
    apply solvent_adjustment; [|done]. apply appendCredit_solvent; [exact Hd1|].
    rewrite int64_wrap_id; [lia|]. unfold int64_ok, MinInt64, MaxInt64 in *. lia.
  - apply solvent_adjustment; [|done]. by apply appendCredit_solvent.
  - destruct (appendDebit _ _ (adj_AccountID r) _ _ m) as [[[]|e] m1]; [|exact Hd2].
    by apply solvent_adjustment.
Qed.

Lemma RejectAdjustment_solvent id adm reason at_ : solvent (RejectAdjustment id adm reason at_ m).2.
Proof.
  unfold RejectAdjustment. destruct (ms_adjustments m !! id) as [r|] eqn:Hr; [|done].
  do 2 (case_match; [done|]). apply solvent_adjustment; [done|]. exact (so_adjustments _ Hs _ _ Hr).
Qed.

(** The calls that touch no money. *)
Lemma solvent_untouched m' :
  ms_streams m' = ms_streams m → ms_reservations m' = ms_reservations m →
  ms_ledgerPostings m' = ms_ledgerPostings m → ms_customers m' = ms_customers m →
  ms_adjustments m' = ms_adjustments m → solvent m'.
Proof.
  intros Hst Hr Hp Hc Ha. destruct Hs as [Hf He Hd Hadj]. split; [| |by rewrite Hc|by rewrite Ha]; intros id.
  - rewrite (claimed_same m m') by done. by rewrite (stream_streams m m').
  - by rewrite (stream_streams m m').
Qed.
End Calls.

(** A call that meets its contract. *)
Lemma call_solvent X (op : storeE X) (G : GoRuntime) m :
  tame X (onStore op) → call_contract X op m → sound X op m → bank_inv m → solvent m →
  solvent (store_call G op m).2.
Proof.
  intros Ht [Ho Hpre] (Hfresh & Hfits & Hsound) Hinv Hs.
  destruct op; store_cbv; simpl in Ht, Ho, Hpre, Hfresh, Hsound; try exact Hs;
    try (apply (solvent_untouched m); [done|..];
      unfold SaveSnapshot, CreateTransfer, UpdateTransferSaga, RecordComplianceDecision, UpsertAdmin,
        CreateSession, DeleteSession; by repeat case_match).
  - destruct Ht as (e & -> & He). unfold Append. case_match; [|done]. by apply solvent_credit.
  - by apply WithdrawAvailable_solvent.
  - by apply ReserveTransferFunds_solvent.
  - destruct Hpre. by apply PostTransferLedger_solvent.
  - by apply finishReservation_solvent.
  - by apply finishReservation_solvent.
  - by apply CreateCustomerApplication_solvent.
  - by apply ApproveApplication_solvent.
  - by apply RejectApplication_solvent.
  - apply CreateAdjustment_solvent; auto.
  - by apply ApproveAdjustment_solvent.
  - by apply RejectAdjustment_solvent.
Qed.

(** ** Facts: programs *)

Abbreviation solvently p m :=
  (safe (St := MemoryStore) (λ m, bank_inv m ∧ solvent m) evolves sound call_contract (λ _ _, True) p m).

Section Programs.
Context (s : TransferService).

Lemma Deposit_tame amount id : calls_only tame (Deposit amount id).
Proof.
  unfold Deposit, minimumDepositAmount. destruct (Z.ltb_spec amount 1000); [done|].
  plain_solve; try done. eexists. split; [reflexivity|]. simpl. lia.
Qed.

Lemma Withdraw_tame amount id : calls_only tame (Withdraw true amount id).
Proof.
  unfold Withdraw, minimumWithdrawAmount. destruct (Z.ltb_spec amount 1000); [done|].
  plain_solve; try done. lia.
Qed.

Lemma AdjustmentCreate_tame r adm : calls_only tame (AdjustmentService.Create r adm).
Proof.
  unfold AdjustmentService.Create, randomID. cbv zeta.
  destruct (AdjustmentService.invalid_request _) eqn:Hv; [done|].
  plain_solve; try done. intros Htype. simpl in *. revert Hv.
  unfold AdjustmentService.invalid_request. simpl. rewrite Htype.
  destruct (Z.ltb_spec (adj_Amount r) 1); [|lia]. rewrite !orb_true_r. simpl. by rewrite ?orb_true_r.
Qed.

(** A deposit that is asked for is not negative. *)
Lemma valid_deposit `{GoText} `{GoRuntime} c now birth :
  validateOnboarding c now = Ok birth → 0 ≤ oc_InitialDeposit c.
Proof.
  unfold validateOnboarding, validate_details. destruct (Z.ltb_spec (oc_InitialDeposit c) 0); [|lia].
  simpl. by repeat case_match.
Qed.

Lemma Onboard_tame `{GoText} `{GoRuntime} command : calls_only tame (Onboard command).
Proof.
  unfold Onboard, wrap_error, hashPassword, randomID. plain_step; [plain_step|].
  destruct (validateOnboarding _ _) as [birth|e] eqn:Hv; [|exact I]. apply valid_deposit in Hv.
  plain_solve; done.
Qed.

Lemma Process_tame r : calls_only tame (Process s r).
Proof. unfold Process, on_error, handleStepError, retry, advance. plain_solve; done. Qed.

Lemma Run_tame rounds : calls_only tame (Run s rounds).
Proof.
  assert (∀ items, calls_only tame (process_items s items)) as Hitems.
  { induction items as [|r items IH]; [done|]. cbn [process_items]. plain_step; [by plain_solve|].
    plain_step; [exact I|]. apply calls_only_bind; [apply Process_tame|done]. }
  induction rounds as [|rounds IH]; [done|]. cbn [Run]. plain_step; [by plain_solve|].
  assert (calls_only tame (ProcessDue s)) as Hdue.
  { unfold ProcessDue. plain_step; [by plain_solve|]. plain_step; [by plain_solve|]. apply Hitems. }
  plain_step; try exact I; (apply calls_only_bind; [exact Hdue|done]).
Qed.

(** A tame program that is safe for the bank. *)
Lemma tame_solvently {A} (p : prog A) m :
  calls_only tame p → bank_safe (λ _ _, True) p m → solvently p m.
Proof.
  apply safe_extend; [by intros X op s' [Hf _]|]. intros X op G s' Ht HO Hsound Hi Hs'.
  by eapply call_solvent.
Qed.

(** A withdrawal that loads, checks and appends: what it appends at is what it
    checked. *)
Lemma Withdraw_solvently amount id m : int64_ok amount → solvently (Withdraw false amount id) m.
Proof.
  intros Hamt. unfold Withdraw, try_bind. case_match eqn:Hmin; [by apply safe_ret|].
  apply Z.ltb_ge in Hmin. apply safe_store. intros m1 H1 Hi1 G _. store_cbv.
  split; [done|]. split; [exact Hi1|]. split; [done|].
  unfold Load. case_match eqn:Hz; [by apply safe_ret|]. cbv zeta.
  case_match eqn:Ha; [by apply safe_ret|].
  apply safe_env; [apply _|]. intros now.
  apply safe_store. intros m2 H2 [Hi2 Hs2] G' (_ & Hfits & _). store_cbv.
  pose proof (append_loaded m1 m1 m2 (withdrawal_event id (length (stream m1 id)) amount now) id)
    as Happ. unfold withdrawal_event in Happ. fold (seq_of (stream m1 id)) in Happ.
  set (ev := EMoneyDebited _) in *.
  assert (solvent (Append ev (Version ev) m2).2) as Hs3.
  { unfold Append. case_bool_decide as Hl; [|done]. simpl.
    assert (stream m2 id = stream m1 id) as Heq.
    { apply (stream_unchanged m1 m2); [done|]. unfold seq_of in Hl. simpl in Hl. unfold seq_of in Hl. lia. }
    apply solvent_debit; [done|]. simpl. unfold minimumWithdrawAmount in Hmin. split; [lia|].
    eapply available_claims; [done..|]. by rewrite Heq. }
  destruct (Append _ _ m2) as [r m3]. simpl in Hs3.
  destruct Happ as (HO & Hi3 & H3 & _); [done|done|done|done|by constructor|done..|].
  split; [exact HO|]. split_and!; [done..|]. destruct r as [[]|e]; by apply safe_ret.
Qed.

(** Whatever a thread of the server does. *)
Hypothesis fee_ok : ∀ a, int64_ok (ts_feePolicy s a).

Lemma request_solvently {A} (p : prog A) m : request s p → solvently p m.
Proof.
  intros Hp. destruct Hp as [| [] | | | | | | | | | | | | | | | | | | | |];
    try (by apply Withdraw_solvently);
    (apply tame_solvently; [|by eapply request_safe; [|by constructor]]);
    first [apply Deposit_tame|apply Withdraw_tame|apply AdjustmentCreate_tame|apply Onboard_tame
          |apply Run_tame|idtac];
    unfold Transfer, Repository.FindByID, Repository.snapshot, Repository.maybeSnapshot,
      ReviewService.List, ReviewService.Get, ReviewService.Passport, ReviewService.Approve,
      ReviewService.Reject, AdjustmentService.List, AdjustmentService.Get, AdjustmentService.Approve,
      AdjustmentService.Reject, Find, Login, open_session, Authenticate, Logout, randomID;
    plain_solve; done.
Qed.

Lemma composed_solvently {A} (p : prog A) m : composed s p → solvently p m.
Proof.
  intros Hp. revert m. induction Hp as [A a|A p Hp|A B p k _ IHp _ IHk]; intros m.
  - by apply safe_ret.
  - by apply request_solvently.
  - safe_bind. eapply safe_mono; [apply _| |apply IHp]. intros a s' _ _ _. apply IHk.
Qed.

Lemma thread_solvently {A} (q : prog A) m : thread s q → solvently q m.
Proof.
  intros [p Hp|B p f Hp|p Hp]; [by apply request_solvently| |by apply composed_solvently]. safe_bind.
  eapply safe_mono; [apply _| |by apply request_solvently]. intros a s' _ _ _. by apply safe_ret.
Qed.
End Programs.

(** ** Properties *)

(** C3: No account is overdrawn.  Take any run of the server (deposits,
    withdrawals, transfers, the worker, reviews and adjustments, interleaved call by
    call, with crashes) from a solvent store, in which the balances and holds stay
    within 64 bits, no transfer is posted while its hold is not open, and no manual
    adjustment names a transfer.  Then at every moment every balance covers the
    holds of the transfers that are still to be posted, and is not negative, and so
    is the balance a replay of the stream computes. *)
Theorem never_overdrawn (E : Env) (s : TransferService) {A}
    (c c' : World MemoryStore * list (prog A)) :
  (∀ a, int64_ok (ts_feePolicy s a)) → Forall (thread s) c.2 → bank_inv (w_store c.1) →
  solvent (w_store c.1) → rtc (allowed_step sound E) c c' →
  let m := w_store c'.1 in
  solvent m ∧
  ∀ id, 0 ≤ claimed m id ≤ exact_balance (stream m id) ∧
    (fits m → 0 ≤ acc_Balance (ReplayAccount id (stream m id))).
Proof.
  intros Hfee Hps Hinv Hs Hrun.
  destruct (pool_safe_steps (λ m, bank_inv m ∧ solvent m) evolves sound call_contract E (λ _ _ _, True)
    c c' Hrun) as ([Hinv' Hs'] & _ & _); [done| |].
  { intros i p Hi. eapply thread_solvently; [done|]. by eapply Forall_lookup_1. }
  split; [done|]. intros id. pose proof (claimed_nonneg _ Hinv' id) as Hnn.
  pose proof (so_funds _ Hs' id) as Hf.
  split; [done|]. intros Hfits. destruct (Hfits id). rewrite ReplayAccount_exact.
  - simpl. rewrite int64_wrap_id; [lia|]. unfold int64_ok, MinInt64, MaxInt64 in *. lia.
  - destruct (stream_wf _ id (inv_wf _ Hinv')) as [->|Hok]; [done|]. by eapply stream_ok_amounts.
Qed.

(** ** A solvent run *)

Lemma empty_solvent : solvent NewMemoryStore.
Proof. split; try apply map_Forall_empty; intros id; [by vm_compute|constructor]. Qed.

(** Decides the conditions of a run. *)
Definition fits_check (m : MemoryStore) : bool :=
  bool_decide (map_Forall (λ _ events, exact_balance events ≤ MaxInt64) (ms_streams m)) &&
  bool_decide (map_Forall (λ _ h, 0 ≤ res_Amount h) (ms_reservations m)) &&
  (sum_map res_Amount (ms_reservations m) <=? MaxInt64).
Definition sound_check X (op : storeE X) (m : MemoryStore) : bool :=
  fresh_check X op m && fits_check m &&
  match op with
  | cPostTransferLedger r _ =>
      posted m (tr_ID r) ||
      match ms_reservations m !! tr_ID r with
      | Some h => bool_decide (res_State h = "reserved")
      | None => false
      end
  | cCreateAdjustment r =>
      negb (bool_decide (adj_Type r = AdjustmentManual)) || bool_decide (adj_OriginalTransferID r = "")
  | _ => true
  end.

Lemma sum_map_le {V} (f g : V → Z) (m : gmap string V) :
  map_Forall (λ _ v, f v ≤ g v) m → sum_map f m ≤ sum_map g m.
Proof.
  induction m as [|k v m Hk IH] using map_ind; intros Hm; [by rewrite !sum_map_empty|].
  rewrite !sum_map_insert by done. apply map_Forall_insert in Hm as [Hv Hm]; [|done]. specialize (IH Hm). lia.
Qed.

Lemma fits_check_ok m : fits_check m = true → fits m.
Proof.
  unfold fits_check. intros Hc id. apply andb_prop in Hc as [Hc Hsum]. apply andb_prop in Hc as [Hb Hr].
  apply bool_decide_eq_true_1 in Hb, Hr. apply Z.leb_le in Hsum. split.
  - unfold stream. destruct (ms_streams m !! id) as [events|] eqn:Hid; [exact (Hb _ _ Hid)|by vm_compute].
  - etrans; [|exact Hsum]. apply sum_map_le. intros k h Hk. unfold hold_on.
    specialize (Hr _ _ Hk). simpl in Hr. case_match; lia.
Qed.

Lemma sound_check_ok X (op : storeE X) m : sound_check X op m = true → sound X op m.
Proof.
  unfold sound_check. intros Hc. apply andb_prop in Hc as [Hc Hop]. apply andb_prop in Hc as [Hfresh Hfits].
  split; [by apply bool_decide_eq_true_1 in Hfresh|]. split; [by apply fits_check_ok|].
  destruct op; try done.
  - apply orb_prop in Hop as [Hop|Hop]; [by left|right]. destruct (ms_reservations m !! _) as [h|]; [|done].
    exists h. split; [done|]. by apply bool_decide_eq_true_1 in Hop.
  - intros Htype. rewrite Htype in Hop. by apply bool_decide_eq_true_1 in Hop.
Qed.

Lemma sample_solvent : solvent sample_store.
Proof.
  assert (∀ id amount m, 0 ≤ amount → stream m id = [] → solvent m →
    solvent (Append (opened id amount) 0 m).2) as Hopen.
  { intros id amount m Ha Hempty Hs. unfold Append. case_match; [|done]. simpl.
    apply solvent_movement; [done|done|]. pose proof (so_funds _ Hs id) as Hz.
    rewrite Hempty in Hz. change (exact_balance []) with 0 in Hz. simpl. lia. }
  apply Hopen; [done|by vm_compute|]. apply Hopen; [done|by vm_compute|apply empty_solvent].
Qed.

(** A transfer with its worker, and a customer who withdraws what is left beside
    it, by [WithdrawAvailable] and without it. *)
Definition spending_pool : World MemoryStore * list (prog unit) :=
  (sample_world sample_store,
   transfer_pool.2 ++
     [(r ← Withdraw true 5000 "acc1"; mret tt); (r ← Withdraw false 5000 "acc1"; mret tt)]).
Definition spent_pool : World MemoryStore * list (prog unit) :=
  checked_result sound_check sample_env
    (repeat 0%nat 5 ++ repeat 1%nat 6 ++ [3; 2; 2; 3; 3]%nat ++ repeat 1%nat 36) spending_pool.

Lemma never_overdrawn_witness :
  solvent (w_store spent_pool.1) ∧
  acc_Balance (ReplayAccount "acc1" (stream (w_store spent_pool.1) "acc1")) = 3950 ∧
  0 ≤ acc_Balance (ReplayAccount "acc1" (stream (w_store spent_pool.1) "acc1")).
Proof.
  destruct (never_overdrawn sample_env sample_service spending_pool spent_pool sample_fee) as [Hs Hid].
  - apply Forall_app. split; [apply transfer_pool_threads|].
    apply Forall_cons_2; [|apply Forall_singleton].
    + apply (thread_map _ (Withdraw true 5000 "acc1") (λ _, tt)), req_Withdraw.
      split; vm_compute; discriminate.
    + apply (thread_map _ (Withdraw false 5000 "acc1") (λ _, tt)), req_Withdraw.
      split; vm_compute; discriminate.
  - apply sample_inv.
  - apply sample_solvent.
  - apply checked_result_steps. apply sound_check_ok.
  - split; [exact Hs|]. split; [vm_compute; reflexivity|].
    apply Hid. apply fits_check_ok. vm_compute. reflexivity.
Defined.

(** ** Without the condition on manual adjustments *)

(** A manual adjustment that names a transfer, with a fee the client chose. *)
Definition fee_request : AdjustmentRequest :=
  mkAdjustmentRequest "" "manual" "" "acc1" "credit" 100 (-20000) "acc2" "trf_0"
    "" None "goodwill payment" "case-3" "" "" "" 0 None.

