(* ===== verification/Sagas.v ===== *)
(** * Transfers and their sagas: what the service and its worker achieve. *)
From S2P Require Export Ledger.

(** ** Definitions *)

(** A receipt of a transfer request: of a stored record of the command's parties,
    amount and key, as it was at some moment. *)
Definition transfer_outcome (command : TransferCommand) (r : go_result TransferReceipt)
    (m' : MemoryStore) : Prop :=
  match r with
  | Ok receipt => ∃ r0 r1,
      receipt = receiptFromTransfer r0 ∧
      ms_transfers m' !! tr_ID r0 = Some r1 ∧ transfer_step r0 r1 ∧
      tr_SourceAccountID r0 = tc_SourceAccountID command ∧
      tr_DestinationAccountID r0 = tc_DestinationAccountID command ∧
      tr_Amount r0 = tc_Amount command ∧
      tr_IdempotencyKey r0 = TrimSpace (tc_IdempotencyKey command)
  | Err _ => True
  end.

(** ** Requests *)

Lemma transfer_outcome_evolves command r m m' :
  evolves m m' → transfer_outcome command r m → transfer_outcome command r m'.
Proof.
  intros He. destruct r as [receipt|e]; [|done]. intros (r0 & r1 & Hrc & Hr1 & Hs & Hrest).
  destruct (ev_transfers _ _ He _ _ Hr1) as (r2 & Hr2 & Hs2). exists r0, r2.
  split_and!; [done|done|by etrans|apply Hrest..].
Qed.

(** What [CreateTransfer] returns is stored. *)
Lemma CreateTransfer_stored (G : GoRuntime) r m r0 b m' :
  store_wf m → CreateTransfer r m = (Ok (r0, b), m') →
  ms_transfers m' !! tr_ID r0 = Some r0 ∧ tr_SourceAccountID r0 = tr_SourceAccountID r ∧
  tr_DestinationAccountID r0 = tr_DestinationAccountID r ∧ tr_Amount r0 = tr_Amount r ∧
  tr_IdempotencyKey r0 = tr_IdempotencyKey r.
Proof.
  intros Hwf. unfold CreateTransfer, find_by_key. destruct (range_find _ _) as [[k e]|] eqn:Hf.
  - apply range_find_Some in Hf as [Hk Hp]. apply andb_true_iff in Hp as [Hs Hkey].
    case_match eqn:Hc; [done|]. intros [= -> _ ->]. boolify.
    destruct (wf_transfer _ _ _ Hwf Hk) as [<- _]. by split_and!.
  - intros [= -> _ <-]. simpl. by rewrite lookup_insert_eq.
Qed.

Lemma Transfer_safe s command m :
  (∀ a, int64_ok (ts_feePolicy s a)) → int64_ok (tc_Amount command) →
  bank_safe (λ r m', transfer_outcome command r m') (Transfer s command) m.
Proof.
  intros Hfee Ha. unfold Transfer, try_bind. case_match eqn:Hg; [done|].
  cbv zeta. case_match; [done|]. apply bank_now. intros t. case_match; [done|].
  apply safe_env; [apply _|]. intros [raw|e]; [|done]. apply bank_now. intros now.
  destruct ((ts_feePolicy s _ <? 0) || _) eqn:Hg2; [done|].
  apply orb_false_elim in Hg as [Hmin Hne]. apply orb_false_elim in Hg2 as [Hf Hmax].
  apply Z.ltb_ge in Hmin, Hf, Hmax. boolify. pose proof (Hfee (tc_Amount command)) as Hfee'.
  rewrite int64_wrap_id in Hmax by (unfold int64_ok, MinInt64, MaxInt64 in *; lia).
  apply bank_call; [|done|].
  { split_and!; try done. split; simpl; try done; lia. }
  intros G m1 He1 Hi1 He2 Hi2. unfold store_call, memory_store in *.
  destruct (CreateTransfer _ m1) as [[[r0 b]|e] m2] eqn:E; simpl in *; [|done].
  apply CreateTransfer_stored in E as (Hr0 & Hsrc & Hdst & Hamt & Hkey); [|apply Hi1].
  apply safe_env; [apply _|]. intros _. apply safe_ret. intros m3 H3 _.
  eapply transfer_outcome_evolves; [exact H3|]. exists r0, r0. by split_and!.
Qed.

(** C18: a transfer request is idempotent: whatever else runs, two requests for one
    source account with one idempotency key (up to surrounding white space) that
    both succeed name one transfer, and ask for the same amount and
    destination. *)
Theorem Transfer_idempotent (E : Env) (s : TransferService)
    (c c' : World MemoryStore * list (prog (go_result TransferReceipt))) i j c1 c2 r1 r2 :
  (∀ a, int64_ok (ts_feePolicy s a)) → Forall (thread s) c.2 → bank_inv (w_store c.1) →
  int64_ok (tc_Amount c1) → int64_ok (tc_Amount c2) →
  c.2 !! i = Some (Transfer s c1) → c.2 !! j = Some (Transfer s c2) →
  rtc (fresh_step E) c c' →
  c'.2 !! i = Some (Ret (Ok r1)) → c'.2 !! j = Some (Ret (Ok r2)) →
  tc_SourceAccountID c1 = tc_SourceAccountID c2 →
  TrimSpace (tc_IdempotencyKey c1) = TrimSpace (tc_IdempotencyKey c2) →
  rc_TransferID r1 = rc_TransferID r2 ∧ tc_Amount c1 = tc_Amount c2 ∧
  tc_DestinationAccountID c1 = tc_DestinationAccountID c2.
Proof.
  intros Hfee Hps Hinv Ha1 Ha2 Hi Hj Hrun Hr1 Hr2 Hsrc Hkey.
  pose proof (thread_outcome E s c c' i _ (Ok r1) (λ r m', transfer_outcome c1 r m')
    Hfee Hps Hinv Hrun Hi Hr1 (Transfer_safe s c1 _ Hfee Ha1)) as (a & a' & -> & Hla & Hsa & ? & ? & ? & ?).
  pose proof (thread_outcome E s c c' j _ (Ok r2) (λ r m', transfer_outcome c2 r m')
    Hfee Hps Hinv Hrun Hj Hr2 (Transfer_safe s c2 _ Hfee Ha2)) as (b & b' & -> & Hlb & Hsb & ? & ? & ? & ?).
  destruct (pool_run E s c c' Hfee Hps Hinv Hrun) as [Hinv' _].
  assert (tr_ID a = tr_ID b) as Hid.
  { apply (inv_keys _ Hinv' _ _ a' b' Hla Hlb); destruct Hsa, Hsb; split; congruence. }
  rewrite Hid in Hla. simplify_eq. destruct Hsa, Hsb. simpl. split_and!; congruence.
Qed.

(** Two clients race with one key, one of them with white space around it. *)
Lemma Transfer_idempotent_witness :
  let command key := mkTransferCommand 1000 "acc1" "acc2" key in
  let c := (sample_world sample_store,
            [Transfer sample_service (command "key-1"); Transfer sample_service (command " key-1 ")]) in
  let c' := pool_result sample_env [0; 1; 0; 1; 0; 1; 1; 0; 0; 1]%nat c in
  ∃ r1 r2, c'.2 !! 0%nat = Some (Ret (Ok r1)) ∧ c'.2 !! 1%nat = Some (Ret (Ok r2)) ∧
    rc_TransferID r1 = rc_TransferID r2.
Proof.
  intros command c c'.
  destruct (c'.2 !! 0%nat) as [[[r1|]|]|] eqn:E1; [|exfalso; revert E1; vm_compute; discriminate..].
  destruct (c'.2 !! 1%nat) as [[[r2|]|]|] eqn:E2; [|exfalso; revert E2; vm_compute; discriminate..].
  exists r1, r2. split; [reflexivity|]. split; [reflexivity|].
  refine (proj1 (Transfer_idempotent sample_env sample_service c c' 0 1 (command "key-1")
    (command " key-1 ") r1 r2 sample_fee _ sample_inv _ _ eq_refl eq_refl
    (pool_result_steps _ _ _) E1 E2 eq_refl _)).
  - repeat constructor; vm_compute; by intros.
  - split; vm_compute; by intros.
  - split; vm_compute; by intros.
  - vm_compute. reflexivity.
Defined.

(** ** Steps *)

(** Of several workers with a copy of one record, at most one advances it: once
    an allowed update has moved the record off the expected step or settled it,
    every later update that expects that step is refused and changes nothing,
    whatever happened in between. *)
Theorem UpdateTransferSaga_once m m1 m2 id u u' at_ at' n :
  bank_inv m → update_ok m id u at_ →
  UpdateTransferSaga id u at_ m = (Ok true, m1) →
  evolves m1 m2 →
  su_Status u ≠ TransferPending ∨
    (at_least n (su_CurrentStep u) ∧ ¬ at_least n (su_ExpectedStep u)) →
  su_ExpectedStep u' = su_ExpectedStep u →
  UpdateTransferSaga id u' at' m2 = (Ok false, m2).
Proof.
  intros Hinv Hu Hupd He Hmove Hexp. unfold UpdateTransferSaga in Hupd.
  destruct (ms_transfers m !! id) as [r|] eqn:E; [|done].
  destruct (negb _ || negb _); [done|]. injection Hupd as <-.
  destruct (ev_transfers _ _ He id (apply_update r u at_)) as (r2 & Hr2 & Hs).
  { simpl. by rewrite lookup_insert_eq. }
  unfold UpdateTransferSaga. rewrite Hr2. destruct Hmove as [Hst|[Hn Hnn]].
  - rewrite (ts_final _ _ Hs) by done. simpl. by rewrite bool_decide_eq_false_2.
  - assert (tr_CurrentStep r2 ≠ su_ExpectedStep u') as Hne.
    { intros Heq. apply Hnn. rewrite <-Hexp, <-Heq. by apply (ts_rank _ _ Hs). }
    by rewrite (bool_decide_eq_false_2 _ Hne), orb_true_r.
Qed.

(** Both workers saw the transfer at "created". *)
Lemma UpdateTransferSaga_once_witness :
  let r := new_transfer sample_command "key-1" "trf_1" 50 7 in
  let m := (@CreateTransfer reference_runtime r sample_store).2 in
  let fail_ := saga_update r SagaCreated TransferFailed "insufficient_funds" "" "" 0 0 0 0 in
  let retry_ := saga_update r SagaCreated TransferPending "" "" "timeout" 1 9 0 0 in
  let m1 := (UpdateTransferSaga "trf_1" fail_ 8 m).2 in
  UpdateTransferSaga "trf_1" retry_ 9 m1 = (Ok false, m1).
Proof.
  intros r m fail_ retry_ m1.
  assert (bank_inv m) as Hm.
  { apply (call_bank_inv reference_runtime (cCreateTransfer r)); [|done..|apply sample_inv].
    split_and!; [|done..]. split; vm_compute; by intros. }
  refine (UpdateTransferSaga_once m m1 m1 "trf_1" fail_ retry_ 8 9 0 Hm _ _ (reflexivity _) _ eq_refl).
  - intros r0 Hr0 _ _. assert (r0 = r) as -> by (revert Hr0; vm_compute; by intros [= <-]).
    split; [|done]. apply (record_ok_step m "trf_1" r); [|done|right; split; [done|]].
    + apply (sk_records _ (inv_saga _ Hm)). vm_compute. reflexivity.
    + unfold at_least. simpl. lia.
  - vm_compute. reflexivity.
  - left. vm_compute. intros [=].
Defined.

(** C29: the calls of a saga's steps can be repeated: a worker that crashed after a
    reservation, a posting, a capture or a release, and repeats the call at any
    later time, gets a success and changes nothing. *)
Theorem saga_calls_idempotent r at_ at' m m1 m2 :
  evolves m1 m2 →
  (∀ b, ReserveTransferFunds r at_ m = (Ok b, m1) →
     ∃ b', ReserveTransferFunds r at' m2 = (Ok b', m2)) ∧
  (∀ b, PostTransferLedger r at_ m = (Ok b, m1) →
     ∃ b', PostTransferLedger r at' m2 = (Ok b', m2)) ∧
  (∀ h, ms_reservations m !! tr_ID r = Some h →
     CaptureTransferReservation r at_ m = (Ok tt, m1) →
     CaptureTransferReservation r at' m2 = (Ok tt, m2)) ∧
  (∀ h, ms_reservations m !! tr_ID r = Some h →
     ReleaseTransferReservation r at_ m = (Ok tt, m1) →
     ReleaseTransferReservation r at' m2 = (Ok tt, m2)).
Proof.
  intros He.
  assert (∀ state h, state ≠ "reserved" → ms_reservations m !! tr_ID r = Some h →
    finishReservation r at_ state m = (Ok tt, m1) → finishReservation r at' state m2 = (Ok tt, m2)) as Hfin.
  { intros state h Hst Hh Hf.
    assert (∃ h1, ms_reservations m1 !! tr_ID r = Some h1 ∧ res_State h1 = state) as (h1 & Hh1 & Hs1).
    { revert Hf. unfold finishReservation. rewrite Hh. case_match eqn:Hs.
      - intros [= <-]. boolify. by exists h.
      - case_match; [done|]. intros [= <-]. simpl. rewrite lookup_insert_eq. by eexists. }
    destruct (hold_evolves m1 m2 _ h1 He Hh1) as (h2 & Hh2 & Hstep).
    unfold finishReservation. rewrite Hh2.
    assert (res_State h2 = state) as -> by (rewrite <-Hs1; apply (hs_final _ _ Hstep); by rewrite Hs1).
    by rewrite bool_decide_eq_true_2. }
  split_and!.
  - intros b Hr. apply ReserveTransferFunds_hold in Hr as [h Hh].
    destruct (hold_evolves m1 m2 _ h He Hh) as (h2 & Hh2 & _).
    unfold ReserveTransferFunds. rewrite Hh2. by eexists.
  - intros b Hp. apply PostTransferLedger_posted, (posted_evolves _ _ _ He) in Hp.
    unfold PostTransferLedger. fold (posted m2 (tr_ID r)). rewrite Hp. by eexists.
  - intros h Hh. by apply (Hfin "captured" h).
  - intros h Hh. by apply (Hfin "released" h).
Qed.

(** A reservation repeated after a crash, on the store that the first worker left
    behind, which a withdrawal has changed since. *)
Lemma saga_calls_idempotent_witness :
  let r := new_transfer sample_command "key-1" "trf_1" 50 7 in
  let m1 := (ReserveTransferFunds r 8 sample_store).2 in
  let m2 := (WithdrawAvailable "acc1" 1000 9 m1).2 in
  (length (stream m2 "acc1") = 3)%nat ∧
  ∃ b', ReserveTransferFunds r 9 m2 = (Ok b', m2).
Proof.
  intros r m1 m2. split; [vm_compute; reflexivity|].
  assert (evolves m1 m2) as He by (apply WithdrawAvailable_evolves; split; vm_compute; by intros).
  apply (saga_calls_idempotent r 8 9 sample_store m1 m2 He) with 10000. vm_compute. reflexivity.
Defined.

(** The wait before attempt [n + 1] is [2 ^ (n - 1)] seconds, at most 16, for
    every first to last attempt; the 30 second cap of the steps after the ledger
    posting is never reached. *)
Theorem retry_backoff attempt afterLedger :
  1 ≤ attempt →
  retry_delay attempt afterLedger = 2 ^ Z.min (attempt - 1) 4 * Second ∧
  Second ≤ retry_delay attempt afterLedger ≤ 16 * Second.
Proof.
  intros Ha. unfold retry_delay. set (k := Z.min (attempt - 1) 4).
  assert (k = 0 ∨ k = 1 ∨ k = 2 ∨ k = 3 ∨ k = 4) as Hk by lia. clearbody k.
  destruct Hk as [-> | [-> | [-> | [-> | ->]]]]; destruct afterLedger; vm_compute;
    repeat split; intros [=].
Qed.

Lemma retry_backoff_witness :
  retry_delay 4 true = 2 ^ Z.min (4 - 1) 4 * Second ∧
  Second ≤ retry_delay 4 true ≤ 16 * Second.
Proof. apply (retry_backoff 4 true). lia. Defined.

(** A posting conserves money: the first posting of a transfer between open
    accounts lowers the source's balance by amount plus fee, raises the
    destination's by the amount, in exact arithmetic, and leaves the streams of
    all other accounts alone; what is lost from the sum is the fee. *)
Theorem PostTransferLedger_conserves r at_ m :
  transfer_ok r → posted m (tr_ID r) = false →
  stream m (tr_SourceAccountID r) ≠ [] → stream m (tr_DestinationAccountID r) ≠ [] →
  let '(res, m') := PostTransferLedger r at_ m in
  let src := tr_SourceAccountID r in
  let dst := tr_DestinationAccountID r in
  res = Ok (acc_Balance (ReplayAccount src (stream m' src))) ∧
  exact_balance (stream m' src) = exact_balance (stream m src) - tr_Amount r - tr_Fee r ∧
  exact_balance (stream m' dst) = exact_balance (stream m dst) + tr_Amount r ∧
  ∀ id, id ≠ src → id ≠ dst → stream m' id = stream m id.
Proof.
  intros Hok Hnp Hs Hd. pose proof (to_parties _ Hok) as Hne.
  destruct (PostTransferLedger r at_ m) as [res m'] eqn:Hp.
  pose proof (PostTransferLedger_streams r at_ m Hne) as Hst. rewrite Hp in Hst. simpl in Hst.
  unfold PostTransferLedger in Hp. fold (posted m (tr_ID r)) in Hp.
  rewrite Hnp, !seq_of_open in Hp by done. injection Hp as <- Hm.
  destruct Hst as [->|(_ & _ & _ & Hst)].
  { exfalso. apply (f_equal (λ m', posted m' (tr_ID r))) in Hm. rewrite Hnp in Hm.
    unfold posted in Hm. simpl in Hm. by rewrite lookup_insert_eq in Hm. }
  clear Hm. cbv zeta. rewrite !Hst, decide_True, decide_False, decide_True by done.
  split_and!; [done| |by rewrite exact_balance_snoc|].
  - apply source_legs_balance, Hok.
  - intros id Hs' Hd'. by rewrite Hst, !decide_False.
Qed.

Lemma PostTransferLedger_conserves_witness :
  let r := new_transfer sample_command "key-1" "trf_1" 50 7 in
  let '(res, m') := PostTransferLedger r 8 sample_store in
  exact_balance (stream m' "acc1") = exact_balance (stream sample_store "acc1") - 1000 - 50.
Proof.
  intros r. pose proof (PostTransferLedger_conserves r 8 sample_store) as H.
  destruct (PostTransferLedger r 8 sample_store) as [res m'].
  apply H; [split; vm_compute; by intros|vm_compute; reflexivity|vm_compute; by intros..].
Defined.
