(* ===== verification/SagaProgress.v ===== *)
(** * Progress of sagas: termination when a worker runs alone, and a crash that
    strands a transfer. *)
From S2P Require Export Sagas.

(** ** A crash between a release and its update *)

(** The checker times out before call [k]; the clock is fast enough for every
    retry to be due. *)
Definition flaky_env (k : nat) : Env := {|
  env_runtime := λ _, reference_runtime;
  env_now := λ n, Z.of_nat n * 100000000000;
  env_rand := λ n k, Ok (repeat (Ascii.ascii_of_nat n) k);
  env_check := λ n _, if bool_decide (n < k)%nat then Err (OtherError "timeout") else Ok true;
  env_ctx := λ _, None;
  env_select := λ _, TickerFired;
|}.

(** A client transfers 1000; a worker gives up on the checker; the account's owner
    withdraws; the server restarts with another worker. *)
Definition crash_pool : World MemoryStore * list (prog unit) :=
  (sample_world sample_store,
   [(r ← Transfer sample_service sample_command; mret tt); Run sample_service 20;
    (r ← Withdraw true 9500 "acc1"; mret tt); Run sample_service 20]).
(** The first worker stops right after it has released the hold. *)
Definition crash_schedule : list nat :=
  repeat 0%nat 5 ++ repeat 1%nat 52 ++ repeat 2%nat 2 ++ repeat 3%nat 60.
Definition crashed : World MemoryStore * list (prog unit) :=
  pool_result (flaky_env 57) crash_schedule crash_pool.

(** A posted transfer whose hold was released can never be settled. *)
Lemma stranded_pending m t h :
  bank_inv m → posted m t = true → ms_reservations m !! t = Some h → res_State h = "released" →
  ∃ r, ms_transfers m !! t = Some r ∧ tr_Status r = TransferPending.
Proof.
  intros Hinv Hp Hh Hrel. destruct (inv_saga _ Hinv) as [Hrec _ Hposted].
  destruct (Hposted t Hp) as (r & Hr & H2). exists r. split; [done|].
  specialize (Hrec t r Hr). destruct (rk_status _ _ _ Hrec) as [?|[Hc|Hf]]; [done|..]; exfalso.
  - destruct (rk_captured _ _ _ Hrec (rk_completed _ _ _ Hrec Hc)) as (h' & Hh' & Hs). congruence.
  - by apply (rk_failed _ _ _ Hrec Hf).
Qed.

Lemma stranded_forever m m' t h :
  evolves m m' → bank_inv m' → posted m t = true →
  ms_reservations m !! t = Some h → res_State h = "released" →
  ∃ r, ms_transfers m' !! t = Some r ∧ tr_Status r = TransferPending.
Proof.
  intros He Hinv Hp Hh Hrel. destruct (hold_evolves m m' t h He Hh) as (h' & Hh' & Hs).
  apply (stranded_pending m' t h'); [done|by eapply posted_evolves|done|].
  rewrite (hs_final _ _ Hs), Hrel; [done|]. by rewrite Hrel.
Qed.

(** C37: giving up on a transfer is not atomic: [retry] releases the hold before it
    records the failure.  There is a run in which the worker stops between the
    two and the next worker, whose checker answers, goes on with the transfer: it
    posts the ledger without a hold, the source account (whose owner has
    withdrawn the freed money) ends below zero, and the transfer stays pending in
    every later state, neither completed nor failed. *)
Theorem released_hold_overdraws :
  ∃ c, rtc (fresh_step (flaky_env 57)) crash_pool c ∧
    let m := w_store c.1 in
    acc_Balance (ReplayAccount "acc1" (stream m "acc1")) = -550 ∧
    posted m sample_transfer_id = true ∧
    ∀ m', evolves m m' → bank_inv m' →
      ∃ r, ms_transfers m' !! sample_transfer_id = Some r ∧ tr_Status r = TransferPending.
Proof.
  exists crashed. split; [apply pool_result_steps|]. cbv zeta. split; [vm_compute; reflexivity|].
  assert (posted (w_store crashed.1) sample_transfer_id = true) as Hp by (vm_compute; reflexivity).
  split; [exact Hp|]. intros m' He Hinv.
  eapply (stranded_forever (w_store crashed.1) m'
    sample_transfer_id (mkMemoryReservation "acc1" 1050 "released")); [done|done|done| |done].
  vm_compute. reflexivity.
Qed.

(** ** A worker alone *)

Section Progress.
Context (E : Env) (s : TransferService).

(** The stored record [r] is pending at the step number [k], and nobody has
    interfered with its hold or its decision. *)
Record staged (k : nat) (m : MemoryStore) (r : TransferRecord) : Prop := {
  st_stored : ms_transfers m !! tr_ID r = Some r;
  st_pending : tr_Status r = TransferPending;
  st_step : step_rank (tr_CurrentStep r) = Some k;
  st_hold : (k ≤ 3)%nat →
    match ms_reservations m !! tr_ID r with
    | Some h => res_State h = "reserved"
    | None => k = 0%nat
    end;
  st_decision : (k ≤ 1)%nat → ms_complianceDecisions m !! tr_ID r = None;
}.

(** Why a transfer fails. *)
Definition failure (k : nat) (m : MemoryStore) (r : TransferRecord) (code : string) : Prop :=
  (k = 0%nat ∧ code = "account_not_found" ∧
     (stream m (tr_SourceAccountID r) = [] ∨ stream m (tr_DestinationAccountID r) = [])) ∨
  (k = 0%nat ∧ code = "insufficient_funds" ∧
     acc_AvailableBalance (ReplayAccount (tr_SourceAccountID r) (stream m (tr_SourceAccountID r)))
       < tr_Amount r + tr_Fee r) ∨
  (code = "compliance_rejected" ∧ ∃ n r1, env_check E n r1 = Ok false).

(** What one [Process] of a record at step [k] achieves. *)
Definition progress (k : nat) (m : MemoryStore) (r : TransferRecord) (m' : MemoryStore) : Prop :=
  ∃ r', ms_transfers m' !! tr_ID r = Some r' ∧ transfer_step r r' ∧
    (staged (S k) m' r' ∨
     (tr_Status r' = TransferCompleted ∧ k = 4%nat) ∨
     (tr_Status r' = TransferFailed ∧ failure k m r (tr_FailureCode r'))).

Definition after {A} (p : prog A) (w : World MemoryStore) : MemoryStore :=
  w_store (interp E p w).2.

Lemma after_store {X A} (op : storeE X) (k : X → prog A) w :
  after (store op ≫= k) w =
  let '(x, m) := store_call (env_runtime E (w_calls w)) op (w_store w) in
  after (k x) (mkWorld m (S (w_calls w)) (w_bus w) (w_wake w)).
Proof. unfold after. simpl. by destruct (store_call _ op (w_store w)) as [x m]. Qed.

Lemma after_now {A} (k : Time → prog A) w :
  after (env TimeNow ≫= k) w =
  after (k (env_now E (w_calls w))) (mkWorld (w_store w) (S (w_calls w)) (w_bus w) (w_wake w)).
Proof. done. Qed.

(** A permanent failure of the first step. *)
Lemma handle_after r e code w :
  match e with
  | ErrAccountNotFound => Some "account_not_found"
  | InsufficientFundsError _ _ => Some "insufficient_funds"
  | _ => None
  end = Some code →
  ∃ next w', w_store w' = w_store w ∧
    after (handleStepError r e false) w =
    after (advance r (saga_update r (tr_CurrentStep r) TransferFailed code "" (Error e) 0 next 0 0)) w'.
Proof. intros Hc. unfold handleStepError. rewrite Hc.
  by exists (env_now E (w_calls w)), (mkWorld (w_store w) (S (w_calls w)) (w_bus w) (w_wake w)).
Qed.

Lemma after_check {A} r (k : go_result bool → prog A) w :
  after (env (CheckTransfer r) ≫= k) w =
  after (k (env_check E (w_calls w) r))
    (mkWorld (w_store w) (S (w_calls w)) (w_bus w) (w_wake w)).
Proof. done. Qed.

(** An update of the stored record always lands. *)
Lemma advance_after r u w :
  ms_transfers (w_store w) !! tr_ID r = Some r → tr_Status r = TransferPending →
  su_ExpectedStep u = tr_CurrentStep r →
  ∃ at_, after (advance r u) w =
    set_transfers (<[tr_ID r := apply_update r u at_]> (ms_transfers (w_store w))) (w_store w).
Proof.
  intros Hr Hp He. exists (env_now E (w_calls w)). unfold advance, try_bind.
  rewrite after_now, after_store. unfold store_call, memory_store, UpdateTransferSaga. simpl.
  rewrite Hr, Hp, He, !bool_decide_eq_true_2 by done. done.
Qed.

(** ... and makes the progress it describes. *)
Lemma advance_progress k m r u w :
  (∀ n, at_least n (tr_CurrentStep r) → at_least n (su_CurrentStep u)) →
  ms_transfers (w_store w) !! tr_ID r = Some r → tr_Status r = TransferPending →
  su_ExpectedStep u = tr_CurrentStep r →
  ((su_Status u = TransferPending ∧ step_rank (su_CurrentStep u) = Some (S k) ∧
    ((S k ≤ 3)%nat → ∃ h, ms_reservations (w_store w) !! tr_ID r = Some h ∧ res_State h = "reserved") ∧
    ((S k ≤ 1)%nat → ms_complianceDecisions (w_store w) !! tr_ID r = None)) ∨
   (su_Status u = TransferFailed ∧ failure k m r (su_FailureCode u))) →
  progress k m r (after (advance r u) w).
Proof.
  intros Hmono Hr Hp He Hu. destruct (advance_after r u w Hr Hp He) as [at_ ->].
  exists (apply_update r u at_). simpl. rewrite lookup_insert_eq. split_and!; [done|by split|].
  destruct Hu as [(Hst & Hk & Hh & Hd)|(Hst & Hf)]; [left|by right; right].
  split; simpl; [by rewrite lookup_insert_eq|done|done| |done].
  intros H3. destruct (Hh H3) as (h & -> & Hs). done.
Qed.

(** The worker's invariant, carried to the end of the run. *)
Lemma Process_alone_inv r w :
  bank_inv (w_store w) → known (w_store w) r →
  bank_inv (after (Process s r) w) ∧ evolves (w_store w) (after (Process s r) w).
Proof.
  intros Hinv Hk. unfold after.
  pose proof (safe_interp bank_inv evolves call_fresh call_contract E (λ _ _, True) (Process s r) w) as H.
  destruct (interp E (Process s r) w) as [a w']. destruct H as (? & ? & _); [|done|by apply Process_safe|done].
  unfold Process, on_error, handleStepError, retry, advance. plain_solve; done.
Qed.

Section Stages.
Context (r : TransferRecord) (w : World MemoryStore).
Hypothesis Hinv : bank_inv (w_store w).

Lemma stored_ok : ms_transfers (w_store w) !! tr_ID r = Some r → transfer_ok r.
Proof. intros Hr. by apply (wf_transfer _ _ _ (inv_wf _ Hinv) Hr). Qed.

Lemma created_progress now :
  staged 0 (w_store w) r → tr_CurrentStep r = SagaCreated →
  progress 0 (w_store w) r (after (on_error (store (cReserveTransferFunds r now))
    (λ e, handleStepError r e false) (λ balance, advance r
       (saga_update r SagaFundsReserved TransferPending "" "" "" 0 now balance 0))) w).
Proof.
  intros [Hr Hp _ Hh Hd] Hstep. unfold on_error. rewrite after_store. store_cbv.
  unfold ReserveTransferFunds. destruct (ms_reservations (w_store w) !! tr_ID r) as [h|] eqn:Eh.
  { apply advance_progress; simpl; [|done|done|done|].
    - rewrite Hstep. unfold at_least. simpl. lia.
    - left. split_and!; [done|done|intros _; exists h; split; [done|by apply Hh; lia]|auto]. }
  destruct (seq_of (stream _ (tr_SourceAccountID r)) =? 0) eqn:Es;
    [|destruct (seq_of (stream _ (tr_DestinationAccountID r)) =? 0) eqn:Ed]; simpl.
  1-2: edestruct handle_after as (next & w' & Hw & ->); [reflexivity|]; simpl in Hw;
    apply advance_progress; simpl; rewrite ?Hw; [done..|]; right; split; [done|]; left; do 2 (split; [done|]).
  - left. apply Z.eqb_eq in Es. unfold seq_of in Es. apply nil_length_inv. lia.
  - right. apply Z.eqb_eq in Ed. unfold seq_of in Ed. apply nil_length_inv. lia.
  - rewrite known_total by by apply stored_ok.
    destruct (_ <? _) eqn:Ea.
    + edestruct handle_after as (next & w' & Hw & ->); [reflexivity|]. simpl in Hw.
      apply advance_progress; simpl; rewrite ?Hw; [done..|].
      right. split; [done|]. right. left. do 2 (split; [done|]). by apply Z.ltb_lt in Ea.
    + apply advance_progress; simpl; [|done|done|done|].
      * rewrite Hstep. unfold at_least. simpl. lia.
      * left. split_and!; [done|done|intros _|auto]. rewrite lookup_insert_eq. by eexists.
Qed.

Lemma funds_reserved_progress now :
  staged 1 (w_store w) r → tr_CurrentStep r = SagaFundsReserved →
  (∃ b, env_check E (w_calls w) r = Ok b) →
  progress 1 (w_store w) r (after
   (on_error (env (CheckTransfer r)) (λ e, handleStepError r e true) (λ approved : bool,
    let decision := if approved then "approved" else "rejected" in
    on_error (store (cRecordComplianceDecision (tr_ID r) decision now))
      (λ e, handleStepError r e true) (λ _,
    if negb approved then
      on_error (store (cReleaseTransferReservation r now)) (λ e, handleStepError r e true) (λ _,
      advance r (saga_update r (tr_CurrentStep r) TransferFailed "compliance_rejected" decision ""
                   0 now 0 0))
    else
      advance r (saga_update r SagaComplianceApproved TransferPending "" decision "" 0 now 0 0)))) w).
Proof.
  intros [Hr Hp _ Hh Hd] Hstep [b Hb]. unfold on_error. rewrite after_check, Hb. cbv zeta.
  rewrite after_store. store_cbv. unfold RecordComplianceDecision. cbn [w_store].
  rewrite (Hd ltac:(lia)). specialize (Hh ltac:(lia)). destruct b; cbn [negb].
  - apply advance_progress; simpl; [|done|done|done|].
    + rewrite Hstep. unfold at_least. simpl. lia.
    + left. split_and!; [done|done|intros _|lia].
      destruct (ms_reservations _ !! _) as [h|]; [by exists h|done].
  - rewrite after_store. store_cbv. unfold ReleaseTransferReservation, finishReservation. cbn [w_store ms_reservations set_complianceDecisions].
    destruct (ms_reservations _ !! _) as [h|]; [|done]. rewrite Hh. simpl.
    apply advance_progress; simpl; [done|done|done|done|].
    right. split; [done|]. right. right. split; [done|]. by exists (w_calls w), r.
Qed.

Lemma compliance_approved_progress now :
  staged 2 (w_store w) r → tr_CurrentStep r = SagaComplianceApproved → known (w_store w) r →
  progress 2 (w_store w) r (after (on_error (store (cPostTransferLedger r now))
    (λ e, handleStepError r e true)
    (λ final, advance r (saga_update r SagaLedgerPosted TransferPending "" "" "" 0 now 0 final))) w).
Proof.
  intros [Hr Hp _ Hh Hd] Hstep Hk. unfold on_error. rewrite after_store. store_cbv.
  destruct (PostTransferLedger_Ok r now (w_store w)) as [b Hb]; [done| |apply Hinv|].
  { rewrite Hstep. unfold at_least. simpl. lia. }
  destruct (PostTransferLedger r now (w_store w)) as [res m1] eqn:Ep. simpl in Hb. subst res.
  assert (ms_transfers m1 = ms_transfers (w_store w) ∧ ms_reservations m1 = ms_reservations (w_store w))
    as [Ht Hres].
  { revert Ep. unfold PostTransferLedger. repeat case_match; try done; by intros [= _ <-]. }
  apply advance_progress; simpl; [|by rewrite Ht|done|done|].
  - rewrite Hstep. unfold at_least. simpl. lia.
  - left. split_and!; [done|done|intros _|lia]. rewrite Hres. specialize (Hh ltac:(lia)).
    destruct (ms_reservations _ !! _) as [h|]; [by exists h|done].
Qed.

Lemma ledger_posted_progress now :
  staged 3 (w_store w) r → tr_CurrentStep r = SagaLedgerPosted →
  progress 3 (w_store w) r (after (on_error (store (cCaptureTransferReservation r now))
    (λ e, retry r e true)
    (λ _, advance r (saga_update r SagaReservationCaptured TransferPending "" "" "" 0 now 0 0))) w).
Proof.
  intros [Hr Hp _ Hh Hd] Hstep. unfold on_error. rewrite after_store. store_cbv.
  unfold CaptureTransferReservation, finishReservation. specialize (Hh ltac:(lia)).
  destruct (ms_reservations _ !! _) as [h|]; [|done]. rewrite Hh. simpl.
  apply advance_progress; simpl; [|done|done|done|].
  - rewrite Hstep. unfold at_least. simpl. lia.
  - left. split_and!; [done|done|lia|lia].
Qed.

Lemma captured_progress now :
  staged 4 (w_store w) r → tr_CurrentStep r = SagaReservationCaptured →
  progress 4 (w_store w) r (after (let? ok := store (cUpdateTransferSaga (tr_ID r)
                 (saga_update r (tr_CurrentStep r) TransferCompleted "" "" "" 0 now 0 0) now) in
    if ok && ts_eventBus s then
      _ ← env (PublishCompleted {|
            tce_Timestamp := now; tce_TransferID := tr_ID r; tce_Amount := tr_Amount r;
            tce_SourceAccountID := tr_SourceAccountID r;
            tce_DestinationAccountID := tr_DestinationAccountID r; tce_Fee := tr_Fee r |});
      succeed tt
    else succeed tt) w).
Proof.
  intros [Hr Hp _ Hh Hd] Hstep. unfold try_bind. rewrite after_store. store_cbv.
  unfold UpdateTransferSaga. rewrite Hr, Hp. simpl. rewrite bool_decide_eq_true_2 by done. simpl.
  assert (∀ w', w_store w' = set_transfers (<[tr_ID r := apply_update r
      (saga_update r (tr_CurrentStep r) TransferCompleted "" "" "" 0 now 0 0) now]>
      (ms_transfers (w_store w))) (w_store w) → progress 4 (w_store w) r (w_store w')) as Hdone.
  { intros w' ->. eexists. simpl. rewrite lookup_insert_eq. split; [done|]. split; [by split|].
    right. by left. }
  destruct (ts_eventBus s); by apply Hdone.
Qed.

End Stages.

Lemma stored_known r m : bank_inv m → ms_transfers m !! tr_ID r = Some r → known m r.
Proof.
  intros Hinv Hr. split_and!; [|by apply (sk_records _ (inv_saga _ Hinv))|by exists r].
  by apply (wf_transfer _ _ _ (inv_wf _ Hinv) Hr).
Qed.

Lemma Process_progress r w k :
  bank_inv (w_store w) → staged k (w_store w) r → (∀ n r1, ∃ b, env_check E n r1 = Ok b) →
  progress k (w_store w) r (after (Process s r) w).
Proof.
  intros Hinv Hst Hcheck. pose proof (st_step _ _ _ Hst) as Hk. revert Hk. unfold step_rank.
  pose proof (stored_known r _ Hinv (st_stored _ _ _ Hst)) as Hknown.
  unfold Process. rewrite after_now. cbv zeta.
  remember (mkWorld (w_store w) _ _ _) as w1 eqn:Hw1.
  assert (w_store w = w_store w1) as Hw by by rewrite Hw1.
  clear Hw1. rewrite Hw in *. clear Hw. generalize (env_now E (w_calls w)). intros now.
  repeat case_bool_decide; intros [= <-];
    [apply created_progress|apply funds_reserved_progress|apply compliance_approved_progress
    |apply ledger_posted_progress|apply captured_progress]; auto.
Qed.

(** Rounds of a worker over one transfer: the record is processed as long as it
    is pending. *)
Fixpoint drive (rounds : nat) (t : string) (w : World MemoryStore) : World MemoryStore :=
  match rounds with
  | O => w
  | S rounds' =>
      match ms_transfers (w_store w) !! t with
      | Some r =>
          if bool_decide (tr_Status r = TransferPending)
          then drive rounds' t (interp E (Process s r) w).2 else w
      | None => w
      end
  end.

Lemma drive_settled rounds t w r :
  ms_transfers (w_store w) !! t = Some r → tr_Status r ≠ TransferPending → drive rounds t w = w.
Proof. intros Hr Hs. destruct rounds; simpl; [done|]. by rewrite Hr, bool_decide_eq_false_2. Qed.

(** The reason of a failure at step [k] of a transfer that started in [m]. *)
Lemma drive_terminates rounds : ∀ k w r,
  bank_inv (w_store w) → staged k (w_store w) r → (∀ n r1, ∃ b, env_check E n r1 = Ok b) →
  (k + rounds = 5)%nat →
  ∃ r', ms_transfers (w_store (drive rounds (tr_ID r) w)) !! tr_ID r = Some r' ∧
    (tr_Status r' = TransferCompleted ∨
     tr_Status r' = TransferFailed ∧ failure k (w_store w) r (tr_FailureCode r')).
Proof.
  induction rounds as [|rounds IH]; intros k w r Hinv Hst Hcheck Hk.
  { pose proof (st_step _ _ _ Hst) as Hr. unfold step_rank in Hr.
    assert (k = 5)%nat as -> by lia. by repeat case_bool_decide. }
  cbn [drive]. rewrite (st_stored _ _ _ Hst), bool_decide_eq_true_2 by apply Hst.
  destruct (Process_progress r w k Hinv Hst Hcheck) as (r' & Hr' & Hstep & Hnext).
  destruct (Process_alone_inv r w Hinv) as [Hinv' _]; [by apply stored_known, Hst|].
  unfold after in *. rewrite <-(ts_ID _ _ Hstep) in Hr' |- *.
  destruct Hnext as [Hnext|[[Hc _]|[Hf Hcode]]].
  - destruct (IH (S k) _ r' Hinv' Hnext Hcheck) as (r'' & Hr'' & Hend); [lia|]. exists r''.
    split; [done|]. destruct Hend as [?|[? Hcode]]; [by left|right; split; [done|]].
    destruct Hcode as [[? _]|[[? _]|Hcode]]; [lia|lia|]. by right; right.
  - exists r'. rewrite (drive_settled _ _ _ r') by (done || by rewrite Hc). split; [done|by left].
  - exists r'. rewrite (drive_settled _ _ _ r') by (done || by rewrite Hf). split; [done|by right].
Qed.
End Progress.

(** ** Properties *)

(** C14: a saga terminates: a worker alone with a created transfer, whose compliance
    checker answers, settles it within five rounds; it is completed, or it has
    failed for one of three reasons: an account has no events, the available
    balance did not cover amount and fee, or the checker rejected it. *)
Theorem saga_terminates (E : Env) (s : TransferService) w r :
  bank_inv (w_store w) →
  ms_transfers (w_store w) !! tr_ID r = Some r →
  tr_Status r = TransferPending → tr_CurrentStep r = SagaCreated →
  ms_reservations (w_store w) !! tr_ID r = None →
  ms_complianceDecisions (w_store w) !! tr_ID r = None →
  (∀ n r1, ∃ b, env_check E n r1 = Ok b) →
  ∃ r', ms_transfers (w_store (drive E s 5 (tr_ID r) w)) !! tr_ID r = Some r' ∧
    (tr_Status r' = TransferCompleted ∨
     tr_Status r' = TransferFailed ∧ failure E 0 (w_store w) r (tr_FailureCode r')).
Proof.
  intros Hinv Hr Hp Hstep Hh Hd Hcheck. apply (drive_terminates E s 5 0); try done.
  split; [done|done|by rewrite Hstep|by rewrite Hh|done].
Qed.

Lemma saga_terminates_witness :
  let r := new_transfer sample_command "key-1" "trf_1" 50 7 in
  let w := sample_world (@CreateTransfer reference_runtime r sample_store).2 in
  ∃ r', ms_transfers (w_store (drive sample_env sample_service 5 "trf_1" w)) !! "trf_1" = Some r' ∧
    (tr_Status r' = TransferCompleted ∨
     tr_Status r' = TransferFailed ∧
       failure sample_env 0 (w_store w) r (tr_FailureCode r')).
Proof.
  intros r w.
  apply (saga_terminates sample_env sample_service w r); try (vm_compute; reflexivity).
  - apply (call_bank_inv reference_runtime (cCreateTransfer r)); [|done..|apply sample_inv].
    split_and!; [|done..]. split; vm_compute; by intros.
  - intros n r1. exists true. reflexivity.
Defined.
