(* ===== verification/Retries.v ===== *)
(** * Retries: what a checker that never answers leads to. *)
From S2P Require Export SagaProgress.

(** An error that may go away: not a missing account, not missing funds. *)
Definition transient (e : error) : bool :=
  match e with ErrAccountNotFound | InsufficientFundsError _ _ => false | _ => true end.

Section Retries.
Context (E : Env) (s : TransferService).
Hypothesis Hcheck : ∀ n r, ∃ e, env_check E n r = Err e ∧ transient e = true.

(** The record of the transfer [t] after [a] failed attempts. *)
Definition attempted (m : MemoryStore) (t : string) (a : Z) (r : TransferRecord) : Prop :=
  ms_transfers m !! t = Some r ∧ tr_ID r = t ∧ tr_Status r = TransferPending ∧
  tr_CurrentStep r = SagaFundsReserved ∧ tr_AttemptCount r = a.

Lemma after_bind_now {A B} (f : Time → prog A) (k : A → prog B) w :
  after E ((env TimeNow ≫= f) ≫= k) w =
  after E (f (env_now E (w_calls w)) ≫= k)
    (mkWorld (w_store w) (S (w_calls w)) (w_bus w) (w_wake w)).
Proof. done. Qed.

Lemma handleStepError_transient r e : transient e = true →
  handleStepError r e true = retry r e false.
Proof. unfold handleStepError. by destruct e. Qed.

Lemma Process_reserved r w :
  tr_CurrentStep r = SagaFundsReserved →
  ∃ e w', w_store w' = w_store w ∧ after E (Process s r) w = after E (retry r e false) w'.
Proof.
  intros Hstep. unfold Process. rewrite after_now, Hstep. cbv zeta.
  rewrite bool_decide_eq_false_2, bool_decide_eq_true_2 by done. unfold on_error. rewrite after_check.
  destruct (Hcheck (w_calls (mkWorld (w_store w) (S (w_calls w)) (w_bus w) (w_wake w))) r)
    as (e & -> & He). rewrite handleStepError_transient by done.
  exists e. eexists. split; [|reflexivity]. done.
Qed.

(** An attempt that is not the last: the record waits, everything else stays. *)
Lemma attempt_again t a r w :
  0 ≤ a < 4 → attempted (w_store w) t a r →
  ∃ r', attempted (after E (Process s r) w) t (a + 1) r' ∧
    after E (Process s r) w = set_transfers (<[t := r']> (ms_transfers (w_store w))) (w_store w).
Proof.
  intros Ha (Hr & <- & Hp & Hstep & Hat).
  destruct (Process_reserved r w Hstep) as (e & w' & Hw & ->). unfold retry.
  rewrite Hat, int64_wrap_id by (unfold int64_ok, MinInt64, MaxInt64; lia).
  destruct (Z.leb_spec 5 (a + 1)); [lia|]. cbn [negb andb]. cbv zeta. rewrite after_now.
  edestruct (advance_after E r) as [at_ ->]; [by rewrite Hw|done|done|]. cbn [w_store]. rewrite Hw.
  eexists. split; [|reflexivity]. unfold attempted. simpl. by rewrite lookup_insert_eq.
Qed.

(** The fifth attempt gives up. *)
Lemma attempt_last t r h w :
  attempted (w_store w) t 4 r → ms_reservations (w_store w) !! t = Some h → res_State h = "reserved" →
  ∃ r' released, ms_transfers (after E (Process s r) w) !! t = Some r' ∧
    tr_Status r' = TransferFailed ∧ tr_FailureCode r' = "retry_exhausted" ∧ tr_AttemptCount r' = 5 ∧
    ms_reservations (after E (Process s r) w) =
      <[t := mkMemoryReservation (res_AccountID h) (res_Amount h) "released"]>
        (ms_reservations (w_store w)) ∧
    ms_streams (after E (Process s r) w) =
      <[res_AccountID h := stream (w_store w) (res_AccountID h) ++ [EReservationReleased released]]>
        (ms_streams (w_store w)) ∧ rrel_TransferID released = t ∧ rrel_Amount released = res_Amount h.
Proof.
  intros (Hr & <- & Hp & Hstep & Hat) Hh Hs.
  destruct (Process_reserved r w Hstep) as (e & w' & Hw & ->). unfold retry. rewrite Hat, Hstep.
  change (4 +! 1) with 5. cbn [negb andb Z.leb]. cbv zeta.
  rewrite bool_decide_eq_false_2 by done. cbn [negb].
  change (5 <=? 5) with true. cbv beta iota. rewrite after_bind_now, after_store. store_cbv. cbn [w_store].
  unfold ReleaseTransferReservation, finishReservation. rewrite Hw, Hh, Hs.
  change (bool_decide ("reserved" = "released")) with false.
  change (negb (bool_decide ("reserved" = "reserved"))) with false.
  change (bool_decide ("released" = "captured")) with false. cbv beta iota zeta.
  rewrite after_now. edestruct (advance_after E r) as [at_ ->]; [done..|by rewrite Hstep|].
  do 2 eexists. simpl. rewrite lookup_insert_eq. split_and!; try reflexivity; done.
Qed.
End Retries.

(** Up to four attempts later nothing but the record has changed. *)
Lemma attempts (E : Env) (s : TransferService) (n : nat) t a r w :
  (∀ n r, ∃ e, env_check E n r = Err e ∧ transient e = true) →
  0 ≤ a → a + Z.of_nat n ≤ 4 → attempted (w_store w) t a r →
  ∃ r' w', drive E s n t w = w' ∧ attempted (w_store w') t (a + Z.of_nat n) r' ∧
    w_store w' = set_transfers (<[t := r']> (ms_transfers (w_store w))) (w_store w).
Proof.
  intros Hcheck. revert a r w. induction n as [|n IH]; intros a r w Ha Hn Hr.
  - exists r, w. split_and!; [done|by rewrite Z.add_0_r|]. destruct Hr as (Hr & _).
    unfold set_transfers. rewrite insert_id by done. by destruct (w_store w).
  - cbn [drive]. destruct Hr as (Hr & Hrest). rewrite Hr, bool_decide_eq_true_2 by apply Hrest.
    destruct (attempt_again E s Hcheck t a r w) as (r1 & Hr1 & Hm1); [lia|by split|].
    destruct (IH (a + 1) r1 (interp E (Process s r) w).2) as (r' & w' & <- & Hr' & Hm');
      [lia|lia|exact Hr1|].
    exists r'. eexists. split; [reflexivity|].
    replace (a + Z.of_nat (S n)) with (a + 1 + Z.of_nat n) by lia. split; [done|].
    rewrite Hm'. unfold after in Hm1. rewrite Hm1. simpl. by rewrite insert_insert_eq.
Qed.

Lemma drive_plus E s n1 n2 t w : drive E s (n1 + n2) t w = drive E s n2 t (drive E s n1 t w).
Proof.
  revert w. induction n1 as [|n1 IH]; intros w; [done|]. cbn [drive Nat.add].
  destruct (ms_transfers (w_store w) !! t) as [r|] eqn:Hr; [|destruct n2; simpl; by rewrite ?Hr].
  destruct (bool_decide _) eqn:Hp; [apply IH|]. boolify. by rewrite (drive_settled _ _ _ _ _ r).
Qed.


(** A transfer whose funds are reserved, and a checker that times out. *)
Definition reserved_store : MemoryStore :=
  let r := new_transfer sample_command "key-1" "trf_1" 50 7 in
  let m := (@CreateTransfer reference_runtime r sample_store).2 in
  let m := (ReserveTransferFunds r 8 m).2 in
  (UpdateTransferSaga "trf_1"
     (saga_update r SagaFundsReserved TransferPending "" "" "" 0 8 10000 0) 8 m).2.

Definition failing_env : Env :=
  mkEnv (λ _, reference_runtime) Z.of_nat (λ _ _, Ok []) (λ _ _, Err (OtherError "timeout"))
    (λ _, None) (λ _, TickerFired).

