(* ===== verification/Adjustments.v ===== *)
(** * Adjustments: dual control and effects on the ledger. *)
From S2P Require Export SagaProgress.

#[local] Opaque ReplayAccount.

(** ** Definitions *)

(** What an approval debits, and from whom; a credit debits nobody. *)
Definition adjustment_debit (r : AdjustmentRequest) : option (string * Money) :=
  if negb (bool_decide (adj_OriginalTransferID r = ""))
  then Some (adj_CounterpartyAccountID r, adj_Amount r)
  else if bool_decide (adj_Direction r = "credit") then None
  else Some (adj_AccountID r, adj_Amount r).
(** What it credits: a reversed transfer gives back its fee too. *)
Definition adjustment_credit (r : AdjustmentRequest) : option (string * Money) :=
  if negb (bool_decide (adj_OriginalTransferID r = ""))
  then Some (adj_AccountID r, adj_Amount r +! adj_Fee r)
  else if bool_decide (adj_Direction r = "credit") then Some (adj_AccountID r, adj_Amount r)
  else None.

Definition part (id : string) (x : option (string * Money)) : Z :=
  match x with Some (acc, amount) => if bool_decide (acc = id) then amount else 0 | None => 0 end.

(** ** Facts *)

Lemma balance_put m id ev id' :
  exact_balance (stream (put_stream id (stream m id ++ [ev]) m) id') =
  if bool_decide (id = id') then balance_step (exact_balance (stream m id')) ev
  else exact_balance (stream m id').
Proof.
  rewrite stream_put. case_bool_decide as H.
  - subst. by rewrite decide_True, exact_balance_snoc.
  - by rewrite decide_False.
Qed.

Lemma settled_balance m' a id : exact_balance (stream (set_adjustments a m') id) = exact_balance (stream m' id).
Proof. done. Qed.

(** What [CreateAdjustment] stores: the request itself, for a manual one; a
    reversal takes over the parties and amounts of what it reverses. *)
Lemma CreateAdjustment_stored (G : GoRuntime) r m :
  match CreateAdjustment r m with
  | (Ok r', m') =>
      ms_adjustments m' !! adj_ID r' = Some r' ∧ adj_Type r' = adj_Type r ∧
      adj_Reason r' = adj_Reason r ∧ adj_CaseReference r' = adj_CaseReference r ∧
      adj_Status r' = adj_Status r ∧ adj_CreatedBy r' = adj_CreatedBy r ∧
      (adj_Type r = AdjustmentManual → r' = r ∧ stream m (adj_AccountID r) ≠ [])
  | (Err _, m') => m' = m
  end.
Proof.
  unfold CreateAdjustment. case_bool_decide as Ht.
  { destruct (Z.eqb_spec (seq_of (stream m (adj_AccountID r))) 0) as [Hz|Hz]; [done|].
    split_and!; try done; [by simpl; rewrite lookup_insert_eq|]. intros _. split; [done|].
    intros Hnil. by rewrite Hnil in Hz. }
  repeat (case_match; simplify_eq); try done; simpl; rewrite lookup_insert_eq; by split_and!.
Qed.

Lemma valid_request r :
  AdjustmentService.invalid_request r = false →
  (adj_Type r = AdjustmentManual ∨ adj_Type r = AdjustmentReversal) ∧
  10 ≤ slen (adj_Reason r) ≤ 500 ∧ 1 ≤ slen (adj_CaseReference r) ≤ 100 ∧
  (adj_Type r = AdjustmentManual →
     1 ≤ adj_Amount r ∧ (adj_Direction r = "credit" ∨ adj_Direction r = "debit")).
Proof.
  unfold AdjustmentService.invalid_request. cbv zeta. intros Hv.
  repeat (apply orb_false_elim in Hv as [Hv ?]). repeat match goal with
    | H : (_ <? _) = false |- _ => apply Z.ltb_ge in H
    end.
  split_and!; [|lia..|].
  - apply andb_false_iff in Hv as [Hv|Hv]; boolify; auto.
  - intros Ht. rewrite (bool_decide_eq_true_2 _ Ht) in H0. simpl in H0.
    apply orb_false_elim in H0 as [H0 Ha]. apply Z.ltb_ge in Ha. split; [lia|].
    apply orb_false_elim in H0 as [_ Hd].
    apply andb_false_iff in Hd as [Hd|Hd]; boolify; auto.
Qed.

(** ** Properties *)

(** C28: approving an adjustment posts exactly what it says, in exact arithmetic: a
    waiting request of another admin is refused only when the account it debits
    has less than the amount available, and then nothing changes; otherwise it
    is settled, the balance of the account it debits falls by the amount, that of
    the account it credits rises by the amount (plus the fee, for a transfer),
    and no other balance changes. *)
Theorem ApproveAdjustment_effect id adm at_ m r :
  ms_adjustments m !! id = Some r → adj_Status r = AdjustmentWaiting → adj_CreatedBy r ≠ adm →
  let '(res, m') := ApproveAdjustment id adm at_ m in
  match adjustment_debit r with
  | Some (acc, amount) =>
      let a := ReplayAccount acc (stream m acc) in
      acc_AvailableBalance a < amount ∧ res = Err (InsufficientFundsError a amount) ∧ m' = m
  | None => False
  end ∨
  res = Ok tt ∧
  ms_adjustments m' !! id = Some (settle r AdjustmentApproved adm (adj_RejectionReason r) at_) ∧
  (∀ acc amount, adjustment_debit r = Some (acc, amount) →
     amount ≤ acc_AvailableBalance (ReplayAccount acc (stream m acc))) ∧
  ∀ acc, exact_balance (stream m' acc) =
         exact_balance (stream m acc) - part acc (adjustment_debit r) + part acc (adjustment_credit r).
Proof.
  intros Hr Hw Hne. unfold ApproveAdjustment. rewrite Hr, Hw, bool_decide_eq_true_2 by done. simpl.
  rewrite bool_decide_eq_false_2 by done. unfold adjustment_debit, adjustment_credit, appendDebit, appendCredit.
  destruct (bool_decide (adj_OriginalTransferID r = "")); simpl;
    [destruct (bool_decide (adj_Direction r = "credit")); simpl|].
  - right. split_and!; [done|by rewrite lookup_insert_eq|done|]. intros acc.
    rewrite settled_balance, balance_put. case_bool_decide; simpl; lia.
  - destruct (Z.ltb_spec (acc_AvailableBalance (ReplayAccount (adj_AccountID r)
      (stream m (adj_AccountID r)))) (adj_Amount r)); simpl; [by left|]. right.
    split_and!; [done|by rewrite lookup_insert_eq|by intros ?? [= <- <-]|]. intros acc.
    rewrite settled_balance, balance_put. case_bool_decide; simpl; lia.
  - destruct (Z.ltb_spec (acc_AvailableBalance (ReplayAccount (adj_CounterpartyAccountID r)
      (stream m (adj_CounterpartyAccountID r)))) (adj_Amount r)); simpl; [by left|]. right.
    split_and!; [done|by rewrite lookup_insert_eq|by intros ?? [= <- <-]|]. intros acc.
    rewrite settled_balance, !balance_put. repeat case_bool_decide; simpl; lia.
Qed.

(** The reversal of the sample transfer: the fee comes back, too. *)
Lemma ApproveAdjustment_effect_witness :
  let '(res, m') := ApproveAdjustment sample_adjustment_id "adm9" 500 (w_store reversed_pool.1) in
  res = Ok tt ∧ exact_balance (stream m' "acc1") = 10000 ∧ exact_balance (stream m' "acc2") = 5000.
Proof.
  destruct (ms_adjustments (w_store reversed_pool.1) !! sample_adjustment_id) as [r|] eqn:E.
  - pose proof (ApproveAdjustment_effect sample_adjustment_id "adm9" 500 (w_store reversed_pool.1) r E)
      as H.
    assert (r = retarget (AdjustmentService.stamped (sample_reversal "sent by mistake")
      sample_adjustment_id "adm1" 101) "acc1" "acc2" 1000 50 "reversal") as Hr
      by (revert E; vm_compute; intros [= <-]; reflexivity).
    destruct (ApproveAdjustment _ _ _ _) as [res m'].
    destruct H as [Hs|(-> & _ & _ & Hb)]; [by subst|subst; vm_compute; intros [=]|..].
    + exfalso. revert Hs. subst r. vm_compute. intros [[=] _].
    + split; [reflexivity|]. rewrite !Hb, Hr. vm_compute. split; reflexivity.
  - exfalso. revert E. vm_compute. intros [=].
Defined.

(** Dual control, and settlement once: through any run, an adjustment keeps
    what it asks for and its maker; one that was waiting and no longer is was
    reviewed by an admin other than its maker; one that was settled never
    changes again. *)
Theorem adjustments_settled_once (E : Env) (s : TransferService) {A}
    (c c' : World MemoryStore * list (prog A)) id r :
  (∀ a, int64_ok (ts_feePolicy s a)) → Forall (thread s) c.2 → bank_inv (w_store c.1) →
  rtc (fresh_step E) c c' →
  ms_adjustments (w_store c.1) !! id = Some r →
  ∃ r', ms_adjustments (w_store c'.1) !! id = Some r' ∧
    (adj_Status r ≠ AdjustmentWaiting → r' = r) ∧
    (adj_AccountID r', adj_CounterpartyAccountID r', adj_Amount r', adj_Fee r',
       adj_Direction r', adj_CreatedBy r') =
    (adj_AccountID r, adj_CounterpartyAccountID r, adj_Amount r, adj_Fee r,
       adj_Direction r, adj_CreatedBy r) ∧
    (adj_Status r = AdjustmentWaiting → adj_Status r' ≠ AdjustmentWaiting →
       (adj_Status r' = AdjustmentApproved ∨ adj_Status r' = AdjustmentRejected) ∧
       adj_ReviewedBy r' ≠ adj_CreatedBy r').
Proof.
  intros Hfee Hps Hinv Hrun Hr. destruct (pool_run E s c c' Hfee Hps Hinv Hrun) as [_ He].
  destruct (ev_adjustments _ _ He id r Hr) as (r' & Hr' & Hstep). exists r'. split; [done|].
  destruct Hstep as [->|(Hw & adm & reason & at_ & Hne & [-> | ->])]; simpl;
    split_and!; try done; auto.
Qed.

(** The maker's own approval is refused, another admin's is not. *)
Lemma adjustments_settled_once_witness :
  approved_pool.2 !! 0%nat = Some (Ret (Err ErrSelfApproval)) ∧
  ∃ r', ms_adjustments (w_store approved_pool.1) !! sample_adjustment_id = Some r' ∧
    adj_Status r' = AdjustmentApproved ∧ adj_ReviewedBy r' ≠ adj_CreatedBy r'.
Proof.
  split; [vm_compute; reflexivity|].
  destruct (ms_adjustments (w_store approval_pool.1) !! sample_adjustment_id) as [r|] eqn:E;
    [|exfalso; revert E; vm_compute; discriminate].
  destruct (adjustments_settled_once sample_env sample_service approval_pool approved_pool
    sample_adjustment_id r sample_fee approval_pool_threads reversed_inv (pool_result_steps _ _ _) E)
    as (r' & Hr' & _ & _ & Hrev).
  exists r'. assert (adj_Status r' = AdjustmentApproved) as Hst
    by (revert Hr'; vm_compute; intros [= <-]; reflexivity).
  split; [exact Hr'|]. split; [exact Hst|].
  apply Hrev; [revert E; vm_compute; intros [= <-]; reflexivity|].
  rewrite Hst. vm_compute. discriminate.
Defined.

(** What is accepted is well-formed: a request that [Create] stores waits for
    approval in the name of its maker; its type, trimmed reason (10 to 500 bytes)
    and trimmed case reference (1 to 100) are valid; a manual one credits or
    debits an open account by at least one minor unit.  A request that is refused
    changes nothing. *)
Theorem adjustment_Create_validates (E : Env) r adm (w : World MemoryStore) :
  let '(res, w') := interp E (AdjustmentService.Create r adm) w in
  match res with
  | Ok r' =>
      ms_adjustments (w_store w') !! adj_ID r' = Some r' ∧
      adj_Status r' = AdjustmentWaiting ∧ adj_CreatedBy r' = adm ∧
      (adj_Type r' = AdjustmentManual ∨ adj_Type r' = AdjustmentReversal) ∧
      adj_Reason r' = TrimSpace (adj_Reason r) ∧ 10 ≤ slen (adj_Reason r') ≤ 500 ∧
      adj_CaseReference r' = TrimSpace (adj_CaseReference r) ∧
      1 ≤ slen (adj_CaseReference r') ≤ 100 ∧
      (adj_Type r' = AdjustmentManual →
         stream (w_store w) (adj_AccountID r') ≠ [] ∧ 1 ≤ adj_Amount r' ∧
         (adj_Direction r' = "credit" ∨ adj_Direction r' = "debit"))
  | Err _ => w_store w' = w_store w
  end.
Proof.
  unfold AdjustmentService.Create. cbv zeta. set (r0 := AdjustmentService.trimmed r).
  destruct (AdjustmentService.invalid_request r0) eqn:Hv; [done|].
  unfold randomID, try_bind. simpl.
  destruct (env_rand E (w_calls w) 16) as [raw|e]; [|done]. simpl.
  set (r1 := AdjustmentService.stamped r0 _ adm _).
  destruct (valid_request r0 Hv) as (Htype & Hreason & Hcase & Hmanual).
  store_cbv. pose proof (CreateAdjustment_stored (env_runtime E (S (S (w_calls w)))) r1 (w_store w)) as Hst.
  destruct (CreateAdjustment r1 (w_store w)) as [[r'|e] m']; simpl; [|done].
  destruct Hst as (Hs & Ht & Hr & Hc & Hw & Ha & Hm). clear Hv. subst r0 r1. simpl in *.
  rewrite Ht, Hr, Hc. split_and!; try done; try lia.
  intros Hm'. destruct (Hm Hm') as [-> Hopen]. split; [done|].
  by apply Hmanual.
Qed.

