(* ===== verification/Reviews.v ===== *)
(** * Reviews of customer applications. *)
From S2P Require Export Adjustments.

(** ** Facts *)

(** A reviewed application stays reviewed. *)
Lemma reviewed_again m m2 id c :
  evolves m m2 → ms_customers m !! id = Some c → cus_KYCStatus c ≠ KYCWaiting →
  ms_customers m2 !! id = Some c.
Proof.
  intros He Hc Hw. destruct (ev_customers _ _ He id c Hc) as (c2 & Hc2 & [->|[? _]]); [done|].
  by destruct Hw.
Qed.

(** ** Properties *)

(** C34: an approval opens the customer's account, once: approving a waiting
    application under an unused account identifier creates a stream whose only
    event opens it with the requested deposit, available in full, and links it to
    the customer; from then on, whatever happens, every further approval or
    rejection of the application is refused and changes nothing. *)
Theorem ApproveApplication_opens_account id adm acc at_ m c :
  bank_inv m → ms_customers m !! id = Some c → cus_KYCStatus c = KYCWaiting →
  ms_streams m !! acc = None →
  let '(res, m') := ApproveApplication id adm acc at_ m in
  res = Ok tt ∧ bank_inv m' ∧
  (∃ ev, stream m' acc = [ev] ∧ event_ok acc 0 ev ∧ is_opening ev = true) ∧
  ReplayAccount acc (stream m' acc) =
    mkAccount acc (cus_RequestedDeposit c) 0 (cus_RequestedDeposit c) ∧
  ms_customers m' !! id = Some (reviewed c KYCApproved acc adm (cus_RejectionReason c) at_) ∧
  (∀ acc', acc' ≠ acc → stream m' acc' = stream m acc') ∧
  ∀ m2 adm' acc' reason at', evolves m' m2 →
    ApproveApplication id adm' acc' at' m2 = (Err ErrApplicationReviewed, m2) ∧
    RejectApplication id adm' reason at' m2 = (Err ErrApplicationReviewed, m2).
Proof.
  intros Hinv Hc Hw Hfresh.
  destruct (call_bank_inv reference_runtime (cApproveApplication id adm acc at_) m I Hfresh I Hinv)
    as [Hinv' _]. revert Hinv'. store_cbv.
  destruct (wf_customer m id c (inv_wf _ Hinv) Hc) as [_ Hdep].
  unfold ApproveApplication. rewrite Hc, Hw. rewrite bool_decide_eq_true_2 by done. cbn [negb].
  intros Hinv'. split_and!; [done|done|..].
  - rewrite stream_put, decide_True by done. eexists. split_and!; [done|by constructor|done].
  - rewrite stream_put, decide_True by done. rewrite ReplayAccount_exact by (constructor; [exact Hdep|constructor]).
    unfold exact_balance, exact_reserved. cbn. rewrite Z.sub_0_r, (int64_wrap_id _ Hdep). done.
  - simpl. by rewrite lookup_insert_eq.
  - intros acc' Hne. by rewrite stream_put, decide_False.
  - intros m2 adm' acc' reason at' He.
    pose proof (reviewed_again _ m2 id (reviewed c KYCApproved acc adm (cus_RejectionReason c) at_) He)
      as Hc2. simpl in Hc2. rewrite lookup_insert_eq in Hc2. specialize (Hc2 eq_refl ltac:(done)).
    unfold ApproveApplication, RejectApplication. by rewrite Hc2.
Qed.

(** A customer whose application waits. *)
Definition sample_customer : Customer :=
  mkCustomer "cus_1" "" "Ada" "Lovelace" 0 "GB" "ada@example.com" "" "" 
    (mkResidentialAddress "" "" "" "" "" "") (mkGovernmentDocument "passport" "P1" "GB") [] ""
    KYCWaiting 250000 "" None "" 7.
Definition applied_store : MemoryStore :=
  (@CreateCustomerApplication reference_runtime sample_customer sample_store).2.

Lemma applied_inv : bank_inv applied_store.
Proof.
  apply (call_bank_inv reference_runtime (cCreateCustomerApplication sample_customer));
    [|done|done|apply sample_inv]. split; vm_compute; by intros.
Qed.

Lemma ApproveApplication_opens_account_witness :
  let '(res, m') := ApproveApplication "cus_1" "adm_1" "acc_1" 9 applied_store in
  res = Ok tt ∧ ReplayAccount "acc_1" (stream m' "acc_1") = mkAccount "acc_1" 250000 0 250000.
Proof.
  pose proof (ApproveApplication_opens_account "cus_1" "adm_1" "acc_1" 9 applied_store
    sample_customer applied_inv ltac:(vm_compute; reflexivity) ltac:(reflexivity)
    ltac:(vm_compute; reflexivity)) as H.
  destruct (ApproveApplication _ _ _ _ _) as [res m']. destruct H as (Hr & _ & _ & Ha & _).
  split; [exact Hr|exact Ha].
Defined.

(** The review list shows every application of a status, each once, oldest
    first, whatever the iteration order of the map; for an empty status it shows
    the waiting ones, and an unknown status is an error. *)
Theorem review_List_complete (E : Env) status (w : World MemoryStore) :
  let shown := if bool_decide (status = "") then KYCWaiting else status in
  match (interp E (ReviewService.List status) w).1 with
  | Ok items =>
      (shown = KYCWaiting ∨ shown = KYCApproved ∨ shown = KYCRejected) ∧
      StronglySorted (λ a b, as_CreatedAt a ≤ as_CreatedAt b) items ∧
      items ≡ₚ summary <$> filter (λ c, cus_KYCStatus c = shown) (map_to_list (ms_customers (w_store w))).*2
  | Err e => e = ErrInvalidReviewStatus ∧ shown ≠ KYCWaiting ∧ shown ≠ KYCApproved ∧ shown ≠ KYCRejected
  end.
Proof.
  cbv zeta. unfold ReviewService.List. cbv zeta.
  set (shown := if bool_decide (status = "") then _ else _). clearbody shown.
  destruct (negb _ && _ && _) eqn:Hs; simpl.
  { apply andb_true_iff in Hs as [Hs Hr]. apply andb_true_iff in Hs as [Hw Ha]. by boolify. }
  split_and!.
  - apply andb_false_iff in Hs as [Hs|Hs]; [apply andb_false_iff in Hs as [Hs|Hs]|]; boolify; auto.
  - eapply StronglySorted_implies; [|apply sort_slice_sorted, weak_order_ltb].
    intros a b. by rewrite Z.ltb_ge.
  - rewrite sort_slice_perm. apply fmap_Permutation. by rewrite range_map_perm.
Qed.
