(* ===== verification/Clients.v ===== *)
(** * Clients of the bank: onboarding, login, sessions. *)
From S2P Require Export Reviews.

#[local] Opaque hashPassword.

(** ** Facts: validation *)

Lemma check_required_ok items :
  check_required items = Ok tt ↔ Forall (λ item, item.2 ≠ "" ∧ slen item.2 ≤ 200) items.
Proof.
  induction items as [|[field value] items IH]; simpl; [by split|].
  rewrite Forall_cons, <-IH. simpl. case_bool_decide; [by split; [|intros [[]]]|].
  destruct (Z.ltb_spec 200 (slen value)); split; [done|lia|auto|tauto].
Qed.

Lemma check_required_error items e :
  check_required items = Err e → ∃ field message, e = validationError field message.
Proof.
  induction items as [|[field value] items IH]; simpl; [done|].
  repeat case_match; try apply IH; intros [= <-]; eauto.
Qed.

Section Validation.
Context `{GoRuntime} `{GoText}.

Lemma country_codes_ok c :
  range_find (λ value, negb (countryCodePattern value)) (country_codes c) = None ↔
  countryCodePattern (oc_Nationality c) = true ∧
  countryCodePattern (ra_Country (oc_ResidentialAddress c)) = true ∧
  countryCodePattern (gd_IssuingCountry (oc_GovernmentDocument c)) = true.
Proof.
  rewrite range_find_None. unfold country_codes. split.
  - intros Hall.
    pose proof (Hall "nationality" _ (lookup_insert_eq _ _ _)) as H1.
    pose proof (Hall "residential_address.country" (ra_Country (oc_ResidentialAddress c))) as H2.
    pose proof (Hall "government_document.issuing_country"
      (gd_IssuingCountry (oc_GovernmentDocument c))) as H3.
    rewrite lookup_insert_ne, lookup_insert_eq in H2 by done.
    rewrite !lookup_insert_ne, lookup_singleton_eq in H3 by done.
    split_and!; apply negb_false_iff; auto.
  - intros (H1 & H2 & H3) k v. rewrite !lookup_insert_Some, lookup_singleton_Some.
    intros [[_ <-]|[_ [[_ <-]|[_ [_ <-]]]]]; by rewrite ?H1, ?H2, ?H3.
Qed.

(** What [validate_details] accepts. *)
Definition details_ok (c : OnboardingCommand) (now birthDate : Time) : Prop :=
  (∃ d, ParseDate (oc_DateOfBirth c) = Some d ∧
     birthDate = Date (year d) (month d) (day d) ∧
     birthDate ≤ now ∧ Date (year d + 18) (month d) (day d) ≤ now) ∧
  (oc_InitialDeposit c = 0 ∨ 1000 ≤ oc_InitialDeposit c) ∧
  1 ≤ Z.of_nat (length (oc_PassportImage c)) ≤ 5 * 2 ^ 20 ∧
  is_Some (DetectContentType (oc_PassportImage c)).

Lemma ParseDate_valid s d :
  ParseDate s = Some d → 1 ≤ month d ≤ 12 ∧ 1 ≤ day d ≤ days_in (month d) (year d).
Proof.
  unfold ParseDate. intros Hp. repeat (case_match || simplify_option_eq); try done.
  repeat match goal with Hb : _ && _ = true |- _ => apply andb_prop in Hb as [? ?] end.
  boolify. simpl. lia.
Qed.

(** The age is measured in full years. *)
Lemma age_spec s d now n :
  ParseDate s = Some d → n ≤ age d now ↔ Date (year d + n) (month d) (day d) ≤ now.
Proof.
  intros [Hm Hd]%ParseDate_valid. rewrite <-years_passed; [|done|].
  - unfold age. destruct (now <? _); by rewrite ?Z.sub_0_r.
  - destruct (Z.eqb_spec (month d) 2) as [E|]; [|done]. revert Hd. rewrite E. unfold days_in.
    simpl. destruct (leap _); lia.
Qed.

Lemma validate_details_ok c now birthDate :
  validate_details c now = Ok birthDate ↔ details_ok c now birthDate.
Proof.
  unfold validate_details, details_ok. change (Z.shiftl 5 20) with (5 * 2 ^ 20).
  destruct (ParseDate (oc_DateOfBirth c)) as [d|] eqn:Hd; [|by split; [|intros ((?&?&_)&_)]].
  pose proof (age_spec _ d now 18 Hd) as Hage.
  destruct (Z.ltb_spec now (Date (year d) (month d) (day d))).
  { split; [done|]. intros ((d' & [= <-] & -> & ? & _) & _). lia. }
  destruct (Z.ltb_spec (age d now) 18).
  { split; [done|]. intros ((d' & [= <-] & _ & _ & ?) & _). lia. }
  destruct (Z.ltb_spec (oc_InitialDeposit c) 0); [split; [done|lia]|].
  destruct (Z.ltb_spec 0 (oc_InitialDeposit c)), (Z.ltb_spec (oc_InitialDeposit c) 1000);
    simpl; try (split; [done|lia]).
  all: destruct (Z.eqb_spec (Z.of_nat (length (oc_PassportImage c))) 0); [split; [done|lia]|].
  all: rewrite Z.gtb_ltb; destruct (Z.ltb_spec (5 * 2 ^ 20) (Z.of_nat (length (oc_PassportImage c))));
    [split; [done|lia]|].
  all: destruct (DetectContentType _) eqn:Hi; [|by split; [|intros (_ & _ & _ & [? ?])]].
  all: split; [intros [= <-]|by intros ((d' & [= <-] & -> & _) & _)].
  all: split_and!; [exists d; split_and!; try done; by apply Hage|lia..|done].
Qed.
End Validation.

(** ** Properties: onboarding *)

(** An application is accepted exactly when it is valid: a password of 10 to
    128 bytes; every required field given, in at most 200 bytes; a mail address, an
    E.164 phone number, three two-letter country codes, a supported document; a
    date of birth at least eighteen calendar years ago (1 March standing for 29
    February where there is none); no deposit or at least 10.00; a JPEG, PNG or
    WebP image of at most 5 MB.  Any other is refused with a validation error that
    names a field. *)
Theorem validateOnboarding_accepts `{GoRuntime} `{GoText} c now :
  let address := oc_ResidentialAddress c in
  let document := oc_GovernmentDocument c in
  (∀ birthDate, validateOnboarding c now = Ok birthDate ↔
    10 ≤ slen (oc_Password c) ≤ 128 ∧
    Forall (λ item, item.2 ≠ "" ∧ slen item.2 ≤ 200) (required c) ∧
    ParseAddress (oc_Email c) = true ∧
    phonePattern (oc_Phone c) = true ∧
    (countryCodePattern (oc_Nationality c) = true ∧
     countryCodePattern (ra_Country address) = true ∧
     countryCodePattern (gd_IssuingCountry document) = true) ∧
    validDocument (gd_Type document) = true ∧
    details_ok c now birthDate) ∧
  ∀ e, validateOnboarding c now = Err e → ∃ field message, e = validationError field message.
Proof.
  cbv zeta. split.
  - intros birthDate. rewrite <-country_codes_ok, <-validate_details_ok, <-check_required_ok.
    unfold validateOnboarding. rewrite Z.gtb_ltb.
    destruct (Z.ltb_spec (slen (oc_Password c)) 10); [split; [done|lia]|].
    destruct (Z.ltb_spec 128 (slen (oc_Password c))); [split; [done|lia]|]. cbn [orb].
    destruct (check_required _) as [[]|e]; [|by split; [|intros (_ & ? & _)]].
    destruct (ParseAddress _); [|by split; [|intros (_ & _ & ? & _)]]. cbn [negb].
    destruct (phonePattern _); [|by split; [|intros (_ & _ & _ & ? & _)]]. cbn [negb].
    destruct (range_find _ _) as [[]|]; [by split; [|intros (_ & _ & _ & _ & ? & _)]|].
    destruct (validDocument _); [|by split; [|intros (_ & _ & _ & _ & _ & ? & _)]].
    cbn [negb]. tauto.
  - intros e. unfold validateOnboarding, validate_details.
    repeat case_match; intros [= <-]; eauto. by eapply check_required_error.
Qed.

(** The new customer of a successful application. *)
Definition onboarded `{GoRuntime} `{GoText} (command : OnboardingCommand) (m m' : MemoryStore)
    (id : string) : Prop :=
  let c := normalizeOnboarding command in
  ∃ hash t birthDate now,
    let customer := new_customer c id hash birthDate now in
    validateOnboarding c t = Ok birthDate ∧
    verifyPassword hash (oc_Password command) = true ∧
    ms_customers m !! id = None ∧
    (∀ k c', ms_customers m !! k = Some c' → ¬ same_person c' customer) ∧
    m' = set_customers (<[id := customer]> (ms_customers m)) m.

(** Why an application is refused: it is invalid, the person or the identifier
    drawn is known already, or the random source fails. *)
Definition refused `{GoRuntime} `{GoText} (E : Env) (command : OnboardingCommand)
    (w : World MemoryStore) (e : error) : Prop :=
  let c := normalizeOnboarding command in
  validateOnboarding c (env_now E (w_calls w)) = Err e ∨
  (e = ErrCustomerAlreadyExists ∧
   ∃ k c', ms_customers (w_store w) !! k = Some c' ∧
     (cus_Email c' = oc_Email c ∨ cus_GovernmentDocument c' = oc_GovernmentDocument c ∨
      ∃ n raw, env_rand E n 16 = Ok raw ∧ k = "cus_" +:+ EncodeToString raw)) ∨
  ∃ n e', env_rand E n 16 = Err e'.

Lemma CreateCustomerApplication_cases (G : GoRuntime) c m :
  CreateCustomerApplication c m = (Err ErrCustomerAlreadyExists, m) ∧
    (∃ k c', ms_customers m !! k = Some c' ∧ (same_person c' c ∨ k = cus_ID c)) ∨
  ms_customers m !! cus_ID c = None ∧
  (∀ k c', ms_customers m !! k = Some c' → ¬ same_person c' c) ∧
  CreateCustomerApplication c m = (Ok tt, set_customers (<[cus_ID c := c]> (ms_customers m)) m).
Proof.
  unfold CreateCustomerApplication. destruct (range_find _ _) as [[k c']|] eqn:Hf.
  { left. split; [done|]. apply range_find_Some in Hf as [Hk Hs]. exists k, c'.
    split; [done|]. left. apply orb_prop in Hs as [Hs|Hs]; [left; by boolify|right].
    repeat apply andb_prop in Hs as [Hs ?]. boolify.
    destruct (cus_GovernmentDocument c'), (cus_GovernmentDocument c). simpl in *. by subst. }
  destruct (ms_customers m !! cus_ID c) as [c'|] eqn:Hid; [left; eauto 10|].
  right. split_and!; [done| |done]. rewrite range_find_None in Hf. intros k c' Hk Hs.
  specialize (Hf k c' Hk). apply orb_false_iff in Hf as [He Hd].
  destruct Hs as [Hs|Hs]; [by boolify|]. by rewrite Hs, !bool_decide_eq_true_2 in Hd.
Qed.

Lemma Onboard_alone (G : GoRuntime) `{GoText} (E : Env) command (w : World MemoryStore) :
  let '(r, w') := interp E (Onboard command) w in
  match r with
  | Ok receipt =>
      or_KYCStatus receipt = KYCWaiting ∧
      onboarded command (w_store w) (w_store w') (or_CustomerID receipt)
  | Err e => w_store w' = w_store w ∧ refused E command w e
  end.
Proof.
  unfold Onboard, wrap_error, refused. rewrite interp_bind. simpl.
  destruct (validateOnboarding _ _) as [birthDate|e] eqn:Hv; [|by simpl; auto].
  unfold try_bind at 1. rewrite !interp_bind.
  destruct (hashPassword_run E (oc_Password command)
    (mkWorld (w_store w) (S (w_calls w)) (w_bus w) (w_wake w))) as (r & Hr & Hpw).
  change (oc_Password (normalizeOnboarding command)) with (oc_Password command). rewrite Hr.
  destruct r as [hash|e]; simpl; [|split; [done|]; right; right; destruct Hpw as (n & Hn); eauto].
  destruct (env_rand E _ 16) as [raw|e] eqn:Hraw; simpl; [|eauto 10].
  set (c := new_customer _ _ _ _ _). store_cbv.
  destruct (CreateCustomerApplication_cases (env_runtime E (S (S (S (S (w_calls w)))))) c (w_store w))
    as [[-> (k & c' & Hk & Hs)]|(Hn & Hp & ->)]; simpl.
  - split; [done|]. right. left. split; [done|]. exists k, c'. split; [done|].
    destruct Hs as [[Hs|Hs]|Hs]; eauto 10.
  - split; [done|]. unfold onboarded. eauto 20.
Qed.

(** An application that is accepted is stored as given, normalised, and
    nothing else happens: the customer waits for approval, has no account, is not
    the same person (email or document) as any other customer, and the stored
    hash verifies the password.  An application is refused only when it is
    invalid, the person (or the drawn identifier) exists, or the random source
    fails, and then nothing changes. *)
Theorem Onboard_applies (G : GoRuntime) `{GoText} (E : Env) command (w : World MemoryStore) :
  let '(r, w') := interp E (Onboard command) w in
  match r with
  | Ok receipt =>
      or_KYCStatus receipt = KYCWaiting ∧
      onboarded command (w_store w) (w_store w') (or_CustomerID receipt)
  | Err e => w_store w' = w_store w ∧ refused E command w e
  end.
Proof. apply Onboard_alone. Qed.

(** ** Facts: sessions *)

Definition session_until (m : MemoryStore) (token : string) (p : Principal) (expiry : Time) : Prop :=
  ∀ t, FindSession (tokenHash token) t m = if t <? expiry then Ok p else Err ErrUnauthorized.

(** Whom a store knows by an email address and a password. *)
Definition knows_admin (m : MemoryStore) (email password : string) (a : Admin) : Prop :=
  ms_admins m !! adm_ID a = Some a ∧ adm_Email a = email ∧
  verifyPassword (adm_PasswordHash a) password = true.
Definition knows_customer (m : MemoryStore) (email password : string) (c : Customer) : Prop :=
  ms_customers m !! cus_ID c = Some c ∧ cus_Email c = email ∧
  verifyPassword (cus_PasswordHash c) password = true.

Lemma open_session_alone (E : Env) cid aid p (w : World MemoryStore) :
  (∀ n k bs, env_rand E n k = Ok bs → length bs = k) →
  let '(r, w') := interp E (open_session cid aid p) w in
  match r with
  | Ok (token, p') =>
      p' = p ∧ token ≠ "" ∧ ∃ n,
        w_store w' = set_sessions (<[tokenHash token :=
            mkSession (tokenHash token) cid aid (env_now E n + sessionLifetime)]>
          (ms_sessions (w_store w))) (w_store w)
  | Err e => w_store w' = w_store w ∧ ∃ n, env_rand E n 32 = Err e
  end.
Proof.
  intros Hrand. unfold open_session. simpl. destruct (env_rand E (w_calls w) 32) as [raw|e] eqn:Hr;
    simpl; [|by eauto]. split_and!; [done| |by eexists].
  apply Hrand in Hr. by destruct raw as [|? [|? [|]]].
Qed.

Lemma recognised_admin (G : GoRuntime) m email password :
  bank_inv m →
  match recognised (FindAdminByEmail email m) adm_PasswordHash password with
  | Some a => knows_admin m email password a
  | None => ∀ a, ¬ knows_admin m email password a
  end.
Proof.
  intros Hinv. unfold recognised, FindAdminByEmail, knows_admin.
  destruct (range_find _ _) as [[k a]|] eqn:Hf.
  - apply range_find_Some in Hf as [Hk He]. boolify.
    pose proof (wf_admins _ (inv_wf _ Hinv) k a Hk) as Hid. simpl in Hid. subst k.
    destruct (verifyPassword _ _) eqn:Hv; [done|]. intros a' (Ha' & He' & Hv').
    assert (adm_ID a = adm_ID a') as Hid.
    { eapply (proj2 (inv_people _ Hinv)); [done..|]. unfold same_email. congruence. }
    rewrite Hid in Hk. congruence.
  - intros a (Ha & He & _). rewrite range_find_None in Hf. specialize (Hf _ _ Ha). by boolify.
Qed.

Lemma recognised_customer (G : GoRuntime) m email password :
  bank_inv m →
  match recognised (FindCustomerByEmail email m) cus_PasswordHash password with
  | Some c => knows_customer m email password c
  | None => ∀ c, ¬ knows_customer m email password c
  end.
Proof.
  intros Hinv. unfold recognised, FindCustomerByEmail, knows_customer.
  destruct (range_find _ _) as [[k c]|] eqn:Hf.
  - apply range_find_Some in Hf as [Hk He]. boolify.
    destruct (wf_customers _ (inv_wf _ Hinv) k c Hk) as [Hid _]. subst k.
    destruct (verifyPassword _ _) eqn:Hv; [done|]. intros c' (Hc' & He' & Hv').
    assert (cus_ID c = cus_ID c') as Hid.
    { eapply (proj1 (inv_people _ Hinv)); [done..|]. left. congruence. }
    rewrite Hid in Hk. congruence.
  - intros c (Hc & He & _). rewrite range_find_None in Hf. specialize (Hf _ _ Hc). by boolify.
Qed.

(** Who may log in, and what a login leaves behind. *)
Definition login_outcome (E : Env) (m : MemoryStore) (email password : string)
    (r : go_result (string * Principal)) (m' : MemoryStore) : Prop :=
  match r with
  | Ok (token, p) =>
      token ≠ "" ∧
      ((∃ a, knows_admin m email password a ∧ p = admin_principal a) ∨
       (∃ c, knows_customer m email password c ∧ p = customer_principal c ∧
          ∀ a, ¬ knows_admin m email password a)) ∧
      ms_streams m' = ms_streams m ∧ ms_customers m' = ms_customers m ∧
      ∃ n, session_until m' token p (env_now E n + sessionLifetime)
  | Err e =>
      m' = m ∧
      (e = ErrInvalidCredentials ∧ (∀ a, ¬ knows_admin m email password a) ∧
         (∀ c, ¬ knows_customer m email password c) ∨
       ∃ n, env_rand E n 32 = Err e)
  end.

Lemma session_opened m token cid aid p expiry :
  (aid ≠ "" ∧ (∃ a, ms_admins m !! aid = Some a ∧ p = admin_principal a) ∨
   aid = "" ∧ ∃ c, ms_customers m !! cid = Some c ∧ p = customer_principal c) →
  session_until
    (set_sessions (<[tokenHash token := mkSession (tokenHash token) cid aid expiry]> (ms_sessions m)) m)
    token p expiry.
Proof.
  intros Hp t. unfold FindSession. simpl. rewrite lookup_insert_eq. simpl.
  rewrite Z.leb_antisym. destruct (t <? expiry); [|done]. simpl.
  destruct Hp as [(Haid & a & -> & ->)|(-> & c & -> & ->)]; [|done].
  by rewrite bool_decide_eq_false_2.
Qed.

Lemma Login_alone `{GoText} (E : Env) email password (w : World MemoryStore) :
  bank_inv (w_store w) → ms_admins (w_store w) !! "" = None →
  (∀ n k bs, env_rand E n k = Ok bs → length bs = k) →
  let '(r, w') := interp E (Login email password) w in
  login_outcome E (w_store w) (ToLower (TrimSpace email)) password r (w_store w').
Proof.
  intros Hinv Hadm Hrand. unfold Login. set (address := ToLower _). rewrite interp_bind. simpl.
  store_cbv. pose proof (recognised_admin (env_runtime E (w_calls w)) _ address password Hinv) as Ha.
  destruct (recognised _ adm_PasswordHash password) as [a|].
  - set (w1 := mkWorld _ _ _ _). pose proof (open_session_alone E "" (adm_ID a) (admin_principal a) w1 Hrand) as Ho.
    destruct (interp E (open_session _ _ _) w1) as [[[token p]|e] w'].
    + destruct Ho as (-> & Ht & n & ->). simpl. split_and!; [done|eauto|done..|].
      exists n. apply session_opened. left. destruct Ha as (Ha & _). split; [|eauto].
      intros He. rewrite He in Ha. simpl in *. congruence.
    + destruct Ho as [-> ?]. simpl. eauto.
  - simpl. store_cbv.
    pose proof (recognised_customer (env_runtime E (S (w_calls w))) _ address password Hinv) as Hc.
    destruct (recognised _ cus_PasswordHash password) as [c|]; [|simpl; eauto].
    set (w1 := mkWorld _ _ _ _). pose proof (open_session_alone E (cus_ID c) "" (customer_principal c) w1 Hrand) as Ho.
    destruct (interp E (open_session _ _ _) w1) as [[[token p]|e] w'].
    + destruct Ho as (-> & Ht & n & ->). simpl. split_and!; [done|eauto 8|done..|].
      exists n. apply session_opened. right. destruct Hc as (Hc & _). eauto.
    + destruct Ho as [-> ?]. simpl. eauto.
Qed.

(** What an evolution keeps of a customer. *)
Lemma knows_customer_evolves m m' email password c :
  bank_inv m' → evolves m m' → knows_customer m email password c →
  ∃ c', cus_ID c' = cus_ID c ∧ knows_customer m' email password c'.
Proof.
  intros Hinv He (Hc & Hemail & Hpw). destruct (ev_customers _ _ He _ _ Hc) as (c' & Hc' & Hstep).
  assert (cus_ID c' = cus_ID c ∧ cus_Email c' = cus_Email c ∧
    cus_PasswordHash c' = cus_PasswordHash c) as (Hid & He' & Hp').
  { destruct Hstep as [->|(_ & adm & at_ & [[acc ->]|[reason ->]])]; done. }
  exists c'. split; [done|]. unfold knows_customer. rewrite Hid, He', Hp'. done.
Qed.

(** ** Properties: sessions *)

(** C27: whoever has applied can log in: once an application has been accepted, its
    email address (up to case and surrounding white space) and password let the
    customer in at any later time, whatever has happened in between, reviewed or
    not, unless an admin has the same address and password. *)
Theorem onboarded_can_log_in (G : GoRuntime) `{GoText} (E E2 : Env) command receipt email
    (w w2 : World MemoryStore) :
  (interp E (Onboard command) w).1 = Ok receipt →
  evolves (w_store (interp E (Onboard command) w).2) (w_store w2) → bank_inv (w_store w2) →
  ms_admins (w_store w2) !! "" = None →
  (∀ n k, ∃ bs, env_rand E2 n k = Ok bs ∧ length bs = k) →
  ToLower (TrimSpace email) = ToLower (TrimSpace (oc_Email command)) →
  (∀ a, ¬ knows_admin (w_store w2) (ToLower (TrimSpace email)) (oc_Password command) a) →
  ∃ token p, (interp E2 (Login email (oc_Password command)) w2).1 = Ok (token, p) ∧
    pr_Role p = "customer" ∧ pr_CustomerID p = or_CustomerID receipt.
Proof.
  intros Hr He Hinv2 Hadm Hrand Hmail Hno. pose proof (Onboard_alone G E command w) as Ho.
  destruct (interp E (Onboard command) w) as [r w1]. cbn [fst snd] in *. subst r.
  destruct Ho as (_ & hash & t & birth & now & _ & Hpw & _ & _ & Hw1).
  destruct (knows_customer_evolves _ _ (ToLower (TrimSpace email)) (oc_Password command)
    (new_customer (normalizeOnboarding command) (or_CustomerID receipt) hash birth now)
    Hinv2 He) as (c & Hid & Hc).
  { rewrite Hw1. unfold knows_customer. simpl. by rewrite lookup_insert_eq. }
  assert (∀ n k bs, env_rand E2 n k = Ok bs → length bs = k) as Hlen.
  { intros n k bs Hbs. destruct (Hrand n k) as (bs' & ? & ?). congruence. }
  pose proof (Login_alone E2 email (oc_Password command) w2 Hinv2 Hadm Hlen) as Hl.
  destruct (interp E2 (Login email (oc_Password command)) w2) as [[[token p]|e] w3].
  - destruct Hl as (_ & [(a & Ha & _)|(c' & Hc' & -> & _)] & _); [by destruct (Hno a)|].
    exists token. eexists. split_and!; [done..|]. etrans; [|exact Hid].
    eapply (proj1 (inv_people _ Hinv2)); [apply Hc'|apply Hc|]. left.
    destruct Hc as (_ & -> & _), Hc' as (_ & -> & _). done.
  - destruct Hl as (_ & [(_ & _ & Hnc)|[n Hn]]); [by destruct (Hnc c)|].
    destruct (Hrand n 32%nat) as (? & ? & _). congruence.
Qed.

(** C35: people are known once: however applications race, no two customers have
    the same email address or the same document, and no two admins the same email
    address. *)
Theorem people_unique (E : Env) (s : TransferService) {A}
    (c c' : World MemoryStore * list (prog A)) :
  (∀ a, int64_ok (ts_feePolicy s a)) → Forall (thread s) c.2 → bank_inv (w_store c.1) →
  rtc (fresh_step E) c c' →
  let m := w_store c'.1 in
  (∀ k1 k2 c1 c2, ms_customers m !! k1 = Some c1 → ms_customers m !! k2 = Some c2 →
     cus_Email c1 = cus_Email c2 ∨ cus_GovernmentDocument c1 = cus_GovernmentDocument c2 →
     k1 = k2 ∧ c1 = c2) ∧
  (∀ k1 k2 a1 a2, ms_admins m !! k1 = Some a1 → ms_admins m !! k2 = Some a2 →
     adm_Email a1 = adm_Email a2 → k1 = k2 ∧ a1 = a2).
Proof.
  intros Hfee Hps Hinv Hrun. destruct (pool_run E s c c' Hfee Hps Hinv Hrun) as [Hinv' _].
  destruct (inv_people _ Hinv') as [Hc Ha]. split.
  - intros k1 k2 c1 c2 H1 H2 Hs. assert (k1 = k2) as -> by by eapply Hc. by simplify_eq.
  - intros k1 k2 a1 a2 H1 H2 Hs. assert (k1 = k2) as -> by by eapply Ha. by simplify_eq.
Qed.

(** ** Witnesses *)

Definition sample_salt : list ascii := bytes_of "0123456789abcdef".
Definition hashed (password : string) : string :=
  encoded_password 1 sample_salt (pbkdf2SHA256 (bytes_of password) sample_salt 1 32).

(** A bank with an admin. *)
Definition admin_store : MemoryStore :=
  (@UpsertAdmin reference_runtime (mkAdmin "adm_1" "ada@example.com" (hashed "correct horse"))
     applied_store).2.

Lemma admin_inv : bank_inv admin_store.
Proof.
  by apply (call_bank_inv reference_runtime (cUpsertAdmin
    (mkAdmin "adm_1" "ada@example.com" (hashed "correct horse")))); [..|apply applied_inv].
Qed.

Lemma sample_rand n k bs : env_rand sample_env n k = Ok bs → length bs = k.
Proof. intros [= <-]. apply repeat_length. Qed.

(** Two admins review the waiting application at once. *)
Definition review_pool : World MemoryStore * list (prog (go_result unit)) :=
  (sample_world admin_store, [ReviewService.Approve "cus_1" "adm_1"; ReviewService.Reject "cus_1" "adm_2" "blurred"]).
Definition review_result : World MemoryStore * list (prog (go_result unit)) :=
  pool_result sample_env [0; 1; 0; 0; 1]%nat review_pool.

Lemma review_pool_threads : Forall (thread sample_service) review_pool.2.
Proof.
  apply Forall_cons_2; [apply thread_request, req_ReviewApprove|].
  apply Forall_singleton, thread_request, req_ReviewReject.
Qed.

Lemma people_unique_witness :
  review_result.2 !! 1%nat = Some (Ret (Err ErrApplicationReviewed)) ∧
  ∃ c, ms_customers (w_store review_result.1) !! "cus_1" = Some c ∧ cus_KYCStatus c = KYCApproved ∧
    "cus_1" = "cus_1" ∧ c = c.
Proof.
  split; [vm_compute; reflexivity|].
  destruct (people_unique sample_env sample_service review_pool review_result sample_fee
    review_pool_threads admin_inv (pool_result_steps _ _ _)) as [Hc _].
  destruct (ms_customers (w_store review_result.1) !! "cus_1") as [c|] eqn:E.
  - exists c. split; [reflexivity|].
    split; [revert E; vm_compute; intros [= <-]; reflexivity|].
    exact (Hc "cus_1" "cus_1" c c E E (or_introl eq_refl)).
  - exfalso. revert E. vm_compute. intros [=].
Defined.

(** An application. *)
Definition sample_application : OnboardingCommand :=
  mkOnboardingCommand "Grace" "Hopper" "1906-12-09" "us" " Grace@Example.com" "+12025550123"
    "correct-horse" (mkResidentialAddress "1 Navy Yard" "" "Arlington" "" "22201" "us")
    (mkGovernmentDocument "Passport" "p7" "us") (bytes [137; 80; 78; 71; 13; 10; 26; 10])%nat 0.

(** The customer it becomes, whatever the hash. *)
Lemma onboarded_inv (G : GoRuntime) `{GoText} command m m' id :
  int64_ok (oc_InitialDeposit command) → bank_inv m → onboarded command m m' id → bank_inv m'.
Proof.
  intros Hd Hinv (hash & t & birth & now & _ & _ & Hn & Hp & ->).
  set (c := new_customer _ _ _ _ _) in *.
  destruct (call_bank_inv G (cCreateCustomerApplication c) m Hd I I Hinv) as [Hinv' _].
  revert Hinv'. store_cbv. unfold CreateCustomerApplication.
  destruct (range_find _ _) as [[k c']|] eqn:Hf.
  - apply range_find_Some in Hf as [Hk Hs]. destruct (Hp k c' Hk).
    apply orb_prop in Hs as [Hs|Hs]; [left; by boolify|right].
    repeat apply andb_prop in Hs as [Hs ?]. boolify.
    destruct (cus_GovernmentDocument c'), (cus_GovernmentDocument c). simpl in *. by subst.
  - change (cus_ID c) with id. by rewrite Hn.
Qed.


Definition application_run : go_result OnboardingReceipt * World MemoryStore :=
  interp sample_env (@Onboard ascii_text reference_runtime sample_application)
    (sample_world admin_store).

Lemma application_accepted :
  ∃ receipt, application_run.1 = Ok receipt ∧
    @onboarded reference_runtime ascii_text sample_application admin_store
      (w_store application_run.2) (or_CustomerID receipt).
Proof.
  pose proof (@Onboard_alone reference_runtime ascii_text sample_env sample_application
    (sample_world admin_store)) as H. fold application_run in H.
  destruct application_run as [[receipt|e] w']; [by exists receipt; destruct H|exfalso].
  destruct H as [_ [Hv|[[_ (k & c & Hk & Hs)]|(n & e' & Hr)]]]; [|..|by simpl in Hr].
  - revert Hv. vm_compute. intros [=].
  - assert (k = "cus_1" ∧ c = sample_customer) as [-> ->].
    { revert Hk. change (ms_customers (w_store (sample_world admin_store)))
        with ({["cus_1" := sample_customer]} : gmap string Customer).
      rewrite lookup_singleton_Some. by intros [<- <-]. }
    revert Hs. intros [Hs|[Hs|(n & raw & Hr & Hs)]];
      [by vm_compute in Hs|by vm_compute in Hs|]. simpl in Hr. simplify_eq.
Qed.

Lemma onboarded_can_log_in_witness :
  ∃ token p, (interp sample_env (@Login ascii_text "grace@example.com" "correct-horse")
    application_run.2).1 = Ok (token, p) ∧ pr_Role p = "customer".
Proof.
  destruct application_accepted as (receipt & Hr & Ho).
  assert (bank_inv (w_store application_run.2)) as Hinv.
  { eapply onboarded_inv; [|apply admin_inv|exact Ho]. split; vm_compute; intros; discriminate. }
  assert (ms_admins (w_store application_run.2) = ms_admins admin_store) as Hadm.
  { destruct Ho as (hash & t & birth & now & _ & _ & _ & _ & ->). reflexivity. }
  destruct (@onboarded_can_log_in reference_runtime ascii_text sample_env sample_env
    sample_application receipt "grace@example.com" (sample_world admin_store) application_run.2
    Hr ltac:(reflexivity) Hinv) as (token & p & Hl & Hrole & _).
  - rewrite Hadm. vm_compute. reflexivity.
  - intros n k. eexists. split; [reflexivity|apply repeat_length].
  - vm_compute. reflexivity.
  - intros a (Ha & He & _). rewrite Hadm in Ha.
    change (ms_admins admin_store) with ({["adm_1" := mkAdmin "adm_1" "ada@example.com"
      (hashed "correct horse")]} : gmap string Admin) in Ha.
    rewrite lookup_singleton_Some in Ha. destruct Ha as [_ <-]. revert He. vm_compute. intros [=].
  - exists token, p. split; [exact Hl|exact Hrole].
Defined.

Lemma validateOnboarding_accepts_witness :
  let c := @normalizeOnboarding ascii_text sample_application in
  ∃ birthDate, @validateOnboarding ascii_text reference_runtime c 0 = Ok birthDate ∧
    Date (1906 + 18) 12 9 ≤ 0 ∧ ∃ d, ParseDate (oc_DateOfBirth c) = Some d ∧ birthDate ≤ 0.
Proof.
  intros c. destruct (@validateOnboarding ascii_text reference_runtime c 0) as [birthDate|e] eqn:Hv.
  - exists birthDate. split; [reflexivity|].
    destruct (@validateOnboarding_accepts reference_runtime ascii_text c 0) as [Hiff _].
    apply Hiff in Hv as (_ & _ & _ & _ & _ & _ & (d & Hd & _ & Hp & H18) & _).
    assert (d = mkDate 1906 12 9) as -> by (revert Hd; vm_compute; intros [= <-]; reflexivity).
    split; [exact H18|]. exists (mkDate 1906 12 9). split; [exact Hd|exact Hp].
  - exfalso. revert Hv. vm_compute. discriminate.
Defined.

Lemma Onboard_applies_witness :
  ∃ receipt, application_run.1 = Ok receipt ∧ or_KYCStatus receipt = KYCWaiting.
Proof.
  destruct application_accepted as (receipt & Hr & _). exists receipt. split; [exact Hr|].
  pose proof (@Onboard_applies reference_runtime ascii_text sample_env sample_application
    (sample_world admin_store)) as H. fold application_run in H.
  destruct application_run as [r w']. cbn [fst] in Hr. subst r. exact (proj1 H).
Defined.
