(* ===== verification/Http.v ===== *)
(** * The HTTP server: authorisation, replies and what they say. *)
From S2P Require Export Statuses Clients Banking.

(** ** A router for concrete runs *)

(** Whether the segments of a path match those of a template, and the variables. *)
Fixpoint match_segments (template path : list string) : option (gmap string string) :=
  match template, path with
  | [], [] => Some ∅
  | String "{" name :: template', segment :: path' =>
      if bool_decide (segment = "") then None
      else <[String.substring 0 (String.length name - 1) name := segment]> <$> match_segments template' path'
  | s :: template', segment :: path' =>
      if bool_decide (s = segment) then match_segments template' path' else None
  | _, _ => None
  end.
Definition route_matches (method path : string) (rt : string * string) : option (gmap string string) :=
  if bool_decide (rt.1 = method) then match_segments (Split "/" rt.2) (Split "/" path) else None.
Fixpoint first_match (routes : list (string * string)) (method path : string)
    : option (nat * gmap string string) :=
  match routes with
  | [] => None
  | rt :: routes' =>
      match route_matches method path rt with
      | Some vars => Some (0%nat, vars)
      | None => (λ '(i, vars), (S i, vars)) <$> first_match routes' method path
      end
  end.

Lemma first_match_route routes method path i vars :
  first_match routes method path = Some (i, vars) → ∃ template, routes !! i = Some (method, template).
Proof.
  revert i. induction routes as [|[m t] routes IH]; intros i; simpl; [done|].
  destruct (route_matches method path (m, t)) as [vars'|] eqn:Hm.
  - intros [= <- <-]. unfold route_matches in Hm. simpl in Hm. case_bool_decide; [|done]. subst. by eexists.
  - destruct (first_match routes method path) as [[j vars']|]; [|done]. intros [= <- <-]. by apply IH.
Qed.

#[refine] Definition sample_mux : Mux := {|
  mux_match := first_match;
  mux_unmatched _ _ _ := mkResponse 404 [] [] NoBody;
|}.
Proof.
  - intros routes method path i vars. apply first_match_route.
  - intros routes method path. simpl. in_list.
Defined.

Definition sample_deps : Dependencies :=
  mkDependencies (Some 50) sample_service true true true true false "https://bank.example".
Definition sample_router : HandlerFunc :=
  @NewRouter ascii_text reference_runtime sample_mux sample_deps.

(** ** A bank with an approved customer who is logged in *)

Definition customer_store : MemoryStore :=
  (CreateSession (mkSession (tokenHash "tok") "cus_1" "" 1000)
    (ApproveApplication "cus_1" "adm_1" "acc_7" 5 admin_store).2).2.

Lemma customer_inv : bank_inv customer_store.
Proof.
  apply (call_bank_inv reference_runtime (cCreateSession (mkSession (tokenHash "tok") "cus_1" "" 1000)));
    [done..|].
  by apply (call_bank_inv reference_runtime (cApproveApplication "cus_1" "adm_1" "acc_7" 5));
    [..|apply admin_inv].
Qed.

Definition get_request (path token : string) : Request :=
  mkRequest "GET" path ∅ ∅ [(sessionCookie, token)] None None ∅ None.
Definition post_request (path token : string) (body : json) : Request :=
  mkRequest "POST" path ∅ {["Idempotency-Key" := "key-1"]} [(sessionCookie, token)] (Some body) None ∅ None.
Definition deposit_body (amount id : string) : json :=
  JObject [("amount", JNumber amount); ("account_id", JString id)].

(** A pool whose threads serve requests. *)
Definition http_pool (m : MemoryStore) (requests : list Request) : World MemoryStore * list (prog Reply) :=
  (sample_world m, sample_router <$> requests).

Lemma http_pool_threads m requests : Forall (thread sample_service) (http_pool m requests).2.
Proof.
  apply Forall_fmap, Forall_true. intros r.
  exact (thread_composed _ _ (@NewRouter_composed ascii_text reference_runtime sample_mux sample_deps r)).
Qed.

(** ** Facts *)

Lemma Authenticate_safe token m :
  bank_safe (λ r m', match r with
    | Ok p => ∃ now mid, evolves m mid ∧ evolves mid m' ∧ FindSession (tokenHash token) now mid = Ok p
    | Err _ => True end) (Authenticate token) m.
Proof.
  unfold Authenticate. case_bool_decide; [by apply safe_ret|]. apply safe_env; [apply _|]. intros now.
  intros m1 H1 Hi G _. split_and!; [done..|]. store_cbv. cbn [fst snd].
  destruct (FindSession _ now m1) as [p|e] eqn:Hf; apply safe_ret; [|done].
  intros m2 H2 _. by exists now, m1.
Qed.

Lemma deposit_ok_between m m1 m2 m3 id amount receipt :
  evolves m m1 → evolves m2 m3 → deposit_outcome m1 id amount (Ok receipt) m2 →
  deposit_outcome m id amount (Ok receipt) m3.
Proof.
  intros H1 H2 (Ha & Hd & n & now & Hn & H0 & Hm). split_and!; [done..|].
  exists n, now. pose proof (stream_length m m1 id H1). split_and!; [lia|done|].
  by eapply movement_evolves.
Qed.

(** The caller of a request, as the session of its cookie named it at a moment
    between [m] and [m']. *)
Definition caller_between (r : Request) (p : Principal) (m m' : MemoryStore) : Prop :=
  ∃ token now mid, Cookie sessionCookie r = Some token ∧ evolves m mid ∧ evolves mid m' ∧
    FindSession (tokenHash token) now mid = Ok p.

(** What a reply of 200 means. *)
Definition success (P : Body → MemoryStore → Prop) (rep : Reply) (m : MemoryStore) : Prop :=
  ∃ resp, rep = Replied resp ∧ (rs_Status resp = 200 → P (rs_Body resp) m).

Lemma refused P m resp : rs_Status resp ≠ 200 → bank_safe (success P) (reply resp) m.
Proof. intros Hs. apply safe_ret. intros m' _ _. by exists resp. Qed.

Lemma statusForError_not_200 e : statusForError e ≠ 200.
Proof. by destruct e. Qed.

(** A deposit that was made. *)
Definition deposited (r : Request) (m : MemoryStore) (body : Body) (m' : MemoryStore) : Prop :=
  ∃ p req receipt, caller_between r p m m' ∧ approved_customer p (areq_AccountID req) ∧
    rq_Body r ≫= (λ j, dec_amountRequest j (mkAmountRequest 0 "")) = Some req ∧
    body = rs_Body (writeJSON 200 (enc_deposit_receipt receipt)) ∧
    deposit_outcome m (areq_AccountID req) (areq_Amount req) (Ok receipt) m'.

(** A transfer of the caller's account, as it was at a moment of the request. *)
Definition own_transfer (r : Request) (id : string) (m : MemoryStore) (body : Body) (m' : MemoryStore) : Prop :=
  ∃ p record mid, caller_between r p m m' ∧ approved_customer p (tr_SourceAccountID record) ∧
    evolves m mid ∧ evolves mid m' ∧ ms_transfers mid !! id = Some record ∧
    body = rs_Body (writeJSON 200 (enc_transfer_record record)).

Lemma caller_between_later r p m m1 m2 :
  evolves m1 m2 → caller_between r p m m1 → caller_between r p m m2.
Proof.
  intros He (t & now & mid & Hck & Hm0 & Hm1 & Hf). exists t, now, mid. split_and!; [done..|by etrans|done].
Qed.

Lemma deposited_later r m body m1 m2 : evolves m1 m2 → deposited r m body m1 → deposited r m body m2.
Proof.
  intros He (p & req & receipt & Hc & Ha & Hreq & Hb & Ho). exists p, req, receipt.
  refine (conj _ (conj Ha (conj Hreq (conj Hb _)))); [by eapply caller_between_later|].
  eapply deposit_ok_between; [reflexivity|exact He|exact Ho].
Qed.

Lemma own_transfer_later r id m body m1 m2 :
  evolves m1 m2 → own_transfer r id m body m1 → own_transfer r id m body m2.
Proof.
  intros He (p & record & mid & Hc & Ha & Hm & Hm1 & Ht & Hb). exists p, record, mid.
  split_and!; [by eapply caller_between_later|apply Ha..|done|by etrans|done|done].
Qed.

(** The handlers, for a caller whom [requireApprovedCustomer] has let pass. *)
Lemma handleDeposit_safe r r0 p m m1 :
  rq_Principal r = Some p → rq_Body r = rq_Body r0 → evolves m m1 →
  approved_customer p (pr_AccountID p) → (∀ m2, evolves m1 m2 → caller_between r0 p m m2) →
  bank_safe (success (deposited r0 m)) (handleDeposit r) m1.
Proof.
  intros Hp Hb H1 Ha Hc. unfold handleDeposit, decodeBody. rewrite Hb.
  destruct (rq_Body r0 ≫= _) as [req|] eqn:Hreq; [|by apply refused].
  unfold authorizedAccount, principalFromRequest. rewrite Hp.
  case_bool_decide as Heq; [|by apply refused]. simpl negb. cbv iota. unfold or_error. safe_bind.
  assert (int64_ok (areq_Amount req)) as Hok.
  { destruct (rq_Body r0) as [j|]; [|done]. by eapply dec_amountRequest_int64. }
  eapply safe_mono; [apply _| |by apply Deposit_safe]. intros [receipt|e] m2 H2 _ Hd; simpl.
  - apply safe_ret. intros m3 H3 _. eexists. split; [done|]. intros _. exists p, req, receipt.
    rewrite Heq in Ha. split_and!; [apply Hc; by etrans|done..|]. by eapply deposit_ok_between.
  - apply refused, statusForError_not_200.
Qed.

Lemma handleTransferStatus_safe r r0 p m m1 :
  rq_Principal r = Some p → evolves m m1 →
  approved_customer p (pr_AccountID p) → (∀ m2, evolves m1 m2 → caller_between r0 p m m2) →
  bank_safe (success (own_transfer r0 (var "id" r) m)) (handleTransferStatus r) m1.
Proof.
  intros Hp H1 Ha Hc. unfold handleTransferStatus, principalFromRequest, or_error, Find, try_bind. cbv zeta.
  rewrite Hp. pose proof Ha as (_ & _ & _ & Hne). safe_bind. apply safe_store. intros m2 H2 Hi2 G _.
  store_cbv. split_and!; [done..|]. unfold FindTransfer.
  destruct (ms_transfers m2 !! _) as [record|] eqn:Ht;
    [|by apply safe_ret; intros; apply refused].
  rewrite (bool_decide_eq_false_2 (pr_AccountID p = "")) by done.
  case_bool_decide as Hs; simpl; apply safe_ret; intros m3 H3 Hi3; [|by apply refused].
  apply safe_ret. intros m4 H4 _. eexists. split; [reflexivity|]. intros _. exists p, record, m2.
  rewrite Hs. refine (conj (Hc _ _) (conj Ha (conj _ (conj _ (conj Ht eq_refl))))).
  - etrans; [exact H2|by etrans].
  - by etrans.
  - by etrans.
Qed.

(** *** Routing *)

Section Routing.
Context `{GoText} `{GoRuntime} `{Mux} (deps : Dependencies).

(** The route mux picks for a request. *)
Definition routed (r : Request) (method template : string) (vars : gmap string string) : Prop :=
  let table := (λ rt, (rt_Method rt, rt_Template rt)) <$> routes deps in
  ∃ i, mux_match table (rq_Method r) (rq_Path r) = Some (i, vars) ∧
    table !! i = Some (method, template).

(** The handler of a route. *)
Definition endpoint (method template : string) (h : HandlerFunc) : Prop :=
  Forall (λ rt, rt_Method rt = method → rt_Template rt = template → rt_Handler rt = h) (routes deps).

Lemma NewRouter_routed r method template vars h :
  routed r method template vars → method ≠ "OPTIONS" → endpoint method template h →
  NewRouter deps r =
    (res ← h (with_vars vars r); Ret (add_headers (cors_headers (dp_CORSOrigins deps) r) res)).
Proof.
  intros (i & Hm & Ht) Hne Hall. destruct (mux_match_route _ _ _ _ _ Hm) as [t Ht'].
  rewrite Ht in Ht'. injection Ht' as Hmethod _.
  unfold NewRouter, withCORS. cbv zeta. rewrite bool_decide_eq_false_2 by (by rewrite <-Hmethod).
  f_equal. unfold serve_routes. cbv zeta. rewrite Hm.
  apply list_lookup_fmap_Some in Ht as (rt & [= -> ->] & Hi). rewrite Hi.
  eapply Forall_lookup_1 in Hall; [|exact Hi]. by rewrite Hall.
Qed.
End Routing.

(** Finds the handler of a route in the table. *)
Ltac find_endpoint :=
  unfold endpoint, routes; cbv zeta;
  repeat match goal with
  | |- Forall _ (if ?b then _ else _) => destruct b
  | |- Forall _ (_ ++ _) => apply Forall_app_2
  | |- Forall _ (_ :: _) => apply Forall_cons_2; cbn [rt_Method rt_Template rt_Handler]
  | |- Forall _ [] => by apply Forall_nil_2
  end; done.

Section Endpoints.
Context `{GoText} `{GoRuntime} `{Mux} (deps : Dependencies).

Lemma deposit_endpoint : endpoint deps "POST" "/deposit" (banking deps handleDeposit).
Proof. find_endpoint. Qed.
Lemma login_endpoint :
  endpoint deps "POST" "/login" (handleLogin (dp_AuthService deps) (dp_CookieSecure deps)).
Proof. find_endpoint. Qed.
Lemma me_endpoint : endpoint deps "GET" "/me" (protect deps handleMe).
Proof. find_endpoint. Qed.
Lemma transfer_status_endpoint :
  endpoint deps "GET" "/transfers/{id}" (banking deps handleTransferStatus).
Proof. find_endpoint. Qed.
Lemma admin_events_endpoint :
  endpoint deps "GET" "/admin/accounts/{id}/events"
    (admin deps (handleAdminAccountEvents (dp_AccountRepository deps))).
Proof. find_endpoint. Qed.

(** A reply's success survives the headers. *)
Lemma routed_safe P r method template vars h m :
  routed deps r method template vars → method ≠ "OPTIONS" → endpoint deps method template h →
  (∀ b m1 m2, evolves m1 m2 → P b m1 → P b m2) →
  bank_safe (success P) (h (with_vars vars r)) m → bank_safe (success P) (NewRouter deps r) m.
Proof.
  intros Hr Hm Hh HP Hs. rewrite (NewRouter_routed deps r _ _ _ _ Hr Hm Hh). safe_bind.
  eapply safe_mono; [apply _| |exact Hs]. intros rep m1 _ _ (resp & -> & Hresp). apply safe_ret.
  intros m2 H2 _. eexists. split; [done|]. simpl. eauto.
Qed.

(** A handler of the bank runs for the approved customer of the session. *)
Lemma banking_safe P h r m :
  dp_AuthService deps = true →
  (∀ p m1, evolves m m1 → approved_customer p (pr_AccountID p) →
     (∀ m2, evolves m1 m2 → caller_between r p m m2) →
     bank_safe (success P) (h (with_principal p r)) m1) →
  bank_safe (success P) (banking deps h r) m.
Proof.
  intros Hauth Hh. unfold banking. rewrite Hauth. unfold requireAuth.
  destruct (Cookie sessionCookie r) as [token|] eqn:Hck; [|by apply refused].
  safe_bind. eapply safe_mono; [apply _| |apply Authenticate_safe].
  intros [p|e] m1 He1 _ Hp; [|by apply refused]. unfold requireApprovedCustomer. simpl.
  destruct (_ || _ || _) eqn:Hg; [by apply refused|]. boolify.
  apply Hh; [done|by split_and!|]. intros m2 He2. destruct Hp as (now & mid & Hm0 & Hmid & Hf).
  exists token, now, mid. split_and!; [done..|by etrans|done].
Qed.

Lemma http_deposit_safe r vars m :
  dp_AuthService deps = true → routed deps r "POST" "/deposit" vars →
  bank_safe (success (deposited r m)) (NewRouter deps r) m.
Proof.
  intros Hauth Hr. apply (routed_safe _ _ _ _ _ _ _ Hr ltac:(done) deposit_endpoint).
  { intros b m1 m2. apply deposited_later. }
  apply banking_safe; [done|]. intros p m1 Hm1 Ha Hc. by apply (handleDeposit_safe _ r p).
Qed.

Lemma http_transfer_status_safe r vars m :
  dp_AuthService deps = true → routed deps r "GET" "/transfers/{id}" vars →
  bank_safe (success (own_transfer r (get "id" vars) m)) (NewRouter deps r) m.
Proof.
  intros Hauth Hr. apply (routed_safe _ _ _ _ _ _ _ Hr ltac:(done) transfer_status_endpoint).
  { intros b m1 m2. apply own_transfer_later. }
  apply banking_safe; [done|]. intros p m1 Hm1 Ha Hc.
  exact (handleTransferStatus_safe (with_principal p (with_vars vars r)) r p m m1 eq_refl Hm1 Ha Hc).
Qed.
End Endpoints.

(** ** Properties *)

Section Served.
Context `{GoText} `{GoRuntime} `{Mux} (deps : Dependencies) (E : Env).
Context (c c' : World MemoryStore * list (prog Reply)) (i : nat) (r : Request).
Hypothesis auth : dp_AuthService deps = true.
Hypothesis new : rq_Principal r = None.
Hypothesis served : c.2 !! i = Some (NewRouter deps r).
Hypothesis run : rtc (fresh_step E) c c'.

Lemma served_authorised :
  ∃ who q, c'.2 !! i = Some q ∧ authorised (hash_of r) who q ∧ caller_known call_fresh E (hash_of r) c who c'.
Proof. eapply run_authorised; [exact run|exact served|by apply NewRouter_authorised]. Qed.

(** C12: no request reaches the store with a call its caller may not make: at every
    moment of every interleaved run, the next call a request makes is one that
    [may_call] grants to its caller (credits, withdrawals, transfers and account
    reads to the approved customer of that account, reviews and adjustments to an
    administrator under the administrator's own name), and the caller is whom the
    store, earlier in the run, named as the holder of the session in the request's
    cookie; without one, only logins and applications are left. *)
Theorem server_calls_authorised X (op : storeE X) (k : X → prog Reply) :
  c'.2 !! i = Some (Vis (onStore op) k) →
  ∃ who, may_call (hash_of r) who op ∧ caller_known call_fresh E (hash_of r) c who c'.
Proof.
  intros Hi. destruct served_authorised as (who & q & Hq & Ha & Hk). simplify_eq. exists who.
  by destruct Ha.
Qed.

(** C13: only an account's own customer, or an administrator, moves its money
    through the server: when the next call of a request changes the events of an
    account, someone the store named earlier in the run as the holder of the
    session in its cookie is the approved customer of that account or an
    administrator; a request whose cookie names nobody changes no account. *)
Theorem ledger_changes_authorised X (op : svcE X) (k : X → prog Reply) id :
  c'.2 !! i = Some (Vis op k) →
  stream (w_store (call E op c'.1).2) id ≠ stream (w_store c'.1) id →
  ∃ p c1, rtc (fresh_step E) c c1 ∧ rtc (fresh_step E) c1 c' ∧
    session_holder (hash_of r) p (w_store c1.1) ∧
    (approved_customer p id ∨ pr_Role p = "admin").
Proof.
  intros Hi Hne. destruct served_authorised as (who & q & Hq & Ha & Hk). simplify_eq.
  destruct op as [X op|X op].
  - destruct Ha as [Hm _]. simpl in Hne.
    destruct (may_call_stream (env_runtime E (w_calls c'.1)) (hash_of r) who op (w_store c'.1) id) as [Ho|Ho].
    + done.
    + by destruct (store_call _ op (w_store c'.1)).
    + destruct who as [p|]; [|done]. destruct (Hk p eq_refl) as (c1 & ? & ? & ?). exists p, c1. eauto.
    + destruct who as [p|]; [|done]. destruct (Hk p eq_refl) as (c1 & ? & ? & ?). exists p, c1. eauto.
  - destruct Hne. simpl. f_equal. apply (env_call_store E op).
Qed.
End Served.



(** C26: transfers are shown to their own customer only: a reply of 200 to a request
    for /transfers/{id} holds the transfer of that identifier as it was at a moment
    of the request, and the caller of its session is the approved customer of the
    transfer's source account, whatever else runs. *)
Theorem http_transfer_private `{GoText} `{GoRuntime} `{Mux} deps (E : Env)
    (c c' : World MemoryStore * list (prog Reply)) i r vars rep :
  (∀ a, int64_ok (ts_feePolicy (dp_TransferService deps) a)) →
  Forall (thread (dp_TransferService deps)) c.2 → bank_inv (w_store c.1) →
  dp_AuthService deps = true → routed deps r "GET" "/transfers/{id}" vars →
  c.2 !! i = Some (NewRouter deps r) → rtc (fresh_step E) c c' → c'.2 !! i = Some (Ret rep) →
  success (own_transfer r (get "id" vars) (w_store c.1)) rep (w_store c'.1).
Proof.
  intros Hfee Hps Hinv Hauth Hr Hi Hrun Hrep.
  eapply (thread_outcome E _ c c' i); try done. by eapply http_transfer_status_safe.
Qed.

(** ** Witnesses *)

(** The customer deposits twice at once; a stranger tries too. *)
Definition deposits_pool : World MemoryStore * list (prog Reply) :=
  http_pool customer_store
    [post_request "/deposit" "tok" (deposit_body "150.00" "acc_7");
     post_request "/deposit" "tok" (deposit_body "2500" "acc_7");
     post_request "/deposit" "forged" (deposit_body "9.99" "acc_7")].
Definition deposits_run : World MemoryStore * list (prog Reply) :=
  pool_result sample_env [0; 0; 1; 1; 2; 2; 0; 1; 0; 1; 0; 1]%nat deposits_pool.

Definition status_of (q : prog Reply) : Z :=
  match q with Ret (Replied resp) => rs_Status resp | _ => 0 end.

(** One of the two wins, the other meets a conflict. *)
Example deposits_answered : status_of <$> deposits_run.2 = [200; 409; 401].
Proof. vm_compute. reflexivity. Qed.

Lemma deposits_routed j token :
  @routed ascii_text reference_runtime sample_mux sample_deps (post_request "/deposit" token j)
    "POST" "/deposit" ∅.
Proof. exists 6%nat. by split; vm_compute. Qed.

(** The state before the first credit. *)
Definition before_credit : World MemoryStore * list (prog Reply) :=
  pool_result sample_env [0; 0; 1; 1; 2; 2; 0; 1; 0; 1]%nat deposits_pool.

Lemma before_credit_steps : rtc (fresh_step sample_env) deposits_pool before_credit.
Proof. apply pool_result_steps. Qed.

(** The next call of a thread appends an event of the account [id]. *)
Definition about_to_append (id : string) (q : option (prog Reply)) : bool :=
  match q with Some (Vis (onStore (cAppend ev _)) _) => bool_decide (AggregateID ev = id) | _ => false end.

Lemma about_to_append_call id q :
  about_to_append id q = true →
  ∃ ev v k, q = Some (Vis (onStore (cAppend ev v)) k) ∧ AggregateID ev = id.
Proof.
  destruct q as [[a|X [X' op|X' op] k]|]; try done. destruct op; try done. simpl. intros H. boolify. eauto.
Qed.

Lemma before_credit_append : about_to_append "acc_7" (before_credit.2 !! 0%nat) = true.
Proof. vm_compute. reflexivity. Qed.

Lemma server_calls_authorised_witness :
  ∃ ev v k, before_credit.2 !! 0%nat = Some (Vis (onStore (cAppend ev v)) k) ∧
  ∃ who, owns who (AggregateID ev) ∧
    caller_known call_fresh sample_env (Some (tokenHash "tok")) deposits_pool who before_credit.
Proof.
  destruct (about_to_append_call _ _ before_credit_append) as (ev & v & k & Hi & _).
  exists ev, v, k. split; [exact Hi|].
  exact (@server_calls_authorised ascii_text reference_runtime sample_mux sample_deps sample_env
    deposits_pool before_credit 0 (post_request "/deposit" "tok" (deposit_body "150.00" "acc_7"))
    eq_refl eq_refl eq_refl before_credit_steps _ (cAppend ev v) k Hi).
Defined.

(** Whether the next call of a thread changes the number of events of [id]. *)
Definition about_to_change (E : Env) (i : nat) (id : string) (c : World MemoryStore * list (prog Reply)) : bool :=
  match c.2 !! i with
  | Some (Vis op _) =>
      negb (length (stream (w_store (call E op c.1).2) id) =? length (stream (w_store c.1) id))%nat
  | _ => false
  end.

Lemma about_to_change_call E i id c :
  about_to_change E i id c = true →
  ∃ X (op : svcE X) k, c.2 !! i = Some (Vis op k) ∧
    stream (w_store (call E op c.1).2) id ≠ stream (w_store c.1) id.
Proof.
  unfold about_to_change. destruct (c.2 !! i) as [[a|X op k]|]; [done| |done]. intros Hch.
  exists X, op, k. split; [done|]. intros Heq. by rewrite Heq, Nat.eqb_refl in Hch.
Qed.

Lemma before_credit_change : about_to_change sample_env 0 "acc_7" before_credit = true.
Proof. vm_compute. reflexivity. Qed.

Lemma ledger_changes_authorised_witness :
  ∃ p c1, rtc (fresh_step sample_env) deposits_pool c1 ∧ rtc (fresh_step sample_env) c1 before_credit ∧
    session_holder (Some (tokenHash "tok")) p (w_store c1.1) ∧
    (approved_customer p "acc_7" ∨ pr_Role p = "admin").
Proof.
  destruct (about_to_change_call _ _ _ _ before_credit_change) as (X & op & k & Hi & Hne).
  exact (@ledger_changes_authorised ascii_text reference_runtime sample_mux sample_deps sample_env
    deposits_pool before_credit 0 (post_request "/deposit" "tok" (deposit_body "150.00" "acc_7"))
    eq_refl eq_refl eq_refl before_credit_steps X op k "acc_7" Hi Hne).
Defined.

Lemma deposits_run_steps : rtc (fresh_step sample_env) deposits_pool deposits_run.
Proof. apply pool_result_steps. Qed.

Definition replied (q : option (prog Reply)) : bool := match q with Some (Ret _) => true | _ => false end.
Lemma replied_reply q : replied q = true → ∃ rep, q = Some (Ret rep).
Proof. destruct q as [[rep|]|]; simpl; [by exists rep|done..]. Qed.



(** The customer asks for a transfer while it is being made. *)
Definition transfer_request : Request :=
  post_request "/transfer" "tok" (JObject [("amount", JNumber "20.00");
    ("source_account_id", JString "acc_7"); ("destination_account_id", JString "acc_9")]).
Definition status_request : Request := get_request "/transfers/trf_03030303030303030303030303030303" "tok".
Definition status_pool : World MemoryStore * list (prog Reply) :=
  http_pool customer_store [transfer_request; status_request].
Definition status_run : World MemoryStore * list (prog Reply) :=
  pool_result sample_env [0; 0; 0; 0; 0; 0; 1; 1; 1; 0]%nat status_pool.

Lemma status_run_steps : rtc (fresh_step sample_env) status_pool status_run.
Proof. apply pool_result_steps. Qed.

Lemma status_routed :
  @routed ascii_text reference_runtime sample_mux sample_deps status_request "GET" "/transfers/{id}"
    {["id" := "trf_03030303030303030303030303030303"]}.
Proof. exists 5%nat. by split; vm_compute. Qed.

Lemma http_transfer_private_witness :
  ∃ rep, status_run.2 !! 1%nat = Some (Ret rep) ∧ status_of (Ret rep) = 200 ∧
    success (own_transfer status_request "trf_03030303030303030303030303030303" customer_store) rep
      (w_store status_run.1).
Proof.
  destruct (replied_reply (status_run.2 !! 1%nat)) as [rep Hrep]; [vm_compute; reflexivity|].
  assert (status_of <$> status_run.2 !! 1%nat = Some 200) as Hs by (vm_compute; reflexivity).
  exists rep. split; [exact Hrep|]. split; [rewrite Hrep in Hs; by injection Hs|].
  exact (@http_transfer_private ascii_text reference_runtime sample_mux sample_deps sample_env
    status_pool status_run 1 status_request {["id" := "trf_03030303030303030303030303030303"]} rep
    sample_fee (http_pool_threads _ _) customer_inv eq_refl status_routed eq_refl
    status_run_steps Hrep).
Defined.
