(* ===== verification/Replies.v ===== *)
(** * What the replies of the HTTP server say.

    A client that reads the JSON of a reply: the events of an account replay to
    its balance, the token of a login names its holder in later requests. *)
From S2P Require Export Http.

(** ** A reader of JSON *)

Definition json_field (key : string) (j : json) : option json :=
  match j with JObject kvs => lookup_key key kvs | _ => None end.
(** A missing amount is zero. *)
Definition read_amount (key : string) (j : json) : option Money :=
  match json_field key j with Some v => dec_money v 0 | None => Some 0 end.
Definition read_string (key : string) (j : json) : string :=
  match json_field key j with Some (JString s) => s | _ => "" end.
Definition read_items (key : string) (j : json) : list json :=
  match json_field key j with Some (JArray items) => items | _ => [] end.

(** The balance and the reserved balance after one more event, as a client works
    them out from the event's type and amount. *)
Definition client_step (a : option (Money * Money)) (j : json) : option (Money * Money) :=
  '(balance, reserved) ← a;
  amount ← read_amount "amount" j;
  let type := read_string "type" j in
  if bool_decide (type = "AccountOpened") then Some (amount, reserved)
  else if bool_decide (type = "MoneyCredited") then Some (balance +! amount, reserved)
  else if bool_decide (type = "MoneyDebited") then Some (balance -! amount, reserved)
  else if bool_decide (type = "FundsReserved") then Some (balance, reserved +! amount)
  else if bool_decide (type = "ReservationCaptured") || bool_decide (type = "ReservationReleased")
  then Some (balance, reserved -! amount)
  else None.
Definition client_replay (events : list json) : option (Money * Money) :=
  foldl client_step (Some (0, 0)) events.

(** ** Facts: events *)

Section Event.
Context (d : eventDTO).

Lemma read_type : read_string "type" (enc_eventDTO d) = ed_Type d.
Proof. done. Qed.

Lemma read_event_amount :
  int64_ok (ed_Amount d) → ed_Amount d ≠ MinInt64 →
  read_amount "amount" (enc_eventDTO d) = Some (ed_Amount d).
Proof.
  intros Hok Hne. unfold read_amount, enc_eventDTO, json_field.
  rewrite !lookup_key_app, !lookup_key_field, !lookup_key_omit_string by done. simpl.
  unfold omit_money. destruct (Z.eqb_spec (ed_Amount d) 0) as [->|Hnz]; simpl; [done|].
  rewrite dec_enc_money by done. done.
Qed.
End Event.

Lemma event_dto_amount ev : ed_Amount (event_dto ev) = event_amount ev.
Proof. by destruct ev. Qed.
Lemma event_dto_type ev : ed_Type (event_dto ev) = EventType ev.
Proof. by destruct ev. Qed.

(** What a client can rely on of an event. *)
Definition readable (ev : Event) : Prop :=
  EventType ev = type_name ev ∧ int64_ok (event_amount ev) ∧ event_amount ev ≠ MinInt64.

Lemma client_step_event a ev :
  readable ev →
  client_step (Some (acc_Balance a, acc_ReservedBalance a)) (enc_eventDTO (event_dto ev)) =
  Some (acc_Balance (fold_event a ev), acc_ReservedBalance (fold_event a ev)).
Proof.
  intros (Ht & Hok & Hne). unfold client_step. simpl. rewrite read_type, event_dto_type, Ht.
  rewrite read_event_amount by (by rewrite event_dto_amount). rewrite event_dto_amount. by destruct a, ev.
Qed.

Lemma client_replay_events id events :
  Forall readable events →
  client_replay (enc_eventDTO <$> toEventDTOs events) =
  Some (acc_Balance (ReplayAccount id events), acc_ReservedBalance (ReplayAccount id events)).
Proof.
  intros Hok. unfold client_replay.
  change (ReplayAccount id events) with (set_available (foldl fold_event (mkAccount id 0 0 0) events)).
  change (Some (0, 0)) with (Some (acc_Balance (mkAccount id 0 0 0), acc_ReservedBalance (mkAccount id 0 0 0))).
  generalize (mkAccount id 0 0 0). induction Hok as [|ev events Hev _ IH]; intros a; [done|].
  cbn [toEventDTOs fmap list_fmap foldl]. rewrite client_step_event by done. apply IH.
Qed.

(** The whole reply can be encoded when its amounts can. *)
Lemma forallb_app_field name j kvs :
  forallb (λ kv : string * json, encodable kv.2) (field name j ++ kvs) =
  encodable j && forallb (λ kv : string * json, encodable kv.2) kvs.
Proof. done. Qed.
Lemma forallb_omit_string name s kvs :
  forallb (λ kv : string * json, encodable kv.2) (omit_string name s ++ kvs) =
  forallb (λ kv : string * json, encodable kv.2) kvs.
Proof. unfold omit_string. by case_bool_decide. Qed.

Lemma enc_money_encodable m : int64_ok m → m ≠ MinInt64 → encodable (enc_money m) = true.
Proof. intros Hok Hne. by rewrite enc_money_number. Qed.
Lemma forallb_omit_money name m kvs :
  int64_ok m → m ≠ MinInt64 →
  forallb (λ kv : string * json, encodable kv.2) (omit_money name m ++ kvs) =
  forallb (λ kv : string * json, encodable kv.2) kvs.
Proof. intros Hok Hne. unfold omit_money. case_match; [done|]. simpl. by rewrite enc_money_encodable. Qed.

Lemma encodable_event ev : readable ev → encodable (enc_eventDTO (event_dto ev)) = true.
Proof.
  intros (_ & Hok & Hne). unfold enc_eventDTO. cbn [encodable].
  rewrite !forallb_app_field, forallb_omit_money by (by rewrite event_dto_amount).
  by rewrite !forallb_omit_string.
Qed.

Lemma encodable_events events :
  Forall readable events → encodable (JArray (enc_eventDTO <$> toEventDTOs events)) = true.
Proof.
  intros Hok. cbn [encodable]. induction Hok as [|ev events Hev _ IH]; [done|].
  cbn [toEventDTOs fmap list_fmap forallb]. by rewrite encodable_event.
Qed.

Lemma Marshal_encodable j : encodable j = true → Marshal j = Some j.
Proof. unfold Marshal. by intros ->. Qed.

Lemma encodable_enc_map kvs :
  encodable (enc_map kvs) = forallb (λ kv : string * json, encodable kv.2) kvs.
Proof.
  unfold enc_map. cbn [encodable]. apply eq_bool_prop_intro.
  rewrite !forallb_True, merge_sort_Permutation. done.
Qed.

(** ** Facts: an account read alone *)

(** The calls of [balanceAccount]. *)
Definition account_call (X : Type) (op : svcE X) : Prop :=
  match op with
  | onStore (cLoad _) | onStore (cLoadSnapshot _) | onStore (cSaveSnapshot _) => True
  | _ => False
  end.

Lemma account_call_streams {A} (E : Env) (p : prog A) (w : World MemoryStore) :
  calls_only account_call p → ms_streams (w_store (interp E p w).2) = ms_streams (w_store w).
Proof.
  revert w. induction p as [a|X op k IH]; intros w; simpl; [done|]. intros [Hop Hk].
  destruct (call E op w) as [x w'] eqn:Hc. rewrite IH by done.
  destruct op as [X op|X op]; [|done].
  destruct op; try done; revert Hc; simpl; store_cbv; unfold SaveSnapshot; repeat case_match;
    simplify_eq; by intros [= <- <-].
Qed.

Lemma FindByID_alone (E : Env) threshold id (w : World MemoryStore) :
  bank_inv (w_store w) → stream (w_store w) id ≠ [] →
  (interp E (Repository.FindByID threshold id) w).1 = Ok (ReplayAccount id (stream (w_store w) id)).
Proof.
  intros Hinv Hne.
  assert (calls_only account_call (Repository.FindByID threshold id)) as Hcalls.
  { unfold Repository.FindByID, Repository.snapshot, Repository.maybeSnapshot. by plain_solve. }
  pose proof (account_call_streams E _ w Hcalls) as Hstreams.
  assert (calls_only (always_allowed call_fresh) (Repository.FindByID threshold id)) as Hallowed.
  { eapply calls_only_mono, Hcalls. by intros X [? []|]. }
  pose proof (safe_interp bank_inv evolves call_fresh call_contract E _ _ w Hallowed Hinv
    (FindByID_safe threshold id (w_store w))) as Hs.
  destruct (interp E _ w) as [r w']. destruct Hs as (_ & _ & Hr). simpl in *.
  destruct r as [a|e]; [|by destruct Hr]. destruct Hr as (n & Hn & ->). unfold stream in *. rewrite Hstreams in *.
  by rewrite firstn_all2 by lia.
Qed.

Lemma balanceAccount_alone (E : Env) repo id (w : World MemoryStore) :
  bank_inv (w_store w) → stream (w_store w) id ≠ [] →
  (interp E (balanceAccount repo id (stream (w_store w) id)) w).1 = ReplayAccount id (stream (w_store w) id).
Proof.
  intros Hinv Hne. destruct repo as [threshold|]; [|done]. unfold balanceAccount. rewrite interp_bind.
  pose proof (FindByID_alone E threshold id w Hinv Hne) as Hf. destruct (interp E _ w) as [r w'].
  simpl in Hf. by subst.
Qed.

Lemma readable_stream m id :
  store_wf m → Forall (λ ev, event_amount ev ≠ MinInt64) (stream m id) → Forall readable (stream m id).
Proof.
  intros Hwf Hmin. apply Forall_lookup. intros i ev Hi. pose proof (Forall_lookup_1 _ _ _ _ Hmin Hi).
  destruct (stream_wf m id Hwf) as [Hnil|[_ Hok]]; [by rewrite Hnil in Hi|].
  destruct (Hok i ev Hi). by split_and!.
Qed.

Lemma replay_int64 id events :
  Forall readable events → int64_ok (acc_Balance (ReplayAccount id events)).
Proof.
  intros Hok. rewrite ReplayAccount_exact; [apply int64_wrap_ok|].
  eapply Forall_impl; [exact Hok|]. by intros ev (_ & ? & _).
Qed.

(** ** Properties *)


(** ** Sessions *)

(** Serving a request for /me from the store [m], at the time of the server's
    clock at its [n]-th call. *)
Definition asks_me `{GoText} `{GoRuntime} `{Mux} (deps : Dependencies) (token : string) (r : Request) : Prop :=
  (∃ vars, routed deps r "GET" "/me" vars) ∧ Cookie sessionCookie r = Some token.

Definition session_reply (p : Principal) (expiry now : Time) (rep : Reply) : Prop :=
  ∃ resp, rep = Replied resp ∧
    if now <? expiry then rs_Status resp = 200 ∧ rs_Body resp = JSONBody (enc_principal p)
    else rs_Status resp = 401.

Lemma enc_principal_encodable p : encodable (enc_principal p) = true.
Proof.
  unfold enc_principal. cbn [encodable].
  rewrite !forallb_omit_string, !forallb_app_field, forallb_omit_string.
  unfold omit_string. by case_bool_decide.
Qed.

Section Sessions.
Context `{GoText} `{GoRuntime} `{Mux} (deps : Dependencies).
Hypothesis auth : dp_AuthService deps = true.

Lemma me_alone (E : Env) token p expiry r (w : World MemoryStore) :
  token ≠ "" → session_until (w_store w) token p expiry → asks_me deps token r →
  session_reply p expiry (env_now E (w_calls w)) (interp E (NewRouter deps r) w).1.
Proof.
  intros Ht Hs [[vars Hr] Hc]. rewrite (NewRouter_routed deps r _ _ _ _ Hr ltac:(done) (me_endpoint deps)).
  rewrite interp_bind. unfold protect, requireAuth, Authenticate. rewrite auth.
  change (Cookie sessionCookie (with_vars vars r)) with (Cookie sessionCookie r). rewrite Hc.
  rewrite bool_decide_eq_false_2 by done. simpl. store_cbv. unfold session_reply. rewrite Hs.
  destruct (_ <? expiry); eexists; (split; [reflexivity|]); [|done]. simpl.
  by rewrite Marshal_encodable by apply enc_principal_encodable.
Qed.
End Sessions.


(** ** Cross-origin requests *)

(** Every reply begins with the headers of [withCORS]. *)
Lemma NewRouter_headers `{GoText} `{GoRuntime} `{Mux} deps (E : Env) r (w : World MemoryStore) resp :
  (interp E (NewRouter deps r) w).1 = Replied resp →
  ∃ rest, rs_Header resp = cors_headers (dp_CORSOrigins deps) r ++ rest.
Proof.
  unfold NewRouter, withCORS. cbv zeta. case_bool_decide.
  - simpl. intros [= <-]. by eexists.
  - rewrite interp_bind. destruct (interp E _ w) as [[inner|] w']; [|done].
    simpl. intros [= <-]. by eexists.
Qed.

(** Browsers of other origins may use the server exactly as configured: the
    reply to a request names its origin as allowed when the request has one and
    the list of allowed origins is empty or has an entry equal to it up to
    surrounding white space, and no origin otherwise; a preflight (OPTIONS) request
    is answered 204 without a call of any service. *)
Theorem cors_allows `{GoText} `{GoRuntime} `{Mux} deps (E : Env) r (w : World MemoryStore) :
  let list := dp_CORSOrigins deps in
  let origin := get "Origin" (rq_Header r) in
  (∀ resp, (interp E (NewRouter deps r) w).1 = Replied resp →
     ∃ rest, rs_Header resp = cors_headers list r ++ rest) ∧
  (∀ o, ("Access-Control-Allow-Origin", o) ∈ cors_headers list r ↔
     o = origin ∧ origin ≠ "" ∧
     (list = "" ∨ ∃ entry, entry ∈ Split "," list ∧ TrimSpace entry = origin)) ∧
  (rq_Method r = "OPTIONS" →
     ∃ resp, interp E (NewRouter deps r) w = (Replied resp, w) ∧ rs_Status resp = 204).
Proof.
  intros list origin. split_and!.
  - intros resp. apply NewRouter_headers.
  - intros o. unfold cors_headers, allowed_origin. cbv zeta. fold origin. clearbody origin list.
    assert (originAllowed list origin = true ↔ ∃ entry, entry ∈ Split "," list ∧ TrimSpace entry = origin) as Hall.
    { unfold originAllowed. rewrite existsb_exists. split.
      - intros (entry & Hin%list_elem_of_In & He). exists entry. by apply bool_decide_eq_true_1 in He.
      - intros (entry & Hin & He). exists entry. split; [by apply list_elem_of_In|by apply bool_decide_eq_true_2]. }
    rewrite elem_of_app. split.
    + intros [Ho|Ho]; [|by revert Ho; rewrite !elem_of_cons; intros Ho; destruct_or! Ho; try done; apply not_elem_of_nil in Ho].
      destruct (negb _ && negb _ && negb _) eqn:Hg; [by apply not_elem_of_nil in Ho|].
      revert Ho. case_bool_decide as Hne; [by intros ?%not_elem_of_nil|].
      intros Ho%list_elem_of_singleton. injection Ho as ->. split_and!; [done..|].
      simpl in Hg. destruct (decide (list = "")); [by left|right]. rewrite bool_decide_eq_false_2 in Hg by done. simpl in Hg.
      apply Hall. by apply negb_false_iff in Hg.
    + intros (-> & Hne & Hl). left. assert (negb (bool_decide (list = "")) && negb (originAllowed list origin) = false) as Hg.
      { destruct Hl as [->|Hl%Hall]; [done|]. rewrite Hl. apply andb_false_r. }
      rewrite <-andb_assoc, Hg, andb_false_r, bool_decide_eq_false_2 by done. by apply list_elem_of_singleton.
  - intros Hm. unfold NewRouter, withCORS. cbv zeta. rewrite bool_decide_eq_true_2 by done. by eexists.
Qed.

(** ** Witnesses *)

(** The account after the two deposits of [deposits_run], with a snapshot policy. *)
Definition history_request : Request :=
  with_vars {["id" := " acc_7 "]} (get_request "/admin/accounts/acc_7/events" "tok").

Lemma deposits_run_inv : bank_inv (w_store deposits_run.1).
Proof.
  apply (pool_run sample_env sample_service deposits_pool deposits_run sample_fee
    (http_pool_threads _ _) customer_inv deposits_run_steps).
Qed.

#[local] Opaque deposits_run.

Definition login_request : Request :=
  mkRequest "POST" "/login" ∅ ∅ [] (Some (JObject [("email", JString " Ada@Example.com");
    ("PASSWORD", JString "correct horse")])) None ∅ None.
Definition login_run : Reply * World MemoryStore :=
  interp sample_env (sample_router login_request) (sample_world admin_store).

Lemma login_routed :
  @routed ascii_text reference_runtime sample_mux sample_deps login_request "POST" "/login" ∅.
Proof. exists 1%nat. by split; vm_compute. Qed.

Lemma login_answered : status_of (Ret login_run.1) = 200.
Proof. vm_compute. reflexivity. Qed.

Lemma sample_rand_ok n k : ∃ bs, env_rand sample_env n k = Ok bs ∧ length bs = k.
Proof. eexists. split; [reflexivity|]. apply repeat_length. Qed.


Lemma cors_allows_witness :
  let r := mkRequest "OPTIONS" "/deposit" ∅ {["Origin" := "https://bank.example"]} [] None None ∅ None in
  ("Access-Control-Allow-Origin", "https://bank.example") ∈ cors_headers "https://bank.example" r ∧
  ∃ resp, interp sample_env (sample_router r) (sample_world admin_store) =
    (Replied resp, sample_world admin_store) ∧ rs_Status resp = 204.
Proof.
  intros r. pose proof (@cors_allows ascii_text reference_runtime sample_mux sample_deps sample_env r
    (sample_world admin_store)) as (_ & Ho & Hp).
  split; [|by apply Hp]. apply Ho. split_and!; [reflexivity|discriminate|right].
  exists "https://bank.example". split; [left|reflexivity].
Defined.
