(* ===== verification/Database.v ===== *)
(** * The tables of src/migrations and the SQL of
    internal/eventstore/postgres_store.go.

    A table is a finite map from its primary key to its rows; a statement is a
    function from the tables to what it returns and the new tables, or to the
    constraint it violates.  Columns that are only ever written (created_at of
    admins, sessions and holds, updated_at of holds, decided_at, posted_at) are
    left out.  NULL in a column of texts is the empty string here: the statements
    turn one into the other ([NULLIF], [COALESCE]) wherever the empty string could
    be stored, but for account_id of customers, which gets NULL or a drawn
    identifier.  What is PostgreSQL's own (errors, collation, the representation of
    instants, the order of a scan) is the class [Postgres]. *)
From S2P Require Export EventCodec.

(** ** Tables *)

Record EventRow := mkEventRow { er_event_type : string; er_payload : json; er_occurred_at : Time }.

(** A row of customers: the fields of the struct, and passport_object_key. *)
Record CustomerRow := mkCustomerRow { cr_customer : Customer; cr_object_key : string }.

Record Database := mkDatabase {
  db_events : gmap (string * Z) EventRow;
  db_account_snapshots : gmap string AccountSnapshot;
  db_customers : gmap string CustomerRow;
  db_admins : gmap string Admin;
  db_sessions : gmap string Session;
  db_transfers : gmap string TransferRecord;
  db_adjustment_requests : gmap string AdjustmentRequest;
  db_account_reservations : gmap string memoryReservation;
  db_ledger_postings : gmap string unit;
  db_compliance_decisions : gmap string string;
}.

Definition empty_database : Database := mkDatabase ∅ ∅ ∅ ∅ ∅ ∅ ∅ ∅ ∅ ∅.

Definition with_events x d := mkDatabase x (db_account_snapshots d) (db_customers d) (db_admins d)
  (db_sessions d) (db_transfers d) (db_adjustment_requests d) (db_account_reservations d)
  (db_ledger_postings d) (db_compliance_decisions d).
Definition with_snapshots x d := mkDatabase (db_events d) x (db_customers d) (db_admins d)
  (db_sessions d) (db_transfers d) (db_adjustment_requests d) (db_account_reservations d)
  (db_ledger_postings d) (db_compliance_decisions d).
Definition with_customers x d := mkDatabase (db_events d) (db_account_snapshots d) x (db_admins d)
  (db_sessions d) (db_transfers d) (db_adjustment_requests d) (db_account_reservations d)
  (db_ledger_postings d) (db_compliance_decisions d).
Definition with_admins x d := mkDatabase (db_events d) (db_account_snapshots d) (db_customers d) x
  (db_sessions d) (db_transfers d) (db_adjustment_requests d) (db_account_reservations d)
  (db_ledger_postings d) (db_compliance_decisions d).
Definition with_sessions x d := mkDatabase (db_events d) (db_account_snapshots d) (db_customers d)
  (db_admins d) x (db_transfers d) (db_adjustment_requests d) (db_account_reservations d)
  (db_ledger_postings d) (db_compliance_decisions d).
Definition with_transfers x d := mkDatabase (db_events d) (db_account_snapshots d) (db_customers d)
  (db_admins d) (db_sessions d) x (db_adjustment_requests d) (db_account_reservations d)
  (db_ledger_postings d) (db_compliance_decisions d).
Definition with_adjustments x d := mkDatabase (db_events d) (db_account_snapshots d) (db_customers d)
  (db_admins d) (db_sessions d) (db_transfers d) x (db_account_reservations d)
  (db_ledger_postings d) (db_compliance_decisions d).
Definition with_reservations x d := mkDatabase (db_events d) (db_account_snapshots d) (db_customers d)
  (db_admins d) (db_sessions d) (db_transfers d) (db_adjustment_requests d) x
  (db_ledger_postings d) (db_compliance_decisions d).
Definition with_postings x d := mkDatabase (db_events d) (db_account_snapshots d) (db_customers d)
  (db_admins d) (db_sessions d) (db_transfers d) (db_adjustment_requests d)
  (db_account_reservations d) x (db_compliance_decisions d).
Definition with_decisions x d := mkDatabase (db_events d) (db_account_snapshots d) (db_customers d)
  (db_admins d) (db_sessions d) (db_transfers d) (db_adjustment_requests d)
  (db_account_reservations d) (db_ledger_postings d) x.

(** ** PostgreSQL *)

Inductive sql_error : Type :=
| UniqueViolation (constraint : string)     (** SQLSTATE 23505 *)
| OtherViolation (constraint : string)      (** a foreign key, a check, or a type's range *)
| Failure (message : string).               (** anything else: the connection, a time-out *)

(** The values JSONB keeps as they are written: texts, whole numbers, and
    decimals with their scale. *)
Definition kept_by_jsonb (j : json) : Prop :=
  (∃ s, j = JString s) ∨ (∃ n, 0 ≤ n ≤ MaxInt64 ∧ j = enc_int n) ∨
  (∃ m, int64_ok m ∧ m ≠ MinInt64 ∧ j = JNumber (Money_String m)).

Class Postgres := {
  (** Whether operation number [n] fails for a reason of its own, and whether the
      server has carried it out all the same (the answer was lost). *)
  sql_fault : nat → option (string * bool);
  sql_error_text : sql_error → string;
  (** [NOW()] at operation [n]. *)
  sql_now : nat → Time;
  (** What TIMESTAMPTZ keeps of an instant: whole microseconds. *)
  timestamptz : Time → Time;
  timestamptz_micro : ∀ k, timestamptz (1000 * k) = 1000 * k;
  (** What JSONB keeps of a value: the members of an object, in an order of its
      own. *)
  jsonb : json → json;
  jsonb_object : ∀ kvs, NoDup kvs.*1 → Forall (λ kv, kept_by_jsonb kv.2) kvs →
    ∃ kvs', jsonb (JObject kvs) = JObject kvs' ∧ kvs ≡ₚ kvs';
  (** CHAR(2): what is kept of a text, if it fits. *)
  bpchar2 : string → option string;
  bpchar2_two : ∀ a b, (32 ≤ nat_of_ascii a < 127)%nat → (32 ≤ nat_of_ascii b < 127)%nat →
    bpchar2 (String a (String b EmptyString)) = Some (String a (String b EmptyString));
  (** lower(), and the collation of TEXT. *)
  sql_lower : string → string;
  sql_less : string → string → bool;
  (** The order of a scan, and of rows that ORDER BY leaves open. *)
  sql_order : GoRuntime;
}.

(** DATE keeps the day of a midnight. *)
Definition sql_date (t : Time) : Time := t - t `mod` (86400 * 10 ^ 9).

Definition stmt (A : Type) : Type := Database → result sql_error (A * Database).

(** A SELECT. *)
Definition query {A} (f : Database → A) : stmt A := λ d, Ok (f d, d).
(** A statement whose constraints are checked first. *)
Definition check (c : sql_error) (ok : bool) {A} (s : stmt A) : stmt A := λ d,
  if ok then s d else Err c.

(** EXISTS (SELECT 1 FROM t WHERE p). *)
Definition sql_exists {K V} `{Countable K} (p : V → bool) (t : gmap K V) : bool :=
  existsb (λ kv, p kv.2) (map_to_list t).
(** Whether a foreign key is found, and the row it joins (NULL joins none). *)
Definition refers {V} (k : string) (t : gmap string V) : bool := bool_decide (is_Some (t !! k)).
Definition joined {V} (k : string) (t : gmap string V) : option V :=
  if bool_decide (k = "") then None else t !! k.

Section Statements.
Context `{Postgres}.

(** The first row a scan finds, the rows a scan finds, and rows in an order. *)
Definition sql_first {V} (p : V → bool) (t : gmap string V) : option V :=
  snd <$> @range_find sql_order V p t.
Definition sql_rows {V} (p : V → bool) (t : gmap string V) : list V :=
  filter (λ v, p v = true) (@range_map sql_order V t).*2.
Definition order_by {V} (less : V → V → bool) (rows : list V) : list V :=
  @sort_slice sql_order V less rows.

(** ** events *)

Definition insert_event (id : string) (seq : Z) (type_ : string) (payload : json) (at_ : Time)
    : stmt unit := λ d,
  match db_events d !! (id, seq) with
  | Some _ => Err (UniqueViolation "events_pkey")
  | None => Ok (tt, with_events
      (<[(id, seq) := mkEventRow type_ (jsonb payload) (timestamptz at_)]> (db_events d)) d)
  end.

(** With ON CONFLICT (aggregate_id, sequence) DO NOTHING: the rows affected. *)
Definition insert_event_once (id : string) (seq : Z) (type_ : string) (payload : json) (at_ : Time)
    : stmt Z := λ d,
  match db_events d !! (id, seq) with
  | Some _ => Ok (0, d)
  | None => Ok (1, with_events
      (<[(id, seq) := mkEventRow type_ (jsonb payload) (timestamptz at_)]> (db_events d)) d)
  end.

(** WHERE aggregate_id = $1 ORDER BY sequence. *)
Definition select_events (id : string) : stmt (list EventRow) := query (λ d,
  (order_by (λ r1 r2, r1.1.2 <? r2.1.2)
     (filter (λ r, r.1.1 = id) (map_to_list (db_events d)))).*2).

(** DISTINCT aggregate_id ORDER BY aggregate_id. *)
Definition select_aggregates : stmt (list string) := query (λ d,
  order_by sql_less (remove_dups (map_to_list (db_events d)).*1.*1)).

(** ** account_snapshots *)

Definition upsert_snapshot (snap : AccountSnapshot) : stmt unit :=
  check (OtherViolation "account_snapshots_as_of_sequence_check") (0 <=? snap_AsOfSequence snap) (λ d,
  let row := mkAccountSnapshot (snap_AggregateID snap) (snap_Balance snap)
    (snap_ReservedBalance snap) (snap_AvailableBalance snap) (snap_AsOfSequence snap)
    (timestamptz (snap_OccurredAt snap)) in
  let written := Ok (tt, with_snapshots
    (<[snap_AggregateID snap := row]> (db_account_snapshots d)) d) in
  match db_account_snapshots d !! snap_AggregateID snap with
  | Some old => if snap_AsOfSequence old <? snap_AsOfSequence snap then written else Ok (tt, d)
  | None => written
  end).

Definition select_snapshot (id : string) : stmt (option AccountSnapshot) :=
  query (λ d, db_account_snapshots d !! id).

(** ** customers *)

(** The columns of an application, as they are kept; the others are NULL or ''. *)
Definition customer_row (c : Customer) (image : list ascii) (key : string) : option CustomerRow :=
  nationality ← bpchar2 (cus_Nationality c);
  country ← bpchar2 (ra_Country (cus_ResidentialAddress c));
  issuing ← bpchar2 (gd_IssuingCountry (cus_GovernmentDocument c));
  Some (mkCustomerRow {|
    cus_ID := cus_ID c; cus_AccountID := ""; cus_LegalFirstName := cus_LegalFirstName c;
    cus_LegalLastName := cus_LegalLastName c; cus_DateOfBirth := sql_date (cus_DateOfBirth c);
    cus_Nationality := nationality; cus_Email := cus_Email c; cus_Phone := cus_Phone c;
    cus_PasswordHash := cus_PasswordHash c;
    cus_ResidentialAddress :=
      let a := cus_ResidentialAddress c in
      mkResidentialAddress (ra_Line1 a) (ra_Line2 a) (ra_City a) (ra_StateOrProvince a)
        (ra_PostalCode a) country;
    cus_GovernmentDocument :=
      let g := cus_GovernmentDocument c in mkGovernmentDocument (gd_Type g) (gd_Number g) issuing;
    cus_PassportImage := image; cus_PassportImageMIME := cus_PassportImageMIME c;
    cus_KYCStatus := cus_KYCStatus c; cus_RequestedDeposit := cus_RequestedDeposit c;
    cus_ReviewedBy := ""; cus_ReviewedAt := None; cus_RejectionReason := "";
    cus_CreatedAt := timestamptz (cus_CreatedAt c) |} key).

(** The unique index on lower(email), and the one on the document. *)
Definition same_login (email : string) (c : Customer) : bool :=
  bool_decide (sql_lower (cus_Email c) = sql_lower email).
Definition same_document (d d' : GovernmentDocument) : bool :=
  bool_decide (gd_Type d = gd_Type d') && bool_decide (gd_Number d = gd_Number d') &&
  bool_decide (gd_IssuingCountry d = gd_IssuingCountry d').

Definition insert_customer (c : Customer) (image : list ascii) (key : string) : stmt unit := λ d,
  match customer_row c image key with
  | None => Err (OtherViolation "bpchar")
  | Some row =>
      let taken existing :=
        same_login (cus_Email c) (cr_customer existing) ||
        same_document (cus_GovernmentDocument (cr_customer existing))
          (cus_GovernmentDocument (cr_customer row)) in
      if bool_decide (is_Some (db_customers d !! cus_ID c)) then Err (UniqueViolation "customers_pkey")
      else if sql_exists taken (db_customers d)
      then Err (UniqueViolation "customers_email_unique, customers_document_unique")
      else Ok (tt, with_customers (<[cus_ID c := row]> (db_customers d)) d)
  end.

Definition select_customer_by_email (email : string) : stmt (option Customer) :=
  query (λ d, cr_customer <$> sql_first (λ r, same_login email (cr_customer r)) (db_customers d)).

Definition select_customer (id : string) : stmt (option CustomerRow) :=
  query (λ d, db_customers d !! id).

(** WHERE kyc_status = $1 ORDER BY created_at. *)
Definition select_customers (status : string) : stmt (list Customer) := query (λ d,
  order_by (λ a b, cus_CreatedAt a <? cus_CreatedAt b)
    (cr_customer <$> sql_rows (λ r, bool_decide (cus_KYCStatus (cr_customer r) = status))
                       (db_customers d))).

(** UPDATE customers SET account_id, kyc_status, reviewed_by, reviewed_at. *)
Definition approve_customer (id accountID adminID : string) (at_ : Time) : stmt unit := λ d,
  match db_customers d !! id with
  | None => Ok (tt, d)
  | Some r =>
      let c := cr_customer r in
      if sql_exists (λ r', bool_decide (cus_AccountID (cr_customer r') = accountID) &&
                           negb (bool_decide (cus_ID (cr_customer r') = id))) (db_customers d)
      then Err (UniqueViolation "customers_account_id_key")
      else if negb (refers adminID (db_admins d)) then Err (OtherViolation "customers_reviewer_fk")
      else
        let c' := reviewed c KYCApproved accountID adminID (cus_RejectionReason c)
                    (timestamptz at_) in
        Ok (tt, with_customers (<[id := mkCustomerRow c' (cr_object_key r)]> (db_customers d)) d)
  end.

(** UPDATE customers ... WHERE id = $1 AND kyc_status = $6: the rows affected. *)
Definition reject_customer (id adminID reason : string) (at_ : Time) : stmt Z := λ d,
  match db_customers d !! id with
  | None => Ok (0, d)
  | Some r =>
      let c := cr_customer r in
      if negb (bool_decide (cus_KYCStatus c = KYCWaiting)) then Ok (0, d)
      else if negb (refers adminID (db_admins d)) then Err (OtherViolation "customers_reviewer_fk")
      else
        let c' := reviewed c KYCRejected (cus_AccountID c) adminID reason (timestamptz at_) in
        Ok (1, with_customers (<[id := mkCustomerRow c' (cr_object_key r)]> (db_customers d)) d)
  end.

(** ** admins and sessions *)

Definition same_admin (email : string) (a : Admin) : bool :=
  bool_decide (sql_lower (adm_Email a) = sql_lower email).

Definition select_admin_by_email (email : string) : stmt (option Admin) :=
  query (λ d, sql_first (same_admin email) (db_admins d)).

(** ON CONFLICT (lower(email)) DO UPDATE SET password_hash. *)
Definition upsert_admin (a : Admin) : stmt unit := λ d,
  match sql_first (same_admin (adm_Email a)) (db_admins d) with
  | Some old => Ok (tt, with_admins
      (<[adm_ID old := mkAdmin (adm_ID old) (adm_Email old) (adm_PasswordHash a)]> (db_admins d)) d)
  | None =>
      if bool_decide (is_Some (db_admins d !! adm_ID a)) then Err (UniqueViolation "admins_pkey")
      else Ok (tt, with_admins (<[adm_ID a := a]> (db_admins d)) d)
  end.

Definition insert_session (s : Session) : stmt unit := λ d,
  let customer := negb (bool_decide (ses_CustomerID s = "")) in
  let admin := negb (bool_decide (ses_AdminID s = "")) in
  if negb (xorb customer admin) then Err (OtherViolation "sessions_identity_check")
  else if bool_decide (is_Some (db_sessions d !! ses_TokenHash s))
  then Err (UniqueViolation "sessions_pkey")
  else if negb (if customer then refers (ses_CustomerID s) (db_customers d)
                else refers (ses_AdminID s) (db_admins d))
  then Err (OtherViolation "sessions_customer_id_fkey, sessions_admin_id_fkey")
  else Ok (tt, with_sessions
    (<[ses_TokenHash s := mkSession (ses_TokenHash s) (ses_CustomerID s) (ses_AdminID s)
         (timestamptz (ses_ExpiresAt s))]> (db_sessions d)) d).

(** sessions LEFT JOIN customers LEFT JOIN admins. *)
Definition select_principal (tokenHash : string) (now : Time) : stmt (option Principal) :=
  query (λ d,
    match db_sessions d !! tokenHash with
    | None => None
    | Some s =>
        if timestamptz now <? ses_ExpiresAt s then
          let c := cr_customer <$> joined (ses_CustomerID s) (db_customers d) in
          let a := joined (ses_AdminID s) (db_admins d) in
          Some {|
            pr_CustomerID := ses_CustomerID s; pr_AccountID := from_option cus_AccountID "" c;
            pr_AdminID := ses_AdminID s;
            pr_Email := match c with Some c => cus_Email c | None => from_option adm_Email "" a end;
            pr_Role := if bool_decide (ses_AdminID s = "") then "customer" else "admin";
            pr_KYCStatus := from_option cus_KYCStatus "" c;
            pr_RejectionReason := from_option cus_RejectionReason "" c |}
        else None
    end).

Definition delete_session (tokenHash : string) : stmt unit := λ d,
  Ok (tt, with_sessions (delete tokenHash (db_sessions d)) d).

(** ** transfers *)

Definition transfer_statuses : list string := ["pending"; "completed"; "failed"].

(** The row [CreateTransfer] inserts, and the one [ExecuteTransfer] inserts, with
    the defaults of the other columns. *)
Definition saga_row (r : TransferRecord) : TransferRecord :=
  mkTransferRecord (tr_ID r) (tr_SourceAccountID r) (tr_DestinationAccountID r)
    (tr_IdempotencyKey r) (tr_Amount r) (tr_Fee r) (tr_Status r) "" 0 0
    (timestamptz (tr_CreatedAt r)) (timestamptz (tr_CreatedAt r)) (tr_CurrentStep r) "" 0
    (timestamptz (tr_NextAttemptAt r)) "".
Definition direct_row (r : TransferRecord) (now : Time) : TransferRecord :=
  mkTransferRecord (tr_ID r) (tr_SourceAccountID r) (tr_DestinationAccountID r)
    (tr_IdempotencyKey r) (tr_Amount r) (tr_Fee r) "pending" "" 0 0
    (timestamptz (tr_CreatedAt r)) (timestamptz (tr_CreatedAt r)) "created" "" 0 now "".

Definition has_key (source key : string) (r : TransferRecord) : bool :=
  bool_decide (tr_SourceAccountID r = source) && bool_decide (tr_IdempotencyKey r = key).

Definition insert_transfer (row : TransferRecord) : stmt unit :=
  check (OtherViolation "transfers_status_check") (bool_decide (tr_Status row ∈ transfer_statuses)) (λ d,
  if bool_decide (is_Some (db_transfers d !! tr_ID row)) then Err (UniqueViolation "transfers_pkey")
  else if sql_exists (has_key (tr_SourceAccountID row) (tr_IdempotencyKey row)) (db_transfers d)
  then Err (UniqueViolation "transfers_source_account_id_idempotency_key_key")
  else Ok (tt, with_transfers (<[tr_ID row := row]> (db_transfers d)) d)).

Definition select_transfer (id : string) : stmt (option TransferRecord) :=
  query (λ d, db_transfers d !! id).
Definition select_transfer_by_key (source key : string) : stmt (option TransferRecord) :=
  query (λ d, sql_first (has_key source key) (db_transfers d)).

(** WHERE status='pending' AND next_attempt_at<=$1 ORDER BY next_attempt_at,
    created_at LIMIT $2. *)
Definition select_due (now : Time) (limit : Z) : stmt (list TransferRecord) :=
  check (OtherViolation "limit") (0 <=? limit) (query (λ d,
  take (Z.to_nat limit)
    (order_by (λ a b, (tr_NextAttemptAt a <? tr_NextAttemptAt b) ||
                      (tr_NextAttemptAt a =? tr_NextAttemptAt b) && (tr_CreatedAt a <? tr_CreatedAt b))
       (sql_rows (λ r, bool_decide (tr_Status r = "pending") &&
                       (tr_NextAttemptAt r <=? timestamptz now)) (db_transfers d))))).

(** UPDATE transfers SET ... WHERE id=$1 AND p: the rows affected. *)
Definition update_transfer (id : string) (p : TransferRecord → bool)
    (set : TransferRecord → TransferRecord) : stmt Z := λ d,
  match db_transfers d !! id with
  | None => Ok (0, d)
  | Some r =>
      if negb (p r) then Ok (0, d)
      else if bool_decide (tr_Status (set r) ∈ transfer_statuses)
      then Ok (1, with_transfers (<[id := set r]> (db_transfers d)) d)
      else Err (OtherViolation "transfers_status_check")
  end.

(** attempt_count is an INTEGER. *)
Definition update_saga (id : string) (u : TransferSagaUpdate) (at_ : Time) : stmt Z :=
  check (OtherViolation "integer out of range")
    ((- 2 ^ 31 <=? su_AttemptCount u) && (su_AttemptCount u <? 2 ^ 31))
  (update_transfer id
    (λ r, bool_decide (tr_CurrentStep r = su_ExpectedStep u) && bool_decide (tr_Status r = "pending"))
    (λ r, apply_update r (mkTransferSagaUpdate (su_ExpectedStep u) (su_CurrentStep u) (su_Status u)
       (su_FailureCode u) (su_ComplianceStatus u) (su_LastError u) (su_AttemptCount u)
       (timestamptz (su_NextAttemptAt u)) (su_InitialSourceBalance u) (su_FinalSourceBalance u))
       (timestamptz at_))).
Definition complete_transfer (id : string) (initial final : Money) (now : Time) : stmt Z :=
  update_transfer id (λ _, true) (λ r,
    outcome r TransferCompleted (tr_FailureCode r) initial final (timestamptz now)).
Definition fail_transfer (id code : string) (initial : Money) (now : Time) : stmt Z :=
  update_transfer id (λ _, true) (λ r,
    outcome r TransferFailed code initial (tr_FinalSourceBalance r) (timestamptz now)).

(** ** account_reservations, compliance_decisions, ledger_postings *)

Definition insert_reservation (transfer account : string) (amount : Money) : stmt unit :=
  check (OtherViolation "account_reservations_amount_minor_check") (0 <? amount) (λ d,
  if bool_decide (is_Some (db_account_reservations d !! transfer))
  then Err (UniqueViolation "account_reservations_pkey")
  else if negb (refers transfer (db_transfers d))
  then Err (OtherViolation "account_reservations_transfer_id_fkey")
  else Ok (tt, with_reservations
    (<[transfer := mkMemoryReservation account amount "reserved"]> (db_account_reservations d)) d)).

Definition select_reservation (transfer : string) : stmt (option memoryReservation) :=
  query (λ d, db_account_reservations d !! transfer).

Definition update_reservation (transfer state : string) : stmt unit :=
  check (OtherViolation "account_reservations_state_check")
    (bool_decide (state ∈ ["reserved"; "captured"; "released"])) (λ d,
  match db_account_reservations d !! transfer with
  | None => Ok (tt, d)
  | Some h => Ok (tt, with_reservations
      (<[transfer := mkMemoryReservation (res_AccountID h) (res_Amount h) state]>
         (db_account_reservations d)) d)
  end).

(** ON CONFLICT DO UPDATE ... WHERE the decision is the same: the rows affected. *)
Definition upsert_decision (transfer decision : string) : stmt Z :=
  check (OtherViolation "compliance_decisions_decision_check")
    (bool_decide (decision ∈ ["approved"; "rejected"])) (λ d,
  let written := Ok (1, with_decisions
    (<[transfer := decision]> (db_compliance_decisions d)) d) in
  match db_compliance_decisions d !! transfer with
  | Some old => if bool_decide (old = decision) then written else Ok (0, d)
  | None =>
      if refers transfer (db_transfers d) then written
      else Err (OtherViolation "compliance_decisions_transfer_id_fkey")
  end).

Definition posting_exists (transfer : string) : stmt bool :=
  query (λ d, bool_decide (is_Some (db_ledger_postings d !! transfer))).
Definition insert_posting (transfer : string) : stmt unit := λ d,
  if bool_decide (is_Some (db_ledger_postings d !! transfer))
  then Err (UniqueViolation "ledger_postings_pkey")
  else if negb (refers transfer (db_transfers d))
  then Err (OtherViolation "ledger_postings_transfer_id_fkey")
  else Ok (tt, with_postings (<[transfer := tt]> (db_ledger_postings d)) d).

(** ** adjustment_requests *)

(** The two partial unique indexes: the key of a row, if it has one. *)
Definition transfer_reversal (a : AdjustmentRequest) : option string :=
  if bool_decide (adj_OriginalTransferID a = "") || bool_decide (adj_Status a = "rejected")
  then None else Some (adj_OriginalTransferID a).
Definition event_reversal (a : AdjustmentRequest) : option (string * Z) :=
  if bool_decide (adj_OriginalAccountID a = "") || bool_decide (adj_Status a = "rejected")
  then None else (adj_OriginalAccountID a,.) <$> adj_OriginalEventSequence a.

(** Whether another row has the key of [a]. *)
Definition index_taken {I} `{EqDecision I} (index : AdjustmentRequest → option I)
    (a : AdjustmentRequest) (t : gmap string AdjustmentRequest) : bool :=
  match index a with
  | None => false
  | Some i => sql_exists (λ a', negb (bool_decide (adj_ID a' = adj_ID a)) &&
                                bool_decide (index a' = Some i)) t
  end.

Definition transfer_index : string := "adjustment_requests_active_transfer_reversal_idx".
Definition event_index : string := "adjustment_requests_active_event_reversal_idx".

(** What a row must satisfy to be written over the key of [a]. *)
Definition checked_adjustment (a : AdjustmentRequest) (d : Database) : option sql_error :=
  if negb (bool_decide (adj_Type a ∈ ["manual"; "reversal"]))
  then Some (OtherViolation "adjustment_requests_adjustment_type_check")
  else if negb (bool_decide (adj_Status a ∈ ["waiting_for_approval"; "approved"; "rejected"]))
  then Some (OtherViolation "adjustment_requests_status_check")
  else if index_taken transfer_reversal a (db_adjustment_requests d)
  then Some (UniqueViolation transfer_index)
  else if index_taken event_reversal a (db_adjustment_requests d)
  then Some (UniqueViolation event_index)
  else if negb (refers (adj_CreatedBy a) (db_admins d))
  then Some (OtherViolation "adjustment_requests_created_by_fkey")
  else if negb (bool_decide (adj_ReviewedBy a = "")) && negb (refers (adj_ReviewedBy a) (db_admins d))
  then Some (OtherViolation "adjustment_requests_reviewed_by_fkey")
  else None.

Definition write_adjustment (a : AdjustmentRequest) : stmt unit := λ d,
  match checked_adjustment a d with
  | Some e => Err e
  | None => Ok (tt, with_adjustments (<[adj_ID a := a]> (db_adjustment_requests d)) d)
  end.

(** The columns of a new request; the others are NULL or ''. *)
Definition adjustment_row (r : AdjustmentRequest) : AdjustmentRequest :=
  mkAdjustmentRequest (adj_ID r) (adj_Type r) (adj_Status r) (adj_AccountID r) (adj_Direction r)
    (adj_Amount r) (adj_Fee r) (adj_CounterpartyAccountID r) (adj_OriginalTransferID r)
    (adj_OriginalAccountID r) (adj_OriginalEventSequence r) (adj_Reason r) (adj_CaseReference r)
    (adj_CreatedBy r) "" "" (timestamptz (adj_CreatedAt r)) None.

Definition insert_adjustment (r : AdjustmentRequest) : stmt unit := λ d,
  if bool_decide (is_Some (db_adjustment_requests d !! adj_ID r))
  then Err (UniqueViolation "adjustment_requests_pkey")
  else write_adjustment (adjustment_row r) d.

Definition select_adjustment (id : string) : stmt (option AdjustmentRequest) :=
  query (λ d, db_adjustment_requests d !! id).
Definition select_adjustments (status : string) : stmt (list AdjustmentRequest) := query (λ d,
  order_by (λ a b, adj_CreatedAt a <? adj_CreatedAt b)
    (sql_rows (λ a, bool_decide (adj_Status a = status)) (db_adjustment_requests d))).

(** UPDATE adjustment_requests SET status, reviewed_by, reviewed_at, and
    rejection_reason where a request is rejected. *)
Definition settle_adjustment (id status adminID : string) (reason : option string) (at_ : Time)
    : stmt unit := λ d,
  match db_adjustment_requests d !! id with
  | None => Ok (tt, d)
  | Some r =>
      if refers adminID (db_admins d)
      then write_adjustment (settle r status adminID (default (adj_RejectionReason r) reason)
             (timestamptz at_)) d
      else Err (OtherViolation "adjustment_requests_reviewed_by_fkey")
  end.

(** The EXISTS queries on reversals. *)
Definition transfer_reversed (transfer : string) : stmt bool := query (λ d,
  sql_exists (λ a, bool_decide (transfer_reversal a = Some transfer)) (db_adjustment_requests d)).
Definition event_reversed (account : string) (seq : Z) : stmt bool := query (λ d,
  sql_exists (λ a, bool_decide (event_reversal a = Some (account, seq))) (db_adjustment_requests d)).
Definition other_approved {I} `{EqDecision I} (id : string) (index : AdjustmentRequest → option I)
    (i : I) : stmt bool := query (λ d,
  sql_exists (λ a, negb (bool_decide (adj_ID a = id)) && bool_decide (index a = Some i) &&
                   bool_decide (adj_Status a = "approved")) (db_adjustment_requests d)).
End Statements.
