(* ===== verification/PostgresStore.v ===== *)
(** * The PostgreSQL store: internal/eventstore/postgres_store.go.

    A method is a program of steps on the server's state.  A statement on the
    pool is one step; so is a transaction, whose reads and writes are ordered by
    the locks it takes (pg_advisory_xact_lock on its accounts, FOR UPDATE on its
    row), or which fails; and so is a call of the object store.  Between two steps
    of one method the steps of others may come.  Any operation may fail, and its
    answer may be lost after the server has carried it out ([sql_fault]): the
    time-outs of the contexts are such failures.  A failure while the rows of a
    query are read is one of the query. *)
From S2P Require Export Database Effects.

(** The interface [PassportObjectStore] on a state [O]. *)
Record PassportObjectStore (O : Type) := mkPassportObjectStore {
  Put : string → list ascii → string → O → go_result unit * O;
  Get : string → O → go_result (list ascii);
  Delete : string → O → go_result unit * O;
}.
Arguments Put {O}.
Arguments Get {O}.
Arguments Delete {O}.

(** The state: the tables, the objects, and the operations made so far. *)
Record Server (O : Type) := mkServer { sv_db : Database; sv_objects : O; sv_ops : nat }.
Arguments mkServer {O}.
Arguments sv_db {O}.
Arguments sv_objects {O}.
Arguments sv_ops {O}.

(** How the body of a transaction ends without an error: [return tx.Commit(ctx)],
    or a return before it, which the deferred [tx.Rollback] follows. *)
Inductive tx_end (A : Type) : Type :=
| Commit (a : A)
| Leave (a : A).
Arguments Commit {A}.
Arguments Leave {A}.

(** ** Programs of the store *)

Section Programs.
Context {O : Type}.

(** The body of a transaction: statements, up to the first error. *)
Definition tx (A : Type) : Type := Server O → go_result A * Server O.
#[export] Instance tx_ret : MRet tx := λ A a sv, (Ok a, sv).
#[export] Instance tx_bind : MBind tx := λ A B f m sv,
  match m sv with
  | (Ok a, sv') => f a sv'
  | (Err e, sv') => (Err e, sv')
  end.
Definition tx_of {A} (r : go_result A) : tx A := λ sv, (r, sv).
Definition tx_fail {A} (e : error) : tx A := tx_of (Err e).

(** A method: steps, and what comes after their answers. *)
Inductive pg (A : Type) : Type :=
| Done (a : A)
| Step {X : Type} (step : Server O → X * Server O) (k : X → pg A).
Arguments Done {A}.
Arguments Step {A X}.

Fixpoint pg_bind_def {A B} (f : A → pg B) (p : pg A) : pg B :=
  match p with
  | Done a => f a
  | Step step k => Step step (λ x, pg_bind_def f (k x))
  end.
#[export] Instance pg_ret : MRet pg := @Done.
#[export] Instance pg_bind : MBind pg := @pg_bind_def.

Definition pg_fail {A} (e : error) : pg (go_result A) := Done (Err e).
Definition pg_ok {A} (a : A) : pg (go_result A) := Done (Ok a).
Definition pg_try {A B} (p : pg (go_result A)) (k : A → pg (go_result B)) : pg (go_result B) :=
  r ← p; match r with Ok a => k a | Err e => Done (Err e) end.

(** A run without interference. *)
Fixpoint run {A} (p : pg A) (sv : Server O) : A * Server O :=
  match p with
  | Done a => (a, sv)
  | Step step k => let '(x, sv') := step sv in run (k x) sv'
  end.

Lemma run_bind {A B} (p : pg A) (k : A → pg B) sv :
  run (p ≫= k) sv = let '(a, sv') := run p sv in run (k a) sv'.
Proof.
  revert sv. induction p as [a|X step k' IH]; intros sv; [done|]. simpl.
  destruct (step sv) as [x sv']. apply IH.
Qed.
End Programs.
Arguments tx : clear implicits.
Arguments pg : clear implicits.
Arguments Done {O A}.
Arguments Step {O A X}.

Notation "'let!' x := p 'in' k" := (pg_try p (λ x, k))
  (at level 10, x pattern, p at level 200, k at level 200) : go_scope.

Module Pg.
Section Store.
Context {O : Type} `{Postgres} `{JsonErrors} (passportObjects : option (PassportObjectStore O)).

(** ** Operations *)

Definition next (sv : Server O) : Server O := mkServer (sv_db sv) (sv_objects sv) (S (sv_ops sv)).
Definition put_db (d : Database) (sv : Server O) : Server O := mkServer d (sv_objects sv) (sv_ops sv).

Definition statement {A} (s : stmt A) (sv : Server O) : result sql_error A * Server O :=
  match sql_fault (sv_ops sv), s (sv_db sv) with
  | Some (message, true), Ok (_, d) => (Err (Failure message), put_db d (next sv))
  | Some (message, _), _ => (Err (Failure message), next sv)
  | None, Ok (a, d) => (Ok a, put_db d (next sv))
  | None, Err e => (Err e, next sv)
  end.

(** The error pgx returns. *)
Definition pg_error (e : sql_error) : error := OtherError (sql_error_text e).
(** [fmt.Errorf("eventstore: what: %w", err)]. *)
Definition wrap (what : string) (e : sql_error) : error :=
  Errorf ("eventstore: " +:+ what) (pg_error e).

(** [s.pool.Exec], [s.pool.Query] and [s.pool.QueryRow], with what the method makes
    of the error. *)
Definition exec {A} (s : stmt A) : pg O (result sql_error A) := Step (statement s) Done.
Definition exec_or {A} (on_error : sql_error → error) (s : stmt A) : pg O (go_result A) :=
  r ← exec s; Done (match r with Ok a => Ok a | Err e => Err (on_error e) end).
(** [tx.Exec], [tx.Query] and [tx.QueryRow]. *)
Definition tx_exec_or {A} (on_error : sql_error → error) (s : stmt A) : tx O A := λ sv,
  match statement s sv with
  | (Ok a, sv') => (Ok a, sv')
  | (Err e, sv') => (Err (on_error e), sv')
  end.
Definition tx_exec {A} (s : stmt A) : tx O A := tx_exec_or pg_error s.

(** Begin, the body, and Commit; the tables are as before unless it commits. *)
Definition transaction_step {A} (begin_ commit_ : sql_error → error) (body : tx O (tx_end A))
    (sv : Server O) : go_result A * Server O :=
  match statement (query (λ _, tt)) sv with
  | (Err e, sv1) => (Err (begin_ e), sv1)
  | (Ok _, sv1) =>
      match body sv1 with
      | (Ok (Commit a), sv2) =>
          match statement (λ _, Ok (tt, sv_db sv2)) (put_db (sv_db sv) sv2) with
          | (Ok _, sv3) => (Ok a, sv3)
          | (Err e, sv3) => (Err (commit_ e), sv3)
          end
      | (Ok (Leave a), sv2) => (Ok a, put_db (sv_db sv) sv2)
      | (Err e, sv2) => (Err e, put_db (sv_db sv) sv2)
      end
  end.
Definition transaction {A} (body : tx O (tx_end A)) : pg O (go_result A) :=
  Step (transaction_step pg_error pg_error body) Done.

(** [SELECT pg_advisory_xact_lock(...)]: orders transactions, changes nothing. *)
Definition lockAccountTx (id : string) : tx O unit := tx_exec (query (λ _, tt)).

(** ** Events as rows *)

Definition marshal (event : Event) : go_result json :=
  match Marshal (enc_event event) with
  | Some payload => Ok payload
  | None => Err (OtherError (marshal_error (enc_event event)))
  end.
Definition decode_rows (id : string) (rows : list EventRow) : go_result (list Event) :=
  mapM (λ r, decodeEvent id (er_event_type r) (er_payload r)) rows.

Definition loadEventsTx (id : string) : tx O (list Event) :=
  rows ← tx_exec (select_events id); tx_of (decode_rows id rows).
Definition insertEventTx (e : Event) : tx O unit :=
  match marshal e with
  | Err err => tx_fail err
  | Ok payload =>
      tx_exec (insert_event (AggregateID e) (Version e) (EventType e) payload (OccurredAt e))
  end.

Definition Append (event : Event) (expectedVersion : Z) : pg O (go_result unit) :=
  match marshal event with
  | Err err => pg_fail (Errorf "eventstore: marshal event" err)
  | Ok payload =>
      let! affected := exec_or (wrap "insert event")
        (insert_event_once (AggregateID event) expectedVersion (EventType event) payload
           (OccurredAt event)) in
      if affected =? 0 then pg_fail ErrConcurrencyConflict else pg_ok tt
  end.

Definition Load (aggregateID : string) : pg O (go_result (list Event)) :=
  let! rows := exec_or (wrap "query events") (select_events aggregateID) in
  Done (decode_rows aggregateID rows).

Definition ListAggregates : pg O (go_result (list string)) :=
  exec_or (wrap "list aggregates") select_aggregates.

Definition SaveSnapshot (snap : AccountSnapshot) : pg O (go_result unit) :=
  exec_or (wrap "save snapshot") (upsert_snapshot snap).

(** [QueryRow(...).Scan(...)]: pgx.ErrNoRows, any other error, or a row. *)
Definition found {A} (none : error) (on_error : sql_error → error) (s : stmt (option A))
    : pg O (go_result A) :=
  let! row := exec_or on_error s in
  match row with Some a => pg_ok a | None => pg_fail none end.

Definition LoadSnapshot (aggregateID : string) : pg O (go_result AccountSnapshot) :=
  found ErrNoSnapshot (wrap "load snapshot") (select_snapshot aggregateID).

Definition WithdrawAvailable (accountID : string) (amount : Money) (at_ : Time)
    : pg O (go_result (Account * Account)) :=
  transaction (
    _ ← lockAccountTx accountID;
    events ← loadEventsTx accountID;
    if seq_of events =? 0 then tx_fail ErrAccountNotFound
    else
      let initial := ReplayAccount accountID events in
      if acc_AvailableBalance initial <? amount
      then tx_fail (NewInsufficientFundsError initial amount)
      else
        let ev := EMoneyDebited {|
          md_Aggregate := accountID; md_Type := "MoneyDebited"; md_Seq := seq_of events;
          md_Occurred := at_; md_ID := accountID; md_Amount := amount;
          md_TransferID := ""; md_Purpose := ""; md_CounterpartyAccountID := "";
          md_AdjustmentID := ""; md_AdjustmentReason := ""; md_CaseReference := "";
          md_OriginalReference := "" |} in
        _ ← insertEventTx ev;
        mret (Commit (initial, ReplayAccount accountID (events ++ [ev])))).

(** ** Customers, admins and sessions *)

Definition object_call {A} (f : O → A * O) : pg O A :=
  Step (λ sv, let '(a, o) := f (sv_objects sv) in (a, mkServer (sv_db sv) o (sv_ops sv))) Done.

(** The transaction of [CreateCustomerApplication]. *)
Definition insert_application (customer : Customer) (image : list ascii) (key : string)
    : pg O (go_result unit) :=
  Step (transaction_step (wrap "begin onboarding") (wrap "commit onboarding")
    (_ ← tx_exec_or (λ e, match e with
                          | UniqueViolation _ => ErrCustomerAlreadyExists
                          | _ => wrap "insert customer" e
                          end) (insert_customer customer image key);
     mret (Commit tt))) Done.

Definition CreateCustomerApplication (customer : Customer) : pg O (go_result unit) :=
  match passportObjects with
  | None => insert_application customer (cus_PassportImage customer) ""
  | Some objects =>
      let objectKey := "passports/" +:+ cus_ID customer in
      let! _ := object_call (Put objects objectKey (cus_PassportImage customer)
                               (cus_PassportImageMIME customer)) in
      r ← insert_application customer [] objectKey;
      match r with
      | Ok _ => pg_ok tt
      | Err e => _ ← object_call (Delete objects objectKey); pg_fail e
      end
  end.

(** The columns [FindCustomerByEmail] selects. *)
Definition login_columns (c : Customer) : Customer :=
  mkCustomer (cus_ID c) (cus_AccountID c) "" "" zero_time "" (cus_Email c) "" (cus_PasswordHash c)
    (mkResidentialAddress "" "" "" "" "" "") (mkGovernmentDocument "" "" "") [] ""
    (cus_KYCStatus c) 0 "" None (cus_RejectionReason c) zero_time.

Definition FindCustomerByEmail (email : string) : pg O (go_result Customer) :=
  let! c := found ErrInvalidCredentials (wrap "find customer") (select_customer_by_email email) in
  pg_ok (login_columns c).

Definition FindAdminByEmail (email : string) : pg O (go_result Admin) :=
  found ErrInvalidCredentials (wrap "find admin") (select_admin_by_email email).

Definition UpsertAdmin (a : Admin) : pg O (go_result unit) := exec_or pg_error (upsert_admin a).

Definition CreateSession (session : Session) : pg O (go_result unit) :=
  exec_or (wrap "create session") (insert_session session).

Definition FindSession (tokenHash : string) (now : Time) : pg O (go_result Principal) :=
  found ErrUnauthorized (wrap "find session") (select_principal tokenHash now).

Definition DeleteSession (tokenHash : string) : pg O (go_result unit) :=
  exec_or (wrap "delete session") (delete_session tokenHash).

Definition ListApplications (status : string) : pg O (go_result (list ApplicationSummary)) :=
  let! rows := exec_or pg_error (select_customers status) in pg_ok (summary <$> rows).

Definition detail (c : Customer) : ApplicationDetail :=
  mkApplicationDetail (summary c) (cus_DateOfBirth c) (cus_Nationality c) (cus_Phone c)
    (cus_ResidentialAddress c) (cus_GovernmentDocument c) (cus_PassportImageMIME c).

Definition GetApplication (id : string) : pg O (go_result ApplicationDetail) :=
  let! row := found ErrApplicationNotFound pg_error (select_customer id) in
  pg_ok (detail (cr_customer row)).

Definition GetPassportImage (id : string) : pg O (go_result (list ascii * string)) :=
  let! row := found ErrApplicationNotFound pg_error (select_customer id) in
  let c := cr_customer row in
  if bool_decide (cr_object_key row = "") then pg_ok (cus_PassportImage c, cus_PassportImageMIME c)
  else
    match passportObjects with
    | None => pg_fail (OtherError "passport object storage is not configured")
    | Some objects =>
        let! b := object_call (λ o, (Get objects (cr_object_key row) o, o)) in
        pg_ok (b, cus_PassportImageMIME c)
    end.

Definition ApproveApplication (id adminID accountID : string) (at_ : Time)
    : pg O (go_result unit) :=
  transaction (
    row ← tx_exec (select_customer id);
    match row with
    | None => tx_fail ErrApplicationNotFound
    | Some r =>
        let c := cr_customer r in
        if negb (bool_decide (cus_KYCStatus c = KYCWaiting)) then tx_fail ErrApplicationReviewed
        else
          let opened := EAccountOpened {|
            ao_Aggregate := accountID; ao_Type := "AccountOpened"; ao_Seq := 0;
            ao_Occurred := at_; ao_ID := accountID; ao_InitialBalance := cus_RequestedDeposit c |} in
          _ ← insertEventTx opened;
          _ ← tx_exec (approve_customer id accountID adminID at_);
          mret (Commit tt)
    end).

Definition RejectApplication (id adminID reason : string) (at_ : Time) : pg O (go_result unit) :=
  let! affected := exec_or pg_error (reject_customer id adminID reason at_) in
  if affected =? 0 then
    let! exists_ := exec_or pg_error
                      (query (λ d, bool_decide (is_Some (db_customers d !! id)))) in
    pg_fail (if negb exists_ then ErrApplicationNotFound else ErrApplicationReviewed)
  else pg_ok tt.

(** ** Transfers *)

(** [pgx.ErrNoRows], where the method does not look for it. *)
Definition ErrNoRows : error := OtherError "no rows in result set".

Definition FindTransfer (id : string) : pg O (go_result TransferRecord) :=
  found ErrTransferNotFound pg_error (select_transfer id).

Definition findTransferByKey (source key : string) : pg O (go_result TransferRecord) :=
  found ErrNoRows pg_error (select_transfer_by_key source key).

(** What both ways to create a transfer make of an INSERT that failed: the
    transfer of the same key, unless it differs. *)
Definition existing_transfer (record : TransferRecord) (e : sql_error)
    : pg O (go_result TransferRecord) :=
  match e with
  | UniqueViolation _ =>
      let! existing := findTransferByKey (tr_SourceAccountID record) (tr_IdempotencyKey record) in
      if negb (bool_decide (tr_Amount existing = tr_Amount record)) ||
         negb (bool_decide (tr_DestinationAccountID existing = tr_DestinationAccountID record))
      then pg_fail ErrIdempotencyConflict
      else pg_ok existing
  | _ => pg_fail (pg_error e)
  end.

Definition CreateTransfer (r : TransferRecord) : pg O (go_result (TransferRecord * bool)) :=
  inserted ← exec (insert_transfer (saga_row r));
  match inserted with
  | Ok _ => pg_ok (r, true)
  | Err e => let! existing := existing_transfer r e in pg_ok (existing, false)
  end.

Definition minString (a b : string) : string := if String.ltb a b then a else b.
Definition maxString (a b : string) : string := if String.ltb b a then a else b.

Definition failTransferTx (r : TransferRecord) (code : string) (created : bool) (now : Time)
    : tx O (tx_end (option (TransferRecord * bool))) :=
  _ ← tx_exec (fail_transfer (tr_ID r) code (tr_InitialSourceBalance r) now);
  mret (Commit (Some (outcome r TransferFailed code (tr_InitialSourceBalance r)
                        (tr_FinalSourceBalance r) now, created))).

(** The transaction of [ExecuteTransfer]: none where the transfer is not pending
    any more; [now] is the time it reads. *)
Definition execute_tx (record : TransferRecord) (created : bool) (now : Time)
    : tx O (tx_end (option (TransferRecord * bool))) :=
  _ ← lockAccountTx (minString (tr_SourceAccountID record) (tr_DestinationAccountID record));
  _ ← lockAccountTx (maxString (tr_SourceAccountID record) (tr_DestinationAccountID record));
  row ← tx_exec (select_transfer (tr_ID record));
  match row with
  | None => tx_fail ErrNoRows
  | Some current =>
      if negb (bool_decide (tr_Status current = TransferPending)) then mret (Leave None)
      else
        src ← loadEventsTx (tr_SourceAccountID record);
        dst ← loadEventsTx (tr_DestinationAccountID record);
        if (seq_of src =? 0) || (seq_of dst =? 0)
        then failTransferTx record "account_not_found" created now
        else
          let balance := acc_Balance (ReplayAccount (tr_SourceAccountID record) src) in
          let record := outcome record (tr_Status record) (tr_FailureCode record) balance
                          (tr_FinalSourceBalance record) (tr_UpdatedAt record) in
          if balance <? tr_Amount record +! tr_Fee record
          then failTransferTx record "insufficient_funds" created now
          else
            src1 ← (if tr_Fee record >? 0 then
                      let e := transfer_debit record now (tr_Fee record) "fee" src in
                      _ ← insertEventTx e; mret (src ++ [e])
                    else mret src);
            _ ← insertEventTx (transfer_debit record now (tr_Amount record) "transfer" src1);
            _ ← insertEventTx (transfer_credit record now dst);
            let final := balance -! tr_Amount record -! tr_Fee record in
            _ ← tx_exec (complete_transfer (tr_ID record) balance final now);
            mret (Commit (Some (outcome record TransferCompleted (tr_FailureCode record) balance
                                  final now, true)))
  end.

Definition ExecuteTransfer (record : TransferRecord) (now : Time)
    : pg O (go_result (TransferRecord * bool)) :=
  inserted ← Step (λ sv, statement (insert_transfer (direct_row record (sql_now (sv_ops sv)))) sv) Done;
  let execute record created :=
    let! r := transaction (execute_tx record created now) in
    match r with
    | Some answer => pg_ok answer
    | None => let! existing := FindTransfer (tr_ID record) in pg_ok (existing, false)
    end in
  match inserted with
  | Ok _ => execute record true
  | Err e =>
      let! existing := existing_transfer record e in
      if negb (bool_decide (tr_Status existing = TransferPending)) then pg_ok (existing, false)
      else execute existing false
  end.

Definition ListDueTransfers (now : Time) (limit : Z) : pg O (go_result (list TransferRecord)) :=
  exec_or pg_error (select_due now limit).

Definition UpdateTransferSaga (id : string) (u : TransferSagaUpdate) (at_ : Time)
    : pg O (go_result bool) :=
  let! affected := exec_or pg_error (update_saga id u at_) in pg_ok (affected =? 1).

Definition ReserveTransferFunds (r : TransferRecord) (at_ : Time) : pg O (go_result Money) :=
  transaction (
    _ ← lockAccountTx (tr_SourceAccountID r);
    hold ← tx_exec (select_reservation (tr_ID r));
    match hold with
    | Some _ =>
        events ← loadEventsTx (tr_SourceAccountID r);
        mret (Leave (acc_Balance (ReplayAccount (tr_SourceAccountID r) events)))
    | None =>
        src ← loadEventsTx (tr_SourceAccountID r);
        dst ← loadEventsTx (tr_DestinationAccountID r);
        if (seq_of src =? 0) || (seq_of dst =? 0) then tx_fail ErrAccountNotFound
        else
          let a := ReplayAccount (tr_SourceAccountID r) src in
          let amount := tr_Amount r +! tr_Fee r in
          if acc_AvailableBalance a <? amount then tx_fail (NewInsufficientFundsError a amount)
          else
            _ ← tx_exec (insert_reservation (tr_ID r) (tr_SourceAccountID r) amount);
            _ ← insertEventTx (EFundsReserved {|
              fr_Aggregate := tr_SourceAccountID r; fr_Type := "FundsReserved";
              fr_Seq := seq_of src; fr_Occurred := at_; fr_ID := tr_SourceAccountID r;
              fr_Amount := amount; fr_TransferID := tr_ID r |});
            mret (Commit (acc_Balance a))
    end).

Definition RecordComplianceDecision (id decision : string) (at_ : Time) : pg O (go_result unit) :=
  let! affected := exec_or pg_error (upsert_decision id decision) in
  if affected =? 0 then pg_fail ErrIdempotencyConflict else pg_ok tt.

Definition PostTransferLedger (r : TransferRecord) (at_ : Time) : pg O (go_result Money) :=
  transaction (
    _ ← lockAccountTx (minString (tr_SourceAccountID r) (tr_DestinationAccountID r));
    _ ← lockAccountTx (maxString (tr_SourceAccountID r) (tr_DestinationAccountID r));
    exists_ ← tx_exec (posting_exists (tr_ID r));
    if (exists_ : bool) then
      events ← loadEventsTx (tr_SourceAccountID r);
      mret (Leave (acc_Balance (ReplayAccount (tr_SourceAccountID r) events)))
    else
      src ← loadEventsTx (tr_SourceAccountID r);
      dst ← loadEventsTx (tr_DestinationAccountID r);
      src1 ← (if tr_Fee r >? 0 then
                let ev := transfer_debit r at_ (tr_Fee r) "fee" src in
                _ ← insertEventTx ev; mret (src ++ [ev])
              else mret src);
      let debit := transfer_debit r at_ (tr_Amount r) "transfer" src1 in
      _ ← insertEventTx debit;
      _ ← insertEventTx (transfer_credit r at_ dst);
      _ ← tx_exec (insert_posting (tr_ID r));
      mret (Commit (acc_Balance (ReplayAccount (tr_SourceAccountID r) (src1 ++ [debit]))))).

Definition finishTransferReservation (r : TransferRecord) (at_ : Time) (target : string)
    : pg O (go_result unit) :=
  transaction (
    _ ← lockAccountTx (tr_SourceAccountID r);
    hold ← tx_exec (select_reservation (tr_ID r));
    match hold with
    | None => mret (Leave tt)
    | Some h =>
        let account := res_AccountID h in
        if bool_decide (res_State h = target) then mret (Leave tt)
        else if negb (bool_decide (res_State h = "reserved")) then tx_fail ErrIdempotencyConflict
        else
          events ← loadEventsTx account;
          let ev :=
            if bool_decide (target = "captured") then EReservationCaptured {|
              rcap_Aggregate := account; rcap_Type := "ReservationCaptured";
              rcap_Seq := seq_of events; rcap_Occurred := at_; rcap_ID := account;
              rcap_Amount := res_Amount h; rcap_TransferID := tr_ID r |}
            else EReservationReleased {|
              rrel_Aggregate := account; rrel_Type := "ReservationReleased";
              rrel_Seq := seq_of events; rrel_Occurred := at_; rrel_ID := account;
              rrel_Amount := res_Amount h; rrel_TransferID := tr_ID r |} in
          _ ← insertEventTx ev;
          _ ← tx_exec (update_reservation (tr_ID r) target);
          mret (Commit tt)
    end).

Definition CaptureTransferReservation (r : TransferRecord) (at_ : Time) : pg O (go_result unit) :=
  finishTransferReservation r at_ "captured".
Definition ReleaseTransferReservation (r : TransferRecord) (at_ : Time) : pg O (go_result unit) :=
  finishTransferReservation r at_ "released".

(** ** Adjustments *)

(** The request as it is stored, with what it takes from the transfer or the
    event it reverses. *)
Definition resolve_adjustment (r : AdjustmentRequest) : pg O (go_result AdjustmentRequest) :=
  if bool_decide (adj_Type r = AdjustmentManual) then
    let! events := Load (adj_AccountID r) in
    if seq_of events =? 0 then pg_fail ErrAccountNotFound else pg_ok r
  else if negb (bool_decide (adj_OriginalTransferID r = "")) then
    t ← FindTransfer (adj_OriginalTransferID r);
    match t with
    | Err _ => pg_fail ErrTransferNotFound
    | Ok t =>
        if negb (bool_decide (tr_Status t = TransferCompleted)) then pg_fail ErrTransferNotFound
        else
          let! exists_ := exec_or pg_error (transfer_reversed (adj_OriginalTransferID r)) in
          if (exists_ : bool) then pg_fail ErrAlreadyReversed
          else pg_ok (retarget r (tr_SourceAccountID t) (tr_DestinationAccountID t)
                        (tr_Amount t) (tr_Fee t) "reversal")
    end
  else
    let! events := Load (adj_OriginalAccountID r) in
    match adj_OriginalEventSequence r with
    | None => pg_fail ErrInvalidAdjustment
    | Some seq =>
        if (seq <? 0) || (seq_of events <=? seq) then pg_fail ErrInvalidAdjustment
        else
          let! exists_ := exec_or pg_error (event_reversed (adj_OriginalAccountID r) seq) in
          if (exists_ : bool) then pg_fail ErrAlreadyReversed
          else
            match events !! Z.to_nat seq ≫= reversible_movement with
            | None => pg_fail ErrInvalidAdjustment
            | Some (amount, direction) =>
                pg_ok (retarget r (adj_OriginalAccountID r) (adj_CounterpartyAccountID r)
                         amount (adj_Fee r) direction)
            end
    end.

Definition CreateAdjustment (r : AdjustmentRequest) : pg O (go_result AdjustmentRequest) :=
  let! r := resolve_adjustment r in
  let! _ := exec_or (λ e, match e with
                          | UniqueViolation c =>
                              if bool_decide (c = transfer_index) || bool_decide (c = event_index)
                              then ErrAlreadyReversed else pg_error e
                          | _ => pg_error e
                          end) (insert_adjustment r) in
  pg_ok r.

Definition GetAdjustment (id : string) : pg O (go_result AdjustmentRequest) :=
  found ErrAdjustmentNotFound pg_error (select_adjustment id).

Definition ListAdjustments (status : string) : pg O (go_result (list AdjustmentRequest)) :=
  exec_or pg_error (select_adjustments status).

(** [sort.Strings]. *)
Definition sort_strings (l : list string) : list string :=
  merge_sort (λ a b, Is_true (String.leb a b)) l.

(** The closures [credit] and [debit] of [ApproveAdjustment]. *)
Definition credit (r : AdjustmentRequest) (at_ : Time) (account : string) (amount : Money)
    (counterparty : string) : tx O unit :=
  events ← loadEventsTx account;
  insertEventTx (EMoneyCredited {|
    mc_Aggregate := account; mc_Type := "MoneyCredited"; mc_Seq := seq_of events;
    mc_Occurred := at_; mc_ID := account; mc_Amount := amount; mc_TransferID := "";
    mc_Purpose := adjustment_purpose r; mc_CounterpartyAccountID := counterparty;
    mc_AdjustmentID := adj_ID r; mc_AdjustmentReason := adj_Reason r;
    mc_CaseReference := adj_CaseReference r; mc_OriginalReference := original_reference r |}).
Definition debit (r : AdjustmentRequest) (at_ : Time) (account : string) (amount : Money)
    (counterparty : string) : tx O unit :=
  events ← loadEventsTx account;
  let a := ReplayAccount account events in
  if acc_AvailableBalance a <? amount then tx_fail (NewInsufficientFundsError a amount)
  else insertEventTx (EMoneyDebited {|
    md_Aggregate := account; md_Type := "MoneyDebited"; md_Seq := seq_of events;
    md_Occurred := at_; md_ID := account; md_Amount := amount; md_TransferID := "";
    md_Purpose := adjustment_purpose r; md_CounterpartyAccountID := counterparty;
    md_AdjustmentID := adj_ID r; md_AdjustmentReason := adj_Reason r;
    md_CaseReference := adj_CaseReference r; md_OriginalReference := original_reference r |}).

(** The query on other approved reversals; [*r.OriginalEventSequence] panics where
    it is nil, which ends the request (the deferred rollback runs). *)
Definition already_approved (r : AdjustmentRequest) : tx O bool :=
  if bool_decide (adj_Type r = AdjustmentReversal) then
    if negb (bool_decide (adj_OriginalTransferID r = ""))
    then tx_exec (other_approved (adj_ID r) transfer_reversal (adj_OriginalTransferID r))
    else
      match adj_OriginalEventSequence r with
      | Some seq => tx_exec (other_approved (adj_ID r) event_reversal (adj_OriginalAccountID r, seq))
      | None => tx_fail (OtherError "invalid memory address or nil pointer dereference")
      end
  else mret false.

(** The postings of an approved request. *)
Definition adjust (r : AdjustmentRequest) (at_ : Time) : tx O unit :=
  if negb (bool_decide (adj_OriginalTransferID r = "")) then
    _ ← debit r at_ (adj_CounterpartyAccountID r) (adj_Amount r) (adj_AccountID r);
    credit r at_ (adj_AccountID r) (adj_Amount r +! adj_Fee r) (adj_CounterpartyAccountID r)
  else if bool_decide (adj_Direction r = "credit")
  then credit r at_ (adj_AccountID r) (adj_Amount r) ""
  else debit r at_ (adj_AccountID r) (adj_Amount r) "".

(** The transaction of [ApproveAdjustment]. *)
Definition approve_tx (id adminID : string) (at_ : Time) : tx O (tx_end unit) :=
  row ← tx_exec (select_adjustment id);
  match row with
  | None => tx_fail ErrAdjustmentNotFound
  | Some r =>
      if negb (bool_decide (adj_Status r = AdjustmentWaiting)) then tx_fail ErrAdjustmentReviewed
      else if bool_decide (adj_CreatedBy r = adminID) then tx_fail ErrSelfApproval
      else
        let accounts := adj_AccountID r ::
          (if bool_decide (adj_CounterpartyAccountID r = "") then []
           else [adj_CounterpartyAccountID r]) in
        _ ← foldr (λ account rest, _ ← lockAccountTx account; rest) (mret tt)
              (sort_strings accounts);
        approved ← already_approved r;
        if (approved : bool) then tx_fail ErrAlreadyReversed
        else
          _ ← adjust r at_;
          _ ← tx_exec (settle_adjustment id AdjustmentApproved adminID None at_);
          mret (Commit tt)
  end.

Definition ApproveAdjustment (id adminID : string) (at_ : Time) : pg O (go_result unit) :=
  transaction (approve_tx id adminID at_).

Definition RejectAdjustment (id adminID reason : string) (at_ : Time) : pg O (go_result unit) :=
  transaction (
    row ← tx_exec (select_adjustment id);
    match row with
    | None => tx_fail ErrAdjustmentNotFound
    | Some r =>
        if negb (bool_decide (adj_Status r = AdjustmentWaiting)) then tx_fail ErrAdjustmentReviewed
        else if bool_decide (adj_CreatedBy r = adminID) then tx_fail ErrSelfApproval
        else
          _ ← tx_exec (settle_adjustment id AdjustmentRejected adminID (Some reason) at_);
          mret (Commit tt)
    end).

(** ** The store interface *)

Definition method {X} (op : storeE X) : pg O X :=
  match op in storeE X return pg O X with
  | cAppend ev v => Append ev v
  | cLoad id => Load id
  | cListAggregates => ListAggregates
  | cSaveSnapshot snap => SaveSnapshot snap
  | cLoadSnapshot id => LoadSnapshot id
  | cWithdrawAvailable id amount at_ => WithdrawAvailable id amount at_
  | cCreateTransfer r => CreateTransfer r
  | cFindTransfer id => FindTransfer id
  | cListDueTransfers now limit => ListDueTransfers now limit
  | cUpdateTransferSaga id u at_ => UpdateTransferSaga id u at_
  | cReserveTransferFunds r at_ => ReserveTransferFunds r at_
  | cRecordComplianceDecision id d at_ => RecordComplianceDecision id d at_
  | cPostTransferLedger r at_ => PostTransferLedger r at_
  | cCaptureTransferReservation r at_ => CaptureTransferReservation r at_
  | cReleaseTransferReservation r at_ => ReleaseTransferReservation r at_
  | cCreateCustomerApplication c => CreateCustomerApplication c
  | cListApplications status => ListApplications status
  | cGetApplication id => GetApplication id
  | cGetPassportImage id => GetPassportImage id
  | cApproveApplication id adm acc at_ => ApproveApplication id adm acc at_
  | cRejectApplication id adm reason at_ => RejectApplication id adm reason at_
  | cCreateAdjustment r => CreateAdjustment r
  | cListAdjustments status => ListAdjustments status
  | cGetAdjustment id => GetAdjustment id
  | cApproveAdjustment id adm at_ => ApproveAdjustment id adm at_
  | cRejectAdjustment id adm reason at_ => RejectAdjustment id adm reason at_
  | cFindCustomerByEmail email => FindCustomerByEmail email
  | cFindAdminByEmail email => FindAdminByEmail email
  | cUpsertAdmin adm => UpsertAdmin adm
  | cCreateSession session => CreateSession session
  | cFindSession h now => FindSession h now
  | cDeleteSession h => DeleteSession h
  end.

(** A method as one step, for a caller nobody interferes with. *)
#[export] Instance postgres_store : BankStore (Server O) := λ _ _ op, run (method op).
End Store.
End Pg.
