(* ===== verification/Constraints.v ===== *)
(** * What every statement of the PostgreSQL store keeps, and so every
    interleaving of its methods.

    [issued] lists the statements the methods send; a preorder on the tables that
    each of them keeps is kept by every step of every method ([method_keeps]),
    transactions that fail or roll back included.  The constraints of the
    migrations ([db_ok]) and what is never undone ([db_evolves]) are one. *)
From S2P Require Export PostgresStore Evolution Uniqueness.

(** ** The statements of the store *)

Section Issued.
Context `{Postgres}.

Inductive issued : ∀ {A}, stmt A → Prop :=
| is_query {A} (f : Database → A) : issued (query f)
| is_due now limit : issued (select_due now limit)
| is_event id seq t payload at_ : issued (insert_event id seq t payload at_)
| is_event_once id seq t payload at_ : issued (insert_event_once id seq t payload at_)
| is_snapshot snap : issued (upsert_snapshot snap)
| is_customer c image key : issued (insert_customer c image key)
| is_approve id acc adm at_ : issued (approve_customer id acc adm at_)
| is_reject id adm reason at_ : issued (reject_customer id adm reason at_)
| is_admin a : issued (upsert_admin a)
| is_session s : issued (insert_session s)
| is_logout h : issued (delete_session h)
| is_transfer r : issued (insert_transfer r)
| is_saga id u at_ : issued (update_saga id u at_)
| is_complete id initial final now : issued (complete_transfer id initial final now)
| is_fail id code initial now : issued (fail_transfer id code initial now)
| is_hold t acc amount : issued (insert_reservation t acc amount)
| is_finish t state : issued (update_reservation t state)
| is_decision t decision : issued (upsert_decision t decision)
| is_posting t : issued (insert_posting t)
| is_adjustment r : issued (insert_adjustment r)
| is_settle id status adm reason at_ : issued (settle_adjustment id status adm reason at_).
End Issued.
Create HintDb issued.
#[export] Hint Constructors issued : issued.

(** ** What statements keep, steps keep *)

Definition stmt_keeps (P : relation Database) {A} (s : stmt A) : Prop :=
  ∀ d a d', s d = Ok (a, d') → P d d'.

Section Keeps.
Context {O : Type} `{Postgres} `{JsonErrors} (objects : option (PassportObjectStore O)).
Context (P : relation Database) `{!PreOrder P}.
Hypothesis issued_keeps : ∀ A (s : stmt A), issued s → stmt_keeps P s.

Definition tx_keeps {A} (m : tx O A) : Prop := ∀ sv, P (sv_db sv) (sv_db (m sv).2).

(** Every step of a method, whatever came before it. *)
Fixpoint pg_keeps {A} (p : pg O A) : Prop :=
  match p with
  | Done _ => True
  | Step step k => (∀ sv, P (sv_db sv) (sv_db (step sv).2)) ∧ ∀ x, pg_keeps (k x)
  end.

Lemma pg_keeps_bind {A B} (p : pg O A) (k : A → pg O B) :
  pg_keeps p → (∀ a, pg_keeps (k a)) → pg_keeps (p ≫= k).
Proof.
  induction p as [a|X step k' IH]; [intros _ Hk; apply Hk|]. intros [Hs Hk'] Hk.
  split; [done|]. intros x. by apply IH.
Qed.

Lemma pg_keeps_try {A B} (p : pg O (go_result A)) (k : A → pg O (go_result B)) :
  pg_keeps p → (∀ a, pg_keeps (k a)) → pg_keeps (pg_try p k).
Proof. intros Hp Hk. apply pg_keeps_bind; [done|]. by intros [a|e]. Qed.

Lemma statement_keeps {A} (s : stmt A) (sv : Server O) : issued s → P (sv_db sv) (sv_db (Pg.statement s sv).2).
Proof.
  intros Hs%issued_keeps. unfold Pg.statement.
  destruct (sql_fault (sv_ops sv)) as [[message []]|], (s (sv_db sv)) as [[a d]|e] eqn:Hd; simpl;
    try reflexivity; by eapply Hs.
Qed.

Lemma tx_keeps_of {A} (r : go_result A) : tx_keeps (tx_of r).
Proof. intros sv. reflexivity. Qed.
Lemma tx_keeps_ret {A} (a : A) : tx_keeps (mret a : tx O A).
Proof. intros sv. reflexivity. Qed.
Lemma tx_keeps_fail {A} e : tx_keeps (tx_fail e : tx O A).
Proof. apply tx_keeps_of. Qed.

Lemma tx_keeps_bind {A B} (m : tx O A) (f : A → tx O B) :
  tx_keeps m → (∀ a, tx_keeps (f a)) → tx_keeps (m ≫= f).
Proof.
  intros Hm Hf sv. unfold mbind, tx_bind. specialize (Hm sv).
  destruct (m sv) as [[a|e] sv']; simpl in *; [|done]. etrans; [done|apply Hf].
Qed.

Lemma tx_keeps_exec_or {A} on_error (s : stmt A) : issued s → tx_keeps (Pg.tx_exec_or on_error s).
Proof.
  intros Hs sv. unfold Pg.tx_exec_or. pose proof (statement_keeps s sv Hs) as Hk.
  by destruct (Pg.statement s sv) as [[a|e] sv'].
Qed.
Lemma tx_keeps_exec {A} (s : stmt A) : issued s → tx_keeps (Pg.tx_exec s).
Proof. apply tx_keeps_exec_or. Qed.
Lemma tx_keeps_lock id : tx_keeps (Pg.lockAccountTx id).
Proof. apply tx_keeps_exec. auto with issued. Qed.
Lemma tx_keeps_load id : tx_keeps (Pg.loadEventsTx id).
Proof.
  apply tx_keeps_bind; [apply tx_keeps_exec; unfold select_events; auto with issued|].
  intros rows. apply tx_keeps_of.
Qed.
Lemma tx_keeps_insert e : tx_keeps (Pg.insertEventTx e).
Proof.
  unfold Pg.insertEventTx. destruct (Pg.marshal e); [apply tx_keeps_exec; auto with issued|].
  apply tx_keeps_fail.
Qed.

Lemma transaction_step_keeps {A} begin_ commit_ (body : tx O (tx_end A)) (sv : Server O) :
  tx_keeps body → P (sv_db sv) (sv_db (Pg.transaction_step begin_ commit_ body sv).2).
Proof.
  intros Hbody. unfold Pg.transaction_step.
  pose proof (statement_keeps (query (λ _, tt)) sv ltac:(auto with issued)) as H1.
  destruct (Pg.statement (query (λ _, tt)) sv) as [[u|e] sv1]; simpl in *; [|done].
  specialize (Hbody sv1). destruct (body sv1) as [[[a|a]|e] sv2]; simpl in *; try reflexivity.
  unfold Pg.statement, Pg.put_db, Pg.next. simpl.
  destruct (sql_fault (sv_ops sv2)) as [[message []]|]; simpl; try reflexivity; by etrans.
Qed.

Lemma pg_keeps_exec {A} (s : stmt A) : issued s → pg_keeps (Pg.exec s : pg O _).
Proof. intros Hs. split; [|done]. intros sv. by apply statement_keeps. Qed.
Lemma pg_keeps_exec_or {A} on_error (s : stmt A) :
  issued s → pg_keeps (Pg.exec_or on_error s : pg O _).
Proof. intros Hs. by apply pg_keeps_bind; [apply pg_keeps_exec|]. Qed.
Lemma pg_keeps_found {A} none on_error (s : stmt (option A)) :
  issued s → pg_keeps (Pg.found none on_error s : pg O _).
Proof. intros Hs. apply pg_keeps_try; [by apply pg_keeps_exec_or|]. by intros [a|]. Qed.
Lemma pg_keeps_transaction {A} begin_ commit_ (body : tx O (tx_end A)) :
  tx_keeps body → pg_keeps (Step (Pg.transaction_step begin_ commit_ body) Done).
Proof. intros Hb. split; [|done]. intros sv. by apply transaction_step_keeps. Qed.
Lemma pg_keeps_object {A} (f : O → A * O) : pg_keeps (Pg.object_call f).
Proof. split; [|done]. intros sv. by destruct (f (sv_objects sv)). Qed.

(** Goes through the text of a method. *)
Ltac keeps :=
  repeat first
    [ done
    | apply tx_keeps_lock | apply tx_keeps_load | apply tx_keeps_insert
    | apply tx_keeps_exec; solve [auto with issued]
    | apply tx_keeps_exec_or; solve [auto with issued]
    | apply tx_keeps_ret | apply tx_keeps_fail | apply tx_keeps_of
    | apply tx_keeps_bind; [|intros ?]
    | apply pg_keeps_transaction | apply pg_keeps_object
    | apply pg_keeps_exec; solve [auto with issued]
    | apply pg_keeps_exec_or; solve [auto with issued]
    | apply pg_keeps_found; solve [auto with issued]
    | apply pg_keeps_try; [|intros ?]
    | apply pg_keeps_bind; [|intros ?]
    | progress cbv zeta
    | case_goal ].

Lemma adjust_keeps r at_ : tx_keeps (Pg.adjust r at_).
Proof. unfold Pg.adjust, Pg.credit, Pg.debit. keeps. Qed.

Lemma already_approved_keeps r : tx_keeps (Pg.already_approved r).
Proof. unfold Pg.already_approved, other_approved. keeps. Qed.

Lemma locks_keep accounts :
  tx_keeps (foldr (λ account rest, _ ← Pg.lockAccountTx account; rest) (mret tt) accounts).
Proof. induction accounts as [|a accounts IH]; simpl; [apply tx_keeps_ret|]. by keeps. Qed.

Lemma execute_keeps record now : pg_keeps (Pg.ExecuteTransfer record now).
Proof.
  assert (∀ r e, pg_keeps (Pg.existing_transfer r e)) as Hex.
  { intros r e. unfold Pg.existing_transfer, Pg.findTransferByKey, select_transfer_by_key. keeps. }
  assert (∀ r created, tx_keeps (Pg.execute_tx r created now)) as Htx.
  { intros r created. unfold Pg.execute_tx, Pg.failTransferTx, select_transfer. keeps. }
  unfold Pg.ExecuteTransfer, Pg.FindTransfer, select_transfer. split.
  { intros sv. apply statement_keeps. auto with issued. }
  intros inserted. keeps.
Qed.

(** Every step of every method keeps what every statement keeps. *)
Lemma method_keeps {X} (op : storeE X) : pg_keeps (Pg.method objects op).
Proof.
  assert (∀ r e, pg_keeps (Pg.existing_transfer r e)) as Hex.
  { intros r e. unfold Pg.existing_transfer, Pg.findTransferByKey, select_transfer_by_key. keeps. }
  pose proof adjust_keeps as Hadj. pose proof already_approved_keeps as Happ.
  pose proof locks_keep as Hlocks.
  destruct op; cbn [Pg.method]; unfold Pg.Append, Pg.Load, Pg.ListAggregates, Pg.SaveSnapshot,
    Pg.LoadSnapshot, Pg.WithdrawAvailable, Pg.CreateTransfer, Pg.FindTransfer, Pg.ListDueTransfers,
    Pg.UpdateTransferSaga, Pg.ReserveTransferFunds, Pg.RecordComplianceDecision,
    Pg.PostTransferLedger, Pg.CaptureTransferReservation, Pg.ReleaseTransferReservation,
    Pg.finishTransferReservation, Pg.CreateCustomerApplication, Pg.insert_application,
    Pg.ListApplications, Pg.GetApplication, Pg.GetPassportImage, Pg.ApproveApplication,
    Pg.RejectApplication, Pg.CreateAdjustment, Pg.resolve_adjustment, Pg.ListAdjustments,
    Pg.GetAdjustment, Pg.ApproveAdjustment, Pg.approve_tx, Pg.RejectAdjustment, Pg.FindCustomerByEmail,
    Pg.FindAdminByEmail, Pg.UpsertAdmin, Pg.CreateSession, Pg.FindSession, Pg.DeleteSession,
    Pg.Load, Pg.FindTransfer, select_aggregates, select_events, select_snapshot, select_transfer,
    select_reservation, posting_exists, select_customers, select_customer, transfer_reversed,
    event_reversed, select_adjustments, select_adjustment, select_customer_by_email,
    select_admin_by_email, select_principal; keeps.
Qed.
End Keeps.

(** ** The constraints of the migrations *)

Definition exists_in {V} (t : gmap string V) (k : string) : Prop := is_Some (t !! k).
#[export] Instance exists_in_dec {V} (t : gmap string V) k : Decision (exists_in t k).
Proof. unfold exists_in. apply _. Defined.

(** A unique index: no two rows have the same key. *)
Definition indexed {V I} (index : V → option I) (t : gmap string V) : Prop :=
  ∀ k1 k2 v1 v2 i, t !! k1 = Some v1 → t !! k2 = Some v2 →
    index v1 = Some i → index v2 = Some i → k1 = k2.

Section Constraints.
Context `{Postgres}.

Definition email_index (r : CustomerRow) : option string :=
  Some (sql_lower (cus_Email (cr_customer r))).
Definition document_index (r : CustomerRow) : option (string * string * string) :=
  let d := cus_GovernmentDocument (cr_customer r) in Some (gd_Type d, gd_Number d, gd_IssuingCountry d).
Definition account_index (r : CustomerRow) : option string :=
  if bool_decide (cus_AccountID (cr_customer r) = "") then None
  else Some (cus_AccountID (cr_customer r)).
Definition admin_index (a : Admin) : option string := Some (sql_lower (adm_Email a)).
Definition key_index (r : TransferRecord) : option (string * string) :=
  Some (tr_SourceAccountID r, tr_IdempotencyKey r).

Record session_row_ok (customers : gmap string CustomerRow) (admins : gmap string Admin)
    (h : string) (s : Session) : Prop := {
  so_key : ses_TokenHash s = h;
  so_identity : ses_CustomerID s = "" ↔ ses_AdminID s ≠ "";
  so_customer : ses_CustomerID s ≠ "" → exists_in customers (ses_CustomerID s);
  so_admin : ses_AdminID s ≠ "" → exists_in admins (ses_AdminID s);
}.

Record adjustment_row_ok (admins : gmap string Admin) (k : string) (a : AdjustmentRequest) : Prop := {
  ao_key : adj_ID a = k;
  ao_type : adj_Type a ∈ ["manual"; "reversal"];
  ao_status : adj_Status a ∈ ["waiting_for_approval"; "approved"; "rejected"];
  ao_maker : exists_in admins (adj_CreatedBy a);
  ao_reviewer : adj_ReviewedBy a ≠ "" → exists_in admins (adj_ReviewedBy a);
}.

Record hold_row_ok (transfers : gmap string TransferRecord) (t : string) (h : memoryReservation) : Prop := {
  ho_amount : 0 < res_Amount h;
  ho_state : res_State h ∈ ["reserved"; "captured"; "released"];
  ho_transfer : exists_in transfers t;
}.

Record db_ok (d : Database) : Prop := {
  ok_snapshots : map_Forall (λ k s, snap_AggregateID s = k ∧ 0 ≤ snap_AsOfSequence s)
                   (db_account_snapshots d);
  ok_customers : map_Forall (λ k r, cus_ID (cr_customer r) = k ∧
                   (cus_ReviewedBy (cr_customer r) ≠ "" →
                    exists_in (db_admins d) (cus_ReviewedBy (cr_customer r)))) (db_customers d);
  ok_emails : indexed email_index (db_customers d);
  ok_documents : indexed document_index (db_customers d);
  ok_accounts : indexed account_index (db_customers d);
  ok_admins : map_Forall (λ k a, adm_ID a = k) (db_admins d);
  ok_admin_emails : indexed admin_index (db_admins d);
  ok_sessions : map_Forall (session_row_ok (db_customers d) (db_admins d)) (db_sessions d);
  ok_transfers : map_Forall (λ k r, tr_ID r = k ∧ tr_Status r ∈ transfer_statuses)
                   (db_transfers d);
  ok_keys : indexed key_index (db_transfers d);
  ok_adjustments : map_Forall (adjustment_row_ok (db_admins d)) (db_adjustment_requests d);
  ok_transfer_reversals : indexed transfer_reversal (db_adjustment_requests d);
  ok_event_reversals : indexed event_reversal (db_adjustment_requests d);
  ok_holds : map_Forall (hold_row_ok (db_transfers d)) (db_account_reservations d);
  ok_postings : map_Forall (λ t _, exists_in (db_transfers d) t) (db_ledger_postings d);
  ok_decisions : map_Forall (λ t x, exists_in (db_transfers d) t ∧ x ∈ ["approved"; "rejected"])
                   (db_compliance_decisions d);
}.
End Constraints.

(** ** What is never undone *)

(** The columns no statement updates. *)
Definition keeps_columns {V C} (columns : V → C) : relation V := λ v v', columns v' = columns v.
Definition transfer_columns (r : TransferRecord) :=
  (tr_ID r, tr_SourceAccountID r, tr_DestinationAccountID r, tr_IdempotencyKey r, tr_Amount r,
   tr_Fee r, tr_CreatedAt r).
Definition hold_columns (h : memoryReservation) := (res_AccountID h, res_Amount h).
Definition adjustment_columns (a : AdjustmentRequest) := settle a "" "" "" 0.
Definition customer_columns (r : CustomerRow) :=
  let c := reviewed (cr_customer r) "" "" "" "" 0 in (c, cr_object_key r).
Definition admin_columns (a : Admin) := (adm_ID a, adm_Email a).

Record db_evolves (d d' : Database) : Prop := {
  de_events : db_events d ⊆ db_events d';
  de_snapshots : map_evolves snapshot_step (db_account_snapshots d) (db_account_snapshots d');
  de_customers : map_evolves (keeps_columns customer_columns) (db_customers d) (db_customers d');
  de_admins : map_evolves (keeps_columns admin_columns) (db_admins d) (db_admins d');
  de_transfers : map_evolves (keeps_columns transfer_columns) (db_transfers d) (db_transfers d');
  de_adjustments : map_evolves (keeps_columns adjustment_columns)
                     (db_adjustment_requests d) (db_adjustment_requests d');
  de_holds : map_evolves (keeps_columns hold_columns)
               (db_account_reservations d) (db_account_reservations d');
  de_postings : db_ledger_postings d ⊆ db_ledger_postings d';
  de_decisions : db_compliance_decisions d ⊆ db_compliance_decisions d';
}.

#[export] Instance keeps_columns_preorder {V C} (columns : V → C) :
  PreOrder (keeps_columns columns).
Proof. split; [done|]. intros v1 v2 v3. unfold keeps_columns. congruence. Qed.

#[export] Instance db_evolves_preorder : PreOrder db_evolves.
Proof. split; [by split|]. intros d1 d2 d3 [] []. by split; etrans. Qed.

(** What a step does to the tables. *)
Definition db_step `{Postgres} (d d' : Database) : Prop := db_ok d → db_ok d' ∧ db_evolves d d'.

#[export] Instance db_step_preorder `{Postgres} : PreOrder db_step.
Proof.
  split; [by intros d|]. intros d1 d2 d3 H12 H23 H1. destruct (H12 H1) as [H2 He].
  destruct (H23 H2) as [H3 He']. split; [done|by etrans].
Qed.

(** ** Every statement keeps them *)

Section Indexes.
Context {V I : Type} (index : V → option I) (t : gmap string V).
Hypothesis Hok : indexed index t.

Lemma indexed_insert k v :
  (∀ k' v' i, k' ≠ k → t !! k' = Some v' → index v = Some i → index v' ≠ Some i) →
  indexed index (<[k := v]> t).
Proof.
  intros Hnew k1 k2 v1 v2 i. rewrite !lookup_insert_Some.
  intros [[<- <-]|[Hne1 H1]] [[<- <-]|[Hne2 H2]] Hi1 Hi2; [done|..|by eapply Hok];
    exfalso; eapply Hnew; eauto.
Qed.

Lemma indexed_update k v v' :
  t !! k = Some v → index v' = index v → indexed index (<[k := v']> t).
Proof.
  intros Hk Hv. apply indexed_insert. intros k' w i Hne Hk' Hi Hw. apply Hne.
  eapply (Hok k' k w v i); [done..|congruence].
Qed.
End Indexes.

Lemma exists_in_insert {V} (t : gmap string V) k k' v : exists_in t k → exists_in (<[k' := v]> t) k.
Proof. unfold exists_in. intros [w Hw]. destruct (decide (k' = k)) as [<-|Hne]; simplify_map_eq; eauto. Qed.

Lemma sql_exists_false {K V} `{Countable K} (p : V → bool) (t : gmap K V) :
  sql_exists p t = false ↔ ∀ k v, t !! k = Some v → p v = false.
Proof.
  unfold sql_exists. rewrite <-not_true_iff_false, existsb_exists. split.
  - intros Hn k v Hk. apply not_true_iff_false. intros Hp. apply Hn. exists (k, v).
    split; [|done]. by apply list_elem_of_In, elem_of_map_to_list.
  - intros Hp ([k v] & Hin%list_elem_of_In%elem_of_map_to_list & Hv). simpl in Hv.
    by rewrite (Hp _ _ Hin) in Hv.
Qed.

Lemma sql_exists_true {K V} `{Countable K} (p : V → bool) (t : gmap K V) :
  sql_exists p t = true ↔ ∃ k v, t !! k = Some v ∧ p v = true.
Proof.
  unfold sql_exists. rewrite existsb_exists. split.
  - intros ([k v] & Hin%list_elem_of_In%elem_of_map_to_list & Hv). by exists k, v.
  - intros (k & v & Hk & Hv). exists (k, v). split; [|done]. by apply list_elem_of_In, elem_of_map_to_list.
Qed.

(** Foreign keys of tables that grow. *)
Lemma session_row_grows customers admins customers' admins' h s :
  (∀ k, exists_in customers k → exists_in customers' k) →
  (∀ k, exists_in admins k → exists_in admins' k) →
  session_row_ok customers admins h s → session_row_ok customers' admins' h s.
Proof. intros Hc Ha []. split; eauto. Qed.
Lemma adjustment_row_grows admins admins' k a :
  (∀ k, exists_in admins k → exists_in admins' k) →
  adjustment_row_ok admins k a → adjustment_row_ok admins' k a.
Proof. intros Ha []. split; eauto. Qed.
Lemma hold_row_grows transfers transfers' t h :
  (∀ k, exists_in transfers k → exists_in transfers' k) →
  hold_row_ok transfers t h → hold_row_ok transfers' t h.
Proof. intros Ht []. split; eauto. Qed.

Section Statements.
Context `{Postgres}.

(** The statement succeeded: how, and what it wrote. *)
Ltac succeeded :=
  let x := fresh "x" in intros d x d'; unfold check, update_transfer; repeat (case_goal; try done); intros [= <- <-]; boolify.
(** The conditions on tables that are not touched, and foreign keys into tables
    that have grown. *)
Ltac untouched :=
  intros [Hsn Hcu Hem Hdo Hac Had Hae Hse Htr Hke Hadj Htr' Hev Hho Hpo Hde];
  split; [split; simpl; try done|split; simpl; try done; try reflexivity].

Lemma insert_event_keeps id seq t payload at_ :
  stmt_keeps db_step (insert_event id seq t payload at_).
Proof. unfold insert_event. succeeded. untouched. by apply insert_subseteq. Qed.

Lemma insert_event_once_keeps id seq t payload at_ :
  stmt_keeps db_step (insert_event_once id seq t payload at_).
Proof. unfold insert_event_once. succeeded; [done|]. untouched. by apply insert_subseteq. Qed.

Lemma upsert_snapshot_keeps snap : stmt_keeps db_step (upsert_snapshot snap).
Proof.
  unfold upsert_snapshot. succeeded; try done; apply Z.leb_le in Heqb; untouched.
  1,3: by apply map_Forall_insert_2.
  - apply map_evolves_insert; [apply _|]. intros v ?. simplify_eq. right. by apply Z.ltb_lt.
  - by apply map_evolves_fresh; [apply _|].
Qed.

Lemma customer_row_fields c image key row :
  customer_row c image key = Some row →
  cus_ID (cr_customer row) = cus_ID c ∧ cus_AccountID (cr_customer row) = "" ∧
  cus_ReviewedBy (cr_customer row) = "" ∧ cus_Email (cr_customer row) = cus_Email c.
Proof.
  unfold customer_row. destruct (bpchar2 _), (bpchar2 _), (bpchar2 _); simpl; try done.
  by intros [= <-].
Qed.

Lemma insert_customer_keeps c image key : stmt_keeps db_step (insert_customer c image key).
Proof.
  unfold insert_customer. succeeded. apply customer_row_fields in Heqo as (Hid & Hacc & Hrev & Hmail).
  rewrite sql_exists_false in Heqb0. untouched.
  - apply map_Forall_insert_2; [|done]. by rewrite Hid, Hrev.
  - apply indexed_insert; [done|]. intros k' v' i _ Hk'.
    apply Heqb0, orb_false_elim in Hk' as [Hlogin _]. unfold same_login, email_index in *.
    rewrite Hmail. boolify. congruence.
  - apply indexed_insert; [done|]. intros k' v' i _ Hk'.
    apply Heqb0, orb_false_elim in Hk' as [_ Hdoc]. intros [= <-] [= E1 E2 E3].
    unfold same_document in Hdoc. by rewrite E1, E2, E3, !bool_decide_eq_true_2 in Hdoc by done.
  - apply indexed_insert; [done|]. intros k' v' i _ Hk'. unfold account_index at 1. by rewrite Hacc.
  - eapply map_Forall_impl; [exact Hse|]. intros h s. apply session_row_grows; [|done].
    intros k. apply exists_in_insert.
  - apply map_evolves_fresh; [apply _|]. by apply eq_None_not_Some.
Qed.

(** A customer's review leaves its keys alone. *)
Lemma reviewed_keeps id r status acc adm reason at_ d :
  db_customers d !! id = Some r → exists_in (db_admins d) adm →
  (acc = cus_AccountID (cr_customer r) ∨
   sql_exists (λ r', bool_decide (cus_AccountID (cr_customer r') = acc) &&
                     negb (bool_decide (cus_ID (cr_customer r') = id))) (db_customers d) = false) →
  db_step d (with_customers
    (<[id := mkCustomerRow (reviewed (cr_customer r) status acc adm reason at_) (cr_object_key r)]>
       (db_customers d)) d).
Proof.
  intros Hr Hadm Hacc. untouched.
  - apply map_Forall_insert_2; [|done]. simpl. split; [|done]. by apply (Hcu _ _ Hr).
  - by eapply indexed_update.
  - by eapply indexed_update.
  - destruct Hacc as [-> |Hnone]; [by eapply indexed_update|]. rewrite sql_exists_false in Hnone.
    apply indexed_insert; [done|]. intros k' v' i Hne Hk'. unfold account_index. simpl.
    case_bool_decide as Hempty; [done|]. intros [= <-]. case_bool_decide; [done|]. intros [= Heq].
    specialize (Hnone _ _ Hk'). rewrite Heq, bool_decide_eq_true_2 in Hnone by done.
    apply negb_false_iff, bool_decide_eq_true_1 in Hnone. destruct (Hcu _ _ Hk') as [Hid _]. congruence.
  - eapply map_Forall_impl; [exact Hse|]. intros h s. apply session_row_grows; [|done].
    intros k. apply exists_in_insert.
  - apply map_evolves_insert; [apply _|]. intros v ?. by simplify_eq.
Qed.

Lemma approve_customer_keeps id acc adm at_ : stmt_keeps db_step (approve_customer id acc adm at_).
Proof.
  unfold approve_customer. succeeded; [|done]. apply reviewed_keeps; [done| |by right].
  unfold refers in *. by boolify.
Qed.

Lemma reject_customer_keeps id adm reason at_ : stmt_keeps db_step (reject_customer id adm reason at_).
Proof.
  unfold reject_customer. succeeded; [done| |done]. apply reviewed_keeps; [done| |by left].
  unfold refers in *. by boolify.
Qed.

Lemma sql_first_Some {V} (p : V → bool) (t : gmap string V) v :
  sql_first p t = Some v → ∃ k, t !! k = Some v ∧ p v = true.
Proof.
  unfold sql_first. destruct (@range_find sql_order V p t) as [[k w]|] eqn:Hf; [|done].
  apply range_find_Some in Hf. intros [= <-]. by exists k.
Qed.
Lemma sql_first_None {V} (p : V → bool) (t : gmap string V) :
  sql_first p t = None ↔ ∀ k v, t !! k = Some v → p v = false.
Proof.
  unfold sql_first. rewrite <-(@range_find_None sql_order). by destruct (@range_find sql_order V p t).
Qed.

Lemma upsert_admin_keeps a : stmt_keeps db_step (upsert_admin a).
Proof.
  unfold upsert_admin. succeeded.
  - apply sql_first_Some in Heqo as (k & Hk & _). untouched.
    all: assert (adm_ID a0 = k) as -> by by apply (Had _ _ Hk).
    + eapply map_Forall_impl; [exact Hcu|]. intros k' r [? ?]. split; [done|].
      intros ?. apply exists_in_insert. auto.
    + by apply map_Forall_insert_2.
    + by eapply indexed_update.
    + eapply map_Forall_impl; [exact Hse|]. intros h s. apply session_row_grows; [done|].
      intros ?. apply exists_in_insert.
    + eapply map_Forall_impl; [exact Hadj|]. intros h s. apply adjustment_row_grows.
      intros ?. apply exists_in_insert.
    + apply map_evolves_insert; [apply _|]. intros v ?. simplify_eq. unfold keeps_columns, admin_columns.
      simpl. f_equal. by rewrite (Had _ _ Hk).
  - rewrite sql_first_None in Heqo. untouched.
    + eapply map_Forall_impl; [exact Hcu|]. intros k' r [? ?]. split; [done|].
      intros ?. apply exists_in_insert. auto.
    + by apply map_Forall_insert_2.
    + apply indexed_insert; [done|]. intros k' v' i _ Hk'%Heqo. unfold same_admin, admin_index in *.
      boolify. congruence.
    + eapply map_Forall_impl; [exact Hse|]. intros h s. apply session_row_grows; [done|].
      intros ?. apply exists_in_insert.
    + eapply map_Forall_impl; [exact Hadj|]. intros h s. apply adjustment_row_grows.
      intros ?. apply exists_in_insert.
    + apply map_evolves_fresh; [apply _|]. by apply eq_None_not_Some.
Qed.

Lemma insert_session_keeps s : stmt_keeps db_step (insert_session s).
Proof.
  intros d x d'. unfold insert_session, refers.
  destruct (bool_decide (ses_CustomerID s = "")) eqn:Ec, (bool_decide (ses_AdminID s = "")) eqn:Ea;
    simpl; try done; repeat (case_bool_decide; simpl; try done); intros [= <- <-]; boolify; untouched.
  all: apply map_Forall_insert_2; [split; simpl; naive_solver|done].
Qed.

Lemma delete_session_keeps h : stmt_keeps db_step (delete_session h).
Proof. unfold delete_session. succeeded. untouched. by apply map_Forall_delete. Qed.

(** A transfer that is inserted, or updated in other columns than its own. *)
Lemma transfers_keep d id r :
  tr_ID r = id → tr_Status r ∈ transfer_statuses →
  (∀ k v, k ≠ id → db_transfers d !! k = Some v → key_index v ≠ key_index r) →
  (∀ v, db_transfers d !! id = Some v → transfer_columns r = transfer_columns v) →
  db_step d (with_transfers (<[id := r]> (db_transfers d)) d).
Proof.
  intros Hid Hst Hkey Hcol. untouched.
  - by apply map_Forall_insert_2.
  - apply indexed_insert; [done|]. intros k v i Hne Hk Hi Hv. apply (Hkey k v Hne Hk). congruence.
  - eapply map_Forall_impl; [exact Hho|]. intros t h. apply hold_row_grows. intros ?. apply exists_in_insert.
  - eapply map_Forall_impl; [exact Hpo|]. intros t ?. apply exists_in_insert.
  - eapply map_Forall_impl; [exact Hde|]. intros t ? [? ?]. split; [by apply exists_in_insert|done].
  - by apply map_evolves_insert; [apply _|].
Qed.

Lemma insert_transfer_keeps r : stmt_keeps db_step (insert_transfer r).
Proof.
  unfold insert_transfer. succeeded. rewrite sql_exists_false in Heqb1. apply transfers_keep; try done.
  - intros k v _ Hk%Heqb1. unfold has_key, key_index in *. intros [= E1 E2].
    by rewrite E1, E2, !bool_decide_eq_true_2 in Hk.
  - intros v Hv. rewrite Hv in Heqb0. by destruct Heqb0.
Qed.

Lemma update_transfer_keeps id p set :
  (∀ r, transfer_columns (set r) = transfer_columns r) → stmt_keeps db_step (update_transfer id p set).
Proof.
  intros Hset. succeeded; try done. intros Hok.
  assert (key_index (set t) = key_index t) as Hkey by (injection (Hset t); unfold key_index; congruence).
  apply transfers_keep; try done.
  - injection (Hset t). intros. by destruct (ok_transfers _ Hok _ _ Heqo); congruence.
  - intros k v Hne Hk Hi. apply Hne. rewrite Hkey in Hi. by eapply (ok_keys _ Hok).
  - intros v ?. by simplify_eq.
Qed.

Lemma update_saga_keeps id u at_ : stmt_keeps db_step (update_saga id u at_).
Proof.
  unfold update_saga, check. intros d x d'. case_goal; [|done]. by apply update_transfer_keeps.
Qed.
Lemma complete_transfer_keeps id initial final now :
  stmt_keeps db_step (complete_transfer id initial final now).
Proof. by apply update_transfer_keeps. Qed.
Lemma fail_transfer_keeps id code initial now :
  stmt_keeps db_step (fail_transfer id code initial now).
Proof. by apply update_transfer_keeps. Qed.

Lemma insert_reservation_keeps t acc amount : stmt_keeps db_step (insert_reservation t acc amount).
Proof.
  unfold insert_reservation, refers. succeeded. untouched.
  - apply map_Forall_insert_2; [|done]. split; [by apply Z.ltb_lt|by left|done].
  - apply map_evolves_fresh; [apply _|]. by apply eq_None_not_Some.
Qed.

Lemma update_reservation_keeps t state : stmt_keeps db_step (update_reservation t state).
Proof.
  unfold update_reservation. succeeded; [|done]. untouched.
  - apply map_Forall_insert_2; [|done]. by destruct (Hho _ _ Heqo).
  - apply map_evolves_insert; [apply _|]. intros v ?. by simplify_eq.
Qed.

Lemma upsert_decision_keeps t decision : stmt_keeps db_step (upsert_decision t decision).
Proof.
  unfold upsert_decision, refers. succeeded; try done; untouched.
  - apply map_Forall_insert_2; [|done]. by destruct (Hde _ _ Heqo).
  - by rewrite insert_id by congruence.
  - by apply map_Forall_insert_2.
  - by apply insert_subseteq.
Qed.

Lemma insert_posting_keeps t : stmt_keeps db_step (insert_posting t).
Proof.
  unfold insert_posting, refers. succeeded. untouched.
  - by apply map_Forall_insert_2.
  - apply insert_subseteq. by apply eq_None_not_Some.
Qed.

Lemma index_taken_false {I} `{EqDecision I} (index : AdjustmentRequest → option I) a t k v i :
  index_taken index a t = false → t !! k = Some v → adj_ID v ≠ adj_ID a →
  index a = Some i → index v ≠ Some i.
Proof.
  unfold index_taken. intros Hn Hk Hne Hi. rewrite Hi, sql_exists_false in Hn.
  specialize (Hn _ _ Hk). rewrite bool_decide_eq_false_2 in Hn by done. by apply bool_decide_eq_false_1 in Hn.
Qed.

Lemma write_adjustment_keeps a d d' x :
  (∀ v, db_adjustment_requests d !! adj_ID a = Some v → adjustment_columns a = adjustment_columns v) →
  write_adjustment a d = Ok (x, d') → db_step d d'.
Proof.
  intros Hcol. unfold write_adjustment. destruct (checked_adjustment a d) as [|] eqn:Hc; [done|].
  intros [= <- <-]. unfold checked_adjustment, refers in Hc. repeat (case_hyp Hc; try done).
  boolify. intros Hok. assert (adjustment_row_ok (db_admins d) (adj_ID a) a).
  { split; try done. intros Hne. apply andb_false_iff in Heqb4 as [?|?]; boolify; done. }
  revert Hok. untouched.
  - by apply map_Forall_insert_2.
  - apply indexed_insert; [done|]. intros k v i Hne Hk Hi. eapply index_taken_false; [done..| |done].
    by rewrite (ao_key _ _ _ (Hadj _ _ Hk)).
  - apply indexed_insert; [done|]. intros k v i Hne Hk Hi. eapply index_taken_false; [done..| |done].
    by rewrite (ao_key _ _ _ (Hadj _ _ Hk)).
  - by apply map_evolves_insert; [apply _|].
Qed.

Lemma insert_adjustment_keeps r : stmt_keeps db_step (insert_adjustment r).
Proof.
  intros d x d'. unfold insert_adjustment. case_bool_decide as Hnew; [done|].
  apply write_adjustment_keeps. intros v Hv. destruct Hnew. by exists v.
Qed.

Lemma settle_adjustment_keeps id status adm reason at_ :
  stmt_keeps db_step (settle_adjustment id status adm reason at_).
Proof.
  intros d x d'. unfold settle_adjustment.
  destruct (db_adjustment_requests d !! id) as [r|] eqn:Hr; [|by intros [= <- <-]].
  case_match; [|done]. intros Hw Hok. eapply write_adjustment_keeps; [|done..]. simpl.
  rewrite (ao_key _ _ _ (ok_adjustments _ Hok _ _ Hr)). intros v ?. by simplify_eq.
Qed.

Lemma issued_keeps_db {A} (s : stmt A) : issued s → stmt_keeps db_step s.
Proof.
  destruct 1; eauto using insert_event_keeps, insert_event_once_keeps, upsert_snapshot_keeps,
    insert_customer_keeps, approve_customer_keeps, reject_customer_keeps, upsert_admin_keeps,
    insert_session_keeps, delete_session_keeps, insert_transfer_keeps, update_saga_keeps,
    complete_transfer_keeps, fail_transfer_keeps, insert_reservation_keeps,
    update_reservation_keeps, upsert_decision_keeps, insert_posting_keeps,
    insert_adjustment_keeps, settle_adjustment_keeps.
  - by intros d a d' [= <- <-].
  - intros d x d'. unfold select_due, check. by case_match; [intros [= <- <-]|].
Qed.
End Statements.
