(* ===== verification/PostgresSample.v ===== *)
(** * A concrete PostgreSQL, an object store, and tables: what the witnesses of the
    PostgreSQL store evaluate. *)
From S2P Require Export Constraints Sample.

(** ** The database *)

Lemma whole_micros k : 1000 * k - (1000 * k) `mod` 1000 = 1000 * k.
Proof. rewrite (Z.mul_comm 1000 k), Z_mod_mult. lia. Qed.

(** CHAR(2), padded on the right. *)
Definition pad2 (s : string) : option string :=
  match String.length s with
  | 0%nat => Some "  "
  | 1%nat => Some (s +:+ " ")
  | 2%nat => Some s
  | _ => None
  end.

Lemma json_object_kept (kvs : list (string * json)) :
  NoDup kvs.*1 → Forall (λ kv, kept_by_jsonb kv.2) kvs →
  ∃ kvs', JObject kvs = JObject kvs' ∧ kvs ≡ₚ kvs'.
Proof. by exists kvs. Qed.

(** A database that fails where [faults] says. *)
Definition sample_postgres (faults : nat → option (string * bool)) : Postgres := {|
  sql_fault := faults;
  sql_error_text := λ e, match e with
                         | UniqueViolation c | OtherViolation c => "ERROR: violates " +:+ c
                         | Failure message => message
                         end;
  sql_now := λ _, 0;
  timestamptz := λ t, t - t `mod` 1000;
  timestamptz_micro := whole_micros;
  jsonb := λ j, j;
  jsonb_object := json_object_kept;
  bpchar2 := pad2;
  bpchar2_two := λ a b _ _, eq_refl;
  sql_lower := map_string ascii_lower;
  sql_less := String.ltb;
  sql_order := reference_runtime;
|}.
Definition reliable : Postgres := sample_postgres (λ _, None).

Definition sample_errors : JsonErrors := {|
  marshal_error := λ _, "json: unsupported value";
  unmarshal_error := λ _, "json: cannot unmarshal";
  quoted := λ s, s;
|}.

(** ** The object store: a map from keys to contents *)

Definition sample_objects : PassportObjectStore (gmap string (list ascii)) := {|
  Put := λ key b _ o, (Ok tt, <[key := b]> o);
  Get := λ key o, match o !! key with Some b => Ok b | None => Err (OtherError "no such key") end;
  PostgresStore.Delete := λ key o, (Ok tt, delete key o);
|}.

(** ** Tables *)

Lemma empty_ok `{Postgres} : db_ok empty_database.
Proof. split; try apply map_Forall_empty; by intros ?. Qed.

(** A server with empty tables. *)
Definition empty_server : Server (gmap string (list ascii)) := mkServer empty_database ∅ 0.
