(* ===== verification/Concurrent.v ===== *)
(** * Clients of the PostgreSQL store that interleave, statement by statement.

    A client calls methods one after the other; a run lets any client take the
    next step of its method, and any operation may fail or lose its answer.  The
    database keeps its constraints through every such run, and what its unique
    indexes promise reaches the callers. *)
From S2P Require Export PostgresSample.

Section Clients.
Context {O : Type} `{Postgres} `{JsonErrors} (objects : option (PassportObjectStore O)).

Inductive client {A} : pg O A → Prop :=
| client_done a : client (Done a)
| client_call {X} (op : storeE X) k : (∀ x, client (k x)) → client (Pg.method objects op ≫= k)
| client_execute record now k :
    (∀ x, client (k x)) → client (Pg.ExecuteTransfer record now ≫= k).

(** One step of one client. *)
Inductive pg_step {A} : Server O * list (pg O A) → Server O * list (pg O A) → Prop :=
| pg_stepped sv ps i X (step : Server O → X * Server O) k :
    ps !! i = Some (Step step k) → pg_step (sv, ps) ((step sv).2, <[i := k (step sv).1]> ps).

(** Runs the clients: [schedule] names the client of each step. *)
Fixpoint run_clients {A} (schedule : list nat) (c : Server O * list (pg O A))
    : Server O * list (pg O A) :=
  match schedule with
  | [] => c
  | i :: schedule' =>
      match c.2 !! i with
      | Some (Step step k) =>
          let '(x, sv) := step c.1 in run_clients schedule' (sv, <[i := k x]> c.2)
      | _ => run_clients schedule' c
      end
  end.

Lemma run_clients_steps {A} schedule (c : Server O * list (pg O A)) :
  rtc pg_step c (run_clients schedule c).
Proof.
  revert c. induction schedule as [|i schedule IH]; intros [sv ps]; simpl; [done|].
  destruct (ps !! i) as [[a|X step k]|] eqn:Hi; try apply IH.
  pose proof (pg_stepped sv ps i X step k Hi) as Hstep. destruct (step sv) as [x sv'].
  eapply rtc_l; [exact Hstep|apply IH].
Qed.

(** [pg_safe Q p d]: from the tables [d], whatever the others do, every step of
    [p] keeps the constraints and undoes nothing, and its answer satisfies [Q]. *)
Fixpoint pg_safe {A} (Q : A → Database → Prop) (p : pg O A) (d : Database) : Prop :=
  match p with
  | Done a => ∀ d', db_ok d' → db_evolves d d' → Q a d'
  | Step step k => ∀ sv, db_ok (sv_db sv) → db_evolves d (sv_db sv) →
      db_ok (sv_db (step sv).2) ∧ db_evolves (sv_db sv) (sv_db (step sv).2) ∧
      pg_safe Q (k (step sv).1) (sv_db (step sv).2)
  end.

Lemma pg_safe_evolves {A} (Q : A → Database → Prop) p d d' :
  db_evolves d d' → pg_safe Q p d → pg_safe Q p d'.
Proof. intros Hd. destruct p as [a|X step k]; simpl; intros Hp; intros; apply Hp; try done; by etrans. Qed.

Lemma keeps_safe {A} (p : pg O A) d : pg_keeps db_step p → pg_safe (λ _ _, True) p d.
Proof.
  revert d. induction p as [a|X step k IH]; intros d; simpl; [done|]. intros [Hs Hk] sv Hok _.
  destruct (Hs sv Hok). auto.
Qed.

Lemma client_safe {A} (p : pg O A) d : client p → pg_safe (λ _ _, True) p d.
Proof.
  intros Hp. apply keeps_safe. induction Hp as [a|X op k _ IH|record now k _ IH]; [done|..].
  - apply pg_keeps_bind; [|done]. apply method_keeps; [apply _|]. intros B s. apply issued_keeps_db.
  - apply pg_keeps_bind; [|done]. apply execute_keeps; [apply _|]. intros B s. apply issued_keeps_db.
Qed.

Lemma pg_safe_mono {A} (Q Q' : A → Database → Prop) p d :
  (∀ a d', Q a d' → Q' a d') → pg_safe Q p d → pg_safe Q' p d.
Proof.
  intros HQ. revert d. induction p as [a|X step k IH]; intros d; simpl; [eauto|].
  intros Hp sv Hok Hd. destruct (Hp sv Hok Hd) as (? & ? & ?). auto.
Qed.

(** Every client [i] of a pool is safe for its own [Q i]. *)
Definition clients_safe {A} (Q : nat → A → Database → Prop) (ps : list (pg O A)) (d : Database) : Prop :=
  ∀ i p, ps !! i = Some p → pg_safe (Q i) p d.

Lemma clients_safe_steps {A} (Q : nat → A → Database → Prop) c c' :
  rtc pg_step c c' → db_ok (sv_db c.1) → clients_safe Q c.2 (sv_db c.1) →
  db_ok (sv_db c'.1) ∧ db_evolves (sv_db c.1) (sv_db c'.1) ∧ clients_safe Q c'.2 (sv_db c'.1).
Proof.
  induction 1 as [c|c1 c2 c3 Hstep _ IH]; intros Hok Hps; [done|].
  destruct Hstep as [sv ps i X step k Hi]. simpl in *.
  destruct (Hps i _ Hi sv Hok (reflexivity _)) as (Hok' & He & Hk).
  destruct IH as (? & ? & ?); [done|..|by split_and!; [|etrans|]].
  intros j p Hj. destruct (decide (i = j)) as [<-|Hne].
  - rewrite list_lookup_insert_eq in Hj by by eapply lookup_lt_Some. by simplify_eq.
  - rewrite list_lookup_insert_ne in Hj by done. eapply pg_safe_evolves; [done|by apply Hps].
Qed.

(** ** The constraints *)

(** C7: In every run of clients of the PostgreSQL store that interleave statement by
    statement, whatever fails and whatever they ask for, the tables keep the
    constraints of the migrations (keys, references, unique email addresses,
    documents, accounts, idempotency keys and open reversals), no event, posting or
    decision is ever changed, and rows keep the columns no statement updates. *)
Theorem runs_keep_constraints {A} (c c' : Server O * list (pg O A)) :
  Forall client c.2 → db_ok (sv_db c.1) → rtc pg_step c c' →
  db_ok (sv_db c'.1) ∧ db_evolves (sv_db c.1) (sv_db c'.1).
Proof.
  intros Hps Hok Hrun. destruct (clients_safe_steps (λ _ _ _, True) c c') as (? & ? & _); try done.
  intros i p Hi. apply client_safe. by eapply Forall_lookup.
Qed.

(** ** Idempotency keys *)

(** The row of the transfer [t] is the one of the request [r]. *)
Definition transfer_stored (r t : TransferRecord) (d : Database) : Prop :=
  ∃ row, db_transfers d !! tr_ID t = Some row ∧ tr_SourceAccountID row = tr_SourceAccountID r ∧
    tr_IdempotencyKey row = tr_IdempotencyKey r ∧ tr_Amount row = tr_Amount r ∧
    tr_DestinationAccountID row = tr_DestinationAccountID r.

Lemma transfer_stored_columns r t d d' row row' :
  db_transfers d !! tr_ID t = Some row → db_transfers d' !! tr_ID t = Some row' →
  transfer_columns row' = transfer_columns row → transfer_stored r t d → transfer_stored r t d'.
Proof.
  intros Hr Hr' Hc (row0 & Hrow & Hs & Hk & Ha & Hd). simplify_eq.
  exists row'. split_and!; congruence.
Qed.

Lemma transfer_stored_evolves r t d d' :
  db_evolves d d' → transfer_stored r t d → transfer_stored r t d'.
Proof.
  intros Hd Hs. pose proof Hs as (row & Hrow & _).
  destruct (de_transfers _ _ Hd _ _ Hrow) as (row' & Hrow' & Hcol).
  by apply (transfer_stored_columns r t d d' row row').
Qed.

(** What a statement answers. *)
Lemma statement_cases {A} (s : stmt A) (sv : Server O) :
  (∃ message, (Pg.statement s sv).1 = Err (Failure message)) ∨
  match s (sv_db sv) with
  | Ok (a, d) => (Pg.statement s sv).1 = Ok a ∧ sv_db (Pg.statement s sv).2 = d
  | Err e => (Pg.statement s sv).1 = Err e ∧ sv_db (Pg.statement s sv).2 = sv_db sv
  end.
Proof.
  unfold Pg.statement. destruct (sql_fault (sv_ops sv)) as [[message []]|];
    destruct (s (sv_db sv)) as [[a d]|e]; simpl; eauto.
Qed.

Lemma step_keeps {A} (s : stmt A) (sv : Server O) :
  issued s → db_ok (sv_db sv) →
  db_ok (sv_db (Pg.statement s sv).2) ∧ db_evolves (sv_db sv) (sv_db (Pg.statement s sv).2).
Proof. intros Hs. by apply statement_keeps; [apply _|intros B s'; apply issued_keeps_db|]. Qed.

Definition answer_stored (r : TransferRecord) (a : go_result (TransferRecord * bool)) (d : Database) : Prop :=
  match a with Ok (t, _) => transfer_stored r t d | Err _ => True end.

Lemma existing_transfer_stored r e d :
  pg_safe (answer_stored r)
    (let! existing := Pg.existing_transfer r e in pg_ok (existing, false)) d.
Proof.
  destruct e as [c|c|message]; [|done..].
  intros sv Hok _.
  assert (issued (select_transfer_by_key (tr_SourceAccountID r) (tr_IdempotencyKey r))) as Hs
    by (unfold select_transfer_by_key; auto with issued).
  destruct (step_keeps _ sv Hs Hok) as [Hok' He]. split_and!; [done..|].
  destruct (statement_cases (select_transfer_by_key (tr_SourceAccountID r) (tr_IdempotencyKey r)) sv)
    as [[message ->]|[-> Hd]]; [done|].
  destruct (sql_first _ _) as [t|] eqn:Hf; [|done]. apply sql_first_Some in Hf as (k & Hk & Hkey).
  simpl. case_match eqn:Hsame; [done|]. intros d' _ Hd'. eapply transfer_stored_evolves; [done|].
  rewrite Hd. unfold has_key in Hkey. boolify. exists t. split_and!; try done.
  by destruct (ok_transfers _ Hok _ _ Hk) as [-> _].
Qed.

Lemma created_row_stored r d : pg_safe (answer_stored r) (Pg.CreateTransfer r) d.
Proof.
  intros sv Hok _. pose proof (step_keeps (insert_transfer (saga_row r)) sv ltac:(auto with issued) Hok)
    as [Hok' He].
  split_and!; [done..|].
  destruct (statement_cases (insert_transfer (saga_row r)) sv) as [[message ->]|Hs].
  { by apply existing_transfer_stored. }
  destruct (insert_transfer (saga_row r) (sv_db sv)) as [[u d']|e] eqn:Hins; destruct Hs as [-> Hd].
  - intros d'' _ Hd'. eapply transfer_stored_evolves; [done|]. rewrite Hd.
    exists (saga_row r). unfold insert_transfer, check in Hins.
    repeat (case_hyp Hins; try done). injection Hins as [= <- <-]. simpl. by simplify_map_eq.
  - apply existing_transfer_stored.
Qed.

(** C11: Any number of clients create transfers at once, next to clients that do
    anything else, and their statements interleave and fail in any way.  Whenever two
    requests with the same source account and idempotency key have both been answered,
    they name the same amount and destination, and the answers are the same transfer. *)
Theorem concurrent_creates_agree (rs : list TransferRecord) others
    (c : Server O * list (pg O (go_result (TransferRecord * bool)))) sv i j r1 r2 t1 t2 b1 b2 :
  db_ok (sv_db sv) → Forall client others →
  rtc pg_step (sv, (Pg.CreateTransfer <$> rs) ++ others) c →
  rs !! i = Some r1 → rs !! j = Some r2 →
  tr_SourceAccountID r1 = tr_SourceAccountID r2 → tr_IdempotencyKey r1 = tr_IdempotencyKey r2 →
  c.2 !! i = Some (Done (Ok (t1, b1))) → c.2 !! j = Some (Done (Ok (t2, b2))) →
  tr_ID t1 = tr_ID t2 ∧ tr_Amount r1 = tr_Amount r2 ∧
  tr_DestinationAccountID r1 = tr_DestinationAccountID r2.
Proof.
  intros Hok Hothers Hrun Hi Hj Hsrc Hkey Hi' Hj'.
  set (Q k a d := ∀ r, rs !! k = Some r → answer_stored r a d).
  destruct (clients_safe_steps Q _ _ Hrun) as (Hok' & _ & Hsafe); [done| |].
  { intros k p Hk. simpl in Hk. apply lookup_app_Some in Hk as [Hk|[Hlen Hk]].
    - rewrite list_lookup_fmap in Hk. apply fmap_Some in Hk as (r & Hr & ->).
      eapply pg_safe_mono; [|apply created_row_stored]. intros a d Ha r' ?. simplify_eq. done.
    - eapply pg_safe_mono; [|apply client_safe; by eapply Forall_lookup].
      intros a d _ r Hr. apply lookup_lt_Some in Hr. rewrite length_fmap in Hlen. lia. }
  assert (∀ k t b r, rs !! k = Some r → c.2 !! k = Some (Done (Ok (t, b))) →
    transfer_stored r t (sv_db c.1)) as Hst.
  { intros k t b r Hr Hk. by apply (Hsafe k _ Hk (sv_db c.1)). }
  destruct (Hst _ _ _ _ Hi Hi') as (row1 & Hrow1 & Hs1 & Hk1 & Ha1 & Hd1).
  destruct (Hst _ _ _ _ Hj Hj') as (row2 & Hrow2 & Hs2 & Hk2 & Ha2 & Hd2).
  assert (tr_ID t1 = tr_ID t2) as Heq.
  { eapply (ok_keys _ Hok' _ _ _ _ _ Hrow1 Hrow2 (reflexivity _)). unfold key_index. congruence. }
  rewrite Heq in Hrow1. simplify_eq. split_and!; congruence.
Qed.
End Clients.

(** ** Witnesses *)

#[local] Existing Instance reliable.
#[local] Existing Instance sample_errors.

(** Two requests with one key: the statements of both interleave. *)
Definition keyed_transfer (id : string) : TransferRecord :=
  mkTransferRecord id "acc1" "acc2" "key-1" 1000 50 TransferPending "" 0 0 0 0 SagaCreated "" 0 0 "".
Definition rival_creates : Server (gmap string (list ascii)) * list (pg (gmap string (list ascii)) (go_result (TransferRecord * bool))) :=
  (empty_server, (Pg.CreateTransfer <$> [keyed_transfer "trf_1"; keyed_transfer "trf_2"]) ++
                 [Pg.ExecuteTransfer (keyed_transfer "trf_3") 0 ≫= Done]).

Lemma rival_others :
  Forall (client (Some sample_objects)) [Pg.ExecuteTransfer (keyed_transfer "trf_3") 0 ≫= Done].
Proof. apply Forall_singleton, client_execute. intros x. apply client_done. Qed.

Lemma concurrent_creates_agree_witness :
  let c := run_clients [1; 0; 2; 0]%nat rival_creates in
  ∃ t1 t2, c.2 !! 0%nat = Some (Done (Ok (t1, false))) ∧ c.2 !! 1%nat = Some (Done (Ok (t2, true))) ∧
    tr_ID t1 = tr_ID t2.
Proof.
  intros c. exists (keyed_transfer "trf_2"), (keyed_transfer "trf_2"). refine (conj _ (conj _ _)); [by vm_compute..|].
  apply (concurrent_creates_agree (Some sample_objects) [keyed_transfer "trf_1"; keyed_transfer "trf_2"]
    [Pg.ExecuteTransfer (keyed_transfer "trf_3") 0 ≫= Done] c empty_server 0 1
    (keyed_transfer "trf_1") (keyed_transfer "trf_2") (keyed_transfer "trf_2") (keyed_transfer "trf_2")
    false true).
  - apply empty_ok.
  - apply rival_others.
  - apply (run_clients_steps [1; 0; 2; 0]%nat rival_creates).
  - reflexivity.
  - reflexivity.
  - reflexivity.
  - reflexivity.
  - by vm_compute.
  - by vm_compute.
Defined.

(** The same requests next to an admin's call. *)
Definition mixed_clients : Server (gmap string (list ascii)) * list (pg (gmap string (list ascii)) (go_result (TransferRecord * bool))) :=
  (empty_server,
   [Pg.method (Some sample_objects) (cCreateTransfer (keyed_transfer "trf_1")) ≫= Done;
    Pg.method (Some sample_objects) (cCreateTransfer (keyed_transfer "trf_2")) ≫= Done;
    Pg.method (Some sample_objects) (cUpsertAdmin (mkAdmin "adm_1" "ada@example.com" "hash")) ≫=
      (λ _, Pg.ExecuteTransfer (keyed_transfer "trf_3") 0 ≫= Done)]).

Lemma runs_keep_constraints_witness :
  let c := run_clients [2; 0; 1; 2; 1; 2; 2]%nat mixed_clients in
  size (db_transfers (sv_db c.1)) = 1%nat ∧ db_ok (sv_db c.1).
Proof.
  intros c. split; [by vm_compute|].
  refine (proj1 (runs_keep_constraints (Some sample_objects) mixed_clients c _ _ _)).
  - repeat constructor.
  - apply empty_ok.
  - apply run_clients_steps.
Defined.
