(* ===== verification/Faults.v ===== *)
(** * Failures of the database: a method of the PostgreSQL store takes effect as a
    whole or not at all.

    [without_faults] is the same database without failures of its own.  A method
    that answers without an error has done what it does there; one that answers with
    an error has changed nothing, or has done all of it and lost the answer. *)
From S2P Require Export Constraints.

Definition without_faults (P : Postgres) : Postgres := {|
  sql_fault := λ _, None;
  sql_error_text := @sql_error_text P;
  sql_now := @sql_now P;
  timestamptz := @timestamptz P;
  timestamptz_micro := @timestamptz_micro P;
  jsonb := @jsonb P;
  jsonb_object := @jsonb_object P;
  bpchar2 := @bpchar2 P;
  bpchar2_two := @bpchar2_two P;
  sql_lower := @sql_lower P;
  sql_less := @sql_less P;
  sql_order := @sql_order P;
|}.

(** Whether a call was answered without an error. *)
Definition answered {X} (op : storeE X) : X → bool :=
  match op in storeE X return X → bool with
  | cAppend _ _ | cSaveSnapshot _ | cRecordComplianceDecision _ _ _
  | cCaptureTransferReservation _ _ | cReleaseTransferReservation _ _
  | cCreateCustomerApplication _ | cApproveApplication _ _ _ _ | cRejectApplication _ _ _ _
  | cApproveAdjustment _ _ _ | cRejectAdjustment _ _ _ _ | cUpsertAdmin _ | cCreateSession _
  | cDeleteSession _ => is_Ok
  | cLoad _ => is_Ok | cListAggregates => is_Ok | cLoadSnapshot _ => is_Ok
  | cWithdrawAvailable _ _ _ => is_Ok | cCreateTransfer _ => is_Ok | cFindTransfer _ => is_Ok
  | cListDueTransfers _ _ => is_Ok | cUpdateTransferSaga _ _ _ => is_Ok
  | cReserveTransferFunds _ _ | cPostTransferLedger _ _ => is_Ok
  | cListApplications _ => is_Ok | cGetApplication _ => is_Ok | cGetPassportImage _ => is_Ok
  | cCreateAdjustment _ | cGetAdjustment _ => is_Ok | cListAdjustments _ => is_Ok
  | cFindCustomerByEmail _ => is_Ok | cFindAdminByEmail _ => is_Ok | cFindSession _ _ => is_Ok
  end.

Section Faults.
Context {O : Type} (P : Postgres) `{JsonErrors} (objects : option (PassportObjectStore O)).
#[local] Abbreviation P' := (without_faults P).
#[local] Existing Instance P.

(** ** Bodies of transactions *)

(** The body fails, or does what it does without failures. *)
Definition tx_good {A} (m m' : tx O A) : Prop := ∀ sv, (∃ e, (m sv).1 = Err e) ∨ m sv = m' sv.

Lemma tx_good_refl {A} (m : tx O A) : tx_good m m.
Proof. intros sv. by right. Qed.

Lemma tx_good_bind {A B} (m m' : tx O A) (f f' : A → tx O B) :
  tx_good m m' → (∀ a, tx_good (f a) (f' a)) → tx_good (m ≫= f) (m' ≫= f').
Proof.
  intros Hm Hf sv. unfold mbind, tx_bind. destruct (Hm sv) as [[e He]|He].
  - left. destruct (m sv) as [[a|e'] sv']; [done|]. by exists e'.
  - rewrite <-He. destruct (m sv) as [[a|e] sv']; [apply Hf|by right].
Qed.

Lemma tx_good_exec_or {A} on_error (s : stmt A) :
  tx_good (@Pg.tx_exec_or O P A on_error s) (@Pg.tx_exec_or O P' A on_error s).
Proof.
  intros sv. unfold Pg.tx_exec_or, Pg.statement. simpl.
  destruct (sql_fault (sv_ops sv)) as [[message []]|]; [..|by right];
    left; destruct (s (sv_db sv)) as [[a d]|e]; by eexists.
Qed.

Lemma tx_good_load id : tx_good (@Pg.loadEventsTx O P _ id) (@Pg.loadEventsTx O P' _ id).
Proof. apply tx_good_bind; [apply tx_good_exec_or|]. intros rows. apply tx_good_refl. Qed.

Lemma tx_good_insert e : tx_good (@Pg.insertEventTx O P _ e) (@Pg.insertEventTx O P' _ e).
Proof. unfold Pg.insertEventTx. destruct (Pg.marshal e); [apply tx_good_exec_or|apply tx_good_refl]. Qed.

(** ** Methods *)

Definition good {A} (p q : pg O (go_result A)) (sv : Server O) : Prop :=
  (is_Ok (run p sv).1 = true → run p sv = run q sv) ∧
  (sv_db (run p sv).2 = sv_db sv ∨ sv_db (run p sv).2 = sv_db (run q sv).2).

Lemma good_done {A} (a : go_result A) sv : good (Done a) (Done a) sv.
Proof. split; [done|by left]. Qed.

(** A run of two programs one after the other. *)
Lemma run_try {A B} (p : pg O (go_result A)) (k : A → pg O (go_result B)) sv :
  run (pg_try p k) sv =
  match run p sv with (Ok a, sv') => run (k a) sv' | (Err e, sv') => (Err e, sv') end.
Proof.
  unfold pg_try. revert sv. induction p as [r|X step k' IH]; intros sv; simpl; [by destruct r|].
  destruct (step sv) as [x sv']. apply IH.
Qed.

(** A first part that leaves the tables alone. *)
Definition read_only {A} (p : pg O (go_result A)) : Prop := ∀ sv, sv_db (run p sv).2 = sv_db sv.

Lemma good_try_read {A B} (p q : pg O (go_result A)) (k k' : A → pg O (go_result B)) sv :
  read_only p → (∀ sv, is_Ok (run p sv).1 = true → run p sv = run q sv) →
  (∀ a sv', good (k a) (k' a) sv') → good (pg_try p k) (pg_try q k') sv.
Proof.
  intros Hp Hq Hk. unfold good. rewrite !run_try. specialize (Hp sv). specialize (Hq sv).
  destruct (run p sv) as [[a|e] sv']; simpl in *; [|split; [done|by left]].
  rewrite <-Hq by done. rewrite <-Hp. apply Hk.
Qed.

(** A last part that leaves them alone, and fails only if the first did something
    that is not undone. *)
Lemma good_try_done {A B} (p q : pg O (go_result A)) (k k' : A → pg O (go_result B)) sv :
  good p q sv → (∀ a, ∃ r, k a = Done r ∧ k' a = Done r) → good (pg_try p k) (pg_try q k') sv.
Proof.
  intros [Hok Hdb] Hk. unfold good. rewrite !run_try.
  destruct (run p sv) as [[a|e] sv'] eqn:Hp; simpl in *.
  - rewrite <-Hok by done. destruct (Hk a) as (r & -> & ->). simpl. auto.
  - split; [done|]. destruct Hdb as [Hdb|Hdb]; [by left|]. right. rewrite Hdb.
    destruct (run q sv) as [[a|e'] sv'']; [|done]. by destruct (Hk a) as (r & _ & ->).
Qed.

Lemma good_exec_or {A} on_error (s : stmt A) sv :
  good (@Pg.exec_or O P A on_error s) (@Pg.exec_or O P' A on_error s) sv.
Proof.
  unfold good, Pg.exec_or, Pg.exec. simpl. unfold Pg.statement. simpl.
  destruct (sql_fault (sv_ops sv)) as [[message []]|]; simpl;
    destruct (s (sv_db sv)) as [[a d]|e]; simpl; split; try done; auto.
Qed.

Definition selects {A} (s : stmt A) : Prop := ∀ d a d', s d = Ok (a, d') → d' = d.
Lemma query_selects {A} (f : Database → A) : selects (query f).
Proof. by intros d a d' [= _ <-]. Qed.

Lemma exec_or_read_only {A} on_error (s : stmt A) :
  selects s → read_only (@Pg.exec_or O P A on_error s).
Proof.
  intros Hs sv. unfold Pg.exec_or, Pg.exec. simpl. unfold Pg.statement.
  destruct (sql_fault (sv_ops sv)) as [[message []]|], (s (sv_db sv)) as [[a d]|e] eqn:Hd; simpl;
    try done; by eapply Hs.
Qed.

Lemma good_try_query {A B} on_error (s : stmt A) (k k' : A → pg O (go_result B)) sv :
  selects s → (∀ a sv', good (k a) (k' a) sv') →
  good (pg_try (@Pg.exec_or O P A on_error s) k) (pg_try (@Pg.exec_or O P' A on_error s) k') sv.
Proof.
  intros Hs. apply good_try_read; [by apply exec_or_read_only|]. intros sv'. apply good_exec_or.
Qed.

Lemma found_read_only {A} none on_error (s : stmt (option A)) :
  selects s → read_only (@Pg.found O P A none on_error s).
Proof.
  intros Hs sv. unfold Pg.found. rewrite run_try. pose proof (exec_or_read_only on_error s Hs sv) as Hdb.
  by destruct (run _ sv) as [[[a|]|e] sv'].
Qed.

Lemma good_found {A} none on_error (s : stmt (option A)) sv :
  good (@Pg.found O P A none on_error s) (@Pg.found O P' A none on_error s) sv.
Proof. apply good_try_done; [apply good_exec_or|]. intros [a|]; by eexists. Qed.

Lemma good_try_found {A B} none on_error (s : stmt (option A)) (k k' : A → pg O (go_result B)) sv :
  selects s → (∀ a sv', good (k a) (k' a) sv') →
  good (pg_try (@Pg.found O P A none on_error s) k) (pg_try (@Pg.found O P' A none on_error s) k') sv.
Proof.
  intros Hs. apply good_try_read; [by apply found_read_only|]. intros sv'. apply good_found.
Qed.

Lemma good_try_object {A B} (f : O → go_result A * O) (k k' : A → pg O (go_result B)) sv :
  (∀ a sv', good (k a) (k' a) sv') → good (pg_try (Pg.object_call f) k) (pg_try (Pg.object_call f) k') sv.
Proof.
  apply good_try_read; [|done]. intros sv'. simpl. by destruct (f (sv_objects sv')).
Qed.

(** A transaction. *)
Lemma good_transaction {A} begin_ commit_ (m m' : tx O (tx_end A)) sv :
  tx_good m m' →
  good (Step (@Pg.transaction_step O P A begin_ commit_ m) Done)
       (Step (@Pg.transaction_step O P' A begin_ commit_ m') Done) sv.
Proof.
  intros Hm. unfold good. simpl. unfold Pg.transaction_step, Pg.statement. simpl.
  destruct (sql_fault (sv_ops sv)) as [[message []]|]; simpl; [split; [done|by left]..|].
  destruct (Hm (Pg.put_db (sv_db sv) (Pg.next sv))) as [[e He]|He].
  - destruct (m _) as [[?|e'] sv']; [done|]. simpl. split; [done|by left].
  - rewrite <-He. destruct (m _) as [[[a|a]|e] sv']; simpl; [|split; [done|by left]..].
    destruct (sql_fault (sv_ops sv')) as [[message []]|]; simpl; split; try done; auto.
Qed.

(** Goes through the text of a method. *)
Ltac good_tx :=
  repeat first
    [ apply tx_good_load | apply tx_good_insert
    | apply tx_good_refl
    | apply tx_good_exec_or
    | apply tx_good_bind; [|intros ?]
    | progress cbv zeta
    | case_goal ].

Lemma adjust_good r at_ : tx_good (@Pg.adjust O P _ r at_) (@Pg.adjust O P' _ r at_).
Proof. unfold Pg.adjust, Pg.credit, Pg.debit. good_tx. Qed.

Lemma already_approved_good r : tx_good (@Pg.already_approved O P r) (@Pg.already_approved O P' r).
Proof. unfold Pg.already_approved. good_tx. Qed.

Lemma locks_good accounts :
  tx_good (foldr (λ account rest, _ ← @Pg.lockAccountTx O P account; rest) (mret tt) accounts)
          (foldr (λ account rest, _ ← @Pg.lockAccountTx O P' account; rest) (mret tt) accounts).
Proof.
  induction accounts as [|a accounts IH]; simpl; [apply tx_good_refl|].
  apply tx_good_bind; [apply tx_good_exec_or|by intros]. 
Qed.

Lemma insert_application_good c image key sv :
  good (@Pg.insert_application O P c image key) (@Pg.insert_application O P' c image key) sv.
Proof. apply good_transaction. good_tx. Qed.

(** A clean-up outside the database after an error. *)
Lemma good_cleanup {B} (p q : pg O (go_result unit)) (f : O → B * O) sv :
  good p q sv →
  good (r ← p; match r with Ok _ => pg_ok tt | Err e => _ ← Pg.object_call f; pg_fail e end)
       (r ← q; match r with Ok _ => pg_ok tt | Err e => _ ← Pg.object_call f; pg_fail e end) sv.
Proof.
  intros [Hok Hdb]. unfold good. rewrite !run_bind. destruct (run p sv) as [[u|e] sv1]; simpl in *.
  { rewrite <-Hok by done. simpl. auto. }
  destruct (f (sv_objects sv1)) as [x o]. simpl. split; [done|].
  destruct Hdb as [Hdb|Hdb]; [by left|right]. rewrite Hdb.
  destruct (run q sv) as [[u|e'] sv2]; simpl; [done|]. by destruct (f (sv_objects sv2)).
Qed.

Lemma CreateCustomerApplication_good c sv :
  good (@Pg.CreateCustomerApplication O P objects c) (@Pg.CreateCustomerApplication O P' objects c) sv.
Proof.
  unfold Pg.CreateCustomerApplication. destruct objects as [objects'|]; [|apply insert_application_good].
  cbv zeta. apply good_try_object. intros _ sv'. apply good_cleanup, insert_application_good.
Qed.

(** A write that tells how many rows it changed: none, or it is the last. *)
Lemma good_try_affected {B} on_error (s : stmt Z) (k k' : Z → pg O (go_result B)) sv :
  (∀ d d', s d = Ok (0, d') → d' = d) →
  (∀ sv', good (k 0) (k' 0) sv') → (∀ n, n ≠ 0 → ∃ r, k n = Done r ∧ k' n = Done r) →
  (∀ sv', sv_db (run (k' 0) sv').2 = sv_db sv') →
  good (pg_try (@Pg.exec_or O P Z on_error s) k) (pg_try (@Pg.exec_or O P' Z on_error s) k') sv.
Proof.
  intros Hs H0 Hk Hro. unfold good. rewrite !run_try. unfold Pg.exec_or, Pg.exec. simpl.
  unfold Pg.statement. simpl. destruct (s (sv_db sv)) as [[n d]|e] eqn:Hd.
  - destruct (decide (n = 0)) as [->|Hn].
    + apply Hs in Hd as ->.
      destruct (sql_fault (sv_ops sv)) as [[message []]|]; simpl; [split; [done|by left]..|apply (H0 (Pg.put_db (sv_db sv) (Pg.next sv)))].
    + destruct (Hk n Hn) as (r & Hr & Hr').
      destruct (sql_fault (sv_ops sv)) as [[message []]|]; simpl; rewrite ?Hr, Hr'; simpl;
        split; try done; auto.
  - destruct (sql_fault (sv_ops sv)) as [[message []]|]; simpl; split; try done; by left.
Qed.

Lemma RejectApplication_good id adm reason at_ sv :
  good (@Pg.RejectApplication O P id adm reason at_) (@Pg.RejectApplication O P' id adm reason at_) sv.
Proof.
  apply good_try_affected.
  - intros d d'. unfold reject_customer. repeat (case_goal; try done); by intros [= <-].
  - intros sv'. simpl. apply good_try_query; [apply query_selects|]. intros x sv''. apply good_done.
  - intros n Hn. exists (Ok tt). by rewrite (proj2 (Z.eqb_neq n 0) Hn).
  - intros sv'. simpl. unfold Pg.statement. simpl. done.
Qed.

Lemma existing_transfer_good r e sv :
  good (@Pg.existing_transfer O P r e) (@Pg.existing_transfer O P' r e) sv.
Proof.
  destruct e; try apply good_done. apply good_try_found; [apply query_selects|].
  intros a sv'. case_match; apply good_done.
Qed.

Lemma CreateTransfer_good r sv : good (@Pg.CreateTransfer O P r) (@Pg.CreateTransfer O P' r) sv.
Proof.
  unfold Pg.CreateTransfer, Pg.exec. simpl. set (s := insert_transfer (saga_row r)).
  assert (∀ c sv', good (let! existing := @Pg.existing_transfer O P r c in pg_ok (existing, false))
                        (let! existing := @Pg.existing_transfer O P' r c in pg_ok (existing, false)) sv') as Hex.
  { intros c sv'. apply good_try_done; [apply existing_transfer_good|]. by eexists. }
  unfold good. simpl. unfold Pg.statement. simpl.
  destruct (sql_fault (sv_ops sv)) as [[message lost]|].
  - destruct lost, (s (sv_db sv)) as [[u d]|e]; simpl; split; try done; auto.
  - destruct (s (sv_db sv)) as [[u d]|e]; [split; [done|by right]|]. apply (Hex e (Pg.next sv)).
Qed.

Lemma read_only_done {A} (r : go_result A) : read_only (Done r).
Proof. by intros sv. Qed.
Lemma read_only_bind {A B} (p : pg O (go_result A)) (k : go_result A → pg O (go_result B)) :
  read_only p → (∀ r, read_only (k r)) → read_only (p ≫= k).
Proof.
  intros Hp Hk sv. rewrite run_bind. specialize (Hp sv). destruct (run p sv) as [r sv'].
  rewrite <-Hp. apply Hk.
Qed.
Lemma read_only_try {A B} (p : pg O (go_result A)) (k : A → pg O (go_result B)) :
  read_only p → (∀ a, read_only (k a)) → read_only (pg_try p k).
Proof. intros Hp Hk. apply read_only_bind; [done|]. intros [a|e]; [apply Hk|apply read_only_done]. Qed.

Lemma Load_read_only id : read_only (@Pg.Load O P _ id).
Proof.
  apply read_only_try; [apply exec_or_read_only, query_selects|]. intros rows. apply read_only_done.
Qed.
Lemma Load_good id sv : good (@Pg.Load O P _ id) (@Pg.Load O P' _ id) sv.
Proof. apply good_try_query; [apply query_selects|]. intros; apply good_done. Qed.
Lemma good_try_load {B} id (k k' : list Event → pg O (go_result B)) sv :
  (∀ events sv', good (k events) (k' events) sv') →
  good (pg_try (@Pg.Load O P _ id) k) (pg_try (@Pg.Load O P' _ id) k') sv.
Proof. apply good_try_read; [apply Load_read_only|]. intros sv'. apply Load_good. Qed.

(** A read whose error the method replaces by one of its own. *)
Lemma good_bind_read {A B} (p q : pg O (go_result A)) (k k' : go_result A → pg O (go_result B)) sv :
  read_only p → (∀ sv, good p q sv) → (∀ e, ∃ e', k (Err e) = Done (Err e')) →
  (∀ a sv', good (k (Ok a)) (k' (Ok a)) sv') → good (p ≫= k) (q ≫= k') sv.
Proof.
  intros Hp Hq He Hk. unfold good. rewrite !run_bind. specialize (Hp sv). destruct (Hq sv) as [Hok _].
  destruct (run p sv) as [[a|e] sv']; simpl in *.
  - rewrite <-Hok by done. rewrite <-Hp. apply Hk.
  - destruct (He e) as (e' & ->). split; [done|by left].
Qed.

Lemma resolve_adjustment_good r sv :
  good (@Pg.resolve_adjustment O P _ r) (@Pg.resolve_adjustment O P' _ r) sv.
Proof.
  unfold Pg.resolve_adjustment. destruct (bool_decide _).
  { apply good_try_load. intros events sv'. case_match; apply good_done. }
  destruct (negb _).
  - unfold Pg.FindTransfer. apply good_bind_read.
    + apply found_read_only, query_selects.
    + intros sv'. apply good_found.
    + intros e. by eexists.
    + intros t sv'. case_match; [apply good_done|]. apply good_try_query; [apply query_selects|].
      intros x sv''. case_match; apply good_done.
  - apply good_try_load. intros events sv'. repeat (case_match; try apply good_done);
      (apply good_try_query; [apply query_selects|]; intros x sv''; repeat case_match; apply good_done).
Qed.

Lemma resolve_adjustment_read_only r : read_only (@Pg.resolve_adjustment O P _ r).
Proof.
  unfold Pg.resolve_adjustment, Pg.FindTransfer. repeat first
    [ apply read_only_done | apply Load_read_only
    | apply found_read_only, query_selects | apply exec_or_read_only, query_selects
    | apply read_only_try; [|intros ?] | apply read_only_bind; [|intros ?] | case_match ].
Qed.

Lemma CreateAdjustment_good r sv : good (@Pg.CreateAdjustment O P _ r) (@Pg.CreateAdjustment O P' _ r) sv.
Proof.
  apply good_try_read; [apply resolve_adjustment_read_only|intros sv'; apply resolve_adjustment_good|].
  intros r' sv'. apply good_try_done; [apply good_exec_or|]. by eexists.
Qed.

(** The two runs of a call. *)
Definition good_call {X} (op : storeE X) (sv : Server O) : Prop :=
  let p := run (@Pg.method O P _ objects X op) sv in
  let q := run (@Pg.method O P' _ objects X op) sv in
  (answered op p.1 = true → p = q) ∧ (sv_db p.2 = sv_db sv ∨ sv_db p.2 = sv_db q.2).

Lemma due_selects now limit : selects (select_due now limit).
Proof. intros d x d'. unfold select_due, check. case_match; [|done]. by intros [= _ <-]. Qed.

Lemma methods_good {X} (op : storeE X) sv : good_call op sv.
Proof.
  pose proof adjust_good as Hadj. pose proof already_approved_good as Happ.
  pose proof locks_good as Hlocks.
  destruct op; unfold good_call; cbn [answered Pg.method];
    match goal with
    | |- (_ → run ?p ?sv = run ?q ?sv) ∧ _ => change (good p q sv)
    end;
    first [apply CreateCustomerApplication_good | apply RejectApplication_good
          |apply CreateTransfer_good | apply CreateAdjustment_good | apply Load_good
          |apply good_exec_or | apply good_found | idtac].
  all: unfold Pg.Append, Pg.WithdrawAvailable, Pg.UpdateTransferSaga, Pg.ReserveTransferFunds,
    Pg.RecordComplianceDecision, Pg.PostTransferLedger, Pg.CaptureTransferReservation,
    Pg.ReleaseTransferReservation, Pg.finishTransferReservation, Pg.ListApplications,
    Pg.GetApplication, Pg.GetPassportImage, Pg.ApproveApplication, Pg.ApproveAdjustment, Pg.approve_tx,
    Pg.RejectAdjustment, Pg.FindCustomerByEmail, Pg.transaction.
  all: try (apply good_transaction; good_tx; first [apply Hadj|apply Happ|apply Hlocks]).
  all: try (apply good_try_done; [first [apply good_exec_or|apply good_found]|]; intros; eauto; fail).
  - destruct (Pg.marshal event); [|apply good_done].
    apply good_try_done; [apply good_exec_or|]. intros n. case_match; by eexists.
  - apply good_try_done; [apply good_exec_or|]. intros n. case_match; by eexists.
  - apply good_try_found; [apply query_selects|]. intros row sv'. case_match; [apply good_done|].
    destruct objects; [|apply good_done]. apply good_try_object. intros; apply good_done.
Qed.

End Faults.
