(* ===== verification/Represents.v ===== *)
(** * How the tables of the PostgreSQL store represent the in-memory store.

    [represents m d o]: the tables [d] and the objects [o] hold what the store [m]
    holds.  Under it, and without failures of the database, a load returns the
    stream, and an insert of the next event is an append.  [evals] and [runs] say
    what bodies of transactions and methods do. *)
From S2P Require Export Constraints.

Definition micro (t : Time) : Prop := ∃ k, t = 1000 * k.

Lemma micro_kept `{Postgres} t : micro t → timestamptz t = t.
Proof. intros [k ->]. apply timestamptz_micro. Qed.

(** A row holds an event: its payload is the event's, in some order. *)
Definition row_of (ev : Event) (row : EventRow) : Prop :=
  er_event_type row = EventType ev ∧
  ∃ kvs, er_payload row = JObject kvs ∧ event_fields ev ≡ₚ kvs.

Definition without_image (c : Customer) : Customer :=
  mkCustomer (cus_ID c) (cus_AccountID c) (cus_LegalFirstName c) (cus_LegalLastName c)
    (cus_DateOfBirth c) (cus_Nationality c) (cus_Email c) (cus_Phone c) (cus_PasswordHash c)
    (cus_ResidentialAddress c) (cus_GovernmentDocument c) [] (cus_PassportImageMIME c)
    (cus_KYCStatus c) (cus_RequestedDeposit c) (cus_ReviewedBy c) (cus_ReviewedAt c)
    (cus_RejectionReason c) (cus_CreatedAt c).

Section Represents.
Context {O : Type} `{Postgres} `{JsonErrors} (objects : option (PassportObjectStore O)).

Definition passport_key (id : string) : string := "passports/" +:+ id.

(** The image is in the row, or in the object store. *)
Definition customer_of (o : O) (c : Customer) (row : CustomerRow) : Prop :=
  (cr_object_key row = "" ∧ cr_customer row = c) ∨
  (cr_object_key row = passport_key (cus_ID c) ∧ cr_customer row = without_image c ∧
   match objects with
   | Some objects' => Get objects' (passport_key (cus_ID c)) o = Ok (cus_PassportImage c)
   | None => False
   end).

Record represents (m : MemoryStore) (d : Database) (o : O) : Prop := {
  rp_events : ∀ id n, option_Forall2 row_of (stream m id !! n) (db_events d !! (id, Z.of_nat n));
  rp_sequence : ∀ id i row, db_events d !! (id, i) = Some row → 0 ≤ i;
  rp_stored : ∀ id n ev, stream m id !! n = Some ev → storable ev ∧ AggregateID ev = id;
  rp_snapshots : db_account_snapshots d = ms_snapshots m;
  rp_customers : ∀ id, option_Forall2 (customer_of o) (ms_customers m !! id) (db_customers d !! id);
  rp_admins : db_admins d = ms_admins m;
  rp_sessions : db_sessions d = ms_sessions m;
  rp_transfers : db_transfers d = ms_transfers m;
  rp_adjustments : db_adjustment_requests d = ms_adjustments m;
  rp_reservations : db_account_reservations d = ms_reservations m;
  rp_postings : ∀ t, default false (ms_ledgerPostings m !! t) = true ↔
                     is_Some (db_ledger_postings d !! t);
  rp_decisions : db_compliance_decisions d = ms_complianceDecisions m;
  rp_lower : map_Forall (λ _ c, sql_lower (cus_Email c) = cus_Email c) (ms_customers m) ∧
             map_Forall (λ _ a, sql_lower (adm_Email a) = adm_Email a) (ms_admins m);
}.

(** ** Events *)

Lemma plain_string s : kept_by_jsonb (JString s).
Proof. left. by eexists. Qed.
Lemma plain_int n : 0 ≤ n ≤ MaxInt64 → kept_by_jsonb (enc_int n).
Proof. intros Hn. right. left. by exists n. Qed.
Lemma plain_money n : int64_ok n → n ≠ MinInt64 → kept_by_jsonb (enc_money n).
Proof. intros Hn Hne. right. right. exists n. by rewrite enc_money_number. Qed.
Lemma plain_time t : 0 ≤ Year t ≤ 9999 → kept_by_jsonb (enc_time t).
Proof.
  intros [H1%Z.leb_le H2%Z.leb_le]. unfold enc_time, time_text. rewrite H1, H2. apply plain_string.
Qed.
Lemma plain_omitted name s : Forall (λ kv, kept_by_jsonb kv.2) (omit_string name s).
Proof. unfold omit_string. case_bool_decide; [done|]. apply Forall_singleton, plain_string. Qed.

Lemma event_fields_plain ev : storable ev → Forall (λ kv, kept_by_jsonb kv.2) (event_fields ev).
Proof.
  intros [_ Hv Ha Hs Hy].
  destruct ev as [[]|[]|[]|[]|[]|[]]; simpl in *;
    repeat (apply Forall_cons; split; simpl;
      [first [apply plain_string|by apply plain_int|by apply plain_money|by apply plain_time]|]);
    repeat (apply Forall_app; split); try apply plain_omitted; done.
Qed.

Lemma event_fields_keys ev : NoDup (event_fields ev).*1.
Proof.
  destruct ev as [[]|[]|[]|[]|[]|[]]; cbn [event_fields];
    try (apply (bool_decide_unpack _); by vm_compute);
    (eapply sublist_NoDup; [|apply movement_fields_keys]; apply (bool_decide_unpack _); by vm_compute).
Qed.

Lemma jsonb_event ev : storable ev → ∃ kvs, jsonb (enc_event ev) = JObject kvs ∧ event_fields ev ≡ₚ kvs.
Proof. intros Hev. apply jsonb_object; [apply event_fields_keys|by apply event_fields_plain]. Qed.

Lemma decode_rows_spec id events rows :
  Forall (λ ev, storable ev ∧ AggregateID ev = id) events → Forall2 row_of events rows →
  Pg.decode_rows id rows = Ok events.
Proof.
  intros Hst Hrows. revert Hst.
  induction Hrows as [|ev row events rows (Htype & kvs & Hp & Hperm) _ IH]; intros Hst; [done|].
  apply Forall_cons in Hst as [[Hev Hid] Hst]. unfold Pg.decode_rows in *. cbn [mapM].
  rewrite Htype, Hp, <-Hid. rewrite decode_payload by done. simpl. rewrite Hid, IH by done. done.
Qed.

(** The rows of an account, with their keys, in the order of the stream. *)
Definition no_row : EventRow := mkEventRow "" JNull 0.
Definition keyed_rows (d : Database) (id : string) (k : nat) (events : list Event)
    : list (string * Z * EventRow) :=
  imap (λ n _, ((id, Z.of_nat (k + n)), default no_row (db_events d !! (id, Z.of_nat (k + n))))) events.

Lemma keyed_rows_sorted d id k events :
  StronglySorted (λ x y, x.1.2 < y.1.2) (keyed_rows d id k events).
Proof.
  revert k. induction events as [|ev events IH]; intros k; unfold keyed_rows; [constructor|].
  rewrite imap_cons. constructor.
  - specialize (IH (S k)). unfold keyed_rows in IH. erewrite imap_ext; [exact IH|].
    intros n x _. simpl. by rewrite Nat.add_succ_r.
  - apply Forall_forall. intros x (n & ev' & -> & _)%elem_of_lookup_imap. simpl. lia.
Qed.

Lemma keyed_rows_perm m d o id :
  represents m d o →
  keyed_rows d id 0 (stream m id) ≡ₚ filter (λ r, r.1.1 = id) (map_to_list (db_events d)).
Proof.
  intros Hrep. apply NoDup_Permutation.
  - pose proof (keyed_rows_sorted d id 0 (stream m id)) as Hs.
    induction Hs as [|x l _ IH Hx]; constructor; [|done]. intros Hin.
    rewrite Forall_forall in Hx. specialize (Hx _ Hin). lia.
  - apply NoDup_filter, NoDup_map_to_list.
  - intros [[id' i] row]. rewrite list_elem_of_filter, elem_of_map_to_list. simpl. split.
    + intros (n & ev & Heq & Hev)%elem_of_lookup_imap. simpl in Heq. injection Heq as -> -> ->.
      split; [done|].
      pose proof (rp_events _ _ _ Hrep id n) as Hr. rewrite Hev in Hr. inversion Hr as [? ? ? Hx Hy|].
      done.
    + intros [-> Hrow]. pose proof (rp_sequence _ _ _ Hrep _ _ _ Hrow) as Hi.
      revert Hrow. rewrite <-(Z2Nat.id i Hi). generalize (Z.to_nat i) as n. intros n Hrow.
      pose proof (rp_events _ _ _ Hrep id n) as Hr. rewrite Hrow in Hr.
      inversion Hr as [ev ? ? Hev|]. apply elem_of_lookup_imap. exists n, ev. simpl. by rewrite Hrow.
Qed.

Lemma select_events_spec m d o id :
  represents m d o → ∃ rows, select_events id d = Ok (rows, d) ∧ Forall2 row_of (stream m id) rows.
Proof.
  intros Hrep. eexists. split; [done|]. unfold order_by.
  set (less := λ r1 r2 : string * Z * EventRow, r1.1.2 <? r2.1.2).
  set (l := filter _ _).
  assert (@sort_slice sql_order _ less l = keyed_rows d id 0 (stream m id)) as ->.
  { apply (StronglySorted_unique_strong (λ x y, less y x = false)).
    - intros [[id1 i1] r1] [[id2 i2] r2] H1 H2 H12%Z.ltb_ge H21%Z.ltb_ge. simpl in *.
      rewrite sort_slice_perm in H1. rewrite (keyed_rows_perm m d o) in H2 by done. unfold l in *.
      rewrite list_elem_of_filter, elem_of_map_to_list in H1, H2. simpl in *.
      destruct H1 as [-> H1], H2 as [-> H2]. assert (i1 = i2) as -> by lia. congruence.
    - apply sort_slice_sorted, (weak_order_ltb (λ r : string * Z * EventRow, r.1.2)).
    - eapply StronglySorted_implies; [|apply keyed_rows_sorted]. intros x y Hxy. apply Z.ltb_ge. simpl in *. lia.
    - rewrite sort_slice_perm. symmetry. by apply (keyed_rows_perm m d o). }
  unfold keyed_rows. rewrite fmap_imap. apply Forall2_same_length_lookup. rewrite length_imap. split; [done|].
  intros n ev row Hev. rewrite list_lookup_imap, Hev. intros [= <-]. simpl.
  pose proof (rp_events _ _ _ Hrep id n) as Hr. rewrite Hev in Hr. by inversion Hr.
Qed.

Lemma load_spec m d o id :
  represents m d o → ∃ rows, select_events id d = Ok (rows, d) ∧ Pg.decode_rows id rows = Ok (stream m id).
Proof.
  intros Hrep. destruct (select_events_spec m d o id Hrep) as (rows & Hsel & Hrows). exists rows.
  split; [done|]. apply decode_rows_spec; [|done]. apply Forall_lookup. intros n ev.
  apply (rp_stored _ _ _ Hrep).
Qed.

(** Inserting the next event is an append. *)
Lemma represents_append m d o id ev row :
  represents m d o → storable ev → AggregateID ev = id → row_of ev row →
  represents (put_stream id (stream m id ++ [ev]) m)
    (with_events (<[(id, seq_of (stream m id)) := row]> (db_events d)) d) o.
Proof.
  intros Hrep Hst Hid Hrow. pose proof Hrep as [He Hs Hsto].
  assert (∀ id', stream (put_stream id (stream m id ++ [ev]) m) id' =
    if decide (id' = id) then stream m id ++ [ev] else stream m id') as Hstream.
  { intros id'. unfold stream at 1, put_stream. simpl. case_decide; simplify_map_eq; done. }
  split; try apply Hrep; simpl.
  - intros id' n. rewrite Hstream. case_decide as Hid'; [subst id'|].
    + unfold seq_of. destruct (decide (n = length (stream m id))) as [->|Hn].
      * rewrite list_lookup_middle by done. rewrite lookup_insert_eq. by constructor.
      * rewrite lookup_insert_ne by (intros [= ?]; lia). specialize (He id n).
        destruct (decide (n < length (stream m id))%nat); [by rewrite lookup_app_l|].
        rewrite lookup_ge_None_2 in He by lia. rewrite lookup_ge_None_2; [done|]. rewrite length_app. simpl. lia.
    + rewrite lookup_insert_ne by congruence. apply He.
  - intros id' i row'. rewrite lookup_insert_Some. intros [[[= <- <-] _]|[_ Hr]]; [|by eapply Hs].
    unfold seq_of. lia.
  - intros id' n ev'. rewrite Hstream. case_decide as Hid'; [subst id'|apply Hsto].
    intros [Hn|[_ Hn]]%lookup_app_Some; [by apply Hsto in Hn|].
    apply list_lookup_singleton_Some in Hn as [_ <-]. done.
Qed.

(** ** Runs without failures *)

Hypothesis no_fault : ∀ n, sql_fault n = None.

(** The body of a transaction, from the tables [d], ends with [r] and the tables
    [d']. *)
Definition evals {A} (b : tx O A) (d : Database) (r : go_result A) (d' : Database) : Prop :=
  ∀ sv, sv_db sv = d → (b sv).1 = r ∧ sv_db (b sv).2 = d' ∧ sv_objects (b sv).2 = sv_objects sv.

Lemma evals_of {A} (r : go_result A) d : evals (tx_of r) d r d.
Proof. by intros sv <-. Qed.
Lemma evals_ret {A} (a : A) d : evals (mret a) d (Ok a) d.
Proof. by intros sv <-. Qed.

Lemma evals_bind {A B} (b : tx O A) (f : A → tx O B) d a d1 r d' :
  evals b d (Ok a) d1 → evals (f a) d1 r d' → evals (b ≫= f) d r d'.
Proof.
  intros Hb Hf sv Hsv. unfold mbind, tx_bind. destruct (Hb sv Hsv) as (H1 & H2 & H3).
  destruct (b sv) as [r1 sv1]. simpl in *. subst r1. destruct (Hf sv1 H2) as (? & ? & ?).
  split_and!; congruence.
Qed.
Lemma evals_bind_err {A B} (b : tx O A) (f : A → tx O B) d e d' :
  evals b d (Err e) d' → evals (b ≫= f) d (Err e) d'.
Proof.
  intros Hb sv Hsv. unfold mbind, tx_bind. destruct (Hb sv Hsv) as (H1 & H2 & H3).
  destruct (b sv) as [r1 sv1]. simpl in *. by subst r1.
Qed.

Lemma evals_exec {A} (s : stmt A) d a d' : s d = Ok (a, d') → evals (Pg.tx_exec s) d (Ok a) d'.
Proof.
  intros Hs sv <-. unfold Pg.tx_exec, Pg.tx_exec_or, Pg.statement. by rewrite no_fault, Hs.
Qed.
Lemma evals_query {A} (f : Database → A) d : evals (Pg.tx_exec (query f)) d (Ok (f d)) d.
Proof. by apply evals_exec. Qed.
Lemma evals_lock id d : evals (Pg.lockAccountTx id) d (Ok tt) d.
Proof. by apply evals_exec. Qed.

Lemma evals_load m d o id : represents m d o → evals (Pg.loadEventsTx id) d (Ok (stream m id)) d.
Proof.
  intros Hrep. destruct (load_spec m d o id Hrep) as (rows & Hsel & Hdec).
  eapply evals_bind; [by apply evals_exec|]. rewrite Hdec. apply evals_of.
Qed.

Lemma marshal_storable ev : storable ev → Pg.marshal ev = Ok (enc_event ev).
Proof. intros Hev. unfold Pg.marshal. by rewrite enc_event_encodable. Qed.

(** The row an event is inserted as. *)
Definition row_for (ev : Event) : EventRow :=
  mkEventRow (EventType ev) (jsonb (enc_event ev)) (timestamptz (OccurredAt ev)).
Lemma row_for_row ev : storable ev → row_of ev (row_for ev).
Proof. intros Hev. split; [done|]. by apply jsonb_event. Qed.

Lemma next_free m d o id :
  represents m d o → db_events d !! (id, seq_of (stream m id)) = None.
Proof.
  intros Hrep. pose proof (rp_events _ _ _ Hrep id (length (stream m id))) as Hr.
  rewrite lookup_ge_None_2 in Hr by done. by inversion Hr.
Qed.

(** The next event of a stream, appended. *)
Definition appended (m : MemoryStore) (ev : Event) : MemoryStore :=
  put_stream (AggregateID ev) (stream m (AggregateID ev) ++ [ev]) m.
Definition inserted (m : MemoryStore) (ev : Event) (d : Database) : Database :=
  with_events (<[(AggregateID ev, seq_of (stream m (AggregateID ev))) := row_for ev]> (db_events d)) d.

Lemma appended_represents m d o ev :
  represents m d o → storable ev → represents (appended m ev) (inserted m ev d) o.
Proof. intros Hrep Hev. apply represents_append; [done..|by apply row_for_row]. Qed.

Lemma evals_insert m d o ev :
  represents m d o → storable ev → Version ev = seq_of (stream m (AggregateID ev)) →
  evals (Pg.insertEventTx ev) d (Ok tt) (inserted m ev d).
Proof.
  intros Hrep Hev Hv. unfold Pg.insertEventTx. rewrite marshal_storable by done.
  apply evals_exec. unfold insert_event. by rewrite Hv, (next_free m d o).
Qed.

(** A method, from the tables [d] and the objects [o]. *)
Definition runs {A} (p : pg O A) (d : Database) (o : O) (a : A) (d' : Database) (o' : O) : Prop :=
  ∀ n, ∃ n', run p (mkServer d o n) = (a, mkServer d' o' n').

Lemma runs_done {A} (a : A) d o : runs (Done a) d o a d o.
Proof. intros n. by exists n. Qed.

Lemma runs_bind {A B} (p : pg O A) (k : A → pg O B) d o a d1 o1 b d' o' :
  runs p d o a d1 o1 → runs (k a) d1 o1 b d' o' → runs (p ≫= k) d o b d' o'.
Proof.
  intros Hp Hk n. rewrite run_bind. destruct (Hp n) as (n1 & ->). apply Hk.
Qed.
Lemma runs_try {A B} (p : pg O (go_result A)) (k : A → pg O (go_result B)) d o a d1 o1 b d' o' :
  runs p d o (Ok a) d1 o1 → runs (k a) d1 o1 b d' o' → runs (pg_try p k) d o b d' o'.
Proof. intros Hp Hk. by eapply runs_bind. Qed.
Lemma runs_try_err {A B} (p : pg O (go_result A)) (k : A → pg O (go_result B)) d o e d1 o1 :
  runs p d o (Err e) d1 o1 → runs (pg_try p k) d o (Err e) d1 o1.
Proof. intros Hp. eapply runs_bind; [done|]. apply runs_done. Qed.

Lemma runs_exec {A} (s : stmt A) d o :
  runs (Pg.exec s) d o (match s d with Ok (a, _) => Ok a | Err e => Err e end)
    (match s d with Ok (_, d') => d' | Err _ => d end) o.
Proof.
  intros n. unfold Pg.exec. simpl. unfold Pg.statement. simpl. rewrite no_fault.
  destruct (s d) as [[a d']|e]; by eexists.
Qed.
Lemma runs_exec_or {A} on_error (s : stmt A) d o a d' :
  s d = Ok (a, d') → runs (Pg.exec_or on_error s) d o (Ok a) d' o.
Proof. intros Hs. eapply runs_bind; [apply runs_exec|]. rewrite Hs. apply runs_done. Qed.
Lemma runs_exec_or_err {A} on_error (s : stmt A) d o e :
  s d = Err e → runs (Pg.exec_or on_error s) d o (Err (on_error e)) d o.
Proof. intros Hs. eapply runs_bind; [apply runs_exec|]. rewrite Hs. apply runs_done. Qed.
Lemma runs_found {A} none on_error (f : Database → option A) d o :
  runs (Pg.found none on_error (query f)) d o
    (match f d with Some a => Ok a | None => Err none end) d o.
Proof. eapply runs_try; [by apply runs_exec_or|]. destruct (f d); apply runs_done. Qed.

Lemma runs_found_row {A} none on_error (s : stmt (option A)) d o a :
  s d = Ok (Some a, d) → runs (Pg.found none on_error s) d o (Ok a) d o.
Proof. intros Hs. eapply runs_try; [by apply runs_exec_or|apply runs_done]. Qed.

Lemma runs_found_none {A} none on_error (s : stmt (option A)) d o :
  s d = Ok (None, d) → runs (Pg.found none on_error s) d o (Err none) d o.
Proof. intros Hs. eapply runs_try; [by apply runs_exec_or|apply runs_done]. Qed.

Lemma runs_transaction {A} begin_ commit_ (b : tx O (tx_end A)) d o r d' :
  evals b d r d' →
  runs (Step (Pg.transaction_step begin_ commit_ b) Done) d o
    (match r with Ok (Commit a) => Ok a | Ok (Leave a) => Ok a | Err e => Err e end)
    (match r with Ok (Commit _) => d' | _ => d end) o.
Proof.
  intros Hb n. simpl. unfold Pg.transaction_step, Pg.statement. simpl. rewrite no_fault.
  destruct (Hb (Pg.put_db d (Pg.next (mkServer d o n))) (reflexivity _)) as (H1 & H2 & H3).
  destruct (b _) as [r' sv']. simpl in *. subst r'. destruct sv' as [d1 o1 n1]. simpl in *. subst.
  destruct r as [[a|a]|e]; simpl; rewrite ?no_fault; by eexists.
Qed.
End Represents.
