(* ===== verification/PostgresFacts.v ===== *)
(** * Single methods of the PostgreSQL store: rows give their events back, what an
    append checks, and a commit whose answer is lost. *)
From S2P Require Export PostgresSample Represents.

(** C32: An event that is written to a row is read back from it: for every event the
    program makes (its amount other than the smallest 64-bit number, its year between
    0 and 9999), json.Marshal succeeds, and [decodeEvent], given the row's account
    and type and the members of the payload in whatever order JSONB keeps them,
    returns the event. *)
Theorem event_row_roundtrip `{Postgres} `{JsonErrors} (ev : Event) :
  storable ev →
  ∃ payload, Pg.marshal ev = Ok payload ∧
    decodeEvent (AggregateID ev) (EventType ev) (jsonb payload) = Ok ev.
Proof.
  intros Hev. exists (enc_event ev). split; [by apply marshal_storable|].
  destruct (jsonb_event ev Hev) as (kvs & -> & Hperm). by apply decode_payload.
Qed.

Section Append.
Context {O : Type} `{Postgres} `{JsonErrors}.

(** [Append] of the PostgreSQL store compares the expected version with the keys
    of the rows and nothing else.  Where no row of the account has that number the
    event is inserted, even if the stream is shorter, so that a gap is left behind;
    where one has it, the answer is a concurrency conflict and nothing changes. *)
Theorem Append_checks_one_key (ev : Event) (v : Z) (sv : Server O) :
  storable ev → sql_fault (sv_ops sv) = None →
  run (Pg.Append ev v) sv =
    match db_events (sv_db sv) !! (AggregateID ev, v) with
    | Some _ => (Err ErrConcurrencyConflict, Pg.next sv)
    | None => (Ok tt, Pg.put_db (with_events
        (<[(AggregateID ev, v) := row_for ev]> (db_events (sv_db sv))) (sv_db sv)) (Pg.next sv))
    end.
Proof.
  intros Hev Hf. unfold Pg.Append. rewrite marshal_storable by done.
  unfold pg_try, Pg.exec_or. rewrite run_bind, run_bind. simpl.
  unfold Pg.statement, insert_event_once. rewrite Hf.
  by destruct (db_events (sv_db sv) !! (AggregateID ev, v)); simpl.
Qed.
End Append.

Section LostCommit.
Context {O : Type} `{Postgres} `{JsonErrors} (objects : PassportObjectStore O).

(** C38: If the answer of the commit of an application is lost, the customer gets an
    error although the row is there, and the clean-up deletes the passport image
    the row refers to. *)
Theorem lost_commit_loses_image (c : Customer) (sv : Server O) (d : Database) (message : string) :
  let key := passport_key (cus_ID c) in
  let put := Put objects key (cus_PassportImage c) (cus_PassportImageMIME c) (sv_objects sv) in
  let n := sv_ops sv in
  sql_fault n = None → sql_fault (S n) = None → sql_fault (S (S n)) = Some (message, true) →
  put.1 = Ok tt → insert_customer c [] key (sv_db sv) = Ok (tt, d) →
  let '(answer, after) := run (Pg.CreateCustomerApplication (Some objects) c) sv in
  answer = Err (Pg.wrap "commit onboarding" (Failure message)) ∧
  sv_db after = d ∧ sv_objects after = (PostgresStore.Delete objects key put.2).2.
Proof.
  intros key put n H0' H1 H2 Hput Hins. unfold Pg.CreateCustomerApplication, pg_try.
  rewrite run_bind. simpl. fold (passport_key (cus_ID c)). fold key. fold put.
  destruct put as [r o1]. simpl in Hput |- *. subst r. simpl.
  unfold Pg.transaction_step, Pg.statement at 1. simpl. fold n. rewrite H0'. simpl.
  unfold mbind, tx_bind, Pg.tx_exec_or, Pg.statement at 1. simpl. fold n. rewrite H1, Hins. simpl.
  unfold Pg.statement. simpl. fold n. rewrite H2. simpl.
  by destruct (PostgresStore.Delete objects key o1).
Qed.
End LostCommit.

(** ** Witnesses *)

#[local] Existing Instance reliable.
#[local] Existing Instance sample_errors.

Definition sample_debit : Event := EMoneyDebited (mkMoneyDebited "acc1" "MoneyDebited" 3 1500000000
  "acc1" (-1205) "trf_1" "transfer" "acc2" "" "" "" "").
Lemma sample_storable : storable sample_debit.
Proof. split; try (by vm_compute); split; by vm_compute. Qed.

Lemma event_row_roundtrip_witness :
  ∃ payload, Pg.marshal sample_debit = Ok payload ∧
    decodeEvent "acc1" "MoneyDebited" (jsonb payload) = Ok sample_debit.
Proof. exact (event_row_roundtrip sample_debit sample_storable). Defined.

(** The stream is empty, the expected version is 3. *)
Lemma Append_checks_one_key_witness :
  ∃ sv, run (Pg.Append sample_debit 3) empty_server = (Ok tt, sv) ∧
    (run (Pg.Load "acc1") sv).1 = Ok [sample_debit].
Proof.
  eexists. split; [exact (Append_checks_one_key sample_debit 3 empty_server sample_storable eq_refl)|].
  by vm_compute.
Defined.

(** The third operation, the commit, is carried out but its answer is lost. *)
Definition lossy : Postgres :=
  sample_postgres (λ n, if Nat.eqb n 2 then Some ("timeout", true) else None).
Definition sample_customer (id email number : string) : Customer :=
  mkCustomer id "" "Ada" "Lovelace" 0 "GB" email "+441234567" "hash"
    (mkResidentialAddress "1 Main Street" "" "London" "" "N1" "GB")
    (mkGovernmentDocument "passport" number "GB") ["a"%char; "b"%char] "image/png" KYCWaiting 5000
    "" None "" 0.
Definition ada : Customer := sample_customer "cus_1" "ada@example.com" "X1".
Definition inserted_rows (c : Customer) : Database :=
  match @insert_customer lossy c [] (passport_key (cus_ID c)) empty_database with
  | Ok (_, d) => d
  | Err _ => empty_database
  end.

Lemma lost_commit_loses_image_witness :
  let after := (run (@Pg.CreateCustomerApplication _ lossy (Some sample_objects) ada) empty_server).2 in
  is_Some (db_customers (sv_db after) !! "cus_1") ∧
  (run (@Pg.GetPassportImage _ lossy (Some sample_objects) "cus_1") after).1 = Err (OtherError "no such key").
Proof.
  pose proof (@lost_commit_loses_image _ lossy sample_objects ada empty_server (inserted_rows ada)
    "timeout" eq_refl eq_refl eq_refl eq_refl ltac:(by vm_compute)) as Hlost.
  destruct (run _ empty_server) as [answer after] eqn:Hrun. destruct Hlost as (_ & Hd & Ho).
  destruct after as [d o n]. simpl in Hd, Ho. subst d o.
  assert (n = 3%nat) as -> by (by injection (f_equal snd Hrun)).
  split; [by eexists|by vm_compute].
Defined.
