(* ===== verification/Refines.v ===== *)
(** * The PostgreSQL store refines the in-memory store.

    On tables that represent a store, without failures of the database, each method
    answers as the method of the in-memory store and leaves tables that represent
    its new state ([call_simulated]).  [pg_pre] is what a caller owes the database
    beyond what it owes the in-memory store: identities that exist, times it can
    keep, texts its columns keep. *)
From S2P Require Export Represents Postings.

(** ** What is asked of a call, and what answers agree *)

(** The event store can write the time and the amount of an event. *)
Definition event_time (t : Time) : Prop := 0 ≤ Year t ≤ 9999.
Definition event_amount_ok (n : Money) : Prop := int64_ok n ∧ n ≠ MinInt64.

(** No stream is near the bound of its sequence numbers. *)
Definition short_streams (m : MemoryStore) : Prop := ∀ id, seq_of (stream m id) < MaxInt64 - 2.

Section Calls.
Context `{Postgres}.

(** A text that lower() leaves alone. *)
Definition lower_case (s : string) : Prop := sql_lower s = s.

(** The columns of customers keep what the application holds. *)
Definition with_image (c : Customer) (image : list ascii) : Customer :=
  mkCustomer (cus_ID c) (cus_AccountID c) (cus_LegalFirstName c) (cus_LegalLastName c)
    (cus_DateOfBirth c) (cus_Nationality c) (cus_Email c) (cus_Phone c) (cus_PasswordHash c)
    (cus_ResidentialAddress c) (cus_GovernmentDocument c) image (cus_PassportImageMIME c)
    (cus_KYCStatus c) (cus_RequestedDeposit c) (cus_ReviewedBy c) (cus_ReviewedAt c)
    (cus_RejectionReason c) (cus_CreatedAt c).
Definition columns_keep (c : Customer) : Prop :=
  ∀ image key, customer_row c image key = Some (mkCustomerRow (with_image c image) key).

(** What a new request for an adjustment may name. *)
Record request_ok (m : MemoryStore) (r : AdjustmentRequest) : Prop := {
  rq_fresh : ms_adjustments m !! adj_ID r = None;
  rq_type : adj_Type r ∈ ["manual"; "reversal"];
  rq_status : adj_Status r ∈ ["waiting_for_approval"; "approved"; "rejected"];
  rq_maker : is_Some (ms_admins m !! adj_CreatedBy r);
  rq_columns : adjustment_row r = r;
  rq_manual : adj_Type r = AdjustmentManual →
    adj_OriginalTransferID r = "" ∧ adj_OriginalEventSequence r = None;
  rq_transfer : adj_OriginalTransferID r ≠ "" → adj_OriginalEventSequence r = None;
  rq_event : adj_Type r ≠ AdjustmentManual → adj_OriginalTransferID r = "" → adj_OriginalAccountID r ≠ "";
}.

(** What an approved request must hold. *)
Record approval_ok (r : AdjustmentRequest) : Prop := {
  ap_amount : adj_Amount r ≠ MinInt64;
  ap_total : adj_Amount r +! adj_Fee r ≠ MinInt64;
  ap_event : adj_Type r = AdjustmentReversal → adj_OriginalTransferID r = "" →
    is_Some (adj_OriginalEventSequence r);
}.

Definition pg_pre {X} (op : storeE X) (m : MemoryStore) : Prop :=
  match op with
  | cAppend ev v => storable ev ∧ 0 ≤ v ≤ seq_of (stream m (AggregateID ev))
  | cSaveSnapshot snap => micro (snap_OccurredAt snap) ∧ 0 ≤ snap_AsOfSequence snap
  | cWithdrawAvailable _ amount at_ => event_amount_ok amount ∧ event_time at_ ∧ short_streams m
  | cCreateTransfer r =>
      ms_transfers m !! tr_ID r = None ∧ saga_row r = r ∧ tr_Status r ∈ transfer_statuses
  | cListDueTransfers now limit => micro now ∧ 1 ≤ limit
  | cUpdateTransferSaga id u at_ =>
      is_Some (ms_transfers m !! id) ∧ micro at_ ∧ micro (su_NextAttemptAt u) ∧
      su_Status u ∈ transfer_statuses ∧ - 2 ^ 31 ≤ su_AttemptCount u < 2 ^ 31
  | cReserveTransferFunds r at_ =>
      is_Some (ms_transfers m !! tr_ID r) ∧ 0 < tr_Amount r +! tr_Fee r ∧ event_time at_ ∧
      short_streams m
  | cRecordComplianceDecision id decision _ =>
      is_Some (ms_transfers m !! id) ∧ decision ∈ ["approved"; "rejected"]
  | cPostTransferLedger r at_ =>
      is_Some (ms_transfers m !! tr_ID r) ∧ event_amount_ok (tr_Amount r) ∧
      event_amount_ok (tr_Fee r) ∧ tr_SourceAccountID r ≠ tr_DestinationAccountID r ∧
      stream m (tr_SourceAccountID r) ≠ [] ∧ stream m (tr_DestinationAccountID r) ≠ [] ∧
      event_time at_ ∧ short_streams m
  | cCaptureTransferReservation _ at_ | cReleaseTransferReservation _ at_ =>
      event_time at_ ∧ short_streams m
  | cCreateCustomerApplication c =>
      ms_customers m !! cus_ID c = None ∧ columns_keep c ∧ lower_case (cus_Email c)
  | cApproveApplication id adm acc at_ =>
      is_Some (ms_admins m !! adm) ∧ ms_streams m !! acc = None ∧
      (∀ k c, ms_customers m !! k = Some c → cus_AccountID c ≠ acc) ∧
      (∀ c, ms_customers m !! id = Some c → cus_RequestedDeposit c ≠ MinInt64) ∧
      micro at_ ∧ event_time at_
  | cRejectApplication _ adm _ at_ => is_Some (ms_admins m !! adm) ∧ micro at_
  | cCreateAdjustment r => request_ok m r
  | cApproveAdjustment id adm at_ =>
      is_Some (ms_admins m !! adm) ∧ adm ≠ "" ∧ micro at_ ∧ event_time at_ ∧ short_streams m ∧
      (∀ r, ms_adjustments m !! id = Some r → approval_ok r)
  | cRejectAdjustment _ adm _ at_ => is_Some (ms_admins m !! adm) ∧ adm ≠ "" ∧ micro at_
  | cFindCustomerByEmail email | cFindAdminByEmail email => lower_case email
  | cUpsertAdmin a => lower_case (adm_Email a) ∧
      (∀ a', ms_admins m !! adm_ID a = Some a' → adm_Email a' = adm_Email a)
  | cCreateSession s =>
      ms_sessions m !! ses_TokenHash s = None ∧ micro (ses_ExpiresAt s) ∧
      (ses_AdminID s = "" ∧ ses_CustomerID s ≠ "" ∧ is_Some (ms_customers m !! ses_CustomerID s) ∨
       ses_CustomerID s = "" ∧ ses_AdminID s ≠ "" ∧ is_Some (ms_admins m !! ses_AdminID s))
  | cFindSession _ now => micro now
  | _ => True
  end.

(** The same rows, in some order. *)
Definition same_rows {A} (x y : go_result (list A)) : Prop :=
  ∃ l l', x = Ok l ∧ y = Ok l' ∧ l ≡ₚ l'.

(** The transfers that are due, and an answer that holds [limit] of them, or all. *)
Definition due (now : Time) (m : MemoryStore) : list TransferRecord :=
  filter (λ r, tr_Status r = TransferPending ∧ tr_NextAttemptAt r ≤ now) (map_to_list (ms_transfers m)).*2.
Definition due_answer (now : Time) (limit : Z) (m : MemoryStore)
    (x : go_result (list TransferRecord)) : Prop :=
  ∃ l, x = Ok l ∧ l ⊆+ due now m ∧ length l = (Z.to_nat limit `min` length (due now m))%nat.

(** The answer [x] of the in-memory store, and [y] of the database. *)
Definition agree {X} (op : storeE X) (m : MemoryStore) : X → X → Prop :=
  match op in storeE X return X → X → Prop with
  | cListAggregates => same_rows
  | cListApplications _ => same_rows
  | cListAdjustments _ => same_rows
  | cListDueTransfers now limit => λ x y, due_answer now limit m x ∧ due_answer now limit m y
  | cFindCustomerByEmail _ => λ x y, y = Pg.login_columns <$> x
  | _ => eq
  end.
End Calls.

(** What the program relies on in an object store: an object that is put is got,
    and the others stay. *)
Class ObjectLaws {O} (objects' : PassportObjectStore O) := {
  put_ok : ∀ key b mime o, (Put objects' key b mime o).1 = Ok tt;
  get_put : ∀ key b mime o, Get objects' key (Put objects' key b mime o).2 = Ok b;
  get_put_other : ∀ key key' b mime o, key' ≠ key →
    Get objects' key' (Put objects' key b mime o).2 = Get objects' key' o;
  get_delete_other : ∀ key key' o, key' ≠ key →
    Get objects' key' (PostgresStore.Delete objects' key o).2 = Get objects' key' o;
}.

(** ** Methods *)

(** Goes through the statements of a transaction. *)
Ltac tx_step :=
  first
    [ apply evals_ret | apply evals_of
    | eapply evals_bind;
      [first [by apply evals_lock | by apply evals_query | by eapply evals_load; eauto]|] ].

(** The tables of a changed component. *)
Ltac rep_update rep :=
  split; try apply rep; simpl;
  rewrite ?(rp_transfers _ _ _ _ rep), ?(rp_admins _ _ _ _ rep), ?(rp_sessions _ _ _ _ rep),
    ?(rp_adjustments _ _ _ _ rep), ?(rp_reservations _ _ _ _ rep), ?(rp_decisions _ _ _ _ rep);
  try done.

Section Simulation.
Context {O : Type} `{Postgres} `{JsonErrors} (objects : option (PassportObjectStore O)).
Hypothesis no_fault : ∀ n, sql_fault n = None.
Context (G : GoRuntime) (m : MemoryStore) (d : Database) (o : O).
Hypothesis rep : represents objects m d o.
Hypothesis ok : db_ok d.
Hypothesis wf : store_wf m.

Definition simulated {X} (op : storeE X) : Prop :=
  let '(x, m') := store_call G op m in
  ∃ y d' o', runs (Pg.method objects op) d o y d' o' ∧ agree op m x y ∧ represents objects m' d' o'.

(** A call that both stores answer without a change. *)
Lemma simulated_read {X} (op : storeE X) x y :
  store_call G op m = (x, m) → runs (Pg.method objects op) d o y d o → agree op m x y → simulated op.
Proof. intros Hm Hrun Ha. unfold simulated. rewrite Hm. by exists y, d, o. Qed.

Lemma sim_Append ev v : pg_pre (cAppend ev v) m → simulated (cAppend ev v).
Proof.
  intros [Hev Hv]. unfold simulated. store_cbv. unfold MemoryStore.Append.
  case_bool_decide as Hlen.
  - subst v. exists (Ok tt), (inserted m ev d), o. split_and!; [|done|by apply appended_represents].
    cbn [Pg.method]. unfold Pg.Append. rewrite marshal_storable by done.
    eapply runs_try; [apply runs_exec_or; [done|]|].
    + unfold insert_event_once. by rewrite (next_free objects m d o).
    + apply runs_done.
  - exists (Err ErrConcurrencyConflict), d, o. split_and!; [|done..].
    cbn [Pg.method]. unfold Pg.Append. rewrite marshal_storable by done.
    assert (is_Some (db_events d !! (AggregateID ev, v))) as [row Hrow].
    { rewrite <-(Z2Nat.id v) by lia.
      pose proof (rp_events _ _ _ _ rep (AggregateID ev) (Z.to_nat v)) as Hr.
      destruct (stream m (AggregateID ev) !! Z.to_nat v) as [ev'|] eqn:Hs; [by inversion Hr|].
      apply lookup_ge_None_1 in Hs. unfold seq_of in *. lia. }
    eapply runs_try; [apply runs_exec_or; [done|]|].
    + unfold insert_event_once. by rewrite Hrow.
    + apply runs_done.
Qed.

Lemma runs_Load id : runs (Pg.Load id) d o (Ok (stream m id)) d o.
Proof.
  destruct (load_spec objects m d o id rep) as (rows & Hsel & Hdec).
  eapply runs_try; [by apply runs_exec_or|]. rewrite Hdec. apply runs_done.
Qed.

Lemma sim_Load id : simulated (cLoad id).
Proof. by eapply simulated_read; [|apply runs_Load|]. Qed.

Lemma sim_SaveSnapshot snap : pg_pre (cSaveSnapshot snap) m → simulated (cSaveSnapshot snap).
Proof.
  intros [Ht Hs]. unfold simulated. store_cbv. unfold MemoryStore.SaveSnapshot.
  assert (∀ r d' m', upsert_snapshot snap d = Ok (tt, d') → r = Ok tt → represents objects m' d' o →
    ∃ y d'' o', runs (Pg.method objects (cSaveSnapshot snap)) d o y d'' o' ∧
      r = y ∧ represents objects m' d'' o') as Hgoal.
  { intros r d' m' Hu -> Hm'. exists (Ok tt), d', o. split_and!; [by apply runs_exec_or|done..]. }
  unfold upsert_snapshot, check in Hgoal. rewrite (proj2 (Z.leb_le _ _) Hs), micro_kept in Hgoal by done.
  rewrite (rp_snapshots _ _ _ _ rep) in Hgoal.
  assert (represents objects
    (set_snapshots (<[snap_AggregateID snap := snap]> (ms_snapshots m)) m)
    (with_snapshots (<[snap_AggregateID snap := snap]> (ms_snapshots m)) d) o) as Hnew.
  { by split; try apply rep. }
  assert (mkAccountSnapshot (snap_AggregateID snap) (snap_Balance snap) (snap_ReservedBalance snap)
    (snap_AvailableBalance snap) (snap_AsOfSequence snap) (snap_OccurredAt snap) = snap) as Hid
    by by destruct snap.
  rewrite Hid in Hgoal.
  destruct (ms_snapshots m !! snap_AggregateID snap) as [old|]; [|by eapply Hgoal].
  destruct (Z.leb_spec (snap_AsOfSequence snap) (snap_AsOfSequence old)),
    (Z.ltb_spec (snap_AsOfSequence old) (snap_AsOfSequence snap)); (lia || by eapply Hgoal).
Qed.

Lemma sim_LoadSnapshot id : simulated (cLoadSnapshot id).
Proof.
  eapply simulated_read; [done|by apply runs_found|]. simpl. unfold MemoryStore.LoadSnapshot.
  by rewrite (rp_snapshots _ _ _ _ rep).
Qed.

Lemma sim_ListAggregates : simulated cListAggregates.
Proof.
  eapply simulated_read; [done|by apply runs_exec_or|]. simpl. unfold MemoryStore.ListAggregates, order_by.
  eexists _, _. split_and!; [done..|]. rewrite !sort_slice_perm.
  apply NoDup_Permutation; [|apply NoDup_remove_dups|].
  { rewrite range_map_perm. apply NoDup_fst_map_to_list. }
  intros id. rewrite elem_of_remove_dups, !list_elem_of_fmap. split.
  - intros ([id' events] & -> & Hin). rewrite elem_of_range_map in Hin. simpl.
    destruct (wf_streams _ wf _ _ Hin) as [Hne _].
    destruct events as [|ev events]; [done|].
    pose proof (rp_events _ _ _ _ rep id' 0%nat) as Hr. unfold stream in Hr. rewrite Hin in Hr.
    inversion Hr as [? row ? Hx Hrow|]. exists (id', 0). split; [done|].
    apply list_elem_of_fmap. exists (id', 0, row). split; [done|]. by apply elem_of_map_to_list.
  - intros (k & -> & (r & -> & Hin)%list_elem_of_fmap). destruct r as [[id' i] row]. simpl.
    rewrite elem_of_map_to_list in Hin.
    pose proof (rp_sequence _ _ _ _ rep _ _ _ Hin) as Hi. rewrite <-(Z2Nat.id i Hi) in Hin.
    pose proof (rp_events _ _ _ _ rep id' (Z.to_nat i)) as Hr. rewrite Hin in Hr. unfold stream in Hr.
    destruct (ms_streams m !! id') as [events|] eqn:Hs; [|by inversion Hr].
    exists (id', events). split; [done|]. by apply elem_of_range_map.
Qed.

(** What a transaction ends with. *)
Lemma by_tx {A} (op : storeE (go_result A)) (b : tx O (tx_end A)) r d' x m' :
  Pg.method objects op = Pg.transaction b → evals b d r d' →
  agree op m x (match r with Ok (Commit a) => Ok a | Ok (Leave a) => Ok a | Err e => Err e end) →
  represents objects m' (match r with Ok (Commit _) => d' | _ => d end) o →
  ∃ y d'' o', runs (Pg.method objects op) d o y d'' o' ∧ agree op m x y ∧ represents objects m' d'' o'.
Proof. intros -> Hb Ha Hrep. eexists _, _, _. split_and!; [by apply runs_transaction|done..]. Qed.

(** A transaction that fails, or only reads. *)
Lemma by_fail {A} (op : storeE (go_result A)) (b : tx O (tx_end A)) e d' x :
  Pg.method objects op = Pg.transaction b → x = Err e → agree op m x (Err e) → evals b d (Err e) d' →
  ∃ y d'' o', runs (Pg.method objects op) d o y d'' o' ∧ agree op m x y ∧ represents objects m d'' o'.
Proof. intros Hop -> Ha Hb. by eapply by_tx. Qed.

Lemma sim_WithdrawAvailable id amount at_ :
  pg_pre (cWithdrawAvailable id amount at_) m → simulated (cWithdrawAvailable id amount at_).
Proof.
  intros ([Ha Hne] & Ht & Hshort). specialize (Hshort id).
  unfold simulated. store_cbv. unfold MemoryStore.WithdrawAvailable.
  destruct (seq_of (stream m id) =? 0) eqn:Hempty.
  { eapply by_tx; [done|do 2 tx_step; rewrite Hempty; tx_step|done..]. }
  cbv zeta. destruct (acc_AvailableBalance _ <? amount) eqn:Hfunds.
  { eapply by_tx; [done|do 2 tx_step; rewrite Hempty; cbv zeta; rewrite Hfunds; tx_step|done..]. }
  set (ev := EMoneyDebited _).
  assert (storable ev) as Hst by (split; simpl; try done; unfold seq_of in *; lia).
  eapply by_tx; [done|..].
  - do 2 tx_step. rewrite Hempty. cbv zeta. rewrite Hfunds. fold ev.
    eapply evals_bind; [by eapply evals_insert|]. tx_step.
  - done.
  - exact (appended_represents objects m d o ev rep Hst).
Qed.

(** ** Transfers *)

Lemma sim_FindTransfer id : simulated (cFindTransfer id).
Proof.
  eapply simulated_read; [done|by apply runs_found|]. simpl. unfold MemoryStore.FindTransfer.
  rewrite (rp_transfers _ _ _ _ rep). by destruct (ms_transfers m !! id).
Qed.

(** A search that finds at most one entry finds it in any order. *)
Lemma first_agrees {V} (p q : V → bool) (t : gmap string V) :
  (∀ k v, t !! k = Some v → p v = q v) →
  (∀ k k' v v', t !! k = Some v → t !! k' = Some v' → q v = true → q v' = true → k = k') →
  sql_first p t = snd <$> range_find q t.
Proof.
  intros Hpq Huniq. destruct (range_find q t) as [[k v]|] eqn:Hf; simpl.
  - apply range_find_Some in Hf as [Hk Hv]. unfold sql_first.
    rewrite (@range_find_unique sql_order _ _ _ k v Hk); [done|by erewrite Hpq|].
    intros k' v' Hk' Hv'. rewrite (Hpq _ _ Hk') in Hv'. by eapply Huniq.
  - apply sql_first_None. rewrite range_find_None in Hf. intros k v Hk. rewrite (Hpq _ _ Hk). by eapply Hf.
Qed.

Lemma exists_agrees {V} (p q : V → bool) (t : gmap string V) :
  (∀ k v, t !! k = Some v → p v = q v) →
  sql_exists p t = if range_find q t is Some _ then true else false.
Proof.
  intros Hpq. destruct (range_find q t) as [[k v]|] eqn:Hf.
  - apply sql_exists_true. apply range_find_Some in Hf as [Hk Hv]. exists k, v. by rewrite (Hpq _ _ Hk).
  - apply sql_exists_false. rewrite range_find_None in Hf. intros k v Hk. rewrite (Hpq _ _ Hk). by eapply Hf.
Qed.

Lemma find_key_agrees source key :
  sql_first (has_key source key) (ms_transfers m) = snd <$> find_by_key source key m.
Proof.
  apply first_agrees; [done|]. intros k k' t t' Hk Hk' Ht Ht'.
  pose proof (ok_keys _ ok) as Hkeys. rewrite (rp_transfers _ _ _ _ rep) in Hkeys.
  eapply (Hkeys k k' t t'); [done..|reflexivity|]. unfold key_index. boolify. congruence.
Qed.

Definition differs (r existing : TransferRecord) : bool :=
  negb (bool_decide (tr_Amount existing = tr_Amount r)) ||
  negb (bool_decide (tr_DestinationAccountID existing = tr_DestinationAccountID r)).

Lemma runs_existing r c existing :
  sql_first (has_key (tr_SourceAccountID r) (tr_IdempotencyKey r)) (ms_transfers m) = Some existing →
  runs (Pg.existing_transfer r (UniqueViolation c)) d o
    (if differs r existing then Err ErrIdempotencyConflict else Ok existing) d o.
Proof.
  intros Hf. unfold Pg.existing_transfer, Pg.findTransferByKey.
  eapply runs_try; [apply runs_found_row; [done|]|].
  { unfold select_transfer_by_key, query. by rewrite (rp_transfers _ _ _ _ rep), Hf. }
  fold (differs r existing).
  destruct (differs r existing); apply runs_done.
Qed.

Lemma sim_CreateTransfer r : pg_pre (cCreateTransfer r) m → simulated (cCreateTransfer r).
Proof.
  intros (Hnew & Hrow & Hst). unfold simulated. store_cbv. unfold MemoryStore.CreateTransfer.
  pose proof (find_key_agrees (tr_SourceAccountID r) (tr_IdempotencyKey r)) as Hfind.
  assert (insert_transfer (saga_row r) d =
    if sql_exists (has_key (tr_SourceAccountID r) (tr_IdempotencyKey r)) (ms_transfers m)
    then Err (UniqueViolation "transfers_source_account_id_idempotency_key_key")
    else Ok (tt, with_transfers (<[tr_ID r := r]> (db_transfers d)) d)) as Hins.
  { unfold insert_transfer, check. rewrite Hrow, bool_decide_eq_true_2 by done.
    by rewrite (rp_transfers _ _ _ _ rep), Hnew, bool_decide_eq_false_2 by by intros []. }
  pose proof (runs_exec no_fault (insert_transfer (saga_row r)) d o) as Hrun. rewrite Hins in Hrun.
  destruct (find_by_key _ _ m) as [[k existing]|] eqn:Hk; simpl in Hfind.
  - assert (sql_exists (has_key (tr_SourceAccountID r) (tr_IdempotencyKey r)) (ms_transfers m) = true) as He.
    { rewrite sql_exists_true. destruct (sql_first_Some _ _ _ Hfind) as (k' & ? & ?); eauto. }
    rewrite He in Hrun. fold (differs r existing).
    pose proof (runs_existing r "transfers_source_account_id_idempotency_key_key" existing Hfind) as Hex.
    destruct (differs r existing); eexists _, d, o; (split_and!; [|reflexivity|done]);
      (eapply runs_bind; [exact Hrun|]); [by eapply runs_try_err|].
    eapply runs_try; [exact Hex|apply runs_done].
  - assert (sql_exists (has_key (tr_SourceAccountID r) (tr_IdempotencyKey r)) (ms_transfers m) = false) as He.
    { rewrite sql_exists_false. by apply sql_first_None. }
    rewrite He in Hrun. eexists _, _, _. split_and!; [eapply runs_bind; [exact Hrun|apply runs_done]|done|].
    rep_update rep.
Qed.

Lemma sim_UpdateTransferSaga id u at_ :
  pg_pre (cUpdateTransferSaga id u at_) m → simulated (cUpdateTransferSaga id u at_).
Proof.
  intros ([r Hr] & Hat & Hnext & Hst & Hatt). unfold simulated. store_cbv.
  unfold MemoryStore.UpdateTransferSaga. rewrite Hr.
  assert (update_saga id u at_ d =
    if negb (bool_decide (tr_Status r = TransferPending)) ||
       negb (bool_decide (tr_CurrentStep r = su_ExpectedStep u))
    then Ok (0, d)
    else Ok (1, with_transfers (<[id := apply_update r u at_]> (db_transfers d)) d)) as Hupd.
  { unfold update_saga, check. rewrite (proj2 (Z.leb_le _ _)), (proj2 (Z.ltb_lt _ _)) by lia.
    unfold update_transfer. rewrite (rp_transfers _ _ _ _ rep), Hr. simpl. rewrite !micro_kept by done.
    rewrite (bool_decide_eq_true_2 (su_Status u ∈ transfer_statuses)) by done.
    destruct (bool_decide (tr_CurrentStep r = _)), (bool_decide (tr_Status r = _)); by destruct u. }
  case_match eqn:Hcond; eexists _, _, _; (split_and!;
    [eapply runs_try; [by apply runs_exec_or|apply runs_done]|done|]); [done|]. rep_update rep.
Qed.

Lemma sim_RecordComplianceDecision id decision at_ :
  pg_pre (cRecordComplianceDecision id decision at_) m → simulated (cRecordComplianceDecision id decision at_).
Proof.
  intros ([r Hr] & Hd). unfold simulated. store_cbv. unfold MemoryStore.RecordComplianceDecision.
  assert (upsert_decision id decision d =
    let written := Ok (1, with_decisions (<[id := decision]> (db_compliance_decisions d)) d) in
    match ms_complianceDecisions m !! id with
    | Some old => if bool_decide (old = decision) then written else Ok (0, d)
    | None => written
    end) as Hup.
  { unfold upsert_decision, check, refers.
    rewrite bool_decide_eq_true_2, (rp_decisions _ _ _ _ rep), (rp_transfers _ _ _ _ rep) by done.
    by rewrite (bool_decide_eq_true_2 (is_Some (ms_transfers m !! id))). }
  cbv zeta in *. destruct (ms_complianceDecisions m !! id) as [old|]; [destruct (bool_decide (old = decision))|];
    eexists _, _, _; (split_and!; [eapply runs_try; [by apply runs_exec_or|apply runs_done]|done|]);
    [rep_update rep|done|rep_update rep].
Qed.

Lemma sim_ReserveTransferFunds r at_ :
  pg_pre (cReserveTransferFunds r at_) m → simulated (cReserveTransferFunds r at_).
Proof.
  intros (Hr & Hpos & Ht & Hshort). specialize (Hshort (tr_SourceAccountID r)).
  unfold simulated. store_cbv. unfold MemoryStore.ReserveTransferFunds.
  set (src := tr_SourceAccountID r) in *. set (dst := tr_DestinationAccountID r) in *.
  pose proof (evals_query no_fault (O:=O) (λ d, db_account_reservations d !! tr_ID r) d) as Hhold.
  cbv beta in Hhold. rewrite (rp_reservations _ _ _ _ rep) in Hhold.
  destruct (ms_reservations m !! tr_ID r) as [hold|] eqn:Hh.
  { eapply by_tx; [done|tx_step; eapply evals_bind; [exact Hhold|]; do 2 tx_step|done..]. }
  cbv zeta. destruct ((seq_of (stream m src) =? 0) || (seq_of (stream m dst) =? 0)) eqn:Hempty.
  { eapply (by_fail _ _ _ d); [done|done|done|].
    tx_step. eapply evals_bind; [exact Hhold|]. do 2 tx_step.
    fold src dst. rewrite Hempty. tx_step. }
  destruct (acc_AvailableBalance _ <? _) eqn:Hfunds.
  { eapply (by_fail _ _ _ d); [done|done|done|].
    tx_step. eapply evals_bind; [exact Hhold|]. do 2 tx_step.
    fold src dst. rewrite Hempty. cbv zeta. rewrite Hfunds. tx_step. }
  set (amount := tr_Amount r +! tr_Fee r) in *. set (ev := EFundsReserved _).
  set (m1 := set_reservations _ m).
  assert (storable ev) as Hst.
  { split; simpl; try done; unfold seq_of, amount, MinInt64 in *; auto with int64; lia. }
  set (d1 := with_reservations (<[tr_ID r := mkMemoryReservation src amount "reserved"]>
    (db_account_reservations d)) d).
  assert (represents objects m1 d1 o) as Hrep1 by rep_update rep.
  eapply by_tx; [done|..].
  - tx_step. eapply evals_bind; [exact Hhold|]. do 2 tx_step. fold src dst. rewrite Hempty. cbv zeta.
    fold amount. rewrite Hfunds. eapply evals_bind.
    { apply (evals_exec no_fault _ _ tt d1). unfold insert_reservation, check, refers.
      rewrite (proj2 (Z.ltb_lt _ _) Hpos), (rp_reservations _ _ _ _ rep), Hh, (rp_transfers _ _ _ _ rep).
      rewrite bool_decide_eq_false_2, (bool_decide_eq_true_2 (is_Some (ms_transfers m !! _))) by (done || by intros []).
      unfold d1. by rewrite (rp_reservations _ _ _ _ rep). }
    eapply evals_bind; [by eapply (evals_insert objects no_fault m1 d1 o ev)|]. tx_step.
  - done.
  - exact (appended_represents objects m1 d1 o ev Hrep1 Hst).
Qed.

Lemma put_put id e1 e2 m' : put_stream id e2 (put_stream id e1 m') = put_stream id e2 m'.
Proof. unfold put_stream, set_streams. simpl. by rewrite insert_insert_eq. Qed.

(** The postings of a transfer, one event after the other. *)
Lemma evals_legs r at_ src1 :
  let S := tr_SourceAccountID r in let D := tr_DestinationAccountID r in
  S ≠ D → event_amount_ok (tr_Amount r) → event_amount_ok (tr_Fee r) → event_time at_ →
  short_streams m →
  src1 = (if tr_Fee r >? 0 then stream m S ++ [transfer_debit r at_ (tr_Fee r) "fee" (stream m S)]
          else stream m S) →
  let src2 := src1 ++ [transfer_debit r at_ (tr_Amount r) "transfer" src1] in
  let dst1 := stream m D ++ [transfer_credit r at_ (stream m D)] in
  ∃ da db d2,
    evals (if tr_Fee r >? 0 then
             let ev := transfer_debit r at_ (tr_Fee r) "fee" (stream m S) in
             _ ← Pg.insertEventTx ev; mret (stream m S ++ [ev])
           else mret (stream m S) : tx O (list Event)) d (Ok src1) da ∧
    evals (Pg.insertEventTx (transfer_debit r at_ (tr_Amount r) "transfer" src1) : tx O unit) da (Ok tt) db ∧
    evals (Pg.insertEventTx (transfer_credit r at_ (stream m D)) : tx O unit) db (Ok tt) d2 ∧
    represents objects (put_stream D dst1 (put_stream S src2 m)) d2 o.
Proof.
  intros S D HSD [Ha Han] [Hf Hfn] Ht Hshort Hsrc1 src2 dst1.
  pose proof (Hshort S) as HS. pose proof (Hshort D) as HD.
  assert (∀ amount purpose l, event_amount_ok amount → seq_of l ≤ MaxInt64 →
    storable (transfer_debit r at_ amount purpose l)) as Hdebit.
  { intros amount purpose l [? ?] Hl. split; simpl; try done. unfold seq_of in *. lia. }
  assert (storable (transfer_credit r at_ (stream m D))) as Hcredit.
  { split; simpl; try done. unfold seq_of in *. lia. }
  assert (∃ m1 da, stream m1 S = src1 ∧ stream m1 D = stream m D ∧
    put_stream S src2 m1 = put_stream S src2 m ∧ represents objects m1 da o ∧
    evals (if tr_Fee r >? 0 then
             let ev := transfer_debit r at_ (tr_Fee r) "fee" (stream m S) in
             _ ← Pg.insertEventTx ev; mret (stream m S ++ [ev])
           else mret (stream m S) : tx O (list Event)) d (Ok src1) da) as (m1 & da & HS1 & HD1 & Hput & Hrep1 & Hev1).
  { destruct (tr_Fee r >? 0).
    - set (fee := transfer_debit r at_ (tr_Fee r) "fee" (stream m S)) in *.
      assert (storable fee) as Hst by (apply Hdebit; [done|lia]).
      exists (appended m fee), (inserted m fee d). split_and!.
      + unfold appended. simpl. fold S. by rewrite stream_put, decide_True.
      + unfold appended. simpl. fold S. by rewrite stream_put, decide_False.
      + apply put_put.
      + by apply appended_represents.
      + subst src1. eapply evals_bind; [by eapply evals_insert|apply evals_ret].
    - subst src1. exists m, d. split_and!; try done. }
  assert (seq_of src1 ≤ MaxInt64) as Hlen.
  { subst src1. unfold seq_of in *. case_match; [rewrite length_app; simpl|]; lia. }
  set (debit := transfer_debit r at_ (tr_Amount r) "transfer" src1) in *.
  set (credit := transfer_credit r at_ (stream m D)) in *.
  assert (appended m1 debit = put_stream S src2 m) as Happ.
  { unfold appended. simpl. fold S. by rewrite HS1. }
  assert (represents objects (appended m1 debit) (inserted m1 debit da) o) as Hrep2
    by (apply appended_represents; [done|by apply Hdebit]).
  exists da, (inserted m1 debit da), (inserted (appended m1 debit) credit (inserted m1 debit da)).
  split_and!; [done|..].
  - eapply evals_insert; [done..|by apply Hdebit|]. simpl. fold S. by rewrite HS1.
  - eapply evals_insert; [done..|]. simpl. fold D. rewrite Happ, stream_put, decide_False by done. done.
  - rewrite <-Happ. unfold dst1.
    replace (stream m D) with (stream (appended m1 debit) D) at 1
      by (rewrite Happ, stream_put; by rewrite decide_False).
    by apply (appended_represents objects (appended m1 debit) _ o credit).
Qed.

(** Whether a transfer is posted. *)
Lemma posted_agrees t :
  bool_decide (is_Some (db_ledger_postings d !! t)) = default false (ms_ledgerPostings m !! t).
Proof.
  pose proof (rp_postings _ _ _ _ rep t) as Hp. destruct (default false _).
  - apply bool_decide_eq_true_2. by apply Hp.
  - apply bool_decide_eq_false_2. intros Hs. by apply Hp in Hs.
Qed.

Lemma sim_PostTransferLedger r at_ :
  pg_pre (cPostTransferLedger r at_) m → simulated (cPostTransferLedger r at_).
Proof.
  intros (Hr & Ha & Hf & HSD & HS & HD & Ht & Hshort).
  unfold simulated. store_cbv. unfold MemoryStore.PostTransferLedger.
  pose proof (evals_query no_fault (O:=O) (λ d, bool_decide (is_Some (db_ledger_postings d !! tr_ID r))) d)
    as Hposted. cbv beta in Hposted. rewrite posted_agrees in Hposted.
  destruct (default false (ms_ledgerPostings m !! tr_ID r)) eqn:Hp.
  { eapply by_tx; [done|do 2 tx_step; eapply evals_bind; [exact Hposted|]; do 2 tx_step|done..]. }
  assert ((seq_of (stream m (tr_SourceAccountID r)) =? 0) ||
          (seq_of (stream m (tr_DestinationAccountID r)) =? 0) = false) as Hempty.
  { apply orb_false_iff. unfold seq_of.
    destruct (stream m (tr_SourceAccountID r)), (stream m (tr_DestinationAccountID r)); done. }
  rewrite Hempty. cbv zeta.
  set (src1 := if tr_Fee r >? 0 then _ else _).
  destruct (evals_legs r at_ src1) as (da & db & d2 & Hfee & Hdebit & Hcredit & Hrep2); [done..|].
  eapply by_tx; [done|..].
  - do 2 tx_step. eapply evals_bind; [exact Hposted|]. do 2 tx_step.
    eapply evals_bind; [exact Hfee|]. cbv zeta. eapply evals_bind; [exact Hdebit|].
    eapply evals_bind; [exact Hcredit|]. eapply evals_bind; [|tx_step].
    apply (evals_exec no_fault _ _ tt (with_postings (<[tr_ID r := tt]> (db_ledger_postings d2)) d2)).
    unfold insert_posting, refers.
    rewrite (bool_decide_eq_false_2 (is_Some _)), bool_decide_eq_true_2; [done|..].
    + by rewrite (rp_transfers _ _ _ _ Hrep2).
    + intros Hs%(rp_postings _ _ _ _ Hrep2). simpl in Hs. congruence.
  - done.
  - split; try apply Hrep2. simpl. intros t. destruct (decide (tr_ID r = t)) as [<-|Hne].
    + rewrite !lookup_insert_eq. by split; [eexists|].
    + rewrite !lookup_insert_ne by done. apply (rp_postings _ _ _ _ Hrep2).
Qed.

Lemma sim_finish r at_ target (op : storeE (go_result unit)) :
  (target = "captured" ∧ op = cCaptureTransferReservation r at_ ∨
   target = "released" ∧ op = cReleaseTransferReservation r at_) →
  event_time at_ → short_streams m → simulated op.
Proof.
  intros Hop Ht Hshort.
  assert (Pg.method objects op = Pg.finishTransferReservation r at_ target) as Hpg
    by by destruct Hop as [[-> ->]|[-> ->]].
  assert (store_call G op m = finishReservation r at_ target m) as Hmem
    by by destruct Hop as [[-> ->]|[-> ->]].
  assert (∀ x y, x = y → agree op m x y) as Hagree by (destruct Hop as [[_ ->]|[_ ->]]; done).
  assert (target ∈ ["reserved"; "captured"; "released"]) as Htarget
    by (destruct Hop as [[-> _]|[-> _]]; set_solver).
  clear Hop. unfold simulated. rewrite Hmem. unfold finishReservation.
  pose proof (evals_query no_fault (O:=O) (λ d, db_account_reservations d !! tr_ID r) d) as Hhold.
  cbv beta in Hhold. rewrite (rp_reservations _ _ _ _ rep) in Hhold.
  destruct (ms_reservations m !! tr_ID r) as [hold|] eqn:Hh.
  2: { eapply by_tx; [exact Hpg|tx_step; eapply evals_bind; [exact Hhold|]; tx_step|by apply Hagree|done]. }
  destruct (bool_decide (res_State hold = target)) eqn:Hst.
  { eapply by_tx; [exact Hpg|tx_step; eapply evals_bind; [exact Hhold|]; cbv beta iota zeta; rewrite Hst; tx_step
                  |by apply Hagree|done]. }
  destruct (negb (bool_decide (res_State hold = "reserved"))) eqn:Hres.
  { eapply (by_fail _ _ _ d); [exact Hpg|done|by apply Hagree|].
    tx_step. eapply evals_bind; [exact Hhold|]. cbv beta iota zeta. rewrite Hst, Hres. tx_step. }
  cbv zeta. set (account := res_AccountID hold). set (ev := if bool_decide (target = "captured") then _ else _).
  set (m1 := set_reservations _ m).
  specialize (Hshort account).
  assert (int64_ok (res_Amount hold) ∧ res_Amount hold ≠ MinInt64) as [Ha Hne].
  { split; [by eapply (wf_reservation m)|]. pose proof (ok_holds _ ok) as Hok.
    rewrite (rp_reservations _ _ _ _ rep) in Hok. destruct (Hok _ _ Hh) as [Hpos _ _].
    unfold MinInt64. lia. }
  assert (AggregateID ev = account ∧ Version ev = seq_of (stream m account) ∧ storable ev) as (Hid & Hv & Hev).
  { unfold ev. destruct (bool_decide (target = "captured")). all: refine (conj _ (conj _ _)); try done.
    all: split; simpl; try done; unfold seq_of in *; lia. }
  assert (represents objects (appended m ev) (inserted m ev d) o) as Hrep1 by by apply appended_represents.
  eapply by_tx; [exact Hpg|..].
  - tx_step. eapply evals_bind; [exact Hhold|]. cbv beta iota zeta. rewrite Hst, Hres. tx_step. fold account. fold ev.
    eapply evals_bind; [eapply evals_insert; [done..|by rewrite Hid]|].
    eapply evals_bind; [|tx_step].
    apply (evals_exec no_fault _ _ tt (with_reservations
      (<[tr_ID r := mkMemoryReservation account (res_Amount hold) target]>
         (db_account_reservations (inserted m ev d))) (inserted m ev d))).
    unfold update_reservation, check. rewrite bool_decide_eq_true_2 by done.
    rewrite (rp_reservations _ _ _ _ Hrep1). change (ms_reservations (appended m ev)) with (ms_reservations m).
    by rewrite Hh.
  - by apply Hagree.
  - split; try apply Hrep1; simpl.
    + intros id n. pose proof (rp_events _ _ _ _ Hrep1 id n) as He. unfold appended in He. rewrite Hid in He. exact He.
    + intros id n ev'. pose proof (rp_stored _ _ _ _ Hrep1 id n ev') as He. unfold appended in He. rewrite Hid in He. exact He.
    + by rewrite (rp_reservations _ _ _ _ rep).
Qed.

(** ** Due transfers *)

Definition is_due (now : Time) (r : TransferRecord) : bool :=
  bool_decide (tr_Status r = TransferPending) && (tr_NextAttemptAt r <=? now).

Lemma due_filter now (l : list TransferRecord) :
  filter (λ r, tr_Status r = TransferPending ∧ tr_NextAttemptAt r ≤ now) l =
  filter (λ r, is_due now r = true) l.
Proof.
  apply list_filter_iff. intros r. unfold is_due. rewrite andb_true_iff, bool_decide_eq_true, Z.leb_le. done.
Qed.

(** The loop of the in-memory store stops at the limit. *)
Lemma collect_due_take now limit out entries :
  Z.of_nat (length out) < limit →
  collect_due now limit out entries =
  out ++ take (Z.to_nat limit - length out) (filter (λ r, is_due now r = true) entries.*2).
Proof.
  revert out. induction entries as [|[k r] entries IH]; intros out Hout; simpl.
  { destruct (_ - _)%nat; by rewrite app_nil_r. }
  fold (is_due now r). rewrite filter_cons. destruct (is_due now r).
  - rewrite decide_True by done. destruct (Z.leb_spec limit (Z.of_nat (length (out ++ [r])))) as [Hl|Hl];
      rewrite length_app in Hl; simpl in Hl.
    + replace (Z.to_nat limit - length out)%nat with 1%nat by lia. done.
    + rewrite IH by (rewrite length_app; simpl; lia). rewrite length_app, <-app_assoc. simpl.
      replace (Z.to_nat limit - length out)%nat with (S (Z.to_nat limit - (length out + 1))) by lia. done.
  - by rewrite decide_False, IH.
Qed.

(** The first [limit] of the due transfers, in some order. *)
Lemma due_answer_take now limit l :
  l ≡ₚ due now m → due_answer now limit m (Ok (take (Z.to_nat limit) l)).
Proof.
  intros Hl. eexists. split_and!; [done|..].
  - rewrite <-Hl. apply sublist_submseteq, sublist_take.
  - by rewrite length_take, Hl.
Qed.

Lemma due_answer_perm now limit l l' :
  l ≡ₚ l' → due_answer now limit m (Ok l') → due_answer now limit m (Ok l).
Proof.
  intros Hl (l'' & [= <-] & Hsub & Hlen). exists l. split_and!; [done|by rewrite Hl|by rewrite Hl].
Qed.

Lemma sim_ListDueTransfers now limit :
  pg_pre (cListDueTransfers now limit) m → simulated (cListDueTransfers now limit).
Proof.
  intros [Hnow Hlimit]. eapply simulated_read; [done|..].
  - apply runs_exec_or; [done|]. unfold select_due, check. by rewrite (proj2 (Z.leb_le _ _)) by lia.
  - simpl. unfold MemoryStore.ListDueTransfers. rewrite micro_kept by done. split.
    + eapply due_answer_perm; [apply sort_slice_perm|]. rewrite collect_due_take by (simpl; lia).
      simpl. rewrite Nat.sub_0_r. apply due_answer_take. unfold due. by rewrite due_filter, range_map_perm.
    + apply due_answer_take. unfold order_by, sql_rows, due. rewrite sort_slice_perm, due_filter.
      by rewrite range_map_perm, (rp_transfers _ _ _ _ rep).
Qed.
End Simulation.
