(* ===== verification/RefinesReviews.v ===== *)
(** * The refinement, for customers, admins, sessions and adjustments. *)
From S2P Require Export Refines.

Section Simulation.
Context {O : Type} `{Postgres} `{JsonErrors} (objects : option (PassportObjectStore O)).
Hypothesis no_fault : ∀ n, sql_fault n = None.
Hypothesis laws : match objects with Some objects' => ObjectLaws objects' | None => True end.
Context (G : GoRuntime) (m : MemoryStore) (d : Database) (o : O).
Hypothesis rep : represents objects m d o.
Hypothesis ok : db_ok d.
Hypothesis wf : store_wf m.
#[local] Abbreviation simulated := (simulated objects G m d o).

(** ** Customers *)

Lemma customer_of_fields c row :
  customer_of objects o c row →
  summary (cr_customer row) = summary c ∧ Pg.detail (cr_customer row) = Pg.detail c ∧
  Pg.login_columns (cr_customer row) = Pg.login_columns c ∧
  cus_GovernmentDocument (cr_customer row) = cus_GovernmentDocument c ∧
  cus_PassportImageMIME (cr_customer row) = cus_PassportImageMIME c ∧
  cus_KYCStatus (cr_customer row) = cus_KYCStatus c ∧ cus_Email (cr_customer row) = cus_Email c ∧
  cus_AccountID (cr_customer row) = cus_AccountID c ∧ cus_ID (cr_customer row) = cus_ID c ∧
  cus_RejectionReason (cr_customer row) = cus_RejectionReason c ∧
  cus_RequestedDeposit (cr_customer row) = cus_RequestedDeposit c.
Proof. by intros [[_ ->]|(_ & -> & _)]. Qed.

Lemma customer_row_of id c :
  ms_customers m !! id = Some c → ∃ row, db_customers d !! id = Some row ∧ customer_of objects o c row.
Proof.
  intros Hc. pose proof (rp_customers _ _ _ _ rep id) as Hr. rewrite Hc in Hr.
  inversion Hr as [? row ? Hx Hy|]. by exists row.
Qed.
Lemma row_customer_of id row :
  db_customers d !! id = Some row → ∃ c, ms_customers m !! id = Some c ∧ customer_of objects o c row.
Proof.
  intros Hc. pose proof (rp_customers _ _ _ _ rep id) as Hr. rewrite Hc in Hr.
  inversion Hr as [c ? ? Hx Hy|]. by exists c.
Qed.
Lemma no_customer_row id : ms_customers m !! id = None → db_customers d !! id = None.
Proof.
  intros Hc. pose proof (rp_customers _ _ _ _ rep id) as Hr. rewrite Hc in Hr. by inversion Hr.
Qed.

Lemma runs_row id row :
  db_customers d !! id = Some row →
  runs (Pg.found ErrApplicationNotFound Pg.pg_error (select_customer id)) d o (Ok row) d o.
Proof. intros Hrow. apply runs_found_row; [done|]. unfold select_customer, query. by rewrite Hrow. Qed.
Lemma runs_no_row id :
  db_customers d !! id = None →
  runs (Pg.found ErrApplicationNotFound Pg.pg_error (select_customer id)) d o (Err ErrApplicationNotFound) d o.
Proof. intros Hrow. apply runs_found_none; [done|]. unfold select_customer, query. by rewrite Hrow. Qed.

Lemma sim_GetApplication id : simulated (cGetApplication id).
Proof.
  destruct (ms_customers m !! id) as [c|] eqn:Hc.
  - destruct (customer_row_of id c Hc) as (row & Hrow & Hof). eapply simulated_read; [done|done|..].
    + eapply runs_try; [by eapply runs_row|apply runs_done].
    + simpl. unfold GetApplication. rewrite Hc. f_equal. by destruct (customer_of_fields c row Hof) as (_ & -> & _).
  - eapply simulated_read; [done|done|by apply runs_try_err, runs_no_row, no_customer_row|].
    simpl. unfold GetApplication. by rewrite Hc.
Qed.

Lemma sim_GetPassportImage id : simulated (cGetPassportImage id).
Proof.
  destruct (ms_customers m !! id) as [c|] eqn:Hc.
  - destruct (customer_row_of id c Hc) as (row & Hrow & Hof).
    assert (MemoryStore.GetPassportImage id m = Ok (cus_PassportImage c, cus_PassportImageMIME c)) as Hm
      by (unfold MemoryStore.GetPassportImage; by rewrite Hc).
    eapply simulated_read; [done|done|..|simpl; rewrite Hm; reflexivity].
    cbn [Pg.method]. unfold Pg.GetPassportImage. eapply runs_try; [by apply runs_row|]. cbv zeta.
    destruct Hof as [[Hkey ->]|(Hkey & Hrow' & Hget)].
    + rewrite Hkey, bool_decide_eq_true_2 by done. apply runs_done.
    + rewrite bool_decide_eq_false_2, Hkey, Hrow' by by rewrite Hkey.
      destruct objects as [objects'|]; [|done]. intros n. simpl. rewrite Hget. by eexists.
  - eapply simulated_read; [done|done|by apply runs_try_err, runs_no_row, no_customer_row|].
    simpl. unfold MemoryStore.GetPassportImage. by rewrite Hc.
Qed.

(** ** Logins and sessions *)

Lemma lower_same email x : lower_case email → sql_lower x = x →
  bool_decide (sql_lower x = sql_lower email) = bool_decide (x = email).
Proof. by intros -> ->. Qed.

Lemma find_admin_agrees email :
  lower_case email →
  sql_first (same_admin email) (db_admins d) =
  snd <$> range_find (λ a, bool_decide (adm_Email a = email)) (ms_admins m).
Proof.
  intros Hlow. destruct (rp_lower _ _ _ _ rep) as [_ Hadm]. rewrite (rp_admins _ _ _ _ rep).
  apply (first_agrees G).
  - intros k a Ha. by apply lower_same, (Hadm _ _ Ha).
  - intros k k' a a' Ha Ha' Hq Hq'. pose proof (ok_admin_emails _ ok) as Hidx.
    rewrite (rp_admins _ _ _ _ rep) in Hidx. eapply (Hidx k k' a a'); [done..|reflexivity|].
    unfold admin_index. boolify. congruence.
Qed.

Lemma sim_FindAdminByEmail email :
  pg_pre (cFindAdminByEmail email) m → simulated (cFindAdminByEmail email).
Proof.
  intros Hlow. eapply simulated_read; [done|done|by apply runs_found|]. simpl. unfold MemoryStore.FindAdminByEmail.
  rewrite find_admin_agrees by done. by destruct (range_find _ _) as [[k a]|].
Qed.

Lemma sim_UpsertAdmin a : pg_pre (cUpsertAdmin a) m → simulated (cUpsertAdmin a).
Proof.
  intros [Hlow Hsame]. unfold simulated. store_cbv. unfold MemoryStore.UpsertAdmin.
  pose proof (find_admin_agrees (adm_Email a) Hlow) as Hfind.
  destruct (rp_lower _ _ _ _ rep) as [Hcus Hadm].
  assert (∀ k h, map_Forall (λ _ a, sql_lower (adm_Email a) = adm_Email a)
    (<[k := mkAdmin h (adm_Email a) (adm_PasswordHash a)]> (ms_admins m))) as Hlow'
    by (intros k h; by apply map_Forall_insert_2).
  destruct (range_find _ _) as [[k old]|] eqn:Hf; simpl in Hfind.
  - apply range_find_Some in Hf as [Hk Hold]. boolify. pose proof (wf_admins _ wf _ _ Hk) as Hid.
    eexists _, _, o. split_and!; [apply runs_exec_or; [done|]|done|].
    + unfold upsert_admin. by rewrite Hfind.
    + rep_update rep. by rewrite Hid, Hold.
  - eexists _, _, o. split_and!; [apply runs_exec_or; [done|]|done|].
    + unfold upsert_admin. rewrite Hfind, bool_decide_eq_false_2; [done|].
      rewrite (rp_admins _ _ _ _ rep). intros [a' Ha']. rewrite range_find_None in Hf.
      specialize (Hf _ _ Ha'). simpl in Hf. boolify. by apply Hf, Hsame.
    + rep_update rep. split; [done|]. destruct a. apply Hlow'.
Qed.

Lemma sim_FindCustomerByEmail email :
  pg_pre (cFindCustomerByEmail email) m → simulated (cFindCustomerByEmail email).
Proof.
  intros Hlow. destruct (rp_lower _ _ _ _ rep) as [Hcus _].
  assert (∀ k row, db_customers d !! k = Some row → ∃ c, ms_customers m !! k = Some c ∧
    customer_of objects o c row ∧
    same_login email (cr_customer row) = bool_decide (cus_Email c = email)) as Hrows.
  { intros k row Hrow. destruct (row_customer_of k row Hrow) as (c & Hc & Hof). exists c.
    split_and!; [done..|]. unfold same_login.
    destruct (customer_of_fields c row Hof) as (_ & _ & _ & _ & _ & _ & -> & _).
    by apply lower_same, (Hcus _ _ Hc). }
  pose proof (ok_emails _ ok) as Hidx.
  destruct (range_find (λ c, bool_decide (cus_Email c = email)) (ms_customers m)) as [[k c]|] eqn:Hf.
  - pose proof Hf as [Hk Hc]%range_find_Some. destruct (customer_row_of k c Hk) as (row & Hrow & Hof).
    assert (select_customer_by_email email d = Ok (Some (cr_customer row), d)) as Hsel.
    { unfold select_customer_by_email, query, sql_first.
      rewrite (@range_find_unique sql_order _ _ _ k row Hrow); [done|..].
      - destruct (Hrows k row Hrow) as (c' & Hc' & _ & ->). by simplify_eq.
      - intros k' row' Hrow' Hsame. eapply (Hidx k' k row' row); [done..|reflexivity|].
        destruct (Hrows k row Hrow) as (c1 & Hc1 & _ & He). unfold same_login, email_index in *.
        simplify_eq. rewrite Hc in He. boolify. congruence. }
    eapply simulated_read; [done|done|..].
    + eapply runs_try; [by apply runs_found_row|apply runs_done].
    + simpl. unfold MemoryStore.FindCustomerByEmail. rewrite Hf. simpl. f_equal.
      by destruct (customer_of_fields c row Hof) as (_ & _ & -> & _).
  - assert (select_customer_by_email email d = Ok (None, d)) as Hsel.
    { unfold select_customer_by_email, query.
      rewrite (proj2 (sql_first_None _ (db_customers d))); [done|]. intros k row Hrow.
      destruct (Hrows k row Hrow) as (c & Hc & _ & ->). rewrite range_find_None in Hf. by eapply Hf. }
    eapply simulated_read; [done|done|by apply runs_try_err, runs_found_none|].
    simpl. unfold MemoryStore.FindCustomerByEmail. by rewrite Hf.
Qed.

Lemma sim_CreateSession s : pg_pre (cCreateSession s) m → simulated (cCreateSession s).
Proof.
  intros (Hnew & Hexp & Hwho). unfold simulated. store_cbv. unfold MemoryStore.CreateSession.
  eexists _, _, o. split_and!; [apply runs_exec_or; [done|]|done|].
  - unfold insert_session. rewrite (rp_sessions _ _ _ _ rep), Hnew, micro_kept by done.
    rewrite (bool_decide_eq_false_2 (is_Some None)) by by intros []. unfold refers.
    destruct Hwho as [(Ha & Hc & [c Hid])|(Hc & Ha & Hid)].
    + destruct (customer_row_of _ c Hid) as (row & Hrow & _).
      rewrite (bool_decide_eq_false_2 (ses_CustomerID s = "")), (bool_decide_eq_true_2 (ses_AdminID s = "")) by done.
      simpl. by rewrite Hrow, bool_decide_eq_true_2 by done.
    + rewrite (bool_decide_eq_true_2 (ses_CustomerID s = "")), (bool_decide_eq_false_2 (ses_AdminID s = "")) by done.
      simpl. by rewrite (rp_admins _ _ _ _ rep), bool_decide_eq_true_2 by done.
  - rep_update rep. by destruct s.
Qed.

Lemma sim_FindSession h now : pg_pre (cFindSession h now) m → simulated (cFindSession h now).
Proof.
  intros Hnow. eapply simulated_read; [done|done|by apply runs_found|]. simpl.
  unfold MemoryStore.FindSession. rewrite micro_kept, (rp_sessions _ _ _ _ rep) by done.
  destruct (ms_sessions m !! h) as [s|] eqn:Hs; [|done].
  rewrite Z.leb_antisym. destruct (now <? ses_ExpiresAt s); [|done]. simpl.
  pose proof (ok_sessions _ ok) as Hok. rewrite (rp_sessions _ _ _ _ rep) in Hok.
  destruct (Hok _ _ Hs) as [_ Hid Hcus Hadm]. unfold joined.
  destruct (decide (ses_AdminID s = "")) as [Ha|Ha].
  - assert (ses_CustomerID s ≠ "") as Hc by (intros Hc; by apply Hid in Hc).
    destruct (Hcus Hc) as [row Hrow]. destruct (row_customer_of _ row Hrow) as (c & Hcm & Hof).
    destruct (customer_of_fields c row Hof) as (_ & _ & _ & _ & _ & Hk & He & Hacc & Hcid & Hr & _).
    destruct (wf_customers _ wf _ _ Hcm) as [Hkey _].
    rewrite Ha, bool_decide_eq_true_2, bool_decide_eq_false_2, Hrow, Hcm by done. simpl.
    by rewrite Hk, He, Hacc, Hr, Hkey.
  - assert (ses_CustomerID s = "") as Hc by by apply Hid.
    destruct (Hadm Ha) as [a Had]. rewrite (rp_admins _ _ _ _ rep) in Had |- *.
    rewrite Hc, bool_decide_eq_false_2, bool_decide_eq_true_2, Had by done. simpl.
    by rewrite (wf_admins _ wf _ _ Had).
Qed.

Lemma sim_DeleteSession h : simulated (cDeleteSession h).
Proof.
  unfold simulated. store_cbv. eexists _, _, o. split_and!; [by apply runs_exec_or|done|]. rep_update rep.
Qed.
End Simulation.
