(* ===== verification/RefinesApplications.v ===== *)
(** * The refinement, for applications: from onboarding to review. *)
From S2P Require Export RefinesReviews.

(** A filter by what a function shows, before or after it. *)
Lemma filter_shown {A B} (f : A → B) (P : B → Prop) (Q : A → Prop)
    `{∀ x, Decision (P x), ∀ x, Decision (Q x)} (l : list A) :
  (∀ x, Q x ↔ P (f x)) → f <$> filter Q l = filter P (f <$> l).
Proof.
  intros HPQ. induction l as [|x l IH]; [done|]. rewrite fmap_cons, !filter_cons, <-IH.
  repeat case_decide; try done; by rewrite HPQ in *.
Qed.

Section Simulation.
Context {O : Type} `{Postgres} `{JsonErrors} (objects : option (PassportObjectStore O)).
Hypothesis no_fault : ∀ n, sql_fault n = None.
Hypothesis laws : match objects with Some objects' => ObjectLaws objects' | None => True end.
Context (G : GoRuntime) (m : MemoryStore) (d : Database) (o : O).
Hypothesis rep : represents objects m d o.
Hypothesis ok : db_ok d.
Hypothesis wf : store_wf m.
#[local] Abbreviation simulated := (simulated objects G m d o).

(** ** Lists *)

Lemma summaries_agree :
  summary <$> ms_customers m = (λ r, summary (cr_customer r)) <$> db_customers d.
Proof.
  apply map_eq. intros id. rewrite !lookup_fmap.
  pose proof (rp_customers _ _ _ _ rep id) as Hr. inversion Hr as [c row Hof|]; simpl; [|done].
  f_equal. symmetry. by eapply customer_of_fields.
Qed.

Lemma sim_ListApplications status : simulated (cListApplications status).
Proof.
  eapply simulated_read; [done|done|eapply runs_try; [by apply runs_exec_or|apply runs_done]|].
  eexists _, _. split_and!; [done..|]. rewrite sort_slice_perm.
  rewrite (filter_shown summary (λ a, as_KYCStatus a = status) (λ c, cus_KYCStatus c = status)) by done.
  rewrite range_map_perm. unfold order_by. rewrite sort_slice_perm. unfold sql_rows.
  rewrite <-(list_fmap_compose cr_customer summary), (filter_shown (summary ∘ cr_customer) (λ a, as_KYCStatus a = status)
    (λ r, bool_decide (cus_KYCStatus (cr_customer r) = status) = true))
    by (intros r; simpl; apply bool_decide_eq_true).
  rewrite range_map_perm. apply Permutation_refl'. f_equal.
  pose proof (f_equal (λ t, (map_to_list t).*2) summaries_agree) as Hs. simpl in Hs.
  rewrite !map_to_list_fmap, <-!list_fmap_compose in Hs. rewrite <-!list_fmap_compose. exact Hs.
Qed.
(** ** Onboarding *)

(** The store keeps other people's images. *)
Definition others_kept (id : string) (o' : O) : Prop :=
  match objects with
  | Some objects' => ∀ key, key ≠ passport_key id → Get objects' key o' = Get objects' key o
  | None => True
  end.

Lemma customer_of_kept o' id c row :
  others_kept id o' → cus_ID c ≠ id → customer_of objects o c row → customer_of objects o' c row.
Proof.
  intros Hkept Hid [[? ?]|(? & ? & Hget)]; [by left|]. right. split_and!; [done..|].
  unfold others_kept in Hkept. destruct objects; [|done]. rewrite Hkept; [done|].
  unfold passport_key. intros Heq%(inj _). done.
Qed.

Lemma represents_kept o' id :
  ms_customers m !! id = None → others_kept id o' → represents objects m d o'.
Proof.
  intros Hid Hkept. split; try apply rep. intros k.
  pose proof (rp_customers _ _ _ _ rep k) as Hr. inversion Hr as [c row Hof Hc Hrow|]; constructor.
  eapply customer_of_kept; [done| |done]. destruct (wf_customers _ wf k c) as [-> _]; [done|]. congruence.
Qed.

Lemma represents_applied o' c row :
  ms_customers m !! cus_ID c = None → others_kept (cus_ID c) o' → lower_case (cus_Email c) →
  customer_of objects o' c row →
  represents objects (set_customers (<[cus_ID c := c]> (ms_customers m)) m)
    (with_customers (<[cus_ID c := row]> (db_customers d)) d) o'.
Proof.
  intros Hid Hkept Hlow Hof. pose proof (represents_kept o' _ Hid Hkept) as Hrep. split; try apply Hrep; simpl.
  - intros k. destruct (decide (k = cus_ID c)) as [->|Hne].
    + rewrite !lookup_insert_eq. by constructor.
    + rewrite !lookup_insert_ne by done. apply (rp_customers _ _ _ _ Hrep).
  - destruct (rp_lower _ _ _ _ Hrep). split; [|done]. by apply map_Forall_insert_2.
Qed.

Definition same_person (c existing : Customer) : bool :=
  bool_decide (cus_Email existing = cus_Email c) ||
  (let d := cus_GovernmentDocument existing in let d' := cus_GovernmentDocument c in
   bool_decide (gd_Type d = gd_Type d') && bool_decide (gd_Number d = gd_Number d') &&
   bool_decide (gd_IssuingCountry d = gd_IssuingCountry d')).

Lemma insert_customer_agrees c image key :
  ms_customers m !! cus_ID c = None → columns_keep c → lower_case (cus_Email c) →
  insert_customer c image key d =
    match range_find (same_person c) (ms_customers m) with
    | Some _ => Err (UniqueViolation "customers_email_unique, customers_document_unique")
    | None => Ok (tt, with_customers (<[cus_ID c := mkCustomerRow (with_image c image) key]> (db_customers d)) d)
    end.
Proof.
  intros Hid Hcol Hlow. unfold insert_customer. rewrite Hcol. cbv zeta.
  rewrite bool_decide_eq_false_2 by (rewrite (no_customer_row objects m d o rep) by done; by intros []).
  set (taken := λ existing, _ || _).
  assert (∀ k row, db_customers d !! k = Some row → ∃ c', ms_customers m !! k = Some c' ∧
    taken row = same_person c c') as Htaken.
  { intros k row Hrow. destruct (row_customer_of _ _ _ _ rep k row Hrow) as (c' & Hc' & Hof). exists c'.
    split; [done|]. unfold taken, same_person, same_login, same_document.
    destruct (customer_of_fields _ _ c' row Hof) as (_ & _ & _ & -> & _ & _ & -> & _). simpl.
    by rewrite Hlow, (proj1 (rp_lower _ _ _ _ rep) _ _ Hc'). }
  destruct (range_find _ _) as [[k c']|] eqn:Hf.
  - apply range_find_Some in Hf as [Hc' Hsame]. rewrite (proj2 (sql_exists_true _ _)); [done|].
    destruct (customer_row_of _ _ _ _ rep k c' Hc') as (row & Hrow & _). exists k, row. split; [done|].
    destruct (Htaken k row Hrow) as (c1 & Hc1 & ->). by simplify_eq.
  - rewrite (proj2 (sql_exists_false _ _)); [done|]. intros k row Hrow.
    destruct (Htaken k row Hrow) as (c' & Hc' & ->). rewrite range_find_None in Hf. by eapply Hf.
Qed.

(** The transaction of the method. *)
Lemma runs_insert_application c image key o' :
  ms_customers m !! cus_ID c = None → columns_keep c → lower_case (cus_Email c) →
  runs (Pg.insert_application c image key : pg O _) d o'
    (match range_find (same_person c) (ms_customers m) with
     | Some _ => Err ErrCustomerAlreadyExists | None => Ok tt end)
    (match range_find (same_person c) (ms_customers m) with
     | Some _ => d
     | None => with_customers (<[cus_ID c := mkCustomerRow (with_image c image) key]> (db_customers d)) d
     end) o'.
Proof.
  intros Hid Hcol Hlow. pose proof (insert_customer_agrees c image key Hid Hcol Hlow) as Hins.
  intros n. unfold Pg.insert_application.
  destruct (runs_transaction (O:=O) no_fault (Pg.wrap "begin onboarding") (Pg.wrap "commit onboarding")
    (_ ← Pg.tx_exec_or (λ e, match e with UniqueViolation _ => ErrCustomerAlreadyExists
                                        | _ => Pg.wrap "insert customer" e end) (insert_customer c image key);
     mret (Commit tt)) d o'
    (match range_find (same_person c) (ms_customers m) with
     | Some _ => Err ErrCustomerAlreadyExists | None => Ok (Commit tt) end)
    (match range_find (same_person c) (ms_customers m) with
     | Some _ => d
     | None => with_customers (<[cus_ID c := mkCustomerRow (with_image c image) key]> (db_customers d)) d
     end)) with (n := n) as [n' Hn'].
  - intros sv <-. unfold mbind, tx_bind, Pg.tx_exec_or, Pg.statement. rewrite no_fault, Hins.
    by destruct (range_find _ _).
  - exists n'. rewrite Hn'. by destruct (range_find _ _).
Qed.

Lemma runs_object {A} (f : O → A * O) o' a o'' :
  f o' = (a, o'') → runs (Pg.object_call f) d o' a d o''.
Proof. intros Hf n. exists n. unfold Pg.object_call. simpl. by rewrite Hf. Qed.

Lemma with_own_image c : with_image c (cus_PassportImage c) = c.
Proof. by destruct c. Qed.

(** With an object store the image is put first, and taken back where the
    application is refused. *)
Lemma runs_with_objects c objects' :
  objects = Some objects' →
  ms_customers m !! cus_ID c = None → columns_keep c → lower_case (cus_Email c) →
  ∃ o', others_kept (cus_ID c) o' ∧
    runs (Pg.method objects (cCreateCustomerApplication c)) d o
      (match range_find (same_person c) (ms_customers m) with
       | Some _ => Err ErrCustomerAlreadyExists | None => Ok tt end)
      (match range_find (same_person c) (ms_customers m) with
       | Some _ => d
       | None => with_customers (<[cus_ID c := mkCustomerRow (with_image c []) (passport_key (cus_ID c))]>
                                   (db_customers d)) d
       end) o' ∧
    (range_find (same_person c) (ms_customers m) = None →
     Get objects' (passport_key (cus_ID c)) o' = Ok (cus_PassportImage c)).
Proof.
  intros Hobj Hid Hcol Hlow. pose proof laws as Hlaws. unfold others_kept.
  cbn [Pg.method]. unfold Pg.CreateCustomerApplication. rewrite Hobj in Hlaws |- *.
  set (key := passport_key (cus_ID c)).
  set (put := Put objects' key (cus_PassportImage c) (cus_PassportImageMIME c)).
  set (o1 := (put o).2). set (o2 := (PostgresStore.Delete objects' key o1).2).
  assert (∀ key', key' ≠ key → Get objects' key' o1 = Get objects' key' o) as Hother1
    by (intros; by apply get_put_other).
  assert (runs (Pg.object_call put) d o (Ok tt) d o1) as Hput.
  { apply runs_object. rewrite (surjective_pairing (put o)). f_equal. apply put_ok. }
  pose proof (runs_insert_application c [] key o1 Hid Hcol Hlow) as Hins.
  destruct (range_find _ _) as [[k c']|].
  - exists o2. split_and!; [|..|done].
    + intros key' Hkey. unfold o2. by rewrite get_delete_other, Hother1.
    + eapply runs_try; [exact Hput|]. eapply runs_bind; [exact Hins|].
      eapply runs_bind; [|apply runs_done]. apply (runs_object _ _ (PostgresStore.Delete objects' key o1).1).
      apply surjective_pairing.
  - exists o1. split_and!; [done|..|intros _; apply get_put].
    eapply runs_try; [exact Hput|]. eapply runs_bind; [exact Hins|]. apply runs_done.
Qed.

Lemma sim_CreateCustomerApplication c :
  pg_pre (cCreateCustomerApplication c) m → simulated (cCreateCustomerApplication c).
Proof.
  intros (Hid & Hcol & Hlow). unfold simulated. store_cbv. unfold MemoryStore.CreateCustomerApplication.
  fold (same_person c). rewrite Hid.
  assert (∃ ob, objects = ob) as [[objects'|] Hobj] by eauto.
  - destruct (runs_with_objects c objects' Hobj Hid Hcol Hlow) as (o' & Hkept & Hrun & Hget).
    destruct (range_find _ _) as [[k c']|]; eexists _, _, o'; (split_and!; [exact Hrun|done|]).
    + by eapply represents_kept.
    + apply represents_applied; [done..|]. right. split_and!; [done..|]. rewrite Hobj. by apply Hget.
  - assert (Pg.method objects (cCreateCustomerApplication c) =
      Pg.insert_application c (cus_PassportImage c) "") as ->
      by (cbn [Pg.method]; unfold Pg.CreateCustomerApplication; by rewrite Hobj).
    pose proof (runs_insert_application c (cus_PassportImage c) "" o Hid Hcol Hlow) as Hins.
    destruct (range_find _ _) as [[k c']|]; eexists _, _, o; (split_and!; [exact Hins|done|]); [done|].
    apply represents_applied; [done| |done|].
    + unfold others_kept. by rewrite Hobj.
    + left. split; [done|]. apply with_own_image.
Qed.
(** ** Review *)

Lemma reviewed_of o' c row status acc by_ reason at_ :
  customer_of objects o' c row →
  customer_of objects o' (reviewed c status acc by_ reason at_)
    (mkCustomerRow (reviewed (cr_customer row) status acc by_ reason at_) (cr_object_key row)).
Proof. intros [[? ->]|(? & -> & ?)]; [by left|by right]. Qed.

(** A reviewed customer, in both stores. *)
Lemma represents_reviewed m' d' id c row status acc by_ reason at_ :
  represents objects m' d' o → ms_customers m' !! id = Some c → customer_of objects o c row →
  represents objects
    (set_customers (<[id := reviewed c status acc by_ reason at_]> (ms_customers m')) m')
    (with_customers (<[id := mkCustomerRow (reviewed (cr_customer row) status acc by_ reason at_)
                               (cr_object_key row)]> (db_customers d')) d') o.
Proof.
  intros Hrep Hc Hof. split; try apply Hrep; simpl.
  - intros k. destruct (decide (k = id)) as [->|Hne].
    + rewrite !lookup_insert_eq. constructor. by apply reviewed_of.
    + rewrite !lookup_insert_ne by done. apply (rp_customers _ _ _ _ Hrep).
  - destruct (rp_lower _ _ _ _ Hrep) as [Hlow ?]. split; [|done].
    apply map_Forall_insert_2; [|done]. exact (Hlow _ _ Hc).
Qed.

Lemma sim_RejectApplication id adm reason at_ :
  pg_pre (cRejectApplication id adm reason at_) m → simulated (cRejectApplication id adm reason at_).
Proof.
  intros [Hadm Hat]. unfold simulated. store_cbv. unfold MemoryStore.RejectApplication.
  cbn [Pg.method]. unfold Pg.RejectApplication.
  destruct (ms_customers m !! id) as [c|] eqn:Hc.
  - destruct (customer_row_of _ _ _ _ rep id c Hc) as (row & Hrow & Hof).
    destruct (customer_of_fields _ _ c row Hof) as (_ & _ & _ & _ & _ & Hst & _ & Hacc & _).
    assert (reject_customer id adm reason at_ d =
      if negb (bool_decide (cus_KYCStatus c = KYCWaiting)) then Ok (0, d)
      else Ok (1, with_customers (<[id := mkCustomerRow
             (reviewed (cr_customer row) KYCRejected (cus_AccountID c) adm reason at_)
             (cr_object_key row)]> (db_customers d)) d)) as Hrej.
    { unfold reject_customer, refers. rewrite Hrow, Hst, (rp_admins _ _ _ _ rep), micro_kept by done.
      by rewrite (bool_decide_eq_true_2 (is_Some (ms_admins m !! adm))), Hacc by done. }
    destruct (negb _); eexists _, _, o; (split_and!; [|reflexivity|]);
      try (eapply runs_try; [by apply runs_exec_or|]).
    + eapply runs_try; [apply runs_exec_or; [done|reflexivity]|]. simpl.
      rewrite Hrow, bool_decide_eq_true_2 by done. apply runs_done.
    + done.
    + apply runs_done.
    + by apply represents_reviewed.
  - assert (reject_customer id adm reason at_ d = Ok (0, d)) as Hrej.
    { unfold reject_customer. by rewrite (no_customer_row objects m d o rep). }
    eexists _, d, o. split_and!; [|reflexivity|done].
    eapply runs_try; [by apply runs_exec_or|].
    eapply runs_try; [apply runs_exec_or; [done|reflexivity]|].
    rewrite (no_customer_row objects m d o rep) by done. apply runs_done.
Qed.

(** The account number is new: no customer has it. *)
Lemma approve_agrees id adm acc at_ m' d' c row :
  represents objects m' d' o → ms_customers m' !! id = Some c → db_customers d' !! id = Some row →
  is_Some (ms_admins m' !! adm) → (∀ k c, ms_customers m' !! k = Some c → cus_AccountID c ≠ acc) →
  micro at_ → customer_of objects o c row →
  approve_customer id acc adm at_ d' = Ok (tt, with_customers
    (<[id := mkCustomerRow (reviewed (cr_customer row) KYCApproved acc adm (cus_RejectionReason c) at_)
               (cr_object_key row)]> (db_customers d')) d').
Proof.
  intros Hrep Hc Hrow Hadm Hacc Hat Hof. unfold approve_customer, refers.
  rewrite Hrow, (rp_admins _ _ _ _ Hrep), micro_kept by done.
  rewrite (bool_decide_eq_true_2 (is_Some (ms_admins m' !! adm))) by done.
  rewrite (proj2 (sql_exists_false _ _)).
  - by destruct (customer_of_fields _ _ c row Hof) as (_ & _ & _ & _ & _ & _ & _ & _ & _ & -> & _).
  - intros k row' Hrow'. destruct (row_customer_of _ _ _ _ Hrep k row' Hrow') as (c' & Hc' & Hof').
    destruct (customer_of_fields _ _ c' row' Hof') as (_ & _ & _ & _ & _ & _ & _ & -> & _).
    by rewrite bool_decide_eq_false_2 by by eapply Hacc.
Qed.

Lemma sim_ApproveApplication id adm acc at_ :
  pg_pre (cApproveApplication id adm acc at_) m → simulated (cApproveApplication id adm acc at_).
Proof.
  intros (Hadm & Hnew & Hacc & Hdep & Hat & Hyear). unfold simulated. store_cbv.
  unfold MemoryStore.ApproveApplication.
  destruct (ms_customers m !! id) as [c|] eqn:Hc.
  2: { eapply (by_fail objects no_fault m d o rep _ _ _ d); [done|done|done|].
       eapply evals_bind; [by apply evals_query|]. cbv beta.
       rewrite (no_customer_row objects m d o rep) by done. apply evals_of. }
  destruct (customer_row_of _ _ _ _ rep id c Hc) as (row & Hrow & Hof).
  destruct (customer_of_fields _ _ c row Hof) as (_ & _ & _ & _ & _ & Hst & _ & _ & _ & _ & Hd).
  destruct (negb (bool_decide (cus_KYCStatus c = KYCWaiting))) eqn:Hwait.
  { eapply (by_fail objects no_fault m d o rep _ _ _ d); [done|done|done|].
    eapply evals_bind; [by apply evals_query|]. cbv beta. rewrite Hrow. cbv beta iota zeta.
    rewrite Hst, Hwait. apply evals_of. }
  set (ev := EAccountOpened _). cbv zeta.
  assert (stream m acc = []) as Hempty by (unfold stream; by rewrite Hnew).
  assert (storable ev) as Hev.
  { split; simpl; try done; [|by eapply Hdep]. by apply (wf_customers _ wf _ _ Hc). }
  pose proof (appended_represents objects m d o ev rep Hev) as Hrep1.
  eapply (by_tx objects no_fault m d o); [done|..].
  - eapply evals_bind; [by apply evals_query|]. cbv beta. rewrite Hrow. cbv beta iota zeta.
    rewrite Hst, Hwait, Hd. fold ev.
    eapply evals_bind; [eapply evals_insert; [done..|simpl; by rewrite Hempty]|].
    eapply evals_bind; [|apply evals_ret]. apply evals_exec; [done|].
    by eapply (approve_agrees id adm acc at_ (appended m ev) (inserted m ev d)).
  - done.
  - pose proof (represents_reviewed _ _ id c row KYCApproved acc adm (cus_RejectionReason c) at_ Hrep1 Hc Hof)
      as Hrep2. unfold appended, put_stream, set_customers, set_streams in *. simpl in *.
    rewrite Hempty in Hrep2. exact Hrep2.
Qed.
End Simulation.
