(* ===== verification/RefinesAdjustments.v ===== *)
(** * The refinement, for adjustments and their review. *)
From S2P Require Export RefinesApplications.

Section Simulation.
Context {O : Type} `{Postgres} `{JsonErrors} (objects : option (PassportObjectStore O)).
Hypothesis no_fault : ∀ n, sql_fault n = None.
Context (G : GoRuntime) (m : MemoryStore) (d : Database) (o : O).
Hypothesis rep : represents objects m d o.
Hypothesis ok : db_ok d.
Hypothesis wf : store_wf m.
#[local] Abbreviation simulated := (simulated objects G m d o).

Lemma sim_GetAdjustment id : simulated (cGetAdjustment id).
Proof.
  eapply simulated_read; [done|done|by apply runs_found|]. simpl. unfold MemoryStore.GetAdjustment.
  rewrite (rp_adjustments _ _ _ _ rep). by destruct (ms_adjustments m !! id).
Qed.

Lemma sim_ListAdjustments status : simulated (cListAdjustments status).
Proof.
  eapply simulated_read; [done|done|by apply runs_exec_or|].
  eexists _, _. split_and!; [done..|]. unfold order_by, sql_rows. rewrite !sort_slice_perm.
  rewrite (rp_adjustments _ _ _ _ rep), !range_map_perm. apply Permutation_refl'.
  apply list_filter_iff. intros r. by rewrite bool_decide_eq_true.
Qed.

(** ** New requests *)

(** Decides what the hypotheses decide. *)
#[local] Ltac by_cases :=
  repeat match goal with
    | H : ?P |- context [bool_decide ?P] => rewrite (bool_decide_eq_true_2 P) by done
    | H : ¬ ?P |- context [bool_decide ?P] => rewrite (bool_decide_eq_false_2 P) by done
    end;
  simpl; repeat case_bool_decide; simpl; congruence.

Lemma transfer_key t a :
  t ≠ "" → bool_decide (transfer_reversal a = Some t) =
  bool_decide (adj_OriginalTransferID a = t) && negb (bool_decide (adj_Status a = AdjustmentRejected)).
Proof.
  intros Ht. unfold transfer_reversal, AdjustmentRejected.
  destruct (decide (adj_OriginalTransferID a = "")), (decide (adj_Status a = "rejected")); by_cases.
Qed.
Lemma event_key acc seq a :
  acc ≠ "" → bool_decide (event_reversal a = Some (acc, seq)) =
  bool_decide (adj_OriginalAccountID a = acc) && bool_decide (adj_OriginalEventSequence a = Some seq) &&
  negb (bool_decide (adj_Status a = AdjustmentRejected)).
Proof.
  intros Hacc. unfold event_reversal, AdjustmentRejected.
  destruct (decide (adj_OriginalAccountID a = "")), (decide (adj_Status a = "rejected")),
    (adj_OriginalEventSequence a); by_cases.
Qed.

(** No other request has a key of the unique indexes. *)
Definition keys_free (r : AdjustmentRequest) : Prop :=
  index_taken transfer_reversal r (db_adjustment_requests d) = false ∧
  index_taken event_reversal r (db_adjustment_requests d) = false.

Lemma key_free {I} `{EqDecision I} (index : AdjustmentRequest → option I) r :
  (∀ i, index r = Some i → ∀ k a, db_adjustment_requests d !! k = Some a → index a ≠ Some i) →
  index_taken index r (db_adjustment_requests d) = false.
Proof.
  intros Hfree. unfold index_taken. destruct (index r) as [i|]; [|done]. apply sql_exists_false.
  intros k a Ha. by rewrite andb_comm, bool_decide_eq_false_2 by by eapply Hfree.
Qed.

(** A request with the key of its transfer, or of its event. *)
Lemma transfer_free r :
  range_find (λ a, bool_decide (adj_OriginalTransferID a = adj_OriginalTransferID r) &&
                   negb (bool_decide (adj_Status a = AdjustmentRejected))) (ms_adjustments m) = None →
  adj_OriginalTransferID r ≠ "" → adj_OriginalEventSequence r = None → keys_free r.
Proof.
  rewrite range_find_None. intros Hf Ht Hs. rewrite <-(rp_adjustments _ _ _ _ rep) in Hf. split; apply key_free.
  - intros i Hi k a Ha Hai. specialize (Hf k a Ha). rewrite <-transfer_key, bool_decide_eq_false in Hf by done.
    apply Hf. unfold transfer_reversal in Hi. case_match; [done|]. by simplify_eq.
  - intros i Hi. unfold event_reversal in Hi. rewrite Hs in Hi. by case_match.
Qed.
Lemma event_free r seq :
  range_find (λ a, bool_decide (adj_OriginalAccountID a = adj_OriginalAccountID r) &&
                   bool_decide (adj_OriginalEventSequence a = Some seq) &&
                   negb (bool_decide (adj_Status a = AdjustmentRejected))) (ms_adjustments m) = None →
  adj_OriginalTransferID r = "" → adj_OriginalAccountID r ≠ "" →
  adj_OriginalEventSequence r = Some seq → keys_free r.
Proof.
  rewrite range_find_None. intros Hf Ht Hacc Hs. rewrite <-(rp_adjustments _ _ _ _ rep) in Hf. split; apply key_free.
  - intros i Hi. unfold transfer_reversal in Hi. by rewrite Ht in Hi.
  - intros i Hi k a Ha Hai. specialize (Hf k a Ha). rewrite <-event_key, bool_decide_eq_false in Hf by done.
    apply Hf. unfold event_reversal in Hi. rewrite Hs in Hi. case_match; [done|]. by simplify_eq/=.
Qed.
Lemma manual_free r :
  adj_OriginalTransferID r = "" → adj_OriginalEventSequence r = None → keys_free r.
Proof.
  intros Ht Hs. split; apply key_free; intros i Hi; unfold transfer_reversal, event_reversal in Hi.
  - by rewrite Ht in Hi.
  - rewrite Hs in Hi. by case_match.
Qed.

Lemma retarget_self r :
  retarget r (adj_AccountID r) (adj_CounterpartyAccountID r) (adj_Amount r) (adj_Fee r) (adj_Direction r) = r.
Proof. by destruct r. Qed.

(** What [CreateAdjustment] makes of a request before it stores it. *)
Definition resolves (r : AdjustmentRequest) : Prop :=
  ∃ x, runs (Pg.resolve_adjustment r) d o x d o ∧
    MemoryStore.CreateAdjustment r m =
      (x, match x with
          | Ok r' => set_adjustments (<[adj_ID r' := r']> (ms_adjustments m)) m
          | Err _ => m
          end) ∧
    ∀ r', x = Ok r' →
      keys_free r' ∧ ∃ acc cp amount fee dir, r' = retarget r acc cp amount fee dir.

Lemma resolves_manual r :
  adj_Type r = AdjustmentManual → adj_OriginalTransferID r = "" → adj_OriginalEventSequence r = None →
  resolves r.
Proof.
  intros Hm Ht Hs. unfold resolves, Pg.resolve_adjustment, MemoryStore.CreateAdjustment.
  rewrite bool_decide_eq_true_2 by done. pose proof (runs_Load objects no_fault m d o rep (adj_AccountID r)) as Hload.
  destruct (seq_of _ =? 0) eqn:Hempty; (eexists; split_and!;
    [eapply runs_try; [exact Hload|]; cbv beta; rewrite Hempty; apply runs_done|done|]); [done|].
  intros r' [= <-]. split; [by apply manual_free|]. do 5 eexists. symmetry. apply retarget_self.
Qed.

Lemma resolves_transfer r :
  adj_Type r ≠ AdjustmentManual → adj_OriginalTransferID r ≠ "" → adj_OriginalEventSequence r = None →
  resolves r.
Proof.
  intros Hm Ht Hs. unfold resolves, Pg.resolve_adjustment, MemoryStore.CreateAdjustment.
  rewrite (bool_decide_eq_false_2 (adj_Type r = _)), (bool_decide_eq_false_2 (adj_OriginalTransferID r = "")) by done.
  cbn [negb]. pose proof (runs_found no_fault (O:=O) ErrTransferNotFound Pg.pg_error
    (λ d, db_transfers d !! adj_OriginalTransferID r) d o) as Hfind.
  cbv beta in Hfind. rewrite (rp_transfers _ _ _ _ rep) in Hfind.
  destruct (ms_transfers m !! adj_OriginalTransferID r) as [t|].
  2: { eexists. split_and!; [eapply runs_bind; [exact Hfind|apply runs_done]|done|done]. }
  destruct (negb (bool_decide (tr_Status t = TransferCompleted))) eqn:Hst.
  { eexists. split_and!; [eapply runs_bind; [exact Hfind|cbv beta iota; rewrite Hst; apply runs_done]|done|done]. }
  assert (transfer_reversed (adj_OriginalTransferID r) d =
    Ok (if range_find (λ a, bool_decide (adj_OriginalTransferID a = adj_OriginalTransferID r) &&
                            negb (bool_decide (adj_Status a = AdjustmentRejected))) (ms_adjustments m)
        is Some _ then true else false, d)) as Hrev.
  { unfold transfer_reversed, query. do 2 f_equal. rewrite (rp_adjustments _ _ _ _ rep).
    apply exists_agrees. intros k a _. by apply transfer_key. }
  destruct (range_find _ _) as [[k a]|] eqn:Hf; eexists; split_and!;
    try (eapply runs_bind; [exact Hfind|]; cbv beta iota; rewrite Hst; eapply runs_try;
      [by apply runs_exec_or|apply runs_done]); try done.
  intros r' [= <-]. split; [|by do 5 eexists]. by apply transfer_free.
Qed.

Lemma resolves_event r :
  adj_Type r ≠ AdjustmentManual → adj_OriginalTransferID r = "" → adj_OriginalAccountID r ≠ "" →
  resolves r.
Proof.
  intros Hm Ht Hacc. unfold resolves, Pg.resolve_adjustment, MemoryStore.CreateAdjustment.
  rewrite (bool_decide_eq_false_2 (adj_Type r = _)), (bool_decide_eq_true_2 (adj_OriginalTransferID r = "")) by done.
  cbn [negb]. cbv zeta.
  pose proof (runs_Load objects no_fault m d o rep (adj_OriginalAccountID r)) as Hload.
  destruct (adj_OriginalEventSequence r) as [seq|] eqn:Hs.
  2: { eexists. split_and!; [eapply runs_try; [exact Hload|apply runs_done]|done|done]. }
  destruct ((seq <? 0) || (seq_of _ <=? seq)) eqn:Hrange.
  { eexists. split_and!; [eapply runs_try; [exact Hload|]; cbv beta; rewrite Hrange; apply runs_done|done|done]. }
  assert (event_reversed (adj_OriginalAccountID r) seq d =
    Ok (if range_find (λ a, bool_decide (adj_OriginalAccountID a = adj_OriginalAccountID r) &&
                            bool_decide (adj_OriginalEventSequence a = Some seq) &&
                            negb (bool_decide (adj_Status a = AdjustmentRejected))) (ms_adjustments m)
        is Some _ then true else false, d)) as Hrev.
  { unfold event_reversed, query. do 2 f_equal. rewrite (rp_adjustments _ _ _ _ rep).
    apply exists_agrees. intros k a _. by apply event_key. }
  destruct (range_find _ _) as [[k a]|] eqn:Hf.
  { eexists. split_and!; [eapply runs_try; [exact Hload|]; cbv beta; rewrite Hrange;
      eapply runs_try; [by apply runs_exec_or|apply runs_done]|done|done]. }
  destruct (_ ≫= reversible_movement) as [[amount dir]|] eqn:Hmv; eexists; split_and!;
    try (eapply runs_try; [exact Hload|]; cbv beta; rewrite Hrange; eapply runs_try; [by apply runs_exec_or|];
      cbv beta iota; rewrite Hmv; apply runs_done); try done.
  intros r' [= <-]. split; [|by do 5 eexists]. by eapply event_free.
Qed.

(** A request whose keys are free is stored as it is. *)
Lemma insert_agrees r :
  ms_adjustments m !! adj_ID r = None → adj_Type r ∈ ["manual"; "reversal"] →
  adj_Status r ∈ ["waiting_for_approval"; "approved"; "rejected"] →
  is_Some (ms_admins m !! adj_CreatedBy r) → adjustment_row r = r → keys_free r →
  insert_adjustment r d = Ok (tt, with_adjustments (<[adj_ID r := r]> (db_adjustment_requests d)) d).
Proof.
  intros Hnew Htype Hst Hmk Hrow [Ht He]. unfold insert_adjustment, write_adjustment, checked_adjustment, refers.
  assert (adj_ReviewedBy r = "") as Hby by by rewrite <-Hrow.
  rewrite Hrow, Ht, He, Hby, (rp_adjustments _ _ _ _ rep), Hnew, (rp_admins _ _ _ _ rep).
  rewrite (bool_decide_eq_false_2 (is_Some None)) by by intros [].
  by rewrite !bool_decide_eq_true_2 by done.
Qed.

Lemma sim_CreateAdjustment r : pg_pre (cCreateAdjustment r) m → simulated (cCreateAdjustment r).
Proof.
  intros [Hnew Htype Hst Hmk Hrow Hman Htr Hev].
  assert (resolves r) as (x & Hrun & Hmem & Hx).
  { destruct (decide (adj_Type r = AdjustmentManual)) as [Hm|Hm]; [by destruct (Hman Hm); apply resolves_manual|].
    destruct (decide (adj_OriginalTransferID r = "")) as [Ht|Ht]; [by apply resolves_event; auto|].
    by apply resolves_transfer; auto. }
  unfold simulated. store_cbv. rewrite Hmem. destruct x as [r'|e].
  - destruct (Hx r' eq_refl) as (Hfree & acc & cp & amount & fee & dir & ->).
    eexists _, _, o. split_and!; [|reflexivity|].
    + eapply runs_try; [exact Hrun|]. eapply runs_try; [apply runs_exec_or; [done|]|apply runs_done].
      apply insert_agrees; try done. rewrite <-Hrow at 2. done.
    + rep_update rep.
  - eexists _, d, o. split_and!; [by apply runs_try_err|done|done].
Qed.
(** ** Review *)

Section Review.
Context (id adm : string) (at_ : Time) (r : AdjustmentRequest).
Hypothesis Hr : ms_adjustments m !! id = Some r.
Hypothesis Hwait : adj_Status r = AdjustmentWaiting.

(** No other request has the keys of a stored one, before or after its review. *)
Lemma own_key {I} (index : AdjustmentRequest → option I) i :
  indexed index (db_adjustment_requests d) → index r = Some i →
  ∀ k a, db_adjustment_requests d !! k = Some a → index a = Some i → adj_ID a = adj_ID r.
Proof.
  intros Hidx Hi k a Ha Hai. pose proof Hr as Hrow. rewrite <-(rp_adjustments _ _ _ _ rep) in Hrow.
  rewrite (ao_key _ _ _ (ok_adjustments _ ok _ _ Ha)), (ao_key _ _ _ (ok_adjustments _ ok _ _ Hrow)).
  by eapply Hidx.
Qed.

Lemma own_key_free {I} `{EqDecision I} (index : AdjustmentRequest → option I) r' :
  indexed index (db_adjustment_requests d) → adj_ID r' = adj_ID r →
  (index r' = None ∨ index r' = index r) →
  index_taken index r' (db_adjustment_requests d) = false.
Proof.
  intros Hidx Hid Hkey. unfold index_taken. destruct (index r') as [i|] eqn:Hi; [|done].
  destruct Hkey as [|Hkey]; [done|]. apply sql_exists_false. intros k a Ha.
  destruct (decide (index a = Some i)) as [Hai|Hai]; [|by rewrite andb_comm, bool_decide_eq_false_2].
  rewrite bool_decide_eq_true_2; [done|]. rewrite Hid. by eapply own_key.
Qed.

Lemma settled_keys status reason :
  let r' := settle r status adm reason at_ in
  (transfer_reversal r' = None ∨ transfer_reversal r' = transfer_reversal r) ∧
  (event_reversal r' = None ∨ event_reversal r' = event_reversal r).
Proof.
  unfold transfer_reversal, event_reversal. simpl. rewrite Hwait.
  rewrite (bool_decide_eq_false_2 (AdjustmentWaiting = "rejected")), !orb_false_r by done.
  destruct (bool_decide (status = "rejected")); rewrite ?orb_true_r, ?orb_false_r; auto.
Qed.

Lemma settle_agrees m' d' status reason :
  represents objects m' d' o → ms_adjustments m' = ms_adjustments m → ms_admins m' = ms_admins m →
  status ∈ ["waiting_for_approval"; "approved"; "rejected"] → is_Some (ms_admins m !! adm) → micro at_ →
  settle_adjustment id status adm reason at_ d' = Ok (tt, with_adjustments
    (<[id := settle r status adm (default (adj_RejectionReason r) reason) at_]> (db_adjustment_requests d')) d').
Proof.
  intros Hrep Hadj Hadms Hst Hadm Hat. unfold settle_adjustment, refers.
  assert (db_adjustment_requests d' = db_adjustment_requests d) as Heq.
  { by rewrite (rp_adjustments _ _ _ _ rep), (rp_adjustments _ _ _ _ Hrep). }
  rewrite Heq, (rp_admins _ _ _ _ Hrep), Hadms, (rp_adjustments _ _ _ _ rep), Hr.
  rewrite (bool_decide_eq_true_2 (is_Some (ms_admins m !! adm))), micro_kept by done.
  set (r' := settle r status adm _ at_). unfold write_adjustment, checked_adjustment, refers.
  destruct (wf_adjustment m id r wf Hr) as [Hid _].
  pose proof Hr as Hrow. rewrite <-(rp_adjustments _ _ _ _ rep) in Hrow.
  destruct (ok_adjustments _ ok _ _ Hrow) as [_ Htype _ Hmk _].
  destruct (settled_keys status (default (adj_RejectionReason r) reason)) as [Ht He].
  rewrite Heq, (own_key_free transfer_reversal r' (ok_transfer_reversals _ ok) eq_refl Ht),
    (own_key_free event_reversal r' (ok_event_reversals _ ok) eq_refl He).
  unfold exists_in in Hmk. rewrite (rp_admins _ _ _ _ rep) in Hmk. simpl.
  rewrite (rp_admins _ _ _ _ Hrep), Hadms, (rp_adjustments _ _ _ _ rep).
  rewrite !(bool_decide_eq_true_2 (_ ∈ _)), (bool_decide_eq_true_2 (is_Some (ms_admins m !! adj_CreatedBy r))),
    (bool_decide_eq_true_2 (is_Some (ms_admins m !! adm))), andb_false_r by done. simpl. by rewrite Hid.
Qed.
End Review.

Lemma evals_review id {A} (k : AdjustmentRequest → tx O A) r res d' :
  ms_adjustments m !! id = Some r → evals (k r) d res d' →
  evals (row ← Pg.tx_exec (select_adjustment id);
         match row with Some r => k r | None => tx_fail ErrAdjustmentNotFound end) d res d'.
Proof.
  intros Hr Hk. eapply evals_bind; [by apply evals_query|]. cbv beta.
  by rewrite (rp_adjustments _ _ _ _ rep), Hr.
Qed.

Lemma sim_RejectAdjustment id adm reason at_ :
  pg_pre (cRejectAdjustment id adm reason at_) m → simulated (cRejectAdjustment id adm reason at_).
Proof.
  intros (Hadm & Hne & Hat). unfold simulated. store_cbv. unfold MemoryStore.RejectAdjustment.
  destruct (ms_adjustments m !! id) as [r|] eqn:Hr.
  2: { eapply (by_fail objects no_fault m d o rep _ _ _ d); [done|done|done|].
       eapply evals_bind; [by apply evals_query|]. cbv beta.
       rewrite (rp_adjustments _ _ _ _ rep), Hr. apply evals_of. }
  destruct (negb (bool_decide (adj_Status r = AdjustmentWaiting))) eqn:Hst.
  { eapply (by_fail objects no_fault m d o rep _ _ _ d); [done|done|done|].
    eapply (evals_review id); [done|]. rewrite Hst. apply evals_of. }
  destruct (bool_decide (adj_CreatedBy r = adm)) eqn:Hself.
  { eapply (by_fail objects no_fault m d o rep _ _ _ d); [done|done|done|].
    eapply (evals_review id); [done|]. rewrite Hst, Hself. apply evals_of. }
  boolify. eapply (by_tx objects no_fault m d o); [done|..].
  - eapply (evals_review id); [done|]. rewrite bool_decide_eq_true_2, bool_decide_eq_false_2 by done. simpl.
    eapply evals_bind; [apply evals_exec; [done|]|apply evals_ret].
    eapply (settle_agrees id adm at_ r); [done..|set_solver|done|done].
  - done.
  - rep_update rep.
Qed.
(** The postings of an approved request. *)
Lemma evals_credit m' d' r at_ account amount cp :
  represents objects m' d' o → event_amount_ok amount → event_time at_ →
  seq_of (stream m' account) ≤ MaxInt64 →
  ∃ d'', evals (Pg.credit r at_ account amount cp : tx O unit) d' (Ok tt) d'' ∧
    represents objects (appendCredit r at_ account amount cp m') d'' o.
Proof.
  intros Hrep [Ha Hne] Ht Hlen. set (ev := EMoneyCredited (mkMoneyCredited account "MoneyCredited"
    (seq_of (stream m' account)) at_ account amount "" (adjustment_purpose r) cp (adj_ID r)
    (adj_Reason r) (adj_CaseReference r) (original_reference r))).
  assert (storable ev) as Hev by (split; simpl; try done; unfold seq_of in *; lia).
  exists (inserted m' ev d'). split; [|exact (appended_represents objects m' d' o ev Hrep Hev)].
  eapply evals_bind; [by eapply evals_load|]. by eapply (evals_insert objects no_fault m' d' o ev).
Qed.

Lemma evals_debit m' d' r at_ account amount cp :
  represents objects m' d' o → event_amount_ok amount → event_time at_ →
  seq_of (stream m' account) ≤ MaxInt64 →
  ∃ d'', evals (Pg.debit r at_ account amount cp : tx O unit) d' (appendDebit r at_ account amount cp m').1 d'' ∧
    ((appendDebit r at_ account amount cp m').1 = Ok tt →
     represents objects (appendDebit r at_ account amount cp m').2 d'' o).
Proof.
  intros Hrep [Ha Hne] Ht Hlen. set (ev := EMoneyDebited (mkMoneyDebited account "MoneyDebited"
    (seq_of (stream m' account)) at_ account amount "" (adjustment_purpose r) cp (adj_ID r)
    (adj_Reason r) (adj_CaseReference r) (original_reference r))).
  assert (storable ev) as Hev by (split; simpl; try done; unfold seq_of in *; lia).
  unfold appendDebit. destruct (acc_AvailableBalance _ <? amount) eqn:Hfunds.
  - exists d'. split; [|done]. eapply evals_bind; [by eapply evals_load|]. cbv zeta.
    rewrite Hfunds. apply evals_of.
  - exists (inserted m' ev d'). split; [|intros _; exact (appended_represents objects m' d' o ev Hrep Hev)].
    eapply evals_bind; [by eapply evals_load|]. cbv zeta. rewrite Hfunds.
    by eapply (evals_insert objects no_fault m' d' o ev).
Qed.

(** What [MemoryStore.ApproveAdjustment] posts. *)
Definition posted_adjustment (r : AdjustmentRequest) (at_ : Time) : go_result unit * MemoryStore :=
  if negb (bool_decide (adj_OriginalTransferID r = "")) then
    match appendDebit r at_ (adj_CounterpartyAccountID r) (adj_Amount r) (adj_AccountID r) m with
    | (Err e, m') => (Err e, m')
    | (Ok _, m') => (Ok tt, appendCredit r at_ (adj_AccountID r) (adj_Amount r +! adj_Fee r)
                              (adj_CounterpartyAccountID r) m')
    end
  else if bool_decide (adj_Direction r = "credit")
  then (Ok tt, appendCredit r at_ (adj_AccountID r) (adj_Amount r) "" m)
  else appendDebit r at_ (adj_AccountID r) (adj_Amount r) "" m.

Lemma appendDebit_short r at_ account amount cp id :
  seq_of (stream (appendDebit r at_ account amount cp m).2 id) ≤ seq_of (stream m id) + 1.
Proof.
  unfold appendDebit. case_match; simpl; [lia|]. rewrite stream_put. unfold seq_of. case_decide; [|lia].
  subst. rewrite length_app. simpl. lia.
Qed.

Lemma evals_adjust r at_ :
  event_amount_ok (adj_Amount r) → event_amount_ok (adj_Amount r +! adj_Fee r) → event_time at_ →
  short_streams m →
  ∃ d'', evals (Pg.adjust r at_ : tx O unit) d (posted_adjustment r at_).1 d'' ∧
    ((posted_adjustment r at_).1 = Ok tt → represents objects (posted_adjustment r at_).2 d'' o).
Proof.
  intros Ha Hsum Ht Hshort. unfold Pg.adjust, posted_adjustment.
  destruct (negb _); [|destruct (bool_decide (adj_Direction r = "credit"))].
  - set (cp := adj_CounterpartyAccountID r). set (acc := adj_AccountID r).
    pose proof (Hshort cp). pose proof (Hshort acc).
    destruct (evals_debit m d r at_ cp (adj_Amount r) acc) as (d1 & Hd1 & Hrep1); [done..|lia|].
    pose proof (appendDebit_short r at_ cp (adj_Amount r) acc acc) as Hlen.
    destruct (appendDebit r at_ cp (adj_Amount r) acc m) as [[[]|e] m1]; simpl in *.
    + destruct (evals_credit m1 d1 r at_ acc (adj_Amount r +! adj_Fee r) cp) as (d2 & Hd2 & Hrep2);
        [by apply Hrep1|done|done|lia|]. exists d2. split; [by eapply evals_bind|done].
    + exists d1. split; [|done]. by eapply evals_bind_err.
  - pose proof (Hshort (adj_AccountID r)).
    destruct (evals_credit m d r at_ (adj_AccountID r) (adj_Amount r) "") as (d1 & Hd1 & Hrep1); [done..|lia|].
    by exists d1.
  - pose proof (Hshort (adj_AccountID r)). apply evals_debit; [done..|lia].
Qed.

Lemma evals_locks l d' : evals (foldr (λ account rest, _ ← Pg.lockAccountTx account; rest) (mret tt) l : tx O unit) d' (Ok tt) d'.
Proof.
  induction l as [|account l IH]; [apply evals_ret|]. simpl. eapply evals_bind; [by apply evals_lock|exact IH].
Qed.

(** No other reversal is approved: the indexes hold the transfer and the event. *)
Lemma evals_already id r :
  ms_adjustments m !! id = Some r → adj_Status r = AdjustmentWaiting →
  (adj_Type r = AdjustmentReversal → adj_OriginalTransferID r = "" → is_Some (adj_OriginalEventSequence r)) →
  evals (Pg.already_approved r : tx O bool) d (Ok false) d.
Proof.
  intros Hr Hwait Hseq.
  assert (∀ I `{EqDecision I} (index : AdjustmentRequest → option I) i,
    indexed index (db_adjustment_requests d) → (index r = Some i ∨ ∀ a, index a ≠ Some i) →
    other_approved (adj_ID r) index i d = Ok (false, d)) as Hother.
  { intros I HI index i Hidx Hi. unfold other_approved, query. rewrite (proj2 (sql_exists_false _ _)); [done|].
    intros k a Ha. destruct (decide (index a = Some i)) as [Hai|Hai].
    - destruct Hi as [Hi|Hi]; [|by destruct (Hi a)].
      by rewrite (bool_decide_eq_true_2 (adj_ID a = adj_ID r)) by by eapply (own_key id).
    - by rewrite (bool_decide_eq_false_2 (index a = Some i)), andb_false_r by done. }
  unfold Pg.already_approved. case_bool_decide as Htype; [|apply evals_ret].
  destruct (decide (adj_OriginalTransferID r = "")) as [Ht|Ht].
  - rewrite (bool_decide_eq_true_2 (adj_OriginalTransferID r = "")) by done. simpl.
    destruct (Hseq Htype Ht) as [seq Hs]. rewrite Hs. apply evals_exec; [done|].
    apply Hother; [by apply ok_event_reversals|].
    destruct (decide (adj_OriginalAccountID r = "")) as [->|Hacc]; [right|left].
    + intros a Ha. unfold event_reversal in Ha. destruct (decide (adj_OriginalAccountID a = "")) as [Hz|Hz].
      * by rewrite bool_decide_eq_true_2 in Ha by done.
      * case_match; [done|]. by destruct (adj_OriginalEventSequence a); simplify_eq/=.
    + unfold event_reversal. by rewrite Hwait, Hs, bool_decide_eq_false_2 by done.
  - rewrite (bool_decide_eq_false_2 (adj_OriginalTransferID r = "")) by done. simpl.
    apply evals_exec; [done|]. apply Hother; [by apply ok_transfer_reversals|]. left.
    unfold transfer_reversal. by rewrite Hwait, bool_decide_eq_false_2 by done.
Qed.

(** A request that is refused is left alone by both stores. *)
Lemma refused_unchanged r at_ e m1 : posted_adjustment r at_ = (Err e, m1) → m1 = m.
Proof.
  unfold posted_adjustment, appendDebit. repeat case_match; intros [=]; simplify_eq/=; done.
Qed.

Lemma evals_approval id adm at_ r res d2 :
  ms_adjustments m !! id = Some r → adj_Status r = AdjustmentWaiting → adj_CreatedBy r ≠ adm →
  approval_ok r →
  evals (_ ← Pg.adjust r at_; _ ← Pg.tx_exec (settle_adjustment id AdjustmentApproved adm None at_);
         mret (Commit tt) : tx O (tx_end unit)) d res d2 →
  evals (Pg.approve_tx id adm at_ : tx O (tx_end unit)) d res d2.
Proof.
  intros Hr Hst Hself [_ _ Hseq] Hev. eapply (evals_review id); [done|].
  rewrite bool_decide_eq_true_2, bool_decide_eq_false_2 by done. simpl.
  eapply evals_bind; [apply evals_locks|]. eapply evals_bind; [by eapply evals_already|exact Hev].
Qed.

Lemma sim_ApproveAdjustment id adm at_ :
  pg_pre (cApproveAdjustment id adm at_) m → simulated (cApproveAdjustment id adm at_).
Proof.
  intros (Hadm & Hne & Hat & Hyear & Hshort & Hok). unfold simulated. store_cbv.
  unfold MemoryStore.ApproveAdjustment.
  destruct (ms_adjustments m !! id) as [r|] eqn:Hr.
  2: { eapply (by_fail objects no_fault m d o rep _ _ _ d); [done|done|done|].
       eapply evals_bind; [by apply evals_query|]. cbv beta.
       rewrite (rp_adjustments _ _ _ _ rep), Hr. apply evals_of. }
  destruct (negb (bool_decide (adj_Status r = AdjustmentWaiting))) eqn:Hst.
  { eapply (by_fail objects no_fault m d o rep _ _ _ d); [done|done|done|].
    eapply (evals_review id); [done|]. rewrite Hst. apply evals_of. }
  destruct (bool_decide (adj_CreatedBy r = adm)) eqn:Hself.
  { eapply (by_fail objects no_fault m d o rep _ _ _ d); [done|done|done|].
    eapply (evals_review id); [done|]. rewrite Hst, Hself. apply evals_of. }
  boolify. pose proof (Hok r eq_refl) as Hap. destruct (wf_adjustment m id r wf Hr) as [_ [Hint _]].
  destruct (evals_adjust r at_) as (d1 & Hadj & Hrep1);
    [split; [done|apply Hap]|split; [auto with int64|apply Hap]|done..|].
  fold (posted_adjustment r at_).
  assert (ms_adjustments (posted_adjustment r at_).2 = ms_adjustments m ∧
          ms_admins (posted_adjustment r at_).2 = ms_admins m) as [Hadj' Hadm'].
  { unfold posted_adjustment, appendDebit, appendCredit. repeat case_match; simplify_eq; done. }
  destruct (posted_adjustment r at_) as [[[]|e] m1] eqn:Hp; simpl in Hadj, Hrep1, Hadj', Hadm'.
  - specialize (Hrep1 eq_refl). eapply (by_tx objects no_fault m d o); [done|..].
    + eapply evals_approval; [done..|]. eapply evals_bind; [exact Hadj|]. eapply evals_bind; [|apply evals_ret].
      apply evals_exec; [done|]. eapply (settle_agrees id adm at_ r Hr Hst m1 d1); [done..|set_solver|done|done].
    + done.
    + rep_update Hrep1.
  - rewrite (refused_unchanged r at_ e m1 Hp).
    eapply (by_fail objects no_fault m d o rep _ _ _ d1); [done|done|done|].
    eapply evals_approval; [done..|]. by eapply evals_bind_err.
Qed.
End Simulation.
