(* ===== verification/ObjectStore.v ===== *)
(** * The object store of passports: internal/objectstore/minio_store.go.

    The client of minio-go is a parameter: its methods on a state [C].
    [MinIOStore] wraps it as the interface [PassportObjectStore] of the PostgreSQL
    store, and what a client keeps of objects is what that store relies on. *)
From S2P Require Export Refines.

(** The methods of [minio.Client] the store calls; [GetObject] is lazy, the errors of
    a missing object come from [Stat], and [io.ReadAll] reads the rest. *)
Record Client (C : Type) := mkClient {
  BucketExists : string → C → go_result bool;
  MakeBucket : string → C → go_result unit * C;
  PutObject : string → string → list ascii → string → C → go_result unit * C;
  GetObject : string → string → C → go_result unit;
  Stat : string → string → C → go_result unit;
  ReadAll : string → string → C → go_result (list ascii);
  RemoveObject : string → string → C → go_result unit * C;
}.
Arguments BucketExists {C}.
Arguments MakeBucket {C}.
Arguments PutObject {C}.
Arguments GetObject {C}.
Arguments Stat {C}.
Arguments ReadAll {C}.
Arguments RemoveObject {C}.

Section MinIO.
Context {C : Type} `{JsonErrors}.

Record MinIOStore := mkMinIOStore { client : Client C; bucket : string }.

(** [connect] is [minio.New]. *)
Definition NewMinIOStore (connect : go_result (Client C)) (bucket : string) (c : C)
    : go_result MinIOStore * C :=
  match connect with
  | Err err => (Err (Errorf "create MinIO client" err), c)
  | Ok client =>
      match BucketExists client bucket c with
      | Err err => (Err (Errorf ("check MinIO bucket " +:+ quoted bucket) err), c)
      | Ok true => (Ok (mkMinIOStore client bucket), c)
      | Ok false =>
          match MakeBucket client bucket c with
          | (Err err, c') => (Err (Errorf ("create MinIO bucket " +:+ quoted bucket) err), c')
          | (Ok _, c') => (Ok (mkMinIOStore client bucket), c')
          end
      end
  end.

Definition Put (s : MinIOStore) (key : string) (body : list ascii) (contentType : string) (c : C)
    : go_result unit * C :=
  match PutObject (client s) (bucket s) key body contentType c with
  | (Err err, c') => (Err (Errorf "upload passport object" err), c')
  | (Ok _, c') => (Ok tt, c')
  end.

Definition Get (s : MinIOStore) (key : string) (c : C) : go_result (list ascii) :=
  match GetObject (client s) (bucket s) key c with
  | Err err => Err (Errorf "get passport object" err)
  | Ok _ =>
      match Stat (client s) (bucket s) key c with
      | Err err => Err (Errorf "stat passport object" err)
      | Ok _ =>
          match ReadAll (client s) (bucket s) key c with
          | Err err => Err (Errorf "read passport object" err)
          | Ok body => Ok body
          end
      end
  end.

Definition Delete (s : MinIOStore) (key : string) (c : C) : go_result unit * C :=
  match RemoveObject (client s) (bucket s) key c with
  | (Err err, c') => (Err (Errorf "delete passport object" err), c')
  | (Ok _, c') => (Ok tt, c')
  end.

Definition passport_objects (s : MinIOStore) : PassportObjectStore C :=
  mkPassportObjectStore C (Put s) (Get s) (Delete s).

(** What the PostgreSQL store relies on, in terms of the client: an object that is
    put in the bucket is read, and other objects stay. *)
Class ClientLaws (cl : Client C) (b : string) := {
  put_object_ok : ∀ key body mime c, (PutObject cl b key body mime c).1 = Ok tt;
  read_put : ∀ key body mime c, let c' := (PutObject cl b key body mime c).2 in
    GetObject cl b key c' = Ok tt ∧ Stat cl b key c' = Ok tt ∧ ReadAll cl b key c' = Ok body;
  read_put_other : ∀ key key' body mime c, let c' := (PutObject cl b key body mime c).2 in
    key' ≠ key → GetObject cl b key' c' = GetObject cl b key' c ∧ Stat cl b key' c' = Stat cl b key' c ∧
                 ReadAll cl b key' c' = ReadAll cl b key' c;
  read_remove_other : ∀ key key' c, let c' := (RemoveObject cl b key c).2 in
    key' ≠ key → GetObject cl b key' c' = GetObject cl b key' c ∧ Stat cl b key' c' = Stat cl b key' c ∧
                 ReadAll cl b key' c' = ReadAll cl b key' c;
}.

Lemma Put_state s key body mime c :
  (Put s key body mime c).2 = (PutObject (client s) (bucket s) key body mime c).2.
Proof. unfold Put. by destruct (PutObject _ _ _ _ _ _) as [[[]|e] c']. Qed.
Lemma Delete_state s key c : (Delete s key c).2 = (RemoveObject (client s) (bucket s) key c).2.
Proof. unfold Delete. by destruct (RemoveObject _ _ _ _) as [[[]|e] c']. Qed.

#[export] Instance passport_objects_laws (s : MinIOStore) :
  ClientLaws (client s) (bucket s) → ObjectLaws (passport_objects s).
Proof.
  intros Hlaws. split; simpl.
  - intros key b mime c. unfold Put. pose proof (put_object_ok key b mime c) as Hok.
    by destruct (PutObject _ _ _ _ _ _) as [r c']; simpl in Hok; subst r.
  - intros key b mime c. rewrite Put_state. unfold Get.
    by destruct (read_put key b mime c) as (-> & -> & ->).
  - intros key key' b mime c Hne. rewrite Put_state. unfold Get.
    by destruct (read_put_other key key' b mime c Hne) as (-> & -> & ->).
  - intros key key' c Hne. rewrite Delete_state. unfold Get.
    by destruct (read_remove_other key key' c Hne) as (-> & -> & ->).
Qed.
End MinIO.
Arguments MinIOStore : clear implicits.
