(* ===== verification/Refinement.v ===== *)
(** * The PostgreSQL store refines the in-memory store: the theorem.

    [store_refined] is the contract of a client that is written against the
    interface: from tables that represent the store, every call whose conditions
    hold is answered alike and leaves tables that represent the new store.  It
    extends to histories of calls, from empty tables. *)
From S2P Require Export RefinesAdjustments PostgresFacts.

Lemma owed_wf {X} (G : GoRuntime) (op : storeE X) m :
  owed op → store_wf m → store_wf (store_call G op m).2.
Proof.
  intros Ho Hwf. destruct op; try (by apply call_wf). simpl. by apply SaveSnapshot_wf.
Qed.

Section Refinement.
Context {O : Type} `{Postgres} `{JsonErrors} (objects : option (PassportObjectStore O)) (G : GoRuntime).
Hypothesis no_fault : ∀ n, sql_fault n = None.
Hypothesis laws : match objects with Some objects' => ObjectLaws objects' | None => True end.

(** The two stores, related: the tables keep their constraints and hold what the
    store holds. *)
Record refined (m : MemoryStore) (sv : Server O) : Prop := {
  rf_represents : represents objects m (sv_db sv) (sv_objects sv);
  rf_constraints : db_ok (sv_db sv);
  rf_wf : store_wf m;
}.

Lemma call_simulated {X} (op : storeE X) m d o :
  represents objects m d o → db_ok d → store_wf m → pg_pre op m → simulated objects G m d o op.
Proof.
  intros rep ok wf Hpre. destruct op;
    eauto using sim_Append, sim_Load, sim_ListAggregates, sim_SaveSnapshot, sim_LoadSnapshot,
      sim_WithdrawAvailable, sim_CreateTransfer, sim_FindTransfer, sim_ListDueTransfers,
      sim_UpdateTransferSaga, sim_ReserveTransferFunds, sim_RecordComplianceDecision,
      sim_PostTransferLedger, sim_CreateCustomerApplication, sim_ListApplications,
      sim_GetApplication, sim_GetPassportImage, sim_ApproveApplication, sim_RejectApplication,
      sim_CreateAdjustment, sim_ListAdjustments, sim_GetAdjustment, sim_ApproveAdjustment,
      sim_RejectAdjustment, sim_FindCustomerByEmail, sim_FindAdminByEmail, sim_UpsertAdmin,
      sim_CreateSession, sim_FindSession, sim_DeleteSession.
  - destruct Hpre. eapply sim_finish; eauto.
  - destruct Hpre. eapply sim_finish; eauto.
Qed.

Lemma run_ok {X} (op : storeE X) (sv : Server O) :
  db_ok (sv_db sv) → db_ok (sv_db (run (Pg.method objects op) sv).2).
Proof.
  assert (∀ A (p : pg O A) sv, pg_keeps db_step p → db_ok (sv_db sv) → db_ok (sv_db (run p sv).2)) as Hrun.
  { intros A p. induction p as [a|Y step k IH]; intros sv'; simpl; [done|]. intros [Hs Hk] Hok.
    destruct (step sv') as [x sv1] eqn:Hst. apply IH; [apply Hk|].
    pose proof (Hs sv' Hok) as [H' _]. by rewrite Hst in H'. }
  apply Hrun. apply method_keeps; [apply _|]. intros B s. apply issued_keeps_db.
Qed.

Lemma store_refined {X} (op : storeE X) m sv :
  refined m sv → pg_pre op m → owed op →
  agree op m (store_call G op m).1 (run (Pg.method objects op) sv).1 ∧
  refined (store_call G op m).2 (run (Pg.method objects op) sv).2.
Proof.
  intros [rep ok wf] Hpre Ho. pose proof (call_simulated op m _ _ rep ok wf Hpre) as Hsim.
  pose proof (owed_wf G op m Ho wf) as Hwf. pose proof (run_ok op sv ok) as Hok.
  unfold simulated in Hsim. destruct (store_call G op m) as [x m'].
  destruct Hsim as (y & d' & o' & Hrun & Hagree & Hrep). destruct sv as [d o n]. simpl in *.
  destruct (Hrun n) as [n' Heq]. rewrite Heq in Hok |- *. simpl in *. split; [done|]. by split.
Qed.

(** ** Histories *)

(** A call, of any answer. *)
Definition some_call : Type := { X : Type & storeE X }.

(** The conditions of each call hold where it is made; the answers agree. *)
Fixpoint allowed_history (calls : list some_call) (m : MemoryStore) : Prop :=
  match calls with
  | [] => True
  | existT X op :: calls' => pg_pre op m ∧ owed op ∧ allowed_history calls' (store_call G op m).2
  end.
Fixpoint answers_agree (calls : list some_call) (m : MemoryStore) (sv : Server O) : Prop :=
  match calls with
  | [] => True
  | existT X op :: calls' =>
      agree op m (store_call G op m).1 (run (Pg.method objects op) sv).1 ∧
      answers_agree calls' (store_call G op m).2 (run (Pg.method objects op) sv).2
  end.

Lemma history_refined calls m sv :
  refined m sv → allowed_history calls m → answers_agree calls m sv.
Proof.
  revert m sv. induction calls as [|[X op] calls IH]; intros m sv Hr; simpl; [done|].
  intros (Hpre & Ho & Hcalls). destruct (store_refined op m sv Hr Hpre Ho). auto.
Qed.

Lemma empty_refined (o : O) n : refined NewMemoryStore (mkServer empty_database o n).
Proof.
  split; [|split; try apply map_Forall_empty; by intros ?|apply empty_store_wf].
  split; simpl; try done.
  - intros id i. constructor.
  - intros id. constructor.
  - intros t. split; [done|]. by intros [].
Qed.

End Refinement.

(** ** A history *)

#[local] Existing Instance reliable.
#[local] Existing Instance sample_errors.

#[export] Instance sample_objects_laws : ObjectLaws sample_objects.
Proof.
  split; simpl; intros.
  - done.
  - by rewrite lookup_insert_eq.
  - by rewrite lookup_insert_ne.
  - by rewrite lookup_delete_ne.
Qed.

Lemma short_streams_check m :
  bool_decide (map_Forall (λ _ events, seq_of events < MaxInt64 - 2) (ms_streams m)) = true → short_streams m.
Proof.
  intros Hs%bool_decide_eq_true_1 id. unfold stream. destruct (ms_streams m !! id) as [events|] eqn:Hid.
  - exact (Hs _ _ Hid).
  - by vm_compute.
Qed.

Definition booked : TransferRecord :=
  mkTransferRecord "trf_1" "acc1" "acc2" "key-1" 1000 50 TransferPending "" 0 0 0 0 SagaCreated "" 0 0 "".
Definition captured : TransferSagaUpdate :=
  mkTransferSagaUpdate SagaCreated SagaReservationCaptured TransferPending "" "" "" 0 0 0 0.

(** Two accounts, an admin, an application and its approval, and a transfer. *)
Definition sample_history : list some_call := [
  existT _ (cAppend (opened "acc1" 10000) 0);
  existT _ (cAppend (opened "acc2" 5000) 0);
  existT _ (cUpsertAdmin (mkAdmin "adm_1" "grace@example.com" "hash"));
  existT _ (cCreateCustomerApplication ada);
  existT _ (cApproveApplication "cus_1" "adm_1" "acc3" 1000);
  existT _ (cCreateTransfer booked);
  existT _ (cReserveTransferFunds booked 2000);
  existT _ (cRecordComplianceDecision "trf_1" "approved" 2000);
  existT _ (cPostTransferLedger booked 3000);
  existT _ (cCaptureTransferReservation booked 3000);
  existT _ (cUpdateTransferSaga "trf_1" captured 4000);
  existT _ (cWithdrawAvailable "acc1" 20000 5000);
  existT _ (cListDueTransfers 6000 10);
  existT _ cListAggregates
].

(** Conditions of a concrete call, made in a concrete store. *)
Ltac concrete_condition :=
  cbn [pg_pre owed call_typed];
  repeat match goal with
    | |- _ ∧ _ => split
    | |- storable _ => split
    | |- int64_ok _ => split
    | |- transfer_ok _ => split
    | |- event_ok _ _ _ => split
    | |- event_amount_ok _ => split
    | |- event_time _ => split
    | |- _ ≤ _ ≤ _ => split
    | |- _ ≤ _ < _ => split
    | |- short_streams _ => apply short_streams_check
    | |- micro ?t => exists (t / 1000)
    | |- is_Some _ => apply (bool_decide_unpack _)
    | |- _ ∈ _ => apply (bool_decide_unpack _)
    | |- columns_keep _ => intros image key; reflexivity
    | |- ∀ k c, ms_customers ?m !! k = Some c → @?P c =>
        apply (bool_decide_unpack (map_Forall (λ _ c, P c) (ms_customers m)))
    | |- ∀ c, _ !! _ = Some c → _ => intros c; vm_compute; by intros [= <-]
    | |- True => exact I
    end;
  try (by vm_compute).

(** The next store, evaluated. *)
Lemma history_step {X} (op : storeE X) calls m m' :
  (store_call reference_runtime op m).2 = m' → pg_pre op m → owed op →
  allowed_history reference_runtime calls m' →
  allowed_history reference_runtime (existT X op :: calls) m.
Proof. by intros <-. Qed.
Ltac history_step :=
  match goal with
  | |- allowed_history _ (existT _ ?op :: ?calls) ?m =>
      let m' := eval vm_compute in (store_call reference_runtime op m).2 in
      apply (history_step op calls m m');
      [vm_compute; reflexivity|concrete_condition|concrete_condition|]
  end.

Lemma sample_allowed : allowed_history reference_runtime sample_history NewMemoryStore.
Proof.
  unfold sample_history.
  repeat history_step. exact I.
Qed.

