(* ===== verification/Programs.v ===== *)
(** * Programs on the PostgreSQL store.

    The services, the handlers and the commands are programs over the interface of
    the stores.  [programs_agree] carries the refinement of the calls to a program:
    where its run on the in-memory store makes calls whose conditions hold, the run
    on the PostgreSQL store returns the same value, publishes the same events, and
    leaves tables that represent the store. *)
From S2P Require Export Refinement Banking.

Section Programs.
Context {O : Type} `{Postgres} `{JsonErrors} (objects : option (PassportObjectStore O)) (E : Env).
Hypothesis no_fault : ∀ n, sql_fault n = None.
Hypothesis laws : match objects with Some objects' => ObjectLaws objects' | None => True end.

#[local] Instance server_store : BankStore (Server O) := Pg.postgres_store objects.

(** The answer [x] of a call leaves the database no choice: a list of at most one
    row, an error, a value. *)
Definition determined {X} (op : storeE X) (m : MemoryStore) (x : X) : Prop := ∀ y, agree op m x y → y = x.

(** The conditions of each call of a run hold where it is made. *)
Fixpoint allowed_run {A} (p : prog A) (w : World MemoryStore) : Prop :=
  match p with
  | Ret _ => True
  | Vis op k =>
      match op with
      | onStore o => pg_pre o (w_store w) ∧ owed o ∧
          determined o (w_store w) (store_call (env_runtime E (w_calls w)) o (w_store w)).1
      | onEnv _ => True
      end ∧ allowed_run (k (call E op w).1) (call E op w).2
  end.

(** The two worlds differ in their stores, which are related. *)
Record same_world (w : World MemoryStore) (v : World (Server O)) : Prop := {
  sw_store : refined objects (w_store w) (w_store v);
  sw_calls : w_calls v = w_calls w;
  sw_bus : w_bus v = w_bus w;
  sw_wake : w_wake v = w_wake w;
}.

Lemma env_call_agrees {X} (op : envE X) w v :
  same_world w v →
  (env_call E op v).1 = (env_call E op w).1 ∧ same_world (env_call E op w).2 (env_call E op v).2.
Proof.
  intros [Hs Hc Hb Hw].
  destruct op; simpl; rewrite ?Hc, ?Hb, ?Hw; repeat case_match; simpl;
    (split; [done|split; simpl; first [done|congruence]]).
Qed.

Lemma call_agrees {X} (op : svcE X) w v :
  same_world w v →
  match op with
  | onStore o => pg_pre o (w_store w) ∧ owed o ∧
      determined o (w_store w) (store_call (env_runtime E (w_calls w)) o (w_store w)).1
  | onEnv _ => True
  end →
  (call E op v).1 = (call E op w).1 ∧ same_world (call E op w).2 (call E op v).2.
Proof.
  intros Hw. destruct op as [X op|X op]; [|intros _; by apply env_call_agrees].
  destruct Hw as [Hs Hc Hb Hk]. intros (Hpre & Ho & Hdet). simpl.
  destruct (store_refined objects (env_runtime E (w_calls w)) no_fault laws op _ _ Hs Hpre Ho) as [Ha Hr].
  apply Hdet in Ha.
  change (store_call (env_runtime E (w_calls v)) op (w_store v))
    with (run (Pg.method objects op) (w_store v)).
  destruct (run (Pg.method objects op) (w_store v)) as [y sv].
  destruct (store_call (env_runtime E (w_calls w)) op (w_store w)) as [x m].
  simpl in *. subst y. split; [done|]. split; simpl; first [done|congruence].
Qed.

Lemma programs_agree {A} (p : prog A) w v :
  same_world w v → allowed_run p w →
  (interp E p v).1 = (interp E p w).1 ∧ same_world (interp E p w).2 (interp E p v).2.
Proof.
  revert w v. induction p as [a|X op k IH]; intros w v Hw; simpl; [done|]. intros [Hop Hk].
  destruct (call_agrees op w v Hw Hop) as [Hx Hw'].
  destruct (call E op v) as [y v'], (call E op w) as [x w']. simpl in *. subst y. by apply IH.
Qed.

(** The worlds of empty stores. *)
Lemma empty_worlds o n calls bus wake :
  same_world (mkWorld NewMemoryStore calls bus wake) (mkWorld (mkServer empty_database o n) calls bus wake).
Proof. split; [apply empty_refined|done..]. Qed.

End Programs.

(** ** A run, call by call *)

(** A call of a run: the method, the store it is made in and its answer. *)
Definition logged : Type := { X : Type & storeE X * MemoryStore * X }%type.
Fixpoint trace {A} (E : Env) (p : prog A) (w : World MemoryStore) : list logged :=
  match p with
  | Ret _ => []
  | Vis op k =>
      match op in svcE X return X → list logged with
      | onStore o => λ x, [existT _ (o, w_store w, x)]
      | onEnv _ => λ _, []
      end (call E op w).1 ++ trace E (k (call E op w).1) (call E op w).2
  end.

Section Trace.
Context `{Postgres}.

Definition call_allowed (c : logged) : Prop :=
  match c with existT X (op, m, x) => pg_pre op m ∧ owed op ∧ determined op m x end.

Lemma trace_allowed {A} (E : Env) (p : prog A) w :
  Forall call_allowed (trace E p w) → allowed_run E p w.
Proof.
  revert w. induction p as [a|X op k IH]; intros w; [done|]. cbn [trace]. intros Hall%Forall_app.
  destruct Hall as [Hop Hk]. split; [|by apply IH]. destruct op as [X op|X op]; [|done].
  apply Forall_cons_1 in Hop as [Hop _]. simpl in Hop. by destruct (store_call _ _ _).
Qed.

(** At most one row is due. *)
Lemma due_determined now limit m r :
  1 ≤ limit → due now m = [r] → determined (cListDueTransfers now limit) m (Ok [r]).
Proof.
  intros Hl Hdue y [_ (l & -> & Hsub & Hlen)]. rewrite Hdue in *. simpl in Hlen.
  rewrite Nat.min_r in Hlen by lia. f_equal.
  by apply Permutation_singleton_r, submseteq_length_Permutation; [|simpl; lia].
Qed.
End Trace.

(** ** A morning at the bank *)

#[local] Existing Instance reliable.
#[local] Existing Instance sample_errors.
#[local] Existing Instance ascii_text.

(** A clock of whole microseconds. *)
Definition micro_env : Env := mkEnv (λ _, reference_runtime) (λ n, 1000 * Z.of_nat n)
  (env_rand sample_env) (env_check sample_env) (env_ctx sample_env) (env_select sample_env).

(** The demo accounts, a deposit, a transfer, the pass of the worker that reserves
    its funds, and the balances. *)
Definition first_hour : prog (go_result (list Money)) :=
  let? _ := seedIfEmpty in
  let? _ := Deposit 2500 "acc2" in
  let? _ := Transfer sample_service (mkTransferCommand 3000 "acc1" "acc2" "rent") in
  let? _ := ProcessDue sample_service in
  let? source := store (cLoad "acc1") in
  let? destination := store (cLoad "acc2") in
  succeed [acc_AvailableBalance (ReplayAccount "acc1" source);
           acc_Balance (ReplayAccount "acc2" destination)].

Definition morning : World MemoryStore := mkWorld NewMemoryStore 1 [] false.

Example first_hour_balances : (interp micro_env first_hour morning).1 = Ok [6950; 7500].
Proof. by vm_compute. Qed.

(** Conditions of a call of a concrete run. *)
Ltac concrete_call :=
  match goal with
  | |- call_allowed ?c => let c' := eval vm_compute in c in change (call_allowed c')
  end;
  split; [concrete_condition|split; [concrete_condition|]];
  lazymatch goal with
  | |- determined (cListDueTransfers _ _) _ _ =>
      apply due_determined; [lia|vm_compute; reflexivity]
  | _ => intros y Hy; exact (eq_sym Hy)
  end.

Definition first_hour_log : list logged := Eval vm_compute in trace micro_env first_hour morning.

Definition no_call : logged := existT _ (cListAggregates, NewMemoryStore, Ok []).

Lemma first_hour_allowed : allowed_run micro_env first_hour morning.
Proof.
  apply trace_allowed.
  assert (trace micro_env first_hour morning = first_hour_log) as -> by (vm_compute; reflexivity).
  apply (Forall_nth_lt _ no_call). change (length first_hour_log) with 12%nat. intros i Hi.
  do 12 (destruct i as [|i]; [clear Hi; concrete_call|]). lia.
Qed.

Definition opening_time : World (Server (gmap string (list ascii))) := mkWorld empty_server 1 [] false.

