(* ===== verification/Commands.v ===== *)
(** * The commands: cmd/server/main.go and cmd/admin/main.go.

    A command is a program that ends with an error where the source calls
    log.Fatal.  [getenv] is os.Getenv; connecting to PostgreSQL and to MinIO are
    parameters.  What main prints, and the goroutine and the HTTP server it starts,
    are the threads of the pools. *)
From S2P Require Export Clients ObjectStore Programs.

Section Commands.
Context `{GoText} `{JsonErrors} (getenv : string → string).

(** log.Fatal and log.Fatalf. *)
Definition Fatal {A} (message : string) : prog (go_result A) := fail (OtherError message).
Definition Fatalf {A} (what : string) (err : error) : prog (go_result A) := fail (Errorf what err).

Definition envOrDefault (name fallback : string) : string :=
  let value := TrimSpace (getenv name) in
  if negb (bool_decide (value = "")) then value else fallback.

(** strconv.Atoi reads what ParseInt reads, at 64 bits. *)
Definition envIntOrDefault (name : string) (fallback : Z) : Z :=
  let value := TrimSpace (getenv name) in
  if bool_decide (value = "") then fallback
  else match ParseInt value with Some parsed => parsed | None => fallback end.

(** ** cmd/server *)

(** The store main opens: its state is empty, or in the database. *)
Inductive OpenedStore (C : Type) :=
| InMemory
| InPostgres (passports : MinIOStore C).
Arguments InMemory {C}.
Arguments InPostgres {C}.

(** [pool] is pgxpool.New, [ping] its Ping, [connect] is minio.New. *)
Definition openStore {C} (pool ping : string → go_result unit)
    (connect : string → string → string → bool → go_result (Client C)) (c : C)
    : go_result (OpenedStore C) * C :=
  let dsn := getenv "DATABASE_URL" in
  if bool_decide (dsn = "") then (Ok InMemory, c)
  else
    match pool dsn with
    | Err err => (Err (Errorf "pgxpool.New" err), c)
    | Ok _ =>
        match ping dsn with
        | Err err => (Err (Errorf "ping postgres" err), c)
        | Ok _ =>
            let endpoint := envOrDefault "MINIO_ENDPOINT" "localhost:9000" in
            let accessKey := envOrDefault "MINIO_ACCESS_KEY" "minioadmin" in
            let secretKey := envOrDefault "MINIO_SECRET_KEY" "minioadmin" in
            let bucket := envOrDefault "MINIO_BUCKET" "odtbank-passports" in
            match NewMinIOStore (connect endpoint accessKey secretKey
                    (bool_decide (getenv "MINIO_USE_SSL" = "true"))) bucket c with
            | (Err err, c') => (Err err, c')
            | (Ok passports, c') => (Ok (InPostgres passports), c')
            end
        end
    end.

(** The admin of the in-memory store. *)
Definition seed_admin : prog (go_result unit) :=
  let email := getenv "ADMIN_EMAIL" in
  let password := getenv "ADMIN_PASSWORD" in
  if negb (Bool.eqb (bool_decide (email = "")) (bool_decide (password = "")))
  then Fatal "ADMIN_EMAIL and ADMIN_PASSWORD must be set together"
  else if negb (bool_decide (email = "")) then
    r ← HashPassword password;
    match r with
    | Err _ => Fatal "invalid ADMIN_PASSWORD"
    | Ok hash =>
        r ← store (cUpsertAdmin (mkAdmin "adm_dev" (ToLower (TrimSpace email)) hash));
        match r with Err err => Fatalf "seed admin" err | Ok _ => succeed tt end
    end
  else succeed tt.

(** What main gives the router. *)
Definition dependencies : Dependencies := {|
  dp_AccountRepository := Some (envIntOrDefault "SNAPSHOT_THRESHOLD" 50);
  dp_TransferService := mkTransferService (CalculateFee ZeroFeePolicy)
    (IsServiceAvailable (mkDefaultTimeService true)) true;
  dp_WithdrawService := true; dp_AuthService := true; dp_ReviewService := true;
  dp_AdjustmentService := true;
  dp_CookieSecure := bool_decide (getenv "COOKIE_SECURE" = "true");
  dp_CORSOrigins := getenv "CORS_ORIGINS" |}.

(** main, from the opened store to the router. *)
Definition start {C} (opened : OpenedStore C) : prog (go_result Dependencies) :=
  r ← seedIfEmpty;
  match r with
  | Err err => Fatalf "seed accounts" err
  | Ok _ =>
      let? _ := match opened with InMemory => seed_admin | InPostgres _ => succeed tt end in
      succeed dependencies
  end.

(** ** cmd/admin *)

(** [pool] is pgxpool.New. *)
Definition admin_main (pool : string → go_result unit) : prog (go_result unit) :=
  let dsn := getenv "DATABASE_URL" in
  let email := ToLower (TrimSpace (getenv "ADMIN_EMAIL")) in
  let password := getenv "ADMIN_PASSWORD" in
  if bool_decide (dsn = "") || bool_decide (email = "") || bool_decide (password = "")
  then Fatal "DATABASE_URL, ADMIN_EMAIL, and ADMIN_PASSWORD are required"
  else
    r ← HashPassword password;
    match r with
    | Err _ => Fatal "ADMIN_PASSWORD must contain 10 to 128 characters"
    | Ok hash =>
        match pool dsn with
        | Err err => fail err
        | Ok _ =>
            let? raw := env (RandRead 16) in
            store (cUpsertAdmin (mkAdmin ("adm_" +:+ EncodeToString raw) email hash))
        end
    end.
End Commands.
Arguments InMemory {C}.
Arguments InPostgres {C}.

(** A password of 10 to 128 bytes is hashed, and the hash verifies it. *)
Lemma HashPassword_ok {St} `{BankStore St} (E : Env) password (w : World St) :
  10 ≤ slen password ≤ 128 → (∀ n k, ∃ bs, env_rand E n k = Ok bs ∧ length bs = k) →
  ∃ hash, interp E (HashPassword password) w =
      (Ok hash, mkWorld (w_store w) (S (w_calls w)) (w_bus w) (w_wake w)) ∧
    verifyPassword hash password = true.
Proof.
  intros Hlen Hrand. unfold HashPassword.
  destruct (Z.ltb_spec (slen password) 10), (Z.ltb_spec 128 (slen password)); try lia. cbn [orb].
  destruct (hashPassword_run E password w) as ([hash|e] & -> & Hver); [by exists hash|].
  destruct Hver as [n Hn]. destruct (Hrand n 16%nat) as (bs & Hbs & _). congruence.
Qed.

(** ** The server on the in-memory store *)

Section Memory.
Context `{GoText} `{JsonErrors} (getenv : string → string) {C : Type}.

Lemma seed_admin_plain : plain (seed_admin getenv).
Proof. unfold seed_admin, HashPassword, hashPassword, Fatal, Fatalf. plain_solve; done. Qed.

Lemma seed_accounts_plain accounts :
  Forall (λ account, int64_ok account.2) accounts → plain (seed_accounts accounts).
Proof.
  induction 1 as [|[id amount] accounts Ha _ IH]; [done|]. cbn [seed_accounts].
  apply calls_only_try; [by repeat split|]. intros events. destruct (seq_of events >? 0); [done|].
  apply calls_only_bind; [by repeat split|]. intros now. apply calls_only_try; [|done].
  split; [|by intros]. split; [|done]. split_and!; [done| |done..]. by constructor.
Qed.

Lemma start_plain : plain (start getenv (InMemory (C:=C))).
Proof.
  unfold start, seedIfEmpty, Fatalf. apply calls_only_bind.
  - apply seed_accounts_plain. repeat constructor; by vm_compute.
  - intros [[]|err]; [|done]. apply calls_only_try; [apply seed_admin_plain|done].
Qed.

(** The demo accounts, opened in an empty store. *)
Definition demo_store (t1 t2 : Time) : MemoryStore :=
  put_stream "acc2" [opening "acc2" 5000 t2] (put_stream "acc1" [opening "acc1" 10000 t1] NewMemoryStore).

Lemma seeded_store (E : Env) n bus wake :
  interp E seedIfEmpty (mkWorld NewMemoryStore n bus wake) =
    (Ok tt, mkWorld (demo_store (env_now E (S n)) (env_now E (S (S (S (S n))))))
      (S (S (S (S (S (S n)))))) bus wake).
Proof.
  reflexivity.
Qed.

(** An admin as the environment names it. *)
Definition environment_admin : Prop :=
  getenv "ADMIN_EMAIL" ≠ "" ∧ 10 ≤ slen (getenv "ADMIN_PASSWORD") ≤ 128.

Lemma seed_admin_run (E : Env) (w : World MemoryStore) :
  environment_admin → (∀ n k, ∃ bs, env_rand E n k = Ok bs ∧ length bs = k) →
  ms_admins (w_store w) = ∅ →
  ∃ hash w', interp E (seed_admin getenv) w = (Ok tt, w') ∧
    verifyPassword hash (getenv "ADMIN_PASSWORD") = true ∧
    w_store w' = set_admins
      (<["adm_dev" := mkAdmin "adm_dev" (ToLower (TrimSpace (getenv "ADMIN_EMAIL"))) hash]> ∅) (w_store w).
Proof.
  intros [Hmail Hlen] Hrand Hnone. unfold seed_admin.
  rewrite (bool_decide_eq_false_2 (getenv "ADMIN_EMAIL" = "")) by done.
  rewrite (bool_decide_eq_false_2 (getenv "ADMIN_PASSWORD" = ""))
    by (intros Heq; rewrite Heq in Hlen; by destruct Hlen).
  cbn [Bool.eqb negb]. rewrite interp_bind.
  destruct (HashPassword_ok E _ w Hlen Hrand) as (hash & -> & Hver).
  simpl. store_cbv. unfold UpsertAdmin. simpl. rewrite Hnone.
  rewrite (proj2 (range_find_None _ ∅)) by done. simpl. by eexists hash, _.
Qed.

(** Nothing main does draws a fresh name. *)
Lemma start_always_allowed : calls_only (always_allowed call_fresh) (start getenv (InMemory (C:=C))).
Proof.
  unfold start, seedIfEmpty, seed_accounts, seed_admin, HashPassword, hashPassword, Fatal, Fatalf.
  plain_solve; done.
Qed.

Lemma start_inv (E : Env) (w : World MemoryStore) :
  bank_inv (w_store w) → bank_inv (w_store (interp E (start getenv (InMemory (C:=C))) w).2).
Proof.
  intros Hinv. pose proof (safe_interp bank_inv evolves call_fresh call_contract E (λ _ _, True) _ w
    start_always_allowed Hinv (plain_safe _ _ start_plain)) as Hs.
  destruct (interp E _ w) as [r w']. by destruct Hs.
Qed.

(** The admin of the environment logs in. *)
Lemma admin_let_in (E : Env) (w : World MemoryStore) email hash :
  bank_inv (w_store w) →
  ms_admins (w_store w) = <["adm_dev" := mkAdmin "adm_dev" (ToLower (TrimSpace email)) hash]> ∅ →
  verifyPassword hash (getenv "ADMIN_PASSWORD") = true →
  (∀ n k, ∃ bs, env_rand E n k = Ok bs ∧ length bs = k) →
  ∃ token p, (interp E (Login email (getenv "ADMIN_PASSWORD")) w).1 = Ok (token, p) ∧
    pr_Role p = "admin" ∧ pr_AdminID p = "adm_dev".
Proof.
  intros Hinv Hadmins Hver Hrand.
  assert (knows_admin (w_store w) (ToLower (TrimSpace email)) (getenv "ADMIN_PASSWORD")
    (mkAdmin "adm_dev" (ToLower (TrimSpace email)) hash)) as Hknown.
  { unfold knows_admin. rewrite Hadmins. split_and!; [by rewrite lookup_insert_eq|done|done]. }
  pose proof (Login_alone E email (getenv "ADMIN_PASSWORD") w Hinv) as Hl.
  destruct (interp E _ w) as [[[token p]|e] w']; simpl in *.
  - destruct Hl as (_ & Hp & _); [by rewrite Hadmins| |].
    { intros k j bs Hbs. destruct (Hrand k j) as (bs' & Hbs' & <-). congruence. }
    destruct Hp as [(a & (Ha & _) & ->)|(c & _ & _ & Hno)]; [|by destruct (Hno _ Hknown)].
    exists token, (admin_principal a). split; [done|]. revert Ha. rewrite Hadmins, lookup_insert_Some.
    intros [[_ <-]|[_ Ha]]; [done|by rewrite lookup_empty in Ha].
  - destruct Hl as (_ & Hl); [by rewrite Hadmins| |].
    { intros k j bs Hbs. destruct (Hrand k j) as (bs' & Hbs' & <-). congruence. }
    destruct Hl as [(_ & Hno & _)|[k Hk]]; [by destruct (Hno _ Hknown)|].
    destruct (Hrand k 32%nat) as (bs & Hbs & _). congruence.
Qed.

(** C24: The server on the in-memory store starts ready for use.  With an admin in the
    environment (an address, and a password of 10 to 128 bytes) main opens the empty
    store, the demo accounts with 100.00 and 50.00, and the admin, and it hands the
    router a store that satisfies the invariant of every other theorem; whoever
    logs in with the admin's password, and the address in any case and with any
    spaces around it, is let in as an admin. *)
Theorem memory_server_ready (E : Env) (pool ping : string → go_result unit)
    (connect : string → string → string → bool → go_result (Client C)) (c : C) (w : World MemoryStore)
    (email : string) :
  getenv "DATABASE_URL" = "" → environment_admin → w_store w = NewMemoryStore →
  (∀ n k, ∃ bs, env_rand E n k = Ok bs ∧ length bs = k) →
  ToLower (TrimSpace email) = ToLower (TrimSpace (getenv "ADMIN_EMAIL")) →
  openStore getenv pool ping connect c = (Ok InMemory, c) ∧
  let '(r, w') := interp E (start getenv (InMemory (C:=C))) w in
  r = Ok (dependencies getenv) ∧ bank_inv (w_store w') ∧
  ReplayAccount "acc1" (stream (w_store w') "acc1") = mkAccount "acc1" 10000 0 10000 ∧
  ReplayAccount "acc2" (stream (w_store w') "acc2") = mkAccount "acc2" 5000 0 5000 ∧
  ∃ token p, (interp E (Login email (getenv "ADMIN_PASSWORD")) w').1 = Ok (token, p) ∧
    pr_Role p = "admin" ∧ pr_AdminID p = "adm_dev".
Proof.
  intros Hdsn Hadmin Hw Hrand Hmail. split; [unfold openStore; by rewrite Hdsn|].
  pose proof (start_inv E w) as Hinv. rewrite Hw in Hinv. specialize (Hinv empty_store_inv).
  destruct w as [m n bus wake]. simpl in Hw. subst m. revert Hinv. unfold start.
  rewrite interp_bind, seeded_store. simpl. unfold try_bind. rewrite interp_bind.
  set (w1 := mkWorld (demo_store _ _) _ bus wake).
  destruct (seed_admin_run E w1 Hadmin Hrand eq_refl) as (hash & w' & -> & Hver & Hst). simpl. intros Hinv.
  split_and!; [done|done|rewrite Hst; by vm_compute..|].
  apply (admin_let_in E w' email hash); [done|by rewrite Hst, Hmail|done|done].
Qed.
End Memory.

(** ** The admin command on the PostgreSQL store *)

Section Admin.
Context {O : Type} `{Postgres} `{JsonErrors} `{GoText} (getenv : string → string).
Hypothesis no_fault : ∀ n, sql_fault n = None.

(** The admin of an address, after an upsert. *)
Lemma upserted a d :
  db_ok d → db_admins d !! adm_ID a = None →
  ∃ b d', upsert_admin a d = Ok (tt, d') ∧
    sql_first (same_admin (adm_Email a)) (db_admins d') = Some b ∧
    adm_PasswordHash b = adm_PasswordHash a.
Proof.
  intros Hok Hnew. unfold upsert_admin.
  assert (∀ k b, same_admin (adm_Email a) b = true → adm_PasswordHash b = adm_PasswordHash a →
    (∀ k' b', k' ≠ k → db_admins d !! k' = Some b' → same_admin (adm_Email a) b' = false) →
    ∃ c, sql_first (same_admin (adm_Email a)) (<[k := b]> (db_admins d)) = Some c ∧
      adm_PasswordHash c = adm_PasswordHash a) as Hfirst.
  { intros k b Hb Hh Hother. destruct (sql_first _ _) as [c|] eqn:Hc.
    - exists c. split; [done|]. apply sql_first_Some in Hc as (k' & Hk' & Hs).
      apply lookup_insert_Some in Hk' as [[_ <-]|[Hne Hk']]; [done|]. rewrite (Hother k' c) in Hs; done.
    - rewrite sql_first_None in Hc. rewrite (Hc k b) in Hb; [done|]. by rewrite lookup_insert_eq. }
  destruct (sql_first (same_admin (adm_Email a)) (db_admins d)) as [old|] eqn:Hold.
  - apply sql_first_Some in Hold as (k & Hk & Hs). pose proof (ok_admins _ Hok _ _ Hk) as Hid. simpl in Hid.
    destruct (Hfirst (adm_ID old) (mkAdmin (adm_ID old) (adm_Email old) (adm_PasswordHash a))) as (c & Hc & Hh);
      [done|done| |by exists c; eexists].
    intros k' b' Hne Hk'. destruct (same_admin (adm_Email a) b') eqn:Hs'; [|done]. destruct Hne. rewrite Hid.
    eapply (ok_admin_emails _ Hok k' k b' old); [done..|reflexivity|].
    unfold admin_index, same_admin in *. boolify. congruence.
  - rewrite sql_first_None in Hold. rewrite Hnew, bool_decide_eq_false_2 by by intros [].
    destruct (Hfirst (adm_ID a) a) as (c & Hc & Hh); [| |by intros; eapply Hold|by exists c; eexists]; [|done].
    unfold same_admin. by rewrite bool_decide_eq_true_2.
Qed.

(** C25: The admin command makes an admin who can log in.  On a database that keeps
    its constraints and does not fail, with the three variables set and a password
    of 10 to 128 bytes, the command succeeds (whether the address has an admin or
    not), the tables keep their constraints, and the admin the login finds by the
    address, trimmed and in lower case, has a hash that verifies the password. *)
Theorem admin_command_ready (E : Env) (pool : string → go_result unit) (w : World (Server O)) :
  let email := ToLower (TrimSpace (getenv "ADMIN_EMAIL")) in
  getenv "DATABASE_URL" ≠ "" → email ≠ "" → 10 ≤ slen (getenv "ADMIN_PASSWORD") ≤ 128 →
  pool (getenv "DATABASE_URL") = Ok tt →
  (∀ n k, ∃ bs, env_rand E n k = Ok bs ∧ length bs = k) →
  (∀ n raw, env_rand E n 16 = Ok raw →
    db_admins (sv_db (w_store w)) !! ("adm_" +:+ EncodeToString raw) = None) →
  db_ok (sv_db (w_store w)) →
  let '(r, w') := interp (H:=Pg.postgres_store None) E (admin_main getenv pool) w in
  r = Ok tt ∧ db_ok (sv_db (w_store w')) ∧
  ∃ a, (run (Pg.FindAdminByEmail email) (w_store w')).1 = Ok a ∧
    verifyPassword (adm_PasswordHash a) (getenv "ADMIN_PASSWORD") = true.
Proof.
  intros email Hdsn Hmail Hlen Hpool Hrand Hfresh Hok. unfold admin_main. fold email.
  rewrite !bool_decide_eq_false_2; [|intros Heq; rewrite Heq in Hlen; by destruct Hlen|done..].
  cbn [orb]. rewrite interp_bind.
  destruct (HashPassword_ok (H:=Pg.postgres_store None) E _ w Hlen Hrand) as (hash & -> & Hver).
  rewrite Hpool. unfold try_bind. rewrite interp_bind. simpl.
  destruct (Hrand (S (w_calls w)) 16%nat) as (raw & Hraw & _). rewrite Hraw.
  set (a := mkAdmin ("adm_" +:+ EncodeToString raw) email hash).
  destruct (upserted a _ Hok (Hfresh _ _ Hraw)) as (b & d' & Hup & Hb & Hhash).
  pose proof (run_ok None (cUpsertAdmin a) (w_store w) Hok) as Hok'.
  destruct w as [[d o n] calls bus wake]. cbn [w_store w_calls w_bus w_wake sv_db] in *.
  destruct (runs_exec_or no_fault Pg.pg_error (upsert_admin a) d o tt d' Hup n) as [n' Hrun].
  change (Pg.method None (cUpsertAdmin a)) with (Pg.exec_or (O:=O) Pg.pg_error (upsert_admin a)) in Hok'.
  rewrite Hrun in Hok'. simpl.
  change (store_call (env_runtime E (S (S calls))) (cUpsertAdmin a) (mkServer d o n))
    with (run (Pg.exec_or Pg.pg_error (upsert_admin a)) (mkServer d o n)).
  rewrite Hrun. split_and!; [done|exact Hok'|]. exists b. simpl in Hhash. rewrite Hhash. split; [|done].
  pose proof (runs_found no_fault ErrInvalidCredentials (Pg.wrap "find admin")
    (λ d, sql_first (same_admin email) (db_admins d)) d' o n') as [n'' Hfind].
  simpl in Hb. rewrite Hb in Hfind. change (Pg.FindAdminByEmail (O:=O) email)
    with (Pg.found (O:=O) ErrInvalidCredentials (Pg.wrap "find admin") (select_admin_by_email email)).
  exact (f_equal fst Hfind).
Qed.
End Admin.

(** ** An environment *)

#[local] Existing Instance ascii_text.
#[local] Existing Instance sample_errors.

Definition sample_getenv (name : string) : string :=
  if bool_decide (name = "ADMIN_EMAIL") then " Grace@Example.com "
  else if bool_decide (name = "ADMIN_PASSWORD") then "correct-horse" else "".

(** The same, with a database. *)
Definition database_getenv (name : string) : string :=
  if bool_decide (name = "DATABASE_URL") then "postgres://localhost/odtbank" else sample_getenv name.

(** The defaults: a snapshot every 50 events, a free transfer. *)
Example sample_dependencies :
  dp_AccountRepository (dependencies sample_getenv) = Some 50 ∧
  ts_feePolicy (dp_TransferService (dependencies sample_getenv)) 1000 = 0 ∧
  envOrDefault sample_getenv "MINIO_BUCKET" "odtbank-passports" = "odtbank-passports".
Proof. by vm_compute. Qed.

Lemma memory_server_ready_witness :
  openStore (C:=unit) sample_getenv (λ _, Ok tt) (λ _, Ok tt) (λ _ _ _ _, Err ErrUnauthorized) tt =
    (Ok InMemory, tt) ∧
  ∃ token p,
    (interp sample_env (Login "GRACE@example.com" "correct-horse")
      (interp sample_env (start (C:=unit) sample_getenv InMemory) (sample_world NewMemoryStore)).2).1 =
      Ok (token, p) ∧
    pr_Role p = "admin" ∧ pr_AdminID p = "adm_dev".
Proof.
  destruct (memory_server_ready (C:=unit) sample_getenv sample_env (λ _, Ok tt) (λ _, Ok tt)
    (λ _ _ _ _, Err ErrUnauthorized) tt (sample_world NewMemoryStore) "GRACE@example.com") as [Hopen H];
    [reflexivity|split; [discriminate|split; vm_compute; discriminate]|reflexivity| |vm_compute; reflexivity|].
  { intros n k. eexists. split; [reflexivity|apply repeat_length]. }
  split; [exact Hopen|]. revert H.
  generalize (interp sample_env (start (C:=unit) sample_getenv InMemory) (sample_world NewMemoryStore)).
  intros [r w'] (_ & _ & _ & _ & token & p & Hlogin). exists token, p. exact Hlogin.
Defined.

#[local] Existing Instance reliable.

Lemma admin_command_ready_witness :
  ∃ w' : World (Server (gmap string (list ascii))),
    interp (H:=Pg.postgres_store None) sample_env (admin_main database_getenv (λ _, Ok tt)) opening_time =
      (Ok tt, w') ∧
    ∃ a, (run (Pg.FindAdminByEmail "grace@example.com") (w_store w')).1 = Ok a ∧
      verifyPassword (adm_PasswordHash a) "correct-horse" = true.
Proof.
  assert (ToLower (TrimSpace (database_getenv "ADMIN_EMAIL")) = "grace@example.com") as Hmail
    by (vm_compute; reflexivity).
  pose proof (admin_command_ready (O:=gmap string (list ascii)) database_getenv (λ _, eq_refl)
    sample_env (λ _, Ok tt) opening_time) as H. cbv zeta in H. rewrite Hmail in H. revert H.
  generalize (interp (H:=Pg.postgres_store None) sample_env
    (admin_main database_getenv (λ _, Ok tt)) opening_time).
  intros [r w'] H. exists w'.
  destruct H as (-> & _ & Ha); [discriminate|discriminate|split; vm_compute; discriminate|reflexivity| | | |].
  - intros n k. eexists. split; [reflexivity|apply repeat_length].
  - intros n raw _. reflexivity.
  - apply empty_ok.
  - split; [reflexivity|exact Ha].
Defined.
